(** * WebGLGrid: a shallow embedding of the tiled image-grid renderer

    Source files embedded here:
    - [src/components/WebGLGrid/WebGLGrid.ts] (class [WebGLGrid], its texture
      objects and grid items, and the colour computed by its fragment
      shader);
    - the view controller [ArchiveView] that owns one [WebGLGrid];
    - [src/utils/loadingCoordinator.ts] (class [LoadingCoordinator]), which
      the page uses to hold the grid's intro back until the preloader is
      over.

    Conventions of the embedding.
    - A JavaScript [number] is an exact rational ([Q]); [Math.round],
      [Math.ceil], [Math.floor], [Math.min], [Math.max] are the exact
      functions.  Binary floating-point rounding is not modelled.
    - Objects shared by reference (texture objects held both by the renderer
      and by the grid items) live in the renderer's arrays and are referred
      to by their index.
    - Effects on the outside world (WebGL calls, image requests, animation
      library calls, timers, listeners) are appended to a trace carried by
      the state; the sizes handed to [gl.viewport] by [fixCanvasSize()]
      are listed apart, in [viewports]; asynchronous callbacks (image
      [load] events, animation ticks and completions, timer expiry) are
      separate transition functions, fired by the environment in any
      order. *)

From Stdlib Require Import ZArith QArith Qround Qminmax Qabs Lqa Lia.
From Stdlib Require Import List String Ascii Bool Permutation DecimalString.
From coqutil Require Import Datatypes.RecordSetters.
Import ListNotations.
Import RecordSetters.TriangleBracketNotations.

Open Scope Q_scope.

(* ================================================================= *)
(** ** JavaScript numbers and strings *)

Module JS.

Definition number := Q.

(** [Math.round]: nearest integer, halves rounded towards +infinity. *)
Definition Math_round (x : number) : Z := Qfloor (x + (1 # 2)).
Definition Math_floor (x : number) : Z := Qfloor x.
Definition Math_ceil (x : number) : Z := Qceiling x.
Definition Math_min (x y : number) : number := Qmin x y.
Definition Math_max (x y : number) : number := Qmax x y.

Definition leb (x y : number) : bool := Qle_bool x y.
Definition ltb (x y : number) : bool := negb (Qle_bool y x).
Definition geb (x y : number) : bool := leb y x.
Definition gtb (x y : number) : bool := ltb y x.

(** An integer interpolated in a template literal: decimal digits with a
    leading minus sign for negatives. *)
Definition toString (n : Z) : string := NilZero.string_of_int (Z.to_int n).

(** [arr[i]] for an index that may be out of range. *)
Definition index {A} (arr : list A) (i : nat) : option A := nth_error arr i.

(** [arr.find(p)]: here the position of the first match, which stands for
    the reference to the object found. *)
Fixpoint findIndex {A} (p : A -> bool) (arr : list A) : option nat :=
  match arr with
  | [] => None
  | a :: rest => if p a then Some O else option_map S (findIndex p rest)
  end.

(** [arr.includes(s)] on an array of strings. *)
Definition includes (arr : list string) (s : string) : bool :=
  existsb (String.eqb s) arr.

(** [arr[i] = v] for [i] in range. *)
Fixpoint assign {A} (arr : list A) (i : nat) (v : A) : list A :=
  match arr, i with
  | [], _ => []
  | _ :: rest, O => v :: rest
  | a :: rest, S i' => a :: assign rest i' v
  end.

(** [[arr[i], arr[j]] = [arr[j], arr[i]]] for [i], [j] in range. *)
Definition swap {A} (arr : list A) (i j : nat) : list A :=
  match index arr i, index arr j with
  | Some ai, Some aj => assign (assign arr i aj) j ai
  | _, _ => arr
  end.

End JS.

(* ================================================================= *)
(** ** Colours: [hexToRgb] *)

Module Color.

Record rgb := { r : Z; g : Z; b : Z }.

(** One character of the class [[a-f\d]] under the [i] flag. *)
Definition hexDigit (c : ascii) : option Z :=
  let n := Z.of_nat (nat_of_ascii c) in
  if ((48 <=? n) && (n <=? 57))%Z then Some (n - 48)%Z
  else if ((97 <=? n) && (n <=? 102))%Z then Some (n - 87)%Z
  else if ((65 <=? n) && (n <=? 70))%Z then Some (n - 55)%Z
  else None.

(** [parseInt(xy, 16)] on a two-character group. *)
Definition hexPair (x y : ascii) : option Z :=
  match hexDigit x, hexDigit y with
  | Some hi, Some lo => Some (16 * hi + lo)%Z
  | _, _ => None
  end.

(** The six characters that must follow the optional [#]. *)
Definition sixDigits (s : string) : option rgb :=
  match s with
  | String r1 (String r2 (String g1 (String g2 (String b1 (String b2 EmptyString))))) =>
      match hexPair r1 r2, hexPair g1 g2, hexPair b1 b2 with
      | Some rr, Some gg, Some bb => Some {| r := rr; g := gg; b := bb |}
      | _, _, _ => None
      end
  | _ => None
  end.

(** The match of [/^#?([a-f\d]{2})([a-f\d]{2})([a-f\d]{2})$/i]. *)
Definition exec (hex : string) : option rgb :=
  match hex with
  | String "#"%char rest => sixDigits rest
  | _ => sixDigits hex
  end.

Definition hexToRgb (hex : string) : rgb :=
  match exec hex with
  | Some c => c
  | None => {| r := 0; g := 0; b := 0 |}
  end.

End Color.

(* ================================================================= *)
(** ** The outside world: WebGL objects, image requests, animations *)

Module GL.
(** A WebGL object (texture, buffer, program) is known by its handle. *)
Definition handle := nat.
End GL.

Inductive Effect : Type :=
| GlCreateTexture (h : GL.handle)
| GlTexImagePixel (h : GL.handle) (rgba : list Z)   (* texImage2D, 1x1 RGBA bytes *)
| GlTexImageFromImage (h : option GL.handle) (src : string)
| GlDeleteTexture (h : GL.handle)
| GlCreateBuffer (h : GL.handle)
| GlDeleteBuffer (h : GL.handle)
| GlCreateProgram (h : GL.handle)
| GlDeleteProgram (h : GL.handle)
| GlDrawArrays (sd : option GL.handle)
| GlLoseContext
| ImageRequest (src : string)        (* new Image(); img.src = src *)
| GsapTimeline (id : nat)            (* new gsap.timeline(...) *)
| GsapTween (id : nat)               (* gsap.to(...) *)
| GsapKill (id : nat)
| BindEvents
| UnbindEvents
| ObserverDisconnect
| RemoveResizeListener
| CancelAnimationFrame
| ClearTimeout
| DomRemove (what : string)
| IntroMostlyDone.

(** The closure a texture object stores in [callbackLoaded]. *)
Inductive LoadCallback :=
| CallSDLoaded      (* () => this.onTextureSDLoaded() *)
| CallHDLoaded.     (* () => this.onTextureHDLoaded(), which does nothing *)

Record World := {
  nextHandle : GL.handle;     (* next fresh WebGL object *)
  nextAnim : nat;             (* next fresh animation id *)
  trace : list Effect;
  requests : list (string * LoadCallback);
    (* Image elements still loading: their [src] and the callback their
       [load] listener will run *)
}.

Definition emit (e : list Effect) (w : World) : World :=
  w <| trace ::= fun t => t ++ e |>.

Definition freshHandle (w : World) : GL.handle * World :=
  (nextHandle w, w <| nextHandle ::= S |>).

Definition freshAnim (w : World) : nat * World :=
  (nextAnim w, w <| nextAnim ::= S |>).

(* ================================================================= *)
(** ** Texture objects: [createImageTexture] *)

Module Texture.

Record t := {
  source : string;
  backgroundColor : string;
  opacity : Q;
  width : Q;
  height : Q;
  texture : option GL.handle;
  r : Q;
  g : Q;
  b : Q;
  isInit : bool;
  isLoaded : bool;
  callbackLoaded : LoadCallback;
}.

(** The bytes passed to [texImage2D] by [createTexture]. *)
Definition placeholderPixel : list Z := [0; 0; 255; 255]%Z.

Definition createTexture (this : t) (w : World) : t * World :=
  let (h, w) := freshHandle w in
  let c := Color.hexToRgb (backgroundColor this) in
  let this := this <| r := inject_Z (Color.r c) / 255 |>
                   <| g := inject_Z (Color.g c) / 255 |>
                   <| b := inject_Z (Color.b c) / 255 |> in
  let w := emit [GlCreateTexture h; GlTexImagePixel h placeholderPixel] w in
  (this <| width := 1 |> <| height := 1 |> <| texture := Some h |>, w).

(** [updateTexture(image)], with the decoded image's dimensions. *)
Definition updateTexture (imgW imgH : Q) (this : t) (w : World) : t * World :=
  (this <| width := imgW |> <| height := imgH |> <| isLoaded := true |>,
   emit [GlTexImageFromImage (texture this) (source this)] w).

(** [load()]: returns at once when [isInit]; otherwise creates an [Image]
    and sets its [src].  The [load] listener runs later, see
    [Grid.imageLoaded]. *)
Definition load (this : t) (w : World) : World :=
  if isInit this then w
  else (emit [ImageRequest (source this)] w)
         <| requests ::= fun q => q ++ [(source this, callbackLoaded this)] |>.

Definition destroy (this : t) (w : World) : t * World :=
  match texture this with
  | Some h => (this <| texture := None |>, emit [GlDeleteTexture h] w)
  | None => (this, w)
  end.

Definition createImageTexture (src color : string) (cb : LoadCallback)
    (loadImmediately : bool) (w : World) : t * World :=
  let textureObj :=
    {| source := src; backgroundColor := color; opacity := 0;
       width := 1; height := 1; texture := None;
       r := 0; g := 0; b := 0;
       isInit := false; isLoaded := false; callbackLoaded := cb |} in
  let (textureObj, w) := createTexture textureObj w in
  if loadImmediately then
    let w := load textureObj w in
    (textureObj <| isInit := true |>, w)
  else (textureObj, w).

End Texture.

(* ================================================================= *)
(** ** Grid items: [createGridItem] *)

Module Tile.

Record Bounds := { left : Q; top : Q; right : Q; bottom : Q }.

Record Dimensions := { dimWidth : Q; dimHeight : Q }.

Record Rect := { x1 : Q; y1 : Q; x2 : Q; y2 : Q }.

Record TextureObject := {
  x : Q;
  y : Q;
  displayWidth : Q;
  displayHeight : Q;
  textureHDInfo : GL.handle;
  obj_opacity : Q;
}.

Record t := {
  index : nat;
  source : string;
  textureWidth : Q;
  textureHeight : Q;
  texture : option nat;        (* position in [textures], or undefined *)
  textureHD : option nat;      (* position in [texturesHD], or undefined *)
  isVisible : bool;
  bounds : Bounds;
  sceneDimensions : Dimensions;
  textureObject : TextureObject;
  itemWidth : Q;
  itemHeight : Q;
}.

Definition updateSize (px py w : Q) (this : t) : t :=
  this <| textureObject -> obj_opacity := 1 |>
       <| textureObject -> x := px |>
       <| textureObject -> y := py |>
       <| textureObject -> displayWidth := w |>
       <| textureObject -> displayHeight :=
            inject_Z (JS.Math_round (w * textureHeight this / textureWidth this)) |>.

Definition updateBounds (dimensions : Dimensions) (iw ih offsetX offsetY : Q)
    (this : t) : t :=
  this <| bounds := {| left := - offsetX;
                       right := dimWidth dimensions - offsetX;
                       top := - offsetY;
                       bottom := dimHeight dimensions - offsetY |} |>
       <| itemWidth := iw |>
       <| itemHeight := ih |>.

(** One axis of [update]: the position after the delta was added, the two
    bounds of that axis and the period. *)
Definition wrap (p lo hi period : Q) : Q :=
  if JS.leb p lo then
    let offset := lo - p in
    hi - offset - period
  else if JS.geb p hi then
    let offset := hi - p in
    lo - offset + period
  else p.

Definition update (dx dy : Q) (this : t) : t :=
  let this := this <| textureObject -> x ::= fun v => v + dx |>
                   <| textureObject -> y ::= fun v => v + dy |> in
  let bx := bounds this in
  let this := this <| textureObject -> x ::= fun v =>
                        wrap v (left bx) (right bx) (itemWidth this) |> in
  this <| textureObject -> y ::= fun v =>
            wrap v (top bx) (bottom bx) (itemHeight this) |>.

Definition overlaps (rectA rectB : Rect) : bool :=
  negb (JS.geb (x1 rectA) (x2 rectB) || JS.geb (x1 rectB) (x2 rectA)
        || JS.geb (y1 rectA) (y2 rectB) || JS.geb (y1 rectB) (y2 rectA)).

Definition viewport (this : t) : Rect :=
  {| x1 := 0; y1 := 0;
     x2 := dimWidth (sceneDimensions this);
     y2 := dimHeight (sceneDimensions this) |}.

Definition screenRect (this : t) : Rect :=
  let obj := textureObject this in
  {| x1 := x obj; y1 := y obj;
     x2 := x obj + displayWidth obj; y2 := y obj + displayHeight obj |}.

Definition setWindow (dimensions : Dimensions) (this : t) : t :=
  this <| sceneDimensions := dimensions |>.

End Tile.

(* ================================================================= *)
(** ** Completion of a method body: normal return or a thrown error *)

(** A method that throws leaves the object as mutated up to the throw;
    [Threw] carries that state. *)
Inductive outcome (A : Type) : Type :=
| Ok (a : A)
| Threw (a : A).
Arguments Ok {A} a.
Arguments Threw {A} a.

Definition bind {A} (o : outcome A) (k : A -> outcome A) : outcome A :=
  match o with
  | Ok a => k a
  | Threw a => Threw a
  end.

Notation "x <- o ;; k" := (bind o (fun x => k))
  (at level 61, o at next level, right associativity).

(** [try { ... } catch (e) {}]: the state, however the body completed. *)
Definition settle {A} (o : outcome A) : A :=
  match o with
  | Ok a => a
  | Threw a => a
  end.

Definition completed {A} (o : outcome A) : bool :=
  match o with
  | Ok _ => true
  | Threw _ => false
  end.

(* ================================================================= *)
(** ** Image descriptors and the browser environment *)

(** [image.file.url], [image.file.details.image.{width,height}],
    [image.file.color]. *)
Record Image := {
  url : string;
  naturalWidth : Q;
  naturalHeight : Q;
  color : string;
}.

(** What the renderer reads from the browser. *)
Record Env := {
  innerWidth : Q;               (* window.innerWidth *)
  innerHeight : Q;              (* window.innerHeight *)
  devicePixelRatio : Q;         (* window.devicePixelRatio, 0 when absent *)
  canvasWidth : Q;              (* canvas.width after sizing *)
  canvasHeight : Q;             (* canvas.height after sizing *)
  avifDecodes : bool;           (* the embedded AVIF sample loads *)
  hasResizeObserver : bool;     (* 'ResizeObserver' in window *)
  random : nat -> Q;            (* successive results of Math.random() *)
}.

(** Animations registered with the animation library and still running. *)
Inductive Animation : Type :=
| IntroTimeline (called : bool) (gapH gapV zoomFrom gray : Q)
| ZoomTween (zoomFrom zoomTo : Q)
| TextureFade (sd : nat) (from : Q).

(** Callbacks waiting in [setTimeout]. *)
Inductive Timer : Type :=
| TeardownGPU        (* the 800 ms callback of [destroy] *)
| LoseContext.       (* the 200 ms callback scheduled by the former *)

(** [x || 1] on numbers. *)
Definition orOne (x : Q) : Q := if Qeq_bool x 0 then 1 else x.

(** [randomizeArray]: the loop from [i] down to 1; [k] counts the calls of
    [Math.random()] made so far. *)
Fixpoint shuffleLoop {A} (rand : nat -> Q) (k i : nat) (array : list A)
  : list A * nat :=
  match i with
  | O => (array, k)
  | S i' =>
      let j := Z.to_nat (JS.Math_floor (rand k * inject_Z (Z.of_nat i + 1))) in
      shuffleLoop rand (S k) i' (JS.swap array i j)
  end.

Definition randomizeArray {A} (rand : nat -> Q) (k : nat) (arr : list A)
  : list A * nat :=
  shuffleLoop rand k (List.length arr - 1) arr.

(* ================================================================= *)
(** ** The renderer: class [WebGLGrid] *)

Module Grid.

Record Vec := { vx : Q; vy : Q }.

Record t := {
  images : list Image;
  textures : list Texture.t;
  texturesHD : list Texture.t;
  imagesGL : list Tile.t;
  program : option GL.handle;
  positionBuffer : option GL.handle;
  texcoordBuffer : option GL.handle;
  COLUMN_ITEM_LENGTH : nat;
  ROW_ITEM_LENGTH : nat;
  HORIZONTAL_GAP : Q;
  VERTICAL_GAP : Q;
  ITEM_WIDTH : Q;
  ITEM_HEIGHT : Q;
  ORIGINAL_HORIZONTAL_GAP : Q;
  ORIGINAL_VERTICAL_GAP : Q;
  ORIGINAL_ITEM_WIDTH : Q;
  ORIGINAL_ITEM_HEIGHT : Q;
  isInit : bool;
  isDestroyed : bool;
  isIntroShown : bool;
  pixelRatio : Q;
  windowSize : Tile.Dimensions;
  mouse : Vec;
  lerpedMouse : Vec;
  prevLerpedMouse : Vec;
  scroll : Vec;
  lerpedScroll : Vec;
  prevLerpedScroll : Vec;
  velocity : Vec;
  isDragging : bool;
  currentZoom : Q;
  grayscale : Q;
  TLIntro : option nat;          (* id of the timeline last created *)
  anchorLeft : Q;
  anchorCenterLeft : Q;
  anchorTop : Q;
  anchorCenterTop : Q;
  centerCameraOffsetX : Q;
  centerCameraOffsetY : Q;
  fileFormat : string;
  resizeObserver : bool;         (* a ResizeObserver is attached *)
  indexTextureSD : nat;
  isMobile : bool;
  delayIntroAnimation : bool;
  texturesLoaded : bool;
  drawnPositions : list (Z * Z);
  viewports : list (Q * Q);      (* sizes given to gl.viewport, latest last *)
  (* the environment and what is pending in it *)
  env : Env;
  world : World;
  randomCalls : nat;                         (* Math.random() calls so far *)
  animations : list (nat * Animation);
  timers : list Timer;
}.

Definition zeroVec : Vec := {| vx := 0; vy := 0 |}.

(** The constructor, up to the first [await] of [init()]. *)
Definition constructor (e : Env) (originalImages : list Image)
    (mobile delayIntro : bool) : t :=
  let columns :=
    if mobile then Nat.min (if JS.ltb (innerWidth e) 480 then 39 else 49) 49
    else 79%nat in
  let rows :=
    if mobile then Nat.min (if JS.ltb (innerWidth e) 480 then 15 else 20) 20
    else 30%nat in
  let ratio :=
    if mobile then JS.Math_min (orOne (devicePixelRatio e)) 2
    else orOne (devicePixelRatio e) in
  let (shuffledImages, k1) := randomizeArray (random e) 0%nat originalImages in
  let (reshuffled, k2) := randomizeArray (random e) k1 shuffledImages in
  {| images := shuffledImages ++ reshuffled;
     textures := []; texturesHD := []; imagesGL := [];
     program := None; positionBuffer := None; texcoordBuffer := None;
     COLUMN_ITEM_LENGTH := columns;
     ROW_ITEM_LENGTH := rows;
     HORIZONTAL_GAP := 10 * ratio;
     VERTICAL_GAP := 10 * ratio;
     ITEM_WIDTH := 90 * ratio;
     ITEM_HEIGHT := 140 * ratio;
     ORIGINAL_HORIZONTAL_GAP := 10 * ratio;
     ORIGINAL_VERTICAL_GAP := 10 * ratio;
     ORIGINAL_ITEM_WIDTH := 90 * ratio;
     ORIGINAL_ITEM_HEIGHT := 140 * ratio;
     isInit := false; isDestroyed := false; isIntroShown := false;
     pixelRatio := ratio;
     windowSize := {| Tile.dimWidth := canvasWidth e;
                      Tile.dimHeight := canvasHeight e |};
     mouse := zeroVec; lerpedMouse := zeroVec; prevLerpedMouse := zeroVec;
     scroll := zeroVec; lerpedScroll := zeroVec; prevLerpedScroll := zeroVec;
     velocity := zeroVec; isDragging := false;
     currentZoom := 1;
     grayscale := 1;
     TLIntro := None;
     anchorLeft := 0; anchorCenterLeft := 0;
     anchorTop := 0; anchorCenterTop := 0;
     centerCameraOffsetX := 0; centerCameraOffsetY := 0;
     fileFormat := "avif";
     resizeObserver := hasResizeObserver e;
     indexTextureSD := 0%nat;
     isMobile := mobile;
     delayIntroAnimation := delayIntro;
     texturesLoaded := false;
     drawnPositions := [];
     viewports := [(canvasWidth e, canvasHeight e)];   (* fixCanvasSize() *)
     env := e;
     world := {| nextHandle := 0%nat; nextAnim := 0%nat; trace := [];
                requests := [] |};
     randomCalls := k2;
     animations := [];
     timers := [] |}.

Definition lerp (start end_ s : Q) : Q :=
  if JS.leb (Qabs (end_ - start)) 0.001 then end_
  else start * (1 - s) + end_ * s.

Definition isMobileViewport (this : t) : bool :=
  JS.leb (innerWidth (env this)) 960.

(** [getImageSource(image, isHD)]. *)
Definition getImageSource (this : t) (image : Image) (isHD : bool) : string :=
  let format := fileFormat this in
  let size : Q :=
    if isHD then (if isMobile this then 800 else 1600)
    else if isMobile this then 400 else 800 in
  let quality : Z :=
    (if isHD then (if isMobile this then 65 else 80)
     else if isMobile this then 55 else 70)%Z in
  let requestedSize := JS.Math_min (size * pixelRatio this) (naturalHeight image) in
  (url image ++ "?h=" ++ JS.toString (JS.Math_ceil requestedSize)
     ++ "&fm=" ++ format ++ "&q=" ++ JS.toString quality ++ "&fit=fill")%string.

Definition needHDTexture (this : t) (image : Image) : bool :=
  if isMobile this then
    let standardSize := 500 * pixelRatio this in
    JS.gtb (naturalHeight image) (standardSize * 1.5)
  else
    let hdSize := (if isMobileViewport this then 1000 else 1600) * pixelRatio this in
    let buffer := 400 * pixelRatio this in
    JS.geb (naturalHeight image + buffer) hdSize.


(** [index % n === 0]; the remainder by zero is NaN, which is not 0. *)
Definition remIsZero (index n : nat) : bool :=
  match n with
  | O => false
  | _ => Nat.eqb (index mod n) 0
  end.

(** The loop shared by [setSizeItemsDefault] and [applyZoom]: items are
    placed row by row from [(x0, y0)]. *)
Fixpoint placeItems (this : t) (x0 y0 : Q) (items : list Tile.t)
    (index : nat) (row : Z) (x y : Q) : list Tile.t :=
  match items with
  | [] => []
  | item :: rest =>
      let '(row, x, y) :=
        if remIsZero index (COLUMN_ITEM_LENGTH this)
        then ((row + 1)%Z, x0,
              y0 + inject_Z (row + 1) * (ITEM_HEIGHT this + VERTICAL_GAP this))
        else (row, x, y) in
      Tile.updateSize x y (ITEM_WIDTH this) item
        :: placeItems this x0 y0 rest (S index) row
             (x + (ITEM_WIDTH this + HORIZONTAL_GAP this)) y
  end.

(** The running minimum and maximum of [getTotalDimensionsItems]; the
    minimum starts undefined, the maximum at 0. *)
Definition stepMin (m : option Q) (v : Q) : option Q :=
  match m with
  | None => Some v
  | Some lo => if JS.leb v lo then Some v else Some lo
  end.

Definition stepMax (m v : Q) : Q := if JS.geb v m then v else m.

Definition minOf (f : Tile.t -> Q) (items : list Tile.t) : option Q :=
  fold_left (fun m item => stepMin m (f item)) items None.

Definition maxOf (f : Tile.t -> Q) (items : list Tile.t) : Q :=
  fold_left (fun m item => stepMax m (f item)) items 0.

Definition tileX (item : Tile.t) : Q := Tile.x (Tile.textureObject item).
Definition tileY (item : Tile.t) : Q := Tile.y (Tile.textureObject item).

(** [getTotalDimensionsItems]; with no item the source computes NaN, for
    which this model has no value: [None]. *)
Definition getTotalDimensionsItems (this : t) : option Tile.Dimensions :=
  match minOf tileX (imagesGL this), minOf tileY (imagesGL this) with
  | Some minX, Some minY =>
      Some {| Tile.dimWidth :=
                maxOf tileX (imagesGL this) - minX
                + ITEM_WIDTH this + HORIZONTAL_GAP this;
              Tile.dimHeight :=
                maxOf tileY (imagesGL this) - minY
                + ITEM_HEIGHT this + VERTICAL_GAP this |}
  | _, _ => None
  end.

(** The tail common to [setSizeItemsDefault], [applyZoom] and [setWindow]:
    the camera offsets from the total dimensions, and every item's bounds;
    [shift] says whether the items are moved by the offsets as well. *)
Definition recenter (shift : bool) (dimensions : Tile.Dimensions) (this : t) : t :=
  let offX := (Tile.dimWidth dimensions - HORIZONTAL_GAP this
               - Tile.dimWidth (windowSize this)) / 2 in
  let offY := (Tile.dimHeight dimensions - VERTICAL_GAP this
               - Tile.dimHeight (windowSize this)) / 2 in
  let this := this <| centerCameraOffsetX := offX |>
                   <| centerCameraOffsetY := offY |> in
  this <| imagesGL ::= map (fun item =>
            let item :=
              if shift then
                item <| Tile.textureObject -> Tile.x ::= fun v => v - offX |>
                     <| Tile.textureObject -> Tile.y ::= fun v => v - offY |>
              else item in
            Tile.updateBounds dimensions
              (ITEM_WIDTH this + HORIZONTAL_GAP this)
              (ITEM_HEIGHT this + VERTICAL_GAP this) offX offY item) |>.

Definition setSizeItemsDefault (this : t) : outcome t :=
  let this := this <| imagesGL ::= fun items =>
                placeItems this 0 0 items 0 (-1) 0 0 |> in
  match getTotalDimensionsItems this, imagesGL this with
  | Some dimensions, _ :: _ =>
      let this := recenter true dimensions this in
      match imagesGL this with
      | first :: _ =>
          Ok (this <| anchorLeft := tileX first |>
                   <| anchorCenterLeft := Tile.dimWidth (windowSize this) / 32 |>
                   <| anchorTop := tileY first |>
                   <| anchorCenterTop := Tile.dimHeight (windowSize this) / 32 |>)
      | [] => Threw this
      end
  | _, _ => Threw this      (* imagesGL[0] is undefined *)
  end.

Definition applyZoom (newZoom : Q) (this : t) : outcome t :=
  let zoomRatio := newZoom / currentZoom this in
  let this := this <| currentZoom := newZoom |> in
  let this := this
    <| HORIZONTAL_GAP := ORIGINAL_HORIZONTAL_GAP this * currentZoom this |>
    <| VERTICAL_GAP := ORIGINAL_VERTICAL_GAP this * currentZoom this |>
    <| ITEM_WIDTH := ORIGINAL_ITEM_WIDTH this * currentZoom this |>
    <| ITEM_HEIGHT := ORIGINAL_ITEM_HEIGHT this * currentZoom this |> in
  match imagesGL this with
  | [] => Threw this        (* imagesGL[0] is undefined *)
  | first :: _ =>
      let anchorX := (tileX first - anchorLeft this) * zoomRatio
                     + anchorCenterLeft this * zoomRatio in
      let anchorY := (tileY first - anchorTop this) * zoomRatio
                     + anchorCenterTop this * zoomRatio in
      let this := this <| imagesGL ::= fun items =>
                    placeItems this anchorX anchorY items 0 (-1) 0 0 |> in
      match getTotalDimensionsItems this with
      | None => Threw this
      | Some dimensions =>
          let this := recenter true dimensions this in
          match imagesGL this with
          | [] => Threw this
          | first :: _ =>
              Ok (this <| anchorLeft := tileX first |>
                       <| anchorCenterLeft := anchorX |>
                       <| anchorTop := tileY first |>
                       <| anchorCenterTop := anchorY |>)
          end
      end
  end.

(** One entry of [imageData]. *)
Record ImageInfo := {
  info_source : string;
  info_sourceHD : string;
  textureMediumUrl : string;
  info_width : Q;
  info_height : Q;
  info_backgroundColor : string;
}.

(** [selectedImages]: [images[i % images.length]] for [i < maxImages];
    with no image the index is NaN and the entry undefined. *)
Definition selectedImages (this : t) : list (option Image) :=
  let maxImages := (COLUMN_ITEM_LENGTH this * ROW_ITEM_LENGTH this)%nat in
  map (fun i =>
         match List.length (images this) with
         | O => None
         | n => JS.index (images this) (i mod n)
         end)
      (seq 0 maxImages).

(** The [forEach] that fills [imageData]; reading [img.file] of an
    undefined entry throws. *)
Fixpoint prepareImageData (this : t) (selected : list (option Image))
  : option (list ImageInfo) :=
  match selected with
  | [] => Some []
  | None :: _ => None
  | Some img :: rest =>
      match prepareImageData this rest with
      | None => None
      | Some infos =>
          Some ({| info_source := getImageSource this img false;
                   info_sourceHD := getImageSource this img true;
                   textureMediumUrl := url img;
                   info_width := naturalWidth img;
                   info_height := naturalHeight img;
                   info_backgroundColor := color img |} :: infos)
      end
  end.

(** The two [images.map(...)] that create the texture objects, before the
    [filter]: [hd] selects the second one.  [processedSources] is shared
    by both passes. *)
Fixpoint mapTextures (this : t) (hd : bool) (imgs : list Image)
    (processedSources : list string) (w : World)
  : list (option Texture.t) * list string * World :=
  match imgs with
  | [] => ([], processedSources, w)
  | img :: rest =>
      if hd && negb (needHDTexture this img) then
        let '(r, p, w) := mapTextures this hd rest processedSources w in
        (None :: r, p, w)
      else
        let source := getImageSource this img hd in
        if negb (JS.includes processedSources source) then
          let processedSources := (processedSources ++ [source])%list in
          let (tex, w) :=
            Texture.createImageTexture source (color img)
              (if hd then CallHDLoaded else CallSDLoaded)
              (negb hd) w in
          let '(r, p, w) := mapTextures this hd rest processedSources w in
          (Some tex :: r, p, w)
        else
          let '(r, p, w) := mapTextures this hd rest processedSources w in
          (None :: r, p, w)
  end.

(** [.filter((texture) => texture !== null)]. *)
Fixpoint filterNotNull {A} (l : list (option A)) : list A :=
  match l with
  | [] => []
  | Some a :: rest => a :: filterNotNull rest
  | None :: rest => filterNotNull rest
  end.

Definition sourceIs (s : string) (tex : Texture.t) : bool :=
  String.eqb (Texture.source tex) s.

(** [createGridItem]; [createEmptyTexture()] allocates the item's own 1x1
    texture. *)
Definition createGridItem (this : t) (info : ImageInfo) (idx : nat) : t :=
  let (h, w) := freshHandle (world this) in
  let w := emit [GlCreateTexture h; GlTexImagePixel h [0; 0; 255; 255]%Z] w in
  let item :=
    {| Tile.index := idx;
       Tile.source := info_source info;
       Tile.textureWidth := info_width info;
       Tile.textureHeight := info_height info;
       Tile.texture := JS.findIndex (sourceIs (info_source info)) (textures this);
       Tile.textureHD := JS.findIndex (sourceIs (info_sourceHD info)) (texturesHD this);
       Tile.isVisible := false;
       Tile.bounds := {| Tile.left := 0; Tile.top := 0;
                         Tile.right := 0; Tile.bottom := 0 |};
       Tile.sceneDimensions :=
         {| Tile.dimWidth := innerWidth (env this) * pixelRatio this;
            Tile.dimHeight := innerHeight (env this) * pixelRatio this |};
       Tile.textureObject :=
         {| Tile.x := 0; Tile.y := 0;
            Tile.displayWidth := 1; Tile.displayHeight := 1;
            Tile.textureHDInfo := h; Tile.obj_opacity := 1 |};
       Tile.itemWidth := 0;
       Tile.itemHeight := 0 |} in
  this <| world := w |> <| imagesGL ::= fun items => (items ++ [item])%list |>.

Fixpoint createGridItems (this : t) (infos : list ImageInfo) (i : nat) : t :=
  match infos with
  | [] => this
  | info :: rest => createGridItems (createGridItem this info i) rest (S i)
  end.

(** [fixCanvasSize()]: the canvas is sized, after which [canvas.width]
    and [canvas.height] read [canvasWidth] and [canvasHeight] of the
    environment, and [gl.viewport(0, 0, canvas.width, canvas.height)] is
    called.  No flag of the renderer guards it. *)
Definition fixCanvasSize (this : t) : t :=
  this <| viewports ::= fun l =>
            (l ++ [(canvasWidth (env this), canvasHeight (env this))])%list |>.

(** [main()], for a WebGL context in which the two shaders compile and the
    program links. *)
Definition main (this : t) : outcome t :=
  let this := fixCanvasSize this in
  let (hp, w) := freshHandle (world this) in
  let (hpos, w) := freshHandle w in
  let (htex, w) := freshHandle w in
  let w := emit [GlCreateProgram hp; GlCreateBuffer hpos; GlCreateBuffer htex] w in
  let this := this <| program := Some hp |>
                   <| positionBuffer := Some hpos |>
                   <| texcoordBuffer := Some htex |>
                   <| world := w |> in
  match prepareImageData this (selectedImages this) with
  | None => Threw this
  | Some imageData =>
      let '(sd, processedSources, w) :=
        mapTextures this false (images this) [] (world this) in
      let this := this <| textures := filterNotNull sd |> <| world := w |> in
      let '(hd, _, w) :=
        mapTextures this true (images this) processedSources (world this) in
      let this := this <| texturesHD := filterNotNull hd |> <| world := w |> in
      let this := this <| windowSize :=
                            {| Tile.dimWidth := canvasWidth (env this);
                               Tile.dimHeight := canvasHeight (env this) |} |>
                       <| imagesGL := [] |>
                       <| indexTextureSD := 0%nat |> in
      let this := createGridItems this imageData 0 in
      this <- setSizeItemsDefault this ;;
      applyZoom 0.4 (this <| currentZoom := 0.4 |>)
  end.

(* --------------------------------------------------------------- *)
(** *** Intro sequence and zoom *)

Definition register (id : nat) (a : Animation) (this : t) : t :=
  this <| animations ::= fun l => (l ++ [(id, a)])%list |>.

(** [fadeTextureIn()] on the SD texture at position [i]: one tween, whose
    delay takes one [Math.random()]. *)
Definition fadeTextureIn (i : nat) (tex : Texture.t) (this : t) : t :=
  let (id, w) := freshAnim (world this) in
  let this := this <| world := emit [GsapTween id] w |>
                   <| randomCalls ::= S |> in
  register id (TextureFade i (Texture.opacity tex)) this.

Fixpoint fadeInFrom (i : nat) (texs : list Texture.t) (this : t) : t :=
  match texs with
  | [] => this
  | tex :: rest => fadeInFrom (S i) rest (fadeTextureIn i tex this)
  end.

Definition fadeInAllTextures (this : t) : t :=
  fadeInFrom 0 (textures this) this.

Definition introSequence (this : t) : t :=
  if isIntroShown this then this
  else
    let this := fadeInAllTextures this in
    let (id, w) := freshAnim (world this) in
    let this := this <| world := emit [GsapTimeline id] w |>
                     <| TLIntro := Some id |> in
    register id
      (IntroTimeline false (ORIGINAL_HORIZONTAL_GAP this)
         (ORIGINAL_VERTICAL_GAP this) (currentZoom this) (grayscale this))
      this.

Definition startIntroSequence (this : t) : t :=
  if isIntroShown this then this
  else if negb (texturesLoaded this) then this
  else introSequence this.

Definition onTextureSDLoaded (this : t) : t :=
  let this := this <| indexTextureSD ::= S |> in
  if Nat.eqb (indexTextureSD this) (List.length (textures this)) then
    let this := this <| texturesLoaded := true |> in
    if negb (delayIntroAnimation this) then introSequence this else this
  else this.

(** The value [zoom(action)] animates to. *)
Definition targetZoom (action : string) (current : Q) : Q :=
  let target :=
    if String.eqb action "zoom-in"
    then inject_Z (JS.Math_round (current * 2 * 1000)) / 1000
    else inject_Z (JS.Math_round (current * 0.5 * 1000)) / 1000 in
  JS.Math_max 0.25 target.

Definition zoom (action : string) (this : t) : t :=
  if negb (isIntroShown this) then this
  else
    let target := targetZoom action (currentZoom this) in
    let (id, w) := freshAnim (world this) in
    let this := this <| world := emit [GsapTween id] w |> in
    register id (ZoomTween (currentZoom this) target) this.

Definition bindEvents (this : t) : t :=
  this <| world ::= emit [BindEvents] |>.

(* --------------------------------------------------------------- *)
(** *** Animation ticks *)

(** The animated value at eased progress [p] (0 at the start, 1 at the
    end). *)
Definition mix (from to_ p : Q) : Q := from + (to_ - from) * p.

Definition setOpacity (v : Q) (tex : Texture.t) : Texture.t :=
  tex <| Texture.opacity := v |>.

Fixpoint modifyAt {A} (f : A -> A) (i : nat) (l : list A) : list A :=
  match l, i with
  | [], _ => []
  | a :: rest, O => f a :: rest
  | a :: rest, S i' => a :: modifyAt f i' rest
  end.

(** One rendering of an animation at progress [p]: the animated
    properties are written, then [onUpdate] runs. *)
Definition renderAnimation (a : Animation) (p : Q) (this : t)
  : Animation * outcome t :=
  match a with
  | IntroTimeline called gapH gapV z gray =>
      let this := this
        <| ORIGINAL_HORIZONTAL_GAP := mix gapH (90 * pixelRatio this) p |>
        <| ORIGINAL_VERTICAL_GAP := mix gapV (140 * pixelRatio this) p |>
        <| grayscale := mix gray 0 p |> in
      let this := if called then this
                  else this <| world ::= emit [IntroMostlyDone] |> in
      (IntroTimeline true gapH gapV z gray, applyZoom (mix z 0.9 p) this)
  | ZoomTween from to_ => (a, applyZoom (mix from to_ p) this)
  | TextureFade i from =>
      (a, Ok (this <| textures ::= modifyAt (setOpacity (mix from 1 p)) i |>))
  end.

Fixpoint lookupAnim (id : nat) (l : list (nat * Animation)) : option Animation :=
  match l with
  | [] => None
  | (k, a) :: rest => if Nat.eqb k id then Some a else lookupAnim id rest
  end.

Fixpoint replaceAnim (id : nat) (a : Animation) (l : list (nat * Animation))
  : list (nat * Animation) :=
  match l with
  | [] => []
  | (k, b) :: rest =>
      if Nat.eqb k id then (k, a) :: rest else (k, b) :: replaceAnim id a rest
  end.

Definition removeAnim (id : nat) (l : list (nat * Animation))
  : list (nat * Animation) :=
  filter (fun e => negb (Nat.eqb (fst e) id)) l.

(** A tick of the animation [id] somewhere before its end. *)
Definition animationUpdate (id : nat) (p : Q) (this : t) : outcome t :=
  match lookupAnim id (animations this) with
  | None => Ok this
  | Some a =>
      let (a, o) := renderAnimation a p this in
      match o with
      | Ok this => Ok (this <| animations ::= replaceAnim id a |>)
      | Threw this => Threw (this <| animations ::= replaceAnim id a |>)
      end
  end.

(** The last tick of the animation [id]: final values, [onUpdate], then
    [onComplete]. *)
Definition animationComplete (id : nat) (this : t) : outcome t :=
  match lookupAnim id (animations this) with
  | None => Ok this
  | Some a =>
      let (a, o) := renderAnimation a 1 this in
      match o with
      | Threw this => Threw (this <| animations ::= replaceAnim id a |>)
      | Ok this =>
          let this := this <| animations ::= removeAnim id |> in
          match a with
          | IntroTimeline _ _ _ _ _ =>
              Ok (bindEvents (this <| isIntroShown := true |>))
          | _ => Ok this
          end
      end
  end.

(* --------------------------------------------------------------- *)
(** *** The frame: [update], [draw], [render] *)

(** The motion delta [update()] hands to every item, with the smoothed
    scroll and pointer state it leaves behind. *)
Definition update (this : t) : t :=
  let ls := {| vx := lerp (vx (lerpedScroll this)) (vx (scroll this)) 0.12;
               vy := lerp (vy (lerpedScroll this)) (vy (scroll this)) 0.12 |} in
  let deltaScrollX := vx ls - vx (prevLerpedScroll this) in
  let deltaScrollY := vy ls - vy (prevLerpedScroll this) in
  let this := this <| lerpedScroll := ls |> <| prevLerpedScroll := ls |> in
  if isDragging this then
    let lm := {| vx := lerp (vx (lerpedMouse this)) (vx (mouse this)) 0.075;
                 vy := lerp (vy (lerpedMouse this)) (vy (mouse this)) 0.075 |} in
    let deltaMouseX := vx lm - vx (prevLerpedMouse this) in
    let deltaMouseY := vy lm - vy (prevLerpedMouse this) in
    let this := this <| lerpedMouse := lm |> <| prevLerpedMouse := lm |>
                     <| velocity := {| vx := deltaMouseX; vy := deltaMouseY |} |> in
    this <| imagesGL ::= map (Tile.update (deltaScrollX + deltaMouseX)
                                          (deltaScrollY + deltaMouseY)) |>
  else
    let v := {| vx := vx (velocity this) * 0.95;
                vy := vy (velocity this) * 0.95 |} in
    let this := this <| velocity := v |> in
    this <| imagesGL ::= map (Tile.update (deltaScrollX + vx v)
                                          (deltaScrollY + vy v)) |>.

(** [posKey]: the two rounded coordinates. *)
Definition posKey (item : Tile.t) : Z * Z :=
  (JS.Math_round (tileX item), JS.Math_round (tileY item)).

Definition hasKey (k : Z * Z) (keys : list (Z * Z)) : bool :=
  existsb (fun q => Z.eqb (fst q) (fst k) && Z.eqb (snd q) (snd k)) keys.

(** [item.draw()]: the visibility test, and for a visible item the draw
    call, which reads [this.texture.texture]. *)
Definition drawItem (item : Tile.t) (this : t) : Tile.t * outcome t :=
  let item := item <| Tile.isVisible :=
                Tile.overlaps (Tile.viewport item) (Tile.screenRect item) |> in
  if Tile.isVisible item then
    match Tile.texture item with
    | None => (item, Threw this)
    | Some i =>
        let sd := match JS.index (textures this) i with
                  | Some tex => Texture.texture tex
                  | None => None
                  end in
        (item, Ok (this <| world ::= emit [GlDrawArrays sd] |>))
    end
  else (item, Ok this).

(** The HD trigger that follows [item.draw()] in the loop of [draw()]. *)
Definition triggerHD (item : Tile.t) (this : t) : t :=
  if JS.gtb (currentZoom this) 8 && Tile.isVisible item then
    match Tile.textureHD item with
    | Some j =>
        match JS.index (texturesHD this) j with
        | Some tex => this <| world ::= Texture.load tex |>
        | None => this
        end
    | None => this
    end
  else this.

(** The [forEach] of [draw()]: [done] are the items already visited (in
    reverse), [todo] the rest. *)
Fixpoint drawLoop (todo : list Tile.t) (done : list Tile.t) (this : t)
  : outcome t :=
  match todo with
  | [] => Ok (this <| imagesGL := rev done |>)
  | item :: rest =>
      if negb (hasKey (posKey item) (drawnPositions this)) then
        let (item, o) := drawItem item this in
        match o with
        | Threw this =>
            Threw (this <| imagesGL := (rev done ++ item :: rest)%list |>)
        | Ok this =>
            let this := this <| drawnPositions ::= cons (posKey item) |> in
            drawLoop rest (item :: done) (triggerHD item this)
        end
      else drawLoop rest (item :: done) this
  end.

(** [draw()], for a canvas whose size did not change since the last
    frame. *)
Definition draw (this : t) : outcome t :=
  drawLoop (imagesGL this) [] (this <| drawnPositions := [] |>).

Definition render (this : t) : outcome t :=
  if negb (isInit this) || isDestroyed this then Ok this
  else draw (update this).

(** [setWindow()]: it sizes the canvas first, destroyed or not; with no
    item the offsets are NaN in the source and are left untouched here. *)
Definition setWindow (this : t) : outcome t :=
  let this := fixCanvasSize this in
  let this := this <| windowSize :=
                        {| Tile.dimWidth := canvasWidth (env this);
                           Tile.dimHeight := canvasHeight (env this) |} |> in
  let this := this <| imagesGL ::= map (Tile.setWindow (windowSize this)) |> in
  let this := match getTotalDimensionsItems this with
              | Some dimensions => recenter false dimensions this
              | None => this
              end in
  render this.

(** [init()] from its first [await] on: the format, [main()],
    [setWindow()]; an error is caught and logged. *)
Definition init (this : t) : t :=
  let this := this <| fileFormat :=
                if avifDecodes (env this) then "avif"%string else "jpeg"%string |> in
  match (this <- main this ;; setWindow this) with
  | Ok this => this <| isInit := true |>
  | Threw this => this
  end.

(** The [load] listener of the [k]-th pending [Image]: [updateTexture]
    on the texture object that issued the request, then its callback. *)
Fixpoint updateBySource (src : string) (imgW imgH : Q)
    (texs : list Texture.t) (w : World) : list Texture.t * World :=
  match texs with
  | [] => ([], w)
  | tex :: rest =>
      if sourceIs src tex then
        let (tex, w) := Texture.updateTexture imgW imgH tex w in
        (tex :: rest, w)
      else
        let (rest, w) := updateBySource src imgW imgH rest w in
        (tex :: rest, w)
  end.

Fixpoint removeNth {A} (k : nat) (l : list A) : list A :=
  match l, k with
  | [], _ => []
  | _ :: rest, O => rest
  | a :: rest, S k' => a :: removeNth k' rest
  end.

Definition imageLoaded (k : nat) (imgW imgH : Q) (this : t) : t :=
  match JS.index (requests (world this)) k with
  | None => this
  | Some (src, cb) =>
      let this := this <| world -> requests ::= removeNth k |> in
      match cb with
      | CallSDLoaded =>
          let (texs, w) := updateBySource src imgW imgH (textures this) (world this) in
          onTextureSDLoaded (this <| textures := texs |> <| world := w |>)
      | CallHDLoaded =>
          let (texs, w) := updateBySource src imgW imgH (texturesHD this) (world this) in
          this <| texturesHD := texs |> <| world := w |>
      end
  end.

(* --------------------------------------------------------------- *)
(** *** Teardown *)

Definition unbindEvents (this : t) : t :=
  let this := this <| world ::= emit [UnbindEvents] |> in
  if negb (resizeObserver this)
  then this <| world ::= emit [RemoveResizeListener] |>
  else this.

(** [destroy()]; [introTimer] and [introMostlyDoneTimer] are never
    assigned, so only [TLIntro] can be killed. *)
Definition destroy (this : t) : t :=
  if isDestroyed this then this
  else
    let this := this <| isDestroyed := true |> in
    let this :=
      if resizeObserver this
      then this <| world ::= emit [ObserverDisconnect] |>
                <| resizeObserver := false |>
      else this <| world ::= emit [RemoveResizeListener] |> in
    let this := unbindEvents this in
    let this :=
      match TLIntro this with
      | Some id => this <| animations ::= removeAnim id |>
                        <| world ::= emit [GsapKill id] |>
      | None => this
      end in
    this <| timers ::= fun q => (q ++ [TeardownGPU])%list |>.

(** [forEach((texture) => texture.destroy())] on an array that is emptied
    right after. *)
Fixpoint destroyTextures (texs : list Texture.t) (w : World) : World :=
  match texs with
  | [] => w
  | tex :: rest => destroyTextures rest (snd (Texture.destroy tex w))
  end.

Definition deleteWith (mk : GL.handle -> Effect) (h : option GL.handle)
    (w : World) : World :=
  match h with
  | Some x => emit [mk x] w
  | None => w
  end.

(** The callback [destroy()] hands to [setTimeout(..., 800)]. *)
Definition teardown (this : t) : t :=
  let this := this <| world ::= destroyTextures (textures this) |>
                   <| textures := [] |> in
  let this := this <| world ::= destroyTextures (texturesHD this) |>
                   <| texturesHD := [] |> in
  let this := this <| world ::= deleteWith GlDeleteBuffer (positionBuffer this) |>
                   <| positionBuffer := None |> in
  let this := this <| world ::= deleteWith GlDeleteBuffer (texcoordBuffer this) |>
                   <| texcoordBuffer := None |> in
  let this := this <| world ::= deleteWith GlDeleteProgram (program this) |>
                   <| program := None |> in
  this <| imagesGL := [] |>
       <| timers ::= fun q => (q ++ [LoseContext])%list |>.

(** Expiry of the [k]-th pending timer. *)
Definition fireTimer (k : nat) (this : t) : t :=
  match JS.index (timers this) k with
  | None => this
  | Some tm =>
      let this := this <| timers ::= removeNth k |> in
      match tm with
      | TeardownGPU => teardown this
      | LoseContext => this <| world ::= emit [GlLoseContext] |>
      end
  end.

(* --------------------------------------------------------------- *)
(** *** What can happen to a renderer *)

Inductive Event : Type :=
| ImageLoaded (k : nat) (imgW imgH : Q)   (* a pending image decodes *)
| Tick (id : nat) (p : Q)                 (* an animation advances *)
| Complete (id : nat)                     (* an animation ends *)
| Frame                                   (* render() *)
| Resize                                  (* setWindow() *)
| Zoom (action : string)                  (* zoom(action) *)
| StartIntro                              (* startIntroSequence() *)
| Destroy                                 (* destroy() *)
| Timeout (k : nat).                      (* a timer expires *)

(** An error thrown out of a callback is reported by the browser; the
    object stays as it was at the throw. *)
Definition fire (ev : Event) (this : t) : t :=
  match ev with
  | ImageLoaded k imgW imgH => imageLoaded k imgW imgH this
  | Tick id p => settle (animationUpdate id p this)
  | Complete id => settle (animationComplete id this)
  | Frame => settle (render this)
  | Resize => settle (setWindow this)
  | Zoom action => zoom action this
  | StartIntro => startIntroSequence this
  | Destroy => destroy this
  | Timeout k => fireTimer k this
  end.

Definition run (evs : list Event) (this : t) : t :=
  fold_left (fun g ev => fire ev g) evs this.

(** [new WebGLGrid(...)] followed by the completion of its [init()]. *)
Definition create (e : Env) (originalImages : list Image)
    (mobile delayIntro : bool) : t :=
  init (constructor e originalImages mobile delayIntro).

(** [zoom(action)] with its tween run to the end. *)
Definition zoomSettled (action : string) (this : t) : t :=
  fire (Complete (nextAnim (world this))) (zoom action this).

(** How many intro timelines were created, and how many image requests
    were issued for a source. *)
Definition isTimeline (e : Effect) : bool :=
  match e with GsapTimeline _ => true | _ => false end.

Definition introsStarted (this : t) : nat :=
  List.length (filter isTimeline (trace (world this))).

Definition isRequestFor (src : string) (e : Effect) : bool :=
  match e with ImageRequest s => String.eqb s src | _ => false end.

Definition requestsFor (src : string) (this : t) : nat :=
  List.length (filter (isRequestFor src) (trace (world this))).

(** The WebGL objects deleted so far, in order. *)
Definition deleted (e : Effect) : list GL.handle :=
  match e with
  | GlDeleteTexture h | GlDeleteBuffer h | GlDeleteProgram h => [h]
  | _ => []
  end.

Definition deletions (this : t) : list GL.handle :=
  flat_map deleted (trace (world this)).
End Grid.

(* ================================================================= *)
(** ** What a drawn item shows: the fragment shader *)

Module Shader.

Record vec3 := { red : Q; green : Q; blue : Q }.

(** GLSL [mix(x, y, a)]: [x * (1 - a) + y * a]. *)
Definition mix (x y a : Q) : Q := x * (1 - a) + y * a.

Definition mix3 (x y : vec3) (a : Q) : vec3 :=
  {| red := mix (red x) (red y) a;
     green := mix (green x) (green y) a;
     blue := mix (blue x) (blue y) a |}.

(** [vec4(0.0588, 0.0588, 0.0588, 1.0)], the colour #0F0F0F. *)
Definition bgColor : vec3 :=
  {| red := 0.0588; green := 0.0588; blue := 0.0588 |}.

(** [main()] of the fragment shader, its colour channels (alpha is 1).
    [inside] says whether the texture coordinate lies within the unit
    square; [baseTexture] and [hdTexture] are the texels read from the two
    samplers. *)
Definition fragColor (inside : bool) (baseTexture hdTexture : vec3)
    (u_opacity_texture_sd u_opacity_texture_hd u_grayscale : Q) : vec3 :=
  if negb inside then bgColor
  else
    let blendedBase := mix3 bgColor baseTexture u_opacity_texture_sd in
    let finalColor := mix3 blendedBase hdTexture u_opacity_texture_hd in
    let grayValue := 0.2126 * red finalColor + 0.7152 * green finalColor
                     + 0.0722 * blue finalColor in
    let grayColor :=
      {| red := grayValue; green := grayValue; blue := grayValue |} in
    mix3 finalColor grayColor u_grayscale.

(** The opacities [item.draw()] hands to [drawImage] for the two
    uniforms: [this.texture.opacity], and
    [this.textureHD ? this.textureHD.opacity : 0]. *)
Definition opacitySD (item : Tile.t) (g : Grid.t) : option Q :=
  match Tile.texture item with
  | Some i => option_map Texture.opacity (JS.index (Grid.textures g) i)
  | None => None
  end.

Definition opacityHD (item : Tile.t) (g : Grid.t) : option Q :=
  match Tile.textureHD item with
  | Some j => option_map Texture.opacity (JS.index (Grid.texturesHD g) j)
  | None => Some 0
  end.

(** The colour of a fragment of [item], for the texels the samplers
    return. *)
Definition shown (item : Tile.t) (g : Grid.t) (inside : bool)
    (baseTexture hdTexture : vec3) : option vec3 :=
  match opacitySD item g, opacityHD item g with
  | Some sd, Some hd =>
      Some (fragColor inside baseTexture hdTexture sd hd (Grid.grayscale g))
  | _, _ => None
  end.

(** Two colours equal as numbers. *)
Definition same (a b : vec3) : Prop :=
  red a == red b /\ green a == green b /\ blue a == blue b.

End Shader.

(* ================================================================= *)
(** ** The view controller: class [ArchiveView] *)

Module View.

(** A [.cms-image] element found in the container. *)
Record ImgElement := {
  src : string;
  elNaturalWidth : Q;     (* 0 while the image has not loaded *)
  elNaturalHeight : Q;
}.

Inductive Timer : Type :=
| DestroyScene        (* the 800 ms callback of [destroy] *)
| RemoveDom.          (* the 300 ms callback scheduled by the former *)

Record t := {
  scene : option Grid.t;
  released : option Grid.t;
    (* the renderer after [this.scene = null]: no longer reachable from
       the view, kept alive by its own pending timer *)
  images : list Image;
  isTransitioning : bool;
  isDestroyed : bool;
  rafId : option nat;
  canvas : bool;               (* the canvas element is referenced *)
  zoomUI : bool;               (* the zoom buttons are referenced *)
  resizeObserver : bool;
  introDelayed : bool;
  venv : Env;
  vtrace : list Effect;
  vtimers : list Timer;
}.

(** [x || d] on numbers. *)
Definition orElse (x d : Q) : Q := if Qeq_bool x 0 then d else x.

Definition describe (el : ImgElement) : Image :=
  {| url := src el;
     naturalWidth := orElse (elNaturalWidth el) 800;
     naturalHeight := orElse (elNaturalHeight el) 1200;
     color := "#0F0F0F" |}.

Definition constructor (e : Env) (imageElements : list ImgElement)
    (delayIntro : bool) : t :=
  {| scene := None; released := None;
     images := map describe imageElements;
     isTransitioning := false; isDestroyed := false;
     rafId := None; canvas := true; zoomUI := true;
     resizeObserver := hasResizeObserver e;
     introDelayed := delayIntro;
     venv := e; vtrace := []; vtimers := [] |}.

Definition isMobileViewport (this : t) : bool :=
  JS.leb (innerWidth (venv this)) 960.

(** [init()], with the canvas created by [setupDOM] in place. *)
Definition init (this : t) : t :=
  this <| scene := Some (Grid.create (venv this) (images this)
                           (isMobileViewport this) (introDelayed this)) |>
       <| rafId := Some 0%nat |>
       <| isTransitioning := false |>.

(** [triggerIntroSequence()]; [introTimer] is never assigned. *)
Definition triggerIntroSequence (this : t) : t :=
  match scene this with
  | None => this
  | Some g =>
      if isDestroyed this then this
      else if Grid.isIntroShown g then this
      else this <| scene := Some (Grid.startIntroSequence g) |>
  end.

(** The click handlers of the two zoom buttons. *)
Definition clickZoom (action : string) (this : t) : t :=
  match scene this with
  | Some g =>
      if Grid.isIntroShown g
      then this <| scene := Some (Grid.zoom action g) |>
      else this
  | None => this
  end.

Definition destroy (this : t) : t :=
  if isDestroyed this then this
  else
    let this := this <| isDestroyed := true |> in
    let this :=
      match rafId this with
      | Some _ => this <| vtrace ::= fun l => (l ++ [CancelAnimationFrame])%list |>
                       <| rafId := None |>
      | None => this
      end in
    let this :=
      if resizeObserver this
      then this <| vtrace ::= fun l => (l ++ [ObserverDisconnect])%list |>
                <| resizeObserver := false |>
      else this <| vtrace ::= fun l => (l ++ [RemoveResizeListener])%list |> in
    this <| vtimers ::= fun q => (q ++ [DestroyScene])%list |>.

(** Expiry of the [k]-th pending timer of the view. *)
Definition fireTimer (k : nat) (this : t) : t :=
  match JS.index (vtimers this) k with
  | None => this
  | Some tm =>
      let this := this <| vtimers ::= Grid.removeNth k |> in
      match tm with
      | DestroyScene =>
          let this :=
            match scene this with
            | Some g => this <| released := Some (Grid.destroy g) |>
                             <| scene := None |>
            | None => this
            end in
          this <| vtimers ::= fun q => (q ++ [RemoveDom])%list |>
      | RemoveDom =>
          let this := this <| vtrace ::= fun l =>
                        (l ++ [DomRemove "archive-container"])%list |> in
          let this :=
            if zoomUI this
            then this <| vtrace ::= fun l => (l ++ [DomRemove "zoomUI"])%list |>
                      <| zoomUI := false |>
            else this in
          this <| canvas := false |> <| images := [] |>
      end
  end.

End View.

(* ================================================================= *)
(** ** The pointer handlers of [WebGLGrid] *)

Module Pointer.

(** [clientX] and [clientY] of a mouse event, or of the first touch of a
    touch event. *)
Record Point := { clientX : Q; clientY : Q }.

(** The renderer together with what the pointer handlers alone use:
    [this.offset], and whether the four listeners of a drag ([mousemove],
    [mouseup], [touchmove], [touchend]) are attached to the document. *)
Record t := {
  grid : Grid.t;
  offset : Grid.Vec;
  tracking : bool;
}.

Definition attach (g : Grid.t) : t :=
  {| grid := g; offset := Grid.zeroVec; tracking := false |}.

(** [handleMouseDown(e)]; [rectLeft] and [rectTop] are those of the
    canvas's bounding rectangle. *)
Definition handleMouseDown (e : Point) (rectLeft rectTop : Q) (this : t) : t :=
  let g := (grid this) <| Grid.isDragging := true |> in
  let this := this <| offset := {| Grid.vx := clientX e - rectLeft;
                                   Grid.vy := clientY e - rectTop |} |> in
  let g := g <| Grid.mouse := {| Grid.vx := 0; Grid.vy := 0 |} |>
             <| Grid.lerpedMouse := {| Grid.vx := 0; Grid.vy := 0 |} |> in
  let g := g <| Grid.prevLerpedMouse := Grid.lerpedMouse g |> in
  this <| grid := g |> <| tracking := true |>.

(** The largest pointer displacement one [handleMouseMove] takes over. *)
Definition limit (g : Grid.t) : Q :=
  if Grid.isMobileViewport g || JS.geb (Grid.currentZoom g) 3 then 1000 else 100.

Definition handleMouseMove (e : Point) (this : t) : t :=
  let g := grid this in
  let deltaX := clientX e - Grid.vx (offset this) in
  let deltaY := clientY e - Grid.vy (offset this) in
  let this := this <| offset := {| Grid.vx := clientX e; Grid.vy := clientY e |} |> in
  let limitedDeltaX := JS.Math_min (JS.Math_max deltaX (- limit g)) (limit g) in
  let limitedDeltaY := JS.Math_min (JS.Math_max deltaY (- limit g)) (limit g) in
  this <| grid :=
    g <| Grid.mouse :=
           {| Grid.vx := Grid.vx (Grid.mouse g)
                         + limitedDeltaX * Grid.pixelRatio g * 2;
              Grid.vy := Grid.vy (Grid.mouse g)
                         + limitedDeltaY * Grid.pixelRatio g * 2 |} |> |>.

Definition handleMouseUp (this : t) : t :=
  let g := (grid this) <| Grid.isDragging := false |> in
  let g :=
    if Grid.isMobileViewport g || JS.gtb (Grid.currentZoom g) 3
    then g <| Grid.velocity := {| Grid.vx := Grid.vx (Grid.velocity g) * 2;
                                  Grid.vy := Grid.vy (Grid.velocity g) * 2 |} |>
    else g in
  this <| grid := g |> <| tracking := false |>.

(** [render()] on the renderer. *)
Definition frame (this : t) : t :=
  this <| grid := Grid.fire Grid.Frame (grid this) |>.

End Pointer.

(* ================================================================= *)
(** ** The size of the canvas: [fixCanvasSize], [updateCanvasSize] *)

Module Canvas.

(** The canvas element: its [width] and [height] attributes (integers),
    its laid-out [clientWidth] and [clientHeight], and those of its parent
    element when it has one. *)
Record t := {
  width : Z;
  height : Z;
  clientWidth : Q;
  clientHeight : Q;
  parentElement : option (Q * Q);
}.

(** Assignment of a number that is not negative to [canvas.width] or
    [canvas.height]: the fraction is dropped. *)
Definition toAttribute (x : Q) : Z := Qfloor x.

(** [fixCanvasSize()], with the layout as it is once the two styles are
    set. *)
Definition fixCanvasSize (e : Env) (pixelRatio : Q) (canvas : t) : t :=
  match parentElement canvas with
  | Some _ =>
      let displayWidth := clientWidth canvas in
      let displayHeight := clientHeight canvas in
      let w := if JS.gtb displayWidth 100 then displayWidth else innerWidth e in
      let h := if JS.gtb displayHeight 100 then displayHeight else innerHeight e in
      canvas <| width := toAttribute (w * pixelRatio) |>
             <| height := toAttribute (h * pixelRatio) |>
  | None =>
      canvas <| width := toAttribute (innerWidth e * pixelRatio) |>
             <| height := toAttribute (innerHeight e * pixelRatio) |>
  end.

(** [updateCanvasSize(canvas)]: whether the canvas was resized, and the
    canvas. *)
Definition updateCanvasSize (e : Env) (pixelRatio : Q) (canvas : t) : bool * t :=
  let '(displayWidth, displayHeight) :=
    if JS.ltb (clientWidth canvas) 100 || JS.ltb (clientHeight canvas) 100 then
      match parentElement canvas with
      | Some (w, h) => (w, h)
      | None => (innerWidth e, innerHeight e)
      end
    else (clientWidth canvas, clientHeight canvas) in
  let newWidth := JS.Math_floor (displayWidth * pixelRatio) in
  let newHeight := JS.Math_floor (displayHeight * pixelRatio) in
  if ((Z.abs (width canvas - newWidth) >? 2)
      || (Z.abs (height canvas - newHeight) >? 2))%Z
  then (true, canvas <| width := newWidth |> <| height := newHeight |>)
  else (false, canvas).

End Canvas.

(* ================================================================= *)
(** ** The loading coordinator: class [LoadingCoordinator] *)

Module Coordinator.

Inductive PreloaderState : Type :=
| NOT_STARTED
| IN_PROGRESS
| VIDEO_PLAYING
| COMPLETED
| SKIPPED.

(** A callback is known by its identity.  What is recorded of a call is
    that it was made: an error thrown by a callback is caught by
    [notifyCompletion], and callbacks are taken not to call the
    coordinator themselves. *)
Definition Callback := nat.

Record t := {
  _preloaderState : PreloaderState;
  _completionListeners : list Callback;
  calls : list Callback;          (* the callbacks called so far, in order *)
}.

(** The singleton as [getInstance()] first makes it. *)
Definition instance : t :=
  {| _preloaderState := NOT_STARTED; _completionListeners := []; calls := [] |}.

Definition finished (state : PreloaderState) : bool :=
  match state with
  | COMPLETED | SKIPPED => true
  | _ => false
  end.

Definition canLoadMedia (this : t) : bool :=
  finished (_preloaderState this).

Definition notifyCompletion (this : t) : t :=
  this <| calls ::= fun l => (l ++ _completionListeners this)%list |>
       <| _completionListeners := [] |>.

Definition setPreloaderState (state : PreloaderState) (this : t) : t :=
  let previousState := _preloaderState this in
  let this := this <| _preloaderState := state |> in
  if finished state && negb (finished previousState)
  then notifyCompletion this
  else this.

Definition skipPreloader (this : t) : t := setPreloaderState SKIPPED this.

Definition onPreloaderComplete (callback : Callback) (this : t) : t :=
  if canLoadMedia this
  then this <| calls ::= fun l => (l ++ [callback])%list |>
  else this <| _completionListeners ::= fun l => (l ++ [callback])%list |>.

Definition reset (this : t) : t :=
  this <| _preloaderState := NOT_STARTED |> <| _completionListeners := [] |>.

(** The calls a client can make, and a sequence of them. *)
Inductive Call : Type :=
| SetPreloaderState (state : PreloaderState)
| SkipPreloader
| OnPreloaderComplete (callback : Callback)
| Reset.

Definition step (c : Call) (this : t) : t :=
  match c with
  | SetPreloaderState state => setPreloaderState state this
  | SkipPreloader => skipPreloader this
  | OnPreloaderComplete callback => onPreloaderComplete callback this
  | Reset => reset this
  end.

Definition run (cs : list Call) (this : t) : t :=
  fold_left (fun x c => step c x) cs this.

(** The callbacks a sequence of calls registers, in order; whether a call
    is a [reset()]; whether it sets a finished state. *)
Definition registered (cs : list Call) : list Callback :=
  flat_map (fun c => match c with
                     | OnPreloaderComplete callback => [callback]
                     | _ => []
                     end) cs.

Definition isReset (c : Call) : bool :=
  match c with Reset => true | _ => false end.

Definition finishes (c : Call) : bool :=
  match c with
  | SetPreloaderState state => finished state
  | SkipPreloader => true
  | _ => false
  end.

End Coordinator.

(* ================================================================= *)
(** * Vocabulary of the properties *)

Module Props.

(** Animation ids handed out so far are below the next fresh one. *)
Definition animFresh (g : Grid.t) : Prop :=
  Forall (fun e => (fst e < nextAnim (Grid.world g))%nat) (Grid.animations g).

(** A sequence of [zoom] calls, each animation run to its end before the
    next call. *)
Definition zoomAll (actions : list string) (g : Grid.t) : Grid.t :=
  fold_left (fun g a => Grid.zoomSettled a g) actions g.

(** [x] rounded to 3 decimals, as [zoom] does. *)
Definition round3 (x : Q) : Q := inject_Z (JS.Math_round (x * 1000)) / 1000.

Definition factor (action : string) : Q :=
  if String.eqb action "zoom-in" then 2 else 0.5.

(** The zoom in thousandths, and one zoom action on it. *)
Definition stepLevel (action : string) (k : Z) : Z :=
  if String.eqb action "zoom-in" then Z.max 250 (2 * k)
  else Z.max 250 ((k + 1) / 2).

(** The thousandths that zoom actions reach from 900 (zoom 0.9). *)
Definition onLadder (k : Z) : Prop :=
  k = 450%Z
  \/ (exists n : nat, k = (900 * 2 ^ Z.of_nat n)%Z)
  \/ (exists n : nat, k = (250 * 2 ^ Z.of_nat n)%Z).

(** [g'] differs from [g] at most in the layout: zoom, gaps, item
    sizes, anchors, camera offsets and the geometry of the items. *)
Definition sameControl (g g' : Grid.t) : Prop :=
  Grid.images g' = Grid.images g
  /\ Grid.textures g' = Grid.textures g
  /\ Grid.texturesHD g' = Grid.texturesHD g
  /\ Grid.program g' = Grid.program g
  /\ Grid.positionBuffer g' = Grid.positionBuffer g
  /\ Grid.texcoordBuffer g' = Grid.texcoordBuffer g
  /\ Grid.COLUMN_ITEM_LENGTH g' = Grid.COLUMN_ITEM_LENGTH g
  /\ Grid.ROW_ITEM_LENGTH g' = Grid.ROW_ITEM_LENGTH g
  /\ Grid.isInit g' = Grid.isInit g
  /\ Grid.isDestroyed g' = Grid.isDestroyed g
  /\ Grid.isIntroShown g' = Grid.isIntroShown g
  /\ Grid.pixelRatio g' = Grid.pixelRatio g
  /\ Grid.TLIntro g' = Grid.TLIntro g
  /\ Grid.fileFormat g' = Grid.fileFormat g
  /\ Grid.resizeObserver g' = Grid.resizeObserver g
  /\ Grid.indexTextureSD g' = Grid.indexTextureSD g
  /\ Grid.isMobile g' = Grid.isMobile g
  /\ Grid.delayIntroAnimation g' = Grid.delayIntroAnimation g
  /\ Grid.texturesLoaded g' = Grid.texturesLoaded g
  /\ Grid.env g' = Grid.env g
  /\ Grid.world g' = Grid.world g
  /\ Grid.animations g' = Grid.animations g
  /\ Grid.timers g' = Grid.timers g.

(** Two items that differ at most in their geometry. *)
Definition sameItem (a b : Tile.t) : Prop :=
  Tile.index b = Tile.index a
  /\ Tile.source b = Tile.source a
  /\ Tile.texture b = Tile.texture a
  /\ Tile.textureHD b = Tile.textureHD a
  /\ Tile.textureWidth b = Tile.textureWidth a
  /\ Tile.textureHeight b = Tile.textureHeight a.

Definition sameItems (g g' : Grid.t) : Prop :=
  Forall2 sameItem (Grid.imagesGL g) (Grid.imagesGL g').

(** Two zoom values that agree up to the rounding to 3 decimals. *)
Definition withinRounding (a b : Q) : Prop := Qabs (a - b) <= 0.001.

(** What [applyZoom z] does and preserves. *)
Definition zoomed (z : Q) (g g' : Grid.t) : Prop :=
  Grid.currentZoom g' = z
  /\ sameControl g g'
  /\ sameItems g g'
  /\ Grid.ORIGINAL_HORIZONTAL_GAP g' = Grid.ORIGINAL_HORIZONTAL_GAP g
  /\ Grid.ORIGINAL_VERTICAL_GAP g' = Grid.ORIGINAL_VERTICAL_GAP g
  /\ Grid.grayscale g' = Grid.grayscale g.


(** The period of each axis is positive and fits in the bounds. *)
Definition wellSized (t : Tile.t) : Prop :=
  0 < Tile.itemWidth t <= Tile.right (Tile.bounds t) - Tile.left (Tile.bounds t)
  /\ 0 < Tile.itemHeight t <= Tile.bottom (Tile.bounds t) - Tile.top (Tile.bounds t).




(** The entry of [imageData] for an image. *)
Definition infoOf (g : Grid.t) (img : Image) : Grid.ImageInfo :=
  {| Grid.info_source := Grid.getImageSource g img false;
     Grid.info_sourceHD := Grid.getImageSource g img true;
     Grid.textureMediumUrl := url img;
     Grid.info_width := naturalWidth img;
     Grid.info_height := naturalHeight img;
     Grid.info_backgroundColor := color img |}.

(** What is fixed when [init()] is over. *)
Definition setup (g : Grid.t)
  : list Image * string * bool * Q * Env * nat * nat :=
  (Grid.images g, Grid.fileFormat g, Grid.isMobile g, Grid.pixelRatio g,
   Grid.env g, Grid.COLUMN_ITEM_LENGTH g, Grid.ROW_ITEM_LENGTH g).

(** A texture object made by [main()] for one of the images. *)
Definition textureOf (g : Grid.t) (imgs : list Image) (hd : bool)
    (tex : Texture.t) : Prop :=
  (exists img, In img imgs /\ Texture.source tex = Grid.getImageSource g img hd)
  /\ Texture.texture tex <> None
  /\ Texture.isInit tex = negb hd.

(** The item [createGridItem] makes for [info] at position [i], given the
    texture arrays. *)
Definition madeFrom (texs texsHD : list Texture.t) (info : Grid.ImageInfo)
    (i : nat) (item : Tile.t) : Prop :=
  Tile.index item = i
  /\ Tile.source item = Grid.info_source info
  /\ Tile.texture item
     = JS.findIndex (Grid.sourceIs (Grid.info_source info)) texs
  /\ Tile.textureHD item
     = JS.findIndex (Grid.sourceIs (Grid.info_sourceHD info)) texsHD.

(** The item at position [i] of a grid built over the pool [pool]: it shows
    the image [pool[i mod |pool|]] and holds a defined SD texture of that
    image's SD source. *)
Definition assigned (g : Grid.t) (i : nat) (item : Tile.t) : Prop :=
  exists (img : Image) (k : nat) (tex : Texture.t),
    nth_error (Grid.images g) (i mod List.length (Grid.images g)) = Some img
    /\ Tile.index item = i
    /\ Tile.source item = Grid.getImageSource g img false
    /\ Tile.texture item = Some k
    /\ nth_error (Grid.textures g) k = Some tex
    /\ Texture.source tex = Tile.source item
    /\ Texture.texture tex <> None.

Definition allAssigned (g : Grid.t) : Prop :=
  forall i item, nth_error (Grid.imagesGL g) i = Some item -> assigned g i item.

(** The WebGL objects a renderer owns: the textures of its SD and HD
    texture objects, the two buffers and the program. *)
Definition optional {A} (o : option A) : list A :=
  match o with
  | Some a => [a]
  | None => []
  end.

Definition textureHandles (texs : list Texture.t) : list GL.handle :=
  flat_map (fun tex => optional (Texture.texture tex)) texs.

Definition liveHandles (g : Grid.t) : list GL.handle :=
  (textureHandles (Grid.textures g) ++ textureHandles (Grid.texturesHD g)
   ++ optional (Grid.positionBuffer g) ++ optional (Grid.texcoordBuffer g)
   ++ optional (Grid.program g))%list.

(** Distinct handles, all allocated from [lo] on and before [hi]. *)
Definition allocated (lo hi : nat) (l : list GL.handle) : Prop :=
  NoDup l /\ Forall (fun h => (lo <= h < hi)%nat) l.

(** Effects that neither delete a WebGL object nor request an image that is
    not among the sources [srcs]. *)
Definition allowed (srcs : list string) (e : Effect) : Prop :=
  match e with
  | ImageRequest s => In s srcs
  | GlDeleteTexture _ | GlDeleteBuffer _ | GlDeleteProgram _ => False
  | _ => True
  end.

(** The trace [t'] continues [t] with allowed effects only. *)
Definition grows (srcs : list string) (t t' : list Effect) : Prop :=
  exists es : list Effect, t' = (t ++ es)%list /\ Forall (allowed srcs) es.

Definition sources (texs : list Texture.t) : list string :=
  map Texture.source texs.

(** A step of the renderer that keeps the WebGL objects it owns and the
    sources of its HD textures, deletes nothing, and requests HD sources
    only. *)
Definition calm (g g' : Grid.t) : Prop :=
  textureHandles (Grid.textures g') = textureHandles (Grid.textures g)
  /\ textureHandles (Grid.texturesHD g') = textureHandles (Grid.texturesHD g)
  /\ Grid.positionBuffer g' = Grid.positionBuffer g
  /\ Grid.texcoordBuffer g' = Grid.texcoordBuffer g
  /\ Grid.program g' = Grid.program g
  /\ sources (Grid.texturesHD g') = sources (Grid.texturesHD g)
  /\ grows (sources (Grid.texturesHD g))
       (trace (Grid.world g)) (trace (Grid.world g')).

(** The URLs requested so far. *)
Definition requested (e : Effect) : list string :=
  match e with
  | ImageRequest s => [s]
  | _ => []
  end.

Definition requestedUrls (g : Grid.t) : list string :=
  flat_map requested (trace (Grid.world g)).

(** A URL built by [getImageSource] for an image of the pool. *)
Definition poolUrl (g : Grid.t) (s : string) : Prop :=
  exists (img : Image) (hd : bool),
    In img (Grid.images g) /\ s = Grid.getImageSource g img hd.

(** Nothing is deleted twice, and nothing the renderer still owns has
    been deleted. *)
Definition tidy (g : Grid.t) : Prop :=
  NoDup (Grid.deletions g ++ liveHandles g).

(** Every URL requested so far, and the source of every HD texture, was
    built by [getImageSource] for an image of the pool. *)
Definition fetchesPool (g : Grid.t) : Prop :=
  Forall (poolUrl g) (requestedUrls g)
  /\ Forall (poolUrl g) (sources (Grid.texturesHD g)).

(** The URL contract, in the words of the specification: the format
    detected once, the target size and the quality by device class and HD
    flag, and the URL with its query string. *)
Definition detectedFormat (e : Env) : string :=
  if avifDecodes e then "avif" else "jpeg".

Definition targetSize (mobile hd : bool) : Q :=
  match mobile, hd with
  | true, true => 800
  | false, true => 1600
  | true, false => 400
  | false, false => 800
  end.

Definition qualityFor (mobile hd : bool) : Z :=
  match mobile, hd with
  | true, true => 65
  | false, true => 80
  | true, false => 55
  | false, false => 70
  end.

Definition contractUrl (format : string) (mobile : bool) (ratio : Q)
    (img : Image) (hd : bool) : string :=
  (url img
     ++ "?h=" ++ JS.toString
                   (Qceiling (Qmin (targetSize mobile hd * ratio)
                                (naturalHeight img)))
     ++ "&fm=" ++ format
     ++ "&q=" ++ JS.toString (qualityFor mobile hd)
     ++ "&fit=fill")%string.

End Props.

(** ** Sample states, used to instantiate the hypotheses of the theorems *)

Module Sample.

Definition env : Env :=
  {| innerWidth := 1440; innerHeight := 900; devicePixelRatio := 2;
     canvasWidth := 2880; canvasHeight := 1800; avifDecodes := true;
     hasResizeObserver := true; random := fun _ => 1 # 2 |}.

Definition image (u : string) (h : Q) : Image :=
  {| url := u; naturalWidth := 800; naturalHeight := h; color := "#0F0F0F" |}.

Definition pictures : list Image := [image "a.jpg" 1200; image "b.jpg" 4000].

(** A renderer as the constructor leaves it, but with a grid of 2 x 2
    items, so that it can be evaluated. *)
Definition fresh : Grid.t :=
  (Grid.constructor env pictures false false)
    <| Grid.COLUMN_ITEM_LENGTH := 2%nat |>
    <| Grid.ROW_ITEM_LENGTH := 2%nat |>.

(** ... initialised, *)
Definition booted : Grid.t := Grid.init fresh.

(** ... with both SD images decoded (the intro timeline is running), *)
Definition loaded : Grid.t :=
  Grid.run [Grid.ImageLoaded 0 800 1200; Grid.ImageLoaded 0 800 1200] booted.

(** ... and with the intro timeline (animation 2) run to its end. *)
Definition resting : Grid.t := Grid.run [Grid.Complete 2] loaded.

(** [resting] after zoom-in actions took the zoom to 14.4: only the zoom
    is changed here, the layout (which the HD trigger does not read) is
    left as it was at 0.9. *)
Definition zoomedIn : Grid.t := resting <| Grid.currentZoom := 14.4 |>.

(** A view over two images as [init()] leaves it, holding [booted] in
    place of the full-size renderer. *)
Definition view : View.t :=
  (View.constructor env
     [{| View.src := "a.jpg"; View.elNaturalWidth := 800;
         View.elNaturalHeight := 1200 |};
      {| View.src := "b.jpg"; View.elNaturalWidth := 800;
         View.elNaturalHeight := 4000 |}] false)
    <| View.scene := Some booted |>
    <| View.rafId := Some 0%nat |>.


End Sample.

(* ================================================================= *)
(** * Further vocabulary *)

Module Terms.

(** Hexadecimal notation of a colour: the [n]-th hexadecimal digit in
    lower or upper case, a byte as two digits, a colour as three bytes
    with or without the leading [#]. *)
Definition hexChar (upper : bool) (n : Z) : ascii :=
  nth (Z.to_nat n)
    (list_ascii_of_string
       (if upper then "0123456789ABCDEF" else "0123456789abcdef"))
    "0"%char.

Definition hexByte (upper : bool) (n : Z) : string :=
  String (hexChar upper (n / 16)) (String (hexChar upper (n mod 16)) EmptyString).

Definition hexColor (hash upper : bool) (c : Color.rgb) : string :=
  ((if hash then "#" else "")
   ++ hexByte upper (Color.r c) ++ hexByte upper (Color.g c)
   ++ hexByte upper (Color.b c))%string.

Definition isByte (n : Z) : Prop := (0 <= n <= 255)%Z.

Definition black : Color.rgb := {| Color.r := 0; Color.g := 0; Color.b := 0 |}.

(** The index [randomizeArray] draws for position [i] from the random
    number [r]. *)
Definition drawn (r : Q) (i : nat) : nat :=
  Z.to_nat (JS.Math_floor (r * inject_Z (Z.of_nat i + 1))).

(** The height [getImageSource] asks the image service for. *)
Definition requestedHeight (g : Grid.t) (img : Image) (hd : bool) : Z :=
  JS.Math_ceil
    (JS.Math_min
       ((if hd then (if Grid.isMobile g then 800 else 1600)
         else if Grid.isMobile g then 400 else 800) * Grid.pixelRatio g)
       (naturalHeight img)).

(** The state of the placement loop before item [index]. *)
Definition onLattice (g : Grid.t) (x0 y0 : Q) (index : nat) (row : Z)
    (x y : Q) : Prop :=
  let c := Grid.COLUMN_ITEM_LENGTH g in
  ((index mod c)%nat <> 0%nat ->
   row = Z.of_nat (index / c)
   /\ x == x0 + inject_Z (Z.of_nat (index mod c))
                * (Grid.ITEM_WIDTH g + Grid.HORIZONTAL_GAP g)
   /\ y == y0 + inject_Z row * (Grid.ITEM_HEIGHT g + Grid.VERTICAL_GAP g))
  /\ ((index mod c)%nat = 0%nat -> row = (Z.of_nat (index / c) - 1)%Z).

(** What the pointer and the frames drive: the scroll and pointer
    vectors, the velocity and the dragging flag; and the two flags of the
    renderer's life. *)
Definition pointerState (g : Grid.t)
  : Grid.Vec * Grid.Vec * Grid.Vec * Grid.Vec * Grid.Vec * Grid.Vec
    * Grid.Vec * bool :=
  (Grid.scroll g, Grid.lerpedScroll g, Grid.prevLerpedScroll g,
   Grid.mouse g, Grid.lerpedMouse g, Grid.prevLerpedMouse g,
   Grid.velocity g, Grid.isDragging g).

Definition phase (g : Grid.t) : bool * bool :=
  (Grid.isInit g, Grid.isDestroyed g).

Definition inner (g : Grid.t) := (pointerState g, phase g).

(** The draw calls issued so far. *)
Definition isDraw (e : Effect) : bool :=
  match e with GlDrawArrays _ => true | _ => false end.

Definition draws (g : Grid.t) : nat :=
  List.length (filter isDraw (trace (Grid.world g))).

(** Two items that differ at most in their visibility flag. *)
Definition sameButVisible (a b : Tile.t) : Prop :=
  b = a <| Tile.isVisible := Tile.isVisible b |>.

(** The factor by which the velocity has shrunk after [n] frames of
    gliding: 0.95 to the [n]. *)
Fixpoint decay (n : nat) : Q :=
  match n with
  | O => 1
  | S n' => 0.95 * decay n'
  end.

(** [n] frames in a row. *)
Definition frames (n : nat) : list Grid.Event := repeat Grid.Frame n.

(** A renderer being dragged whose pointer target and its two smoothed
    copies are at zero. *)
Definition held (g : Grid.t) : Prop :=
  Grid.isInit g = true /\ Grid.isDestroyed g = false
  /\ Grid.isDragging g = true
  /\ Grid.vx (Grid.mouse g) == 0 /\ Grid.vy (Grid.mouse g) == 0
  /\ Grid.vx (Grid.lerpedMouse g) == 0 /\ Grid.vy (Grid.lerpedMouse g) == 0
  /\ Grid.vx (Grid.prevLerpedMouse g) == 0
  /\ Grid.vy (Grid.prevLerpedMouse g) == 0.

(** What every state reachable without [reset()] satisfies, for the calls
    [cs] made so far. *)
Definition settled (cs : list Coordinator.Call) (c : Coordinator.t) : Prop :=
  (Coordinator.calls c ++ Coordinator._completionListeners c)%list = Coordinator.registered cs
  /\ (Coordinator.canLoadMedia c = true -> Coordinator._completionListeners c = [])
  /\ (existsb Coordinator.finishes cs = false -> Coordinator.calls c = [])
  /\ Coordinator._preloaderState c
     = fold_left (fun s call => match call with
                                | Coordinator.SetPreloaderState state => state
                                | Coordinator.SkipPreloader => Coordinator.SKIPPED
                                | _ => s
                                end) cs Coordinator.NOT_STARTED.

(** The effects an event may have on the outside world. *)
Definition speaks (ev : Grid.Event) (e : Effect) : Prop :=
  match ev, e with
  | Grid.ImageLoaded _ _ _,
    (GlTexImageFromImage _ _ | GsapTween _ | GsapTimeline _) => True
  | Grid.Tick _ _, IntroMostlyDone => True
  | Grid.Complete _, (IntroMostlyDone | BindEvents) => True
  | (Grid.Frame | Grid.Resize), (GlDrawArrays _ | ImageRequest _) => True
  | Grid.Zoom _, GsapTween _ => True
  | Grid.StartIntro, (GsapTween _ | GsapTimeline _) => True
  | Grid.Destroy,
    (ObserverDisconnect | RemoveResizeListener | UnbindEvents | GsapKill _) =>
      True
  | Grid.Timeout _,
    (GlDeleteTexture _ | GlDeleteBuffer _ | GlDeleteProgram _
     | GlLoseContext) => True
  | _, _ => False
  end.

(** [g'] has the trace of [g] followed by effects that satisfy [P]. *)
Definition emits (P : Effect -> Prop) (g g' : Grid.t) : Prop :=
  exists es : list Effect,
    trace (Grid.world g') = (trace (Grid.world g) ++ es)%list /\ Forall P es.

(** Effects of construction: WebGL objects are created, textures get
    their placeholder pixel, images are requested. *)
Definition building (e : Effect) : Prop :=
  match e with
  | GlCreateTexture _ | GlTexImagePixel _ _ | GlCreateBuffer _
  | GlCreateProgram _ | ImageRequest _ => True
  | _ => False
  end.

(** The world [w'] continues [w] with effects of construction that
    request the URLs [srcs], in this order. *)
Definition builds (srcs : list string) (w w' : World) : Prop :=
  exists es : list Effect,
    trace w' = (trace w ++ es)%list
    /\ Forall building es
    /\ flat_map Props.requested es = srcs.

(** The pending request of an SD texture object: its source, and the
    callback that counts it as loaded. *)
Definition requestOf (tex : Texture.t) : string * LoadCallback :=
  (Texture.source tex, CallSDLoaded).

(** The texture objects whose image has not been decoded yet. *)
Definition unloaded (texs : list Texture.t) : list Texture.t :=
  filter (fun tex => negb (Texture.isLoaded tex)) texs.

(** What the loading of the SD images drives. *)
Definition progress (g : Grid.t) : nat * bool * bool * bool :=
  (Grid.indexTextureSD g, Grid.texturesLoaded g, Grid.isIntroShown g,
   Grid.delayIntroAnimation g).

(** The [load] events of pending images: each entry of [ks] gives the
    position of the image among those still pending, and its decoded
    size. *)
Definition loads (ks : list (nat * Q * Q)) : list Grid.Event :=
  map (fun k => Grid.ImageLoaded (fst (fst k)) (snd (fst k)) (snd k)) ks.

(** Each entry of [ks] in turn addresses one of the requests still
    pending, of which there are [n] at first. *)
Fixpoint answering (n : nat) (ks : list (nat * Q * Q)) : Prop :=
  match ks with
  | [] => True
  | k :: rest => (fst (fst k) < n)%nat /\ answering (Nat.pred n) rest
  end.

(** A renderer whose SD images are loading: the pending requests are
    those of the SD textures not yet loaded, [indexTextureSD] counts the
    loaded ones, and no intro has been started unless all are loaded and
    the intro is not delayed. *)
Definition waiting (g : Grid.t) : Prop :=
  NoDup (Props.sources (Grid.textures g))
  /\ Forall (fun r => snd r = CallSDLoaded) (requests (Grid.world g))
  /\ Permutation (map fst (requests (Grid.world g)))
       (Props.sources (unloaded (Grid.textures g)))
  /\ (Grid.indexTextureSD g + List.length (requests (Grid.world g))
      = List.length (Grid.textures g))%nat
  /\ Grid.isIntroShown g = false
  /\ Grid.texturesLoaded g
     = Nat.eqb (Grid.indexTextureSD g) (List.length (Grid.textures g))
  /\ Grid.introsStarted g
     = (if Nat.eqb (Grid.indexTextureSD g) (List.length (Grid.textures g))
           && negb (Grid.delayIntroAnimation g)
        then 1 else 0)%nat.

(** The placeholder textures of the items: [textureHDInfo], made by
    [createEmptyTexture()]. *)
Definition itemTextures (g : Grid.t) : list GL.handle :=
  map (fun item => Tile.textureHDInfo (Tile.textureObject item))
    (Grid.imagesGL g).

(** Whether an animation fades a texture in, and whether one is
    registered. *)
Definition isFade (a : nat * Animation) : bool :=
  match snd a with
  | TextureFade _ _ => true
  | _ => false
  end.

Definition fading (g : Grid.t) : bool := existsb isFade (Grid.animations g).

(** The sources of the SD images still loading. *)
Definition isSD (r : string * LoadCallback) : bool :=
  match snd r with
  | CallSDLoaded => true
  | CallHDLoaded => false
  end.

Definition pendingSD (g : Grid.t) : list string :=
  map fst (filter isSD (requests (Grid.world g))).

(** What the loading of the images is about. *)
Definition stage (g : Grid.t)
  : list Texture.t * list Texture.t * list string * nat * bool :=
  (Grid.textures g, Grid.texturesHD g, pendingSD g, Grid.indexTextureSD g,
   Grid.texturesLoaded g).

Definition stageA (g : Grid.t) := (stage g, Grid.animations g).

(** An HD texture object as [main()] makes it and as it stays: it
    reports to [onTextureHDLoaded] and its opacity is 0. *)
Definition hdKind (tex : Texture.t) : Prop :=
  Texture.callbackLoaded tex = CallHDLoaded /\ Texture.opacity tex = 0.

(** The textures are veiled: either there is none left, or the SD
    images still loading are those of the SD texture objects not yet
    loaded, [indexTextureSD] counts the loaded ones, and as long as one is
    missing no texture fades in and every SD opacity is 0; the HD
    opacities are 0 throughout. *)
Definition veiled (g : Grid.t) : Prop :=
  (Grid.textures g = [] /\ Grid.texturesHD g = [])
  \/ (NoDup (Props.sources (Grid.textures g))
      /\ Forall hdKind (Grid.texturesHD g)
      /\ Permutation (pendingSD g)
           (Props.sources (unloaded (Grid.textures g)))
      /\ (Grid.indexTextureSD g + List.length (pendingSD g)
          = List.length (Grid.textures g))%nat
      /\ Grid.texturesLoaded g
         = Nat.eqb (Grid.indexTextureSD g) (List.length (Grid.textures g))
      /\ (Grid.texturesLoaded g = false ->
          fading g = false
          /\ Forall (fun tex => Texture.opacity tex = 0) (Grid.textures g))).

End Terms.

(* ================================================================= *)
(** * Properties *)

(** ** Arithmetic helpers *)

Lemma Qfloor_unique (x : Q) (n : Z) :
  inject_Z n <= x -> x < inject_Z (n + 1) -> Qfloor x = n.
Proof.
  intros Hlo Hhi.
  pose proof (Qfloor_le x) as Hf.
  pose proof (Qlt_floor x) as Hc.
  assert (H1 : (n < Qfloor x + 1)%Z).
  { rewrite Zlt_Qlt. eapply Qle_lt_trans; eassumption. }
  assert (H2 : (Qfloor x < n + 1)%Z).
  { rewrite Zlt_Qlt. eapply Qle_lt_trans; eassumption. }
  lia.
Qed.

Lemma inject_Z_thousandth (k : Z) : inject_Z k / 1000 == k # 1000.
Proof.
  unfold Qeq, Qdiv, Qmult, Qinv, inject_Z; simpl. lia.
Qed.

Lemma Math_round_integer (x : Q) (n : Z) :
  x == inject_Z n -> JS.Math_round x = n.
Proof.
  intros E. unfold JS.Math_round. apply Qfloor_unique.
  - rewrite E. lra.
  - rewrite E, inject_Z_plus. change (inject_Z 1) with 1. lra.
Qed.

Lemma Math_round_half (x : Q) (n : Z) :
  x == inject_Z n / 2 -> JS.Math_round x = ((n + 1) / 2)%Z.
Proof.
  intros E. unfold JS.Math_round.
  rewrite (Zdiv_Qdiv (n + 1) 2).
  apply Qfloor_comp. rewrite E, inject_Z_plus.
  change (inject_Z 1) with 1. change (inject_Z 2) with 2. field.
Qed.

Lemma Qmax_thousandths (a b : Z) :
  Qmax (a # 1000) (inject_Z b / 1000) == Z.max a b # 1000.
Proof.
  rewrite inject_Z_thousandth.
  destruct (Z.max_spec a b) as [[Hlt ->] | [Hle ->]].
  - apply Q.max_r. unfold Qle; simpl. lia.
  - apply Q.max_l. unfold Qle; simpl. lia.
Qed.


(** ** Zoom *)

Section Zoom.

Import Props.

Lemma targetZoom_floor (action : string) (z : Q) :
  0.25 <= Grid.targetZoom action z.
Proof. unfold Grid.targetZoom, JS.Math_max. apply Q.le_max_l. Qed.

(** The target of [zoom] in the words of the specification: the current
    zoom times 2 or 0.5, rounded to 3 decimals, not below 0.25. *)
Lemma targetZoom_formula (action : string) (z : Q) :
  Grid.targetZoom action z == Qmax 0.25 (round3 (z * factor action)).
Proof.
  unfold Grid.targetZoom, JS.Math_max, round3, factor.
  destruct (String.eqb action "zoom-in"); reflexivity.
Qed.

Lemma targetZoom_thousandths (action : string) (z : Q) (k : Z) :
  z == k # 1000 -> Grid.targetZoom action z == stepLevel action k # 1000.
Proof.
  intros E. unfold Grid.targetZoom, JS.Math_max, stepLevel.
  assert (Hq : 0.25 == 250 # 1000) by reflexivity.
  destruct (String.eqb action "zoom-in").
  - rewrite (Math_round_integer _ (2 * k)).
    + rewrite Hq. apply Qmax_thousandths.
    + rewrite E, inject_Z_mult, <- (inject_Z_thousandth k).
      change (inject_Z 2) with 2. field.
  - rewrite (Math_round_half _ k).
    + rewrite Hq. apply Qmax_thousandths.
    + rewrite E, <- (inject_Z_thousandth k). field.
Qed.

Lemma stepLevel_floor (action : string) (k : Z) : (250 <= stepLevel action k)%Z.
Proof. unfold stepLevel. destruct (String.eqb action "zoom-in"); lia. Qed.

Lemma onLadder_floor (k : Z) : onLadder k -> (250 <= k)%Z.
Proof.
  intros [-> | [[n ->] | [n ->]]]; try lia;
    pose proof (pow2_pos n); nia.
Qed.

Lemma half_succ_double (m : Z) : ((2 * m + 1) / 2 = m)%Z.
Proof. symmetry. apply Z.div_unique with (r := 1%Z); lia. Qed.

Lemma half_ladder (c : Z) (n : nat) :
  ((c * 2 ^ Z.of_nat (S n) + 1) / 2 = c * 2 ^ Z.of_nat n)%Z.
Proof.
  rewrite Nat2Z.inj_succ, Z.pow_succ_r by lia.
  replace (c * (2 * 2 ^ Z.of_nat n) + 1)%Z
    with (2 * (c * 2 ^ Z.of_nat n) + 1)%Z by lia.
  apply half_succ_double.
Qed.

Lemma pow2_pos (n : nat) : (0 < 2 ^ Z.of_nat n)%Z.
Proof. apply Z.pow_pos_nonneg; lia. Qed.

Lemma pow2_succ (n : nat) : (2 ^ Z.of_nat (S n) = 2 * 2 ^ Z.of_nat n)%Z.
Proof. rewrite Nat2Z.inj_succ, Z.pow_succ_r by lia. reflexivity. Qed.

Lemma stepLevel_onLadder (action : string) (k : Z) :
  onLadder k -> onLadder (stepLevel action k).
Proof.
  intros H. pose proof (onLadder_floor k H) as Hk.
  unfold stepLevel. destruct (String.eqb action "zoom-in").
  - rewrite Z.max_r by lia.
    destruct H as [-> | [[n ->] | [n ->]]].
    + right; left. exists 0%nat. reflexivity.
    + right; left. exists (S n). rewrite pow2_succ. lia.
    + right; right. exists (S n). rewrite pow2_succ. lia.
  - destruct H as [-> | [[[|n] ->] | [[|n] ->]]].
    + right; right. exists 0%nat. reflexivity.
    + left. reflexivity.
    + right; left. exists n. rewrite half_ladder.
      pose proof (pow2_pos n). lia.
    + right; right. exists 0%nat. reflexivity.
    + right; right. exists n. rewrite half_ladder.
      pose proof (pow2_pos n). lia.
Qed.

(** Zooming in and back out returns to the same level from anywhere at or
    above the floor. *)
Lemma stepLevel_in_out (k : Z) :
  (250 <= k)%Z -> stepLevel "zoom-out" (stepLevel "zoom-in" k) = k.
Proof.
  intros Hk. unfold stepLevel. simpl String.eqb. cbv iota.
  rewrite (Z.max_r 250 (2 * k)) by lia.
  rewrite half_succ_double. lia.
Qed.

(** Zooming out and back in returns to the same level only where halving
    stays above the floor; from 0.45 and 0.25 it ends at 0.5. *)
Lemma stepLevel_out_in (k : Z) :
  onLadder k ->
  stepLevel "zoom-in" (stepLevel "zoom-out" k)
  = (if (500 <=? k)%Z then k else 500%Z).
Proof.
  intros H. unfold stepLevel. simpl String.eqb. cbv iota.
  destruct H as [-> | [[[|n] ->] | [[|n] ->]]]; try reflexivity.
  - rewrite half_ladder, pow2_succ. pose proof (pow2_pos n).
    destruct (Z.leb_spec 500 (900 * (2 * 2 ^ Z.of_nat n))); lia.
  - rewrite half_ladder, pow2_succ. pose proof (pow2_pos n).
    destruct (Z.leb_spec 500 (250 * (2 * 2 ^ Z.of_nat n))); lia.
Qed.

End Zoom.

(** ** Frame lemmas: what the layout functions leave alone *)

Section Frames.

Import Props.

Lemma sameControl_refl (g : Grid.t) : sameControl g g.
Proof. unfold sameControl. repeat split. Qed.

Lemma sameControl_trans (a b c : Grid.t) :
  sameControl a b -> sameControl b c -> sameControl a c.
Proof.
  unfold sameControl. intros H1 H2.
  repeat match goal with H : _ /\ _ |- _ => destruct H end.
  repeat split; congruence.
Qed.

Lemma sameItem_refl (a : Tile.t) : sameItem a a.
Proof. unfold sameItem. repeat split. Qed.

Lemma sameItem_trans (a b c : Tile.t) :
  sameItem a b -> sameItem b c -> sameItem a c.
Proof.
  unfold sameItem. intros H1 H2.
  repeat match goal with H : _ /\ _ |- _ => destruct H end.
  repeat split; congruence.
Qed.

Lemma Forall2_sameItem_refl (l : list Tile.t) : Forall2 sameItem l l.
Proof. induction l; constructor; auto using sameItem_refl. Qed.

Lemma Forall2_sameItem_trans (l1 l2 l3 : list Tile.t) :
  Forall2 sameItem l1 l2 -> Forall2 sameItem l2 l3 -> Forall2 sameItem l1 l3.
Proof.
  intros H. revert l3. induction H; intros l3 H3; inversion H3; subst.
  - constructor.
  - constructor; eauto using sameItem_trans.
Qed.

Lemma Forall2_sameItem_map (f : Tile.t -> Tile.t) (l : list Tile.t) :
  (forall a, sameItem a (f a)) -> Forall2 sameItem l (map f l).
Proof. intros Hf. induction l; simpl; constructor; auto. Qed.

Lemma updateSize_sameItem (px py w : Q) (a : Tile.t) :
  sameItem a (Tile.updateSize px py w a).
Proof. unfold sameItem. repeat split. Qed.

Lemma updateBounds_sameItem d iw ih ox oy (a : Tile.t) :
  sameItem a (Tile.updateBounds d iw ih ox oy a).
Proof. unfold sameItem. repeat split. Qed.

Lemma update_sameItem (dx dy : Q) (a : Tile.t) :
  sameItem a (Tile.update dx dy a).
Proof. unfold sameItem. repeat split. Qed.

Lemma placeItems_sameItem (g : Grid.t) (x0 y0 : Q) (items : list Tile.t) :
  forall index row x y,
    Forall2 sameItem items (Grid.placeItems g x0 y0 items index row x y).
Proof.
  induction items as [|a items IH]; intros index row x y; simpl.
  - constructor.
  - destruct (Grid.remIsZero index (Grid.COLUMN_ITEM_LENGTH g));
      constructor; auto using updateSize_sameItem.
Qed.

Lemma recenter_sameControl (shift : bool) d (g : Grid.t) :
  sameControl g (Grid.recenter shift d g).
Proof. unfold sameControl. repeat split. Qed.

Lemma recenter_sameItems (shift : bool) d (g : Grid.t) :
  sameItems g (Grid.recenter shift d g).
Proof.
  unfold sameItems, Grid.recenter. cbn.
  apply Forall2_sameItem_map. intros a.
  destruct shift; unfold sameItem; repeat split.
Qed.

Lemma zoomed_recenter (z : Q) d (g g1 : Grid.t) :
  zoomed z g g1 -> zoomed z g (Grid.recenter true d g1).
Proof.
  intros (Z1 & C1 & S1 & O1 & O2 & O3).
  pose proof (recenter_sameControl true d g1) as C2.
  pose proof (recenter_sameItems true d g1) as S2.
  unfold zoomed. split; [exact Z1|].
  split; [eauto using sameControl_trans|].
  split; [unfold sameItems in *; eauto using Forall2_sameItem_trans|].
  repeat split; assumption.
Qed.

Lemma stepMin_fold_some (f : Tile.t -> Q) (l : list Tile.t) :
  forall v : Q,
    exists m : Q,
      fold_left (fun m item => Grid.stepMin m (f item)) l (Some v) = Some m.
Proof.
  induction l as [|a rest IH]; intros v; simpl.
  - eauto.
  - destruct (JS.leb (f a) v); apply IH.
Qed.

Lemma minOf_some (f : Tile.t -> Q) (l : list Tile.t) :
  l <> [] -> exists m : Q, Grid.minOf f l = Some m.
Proof.
  destruct l as [|a rest]; [congruence|]. intros _.
  unfold Grid.minOf. simpl. apply stepMin_fold_some.
Qed.

(** The total dimensions are undefined only for an empty grid. *)
Lemma dimensions_none (g : Grid.t) :
  Grid.getTotalDimensionsItems g = None -> Grid.imagesGL g = [].
Proof.
  unfold Grid.getTotalDimensionsItems.
  destruct (Grid.imagesGL g) as [|a rest] eqn:E; [reflexivity|].
  destruct (minOf_some Grid.tileX (a :: rest)) as (mx & ->); [discriminate|].
  destruct (minOf_some Grid.tileY (a :: rest)) as (my & ->); [discriminate|].
  discriminate.
Qed.

Lemma sameItems_nil (g g' : Grid.t) :
  sameItems g g' -> Grid.imagesGL g' = [] -> Grid.imagesGL g = [].
Proof.
  unfold sameItems. intros H E. rewrite E in H. inversion H. reflexivity.
Qed.

(** [applyZoom] completes or throws; either way the zoom is the new one
    and only the layout has changed.  It throws only on an empty grid. *)
Lemma applyZoom_frame (z : Q) (g : Grid.t) :
  exists g',
    (Grid.applyZoom z g = Ok g' \/ Grid.applyZoom z g = Threw g')
    /\ zoomed z g g'
    /\ (Grid.imagesGL g <> [] -> Grid.applyZoom z g = Ok g').
Proof.
  unfold Grid.applyZoom.
  match goal with
  | |- context [match Grid.imagesGL ?x with _ => _ end] =>
      set (g0 := x);
      assert (F0 : zoomed z g g0)
        by (unfold zoomed, sameControl, sameItems, g0; cbn;
            repeat split; apply Forall2_sameItem_refl)
  end.
  clearbody g0.
  destruct (Grid.imagesGL g0) as [|first rest] eqn:E0.
  - eexists; split; [right; reflexivity|]. split; [exact F0|].
    intros Hne. destruct F0 as (_ & _ & S0 & _).
    elim Hne. exact (sameItems_nil _ _ S0 E0).
  - cbv zeta.
    match goal with
    | |- context [Grid.getTotalDimensionsItems ?x] =>
        set (g1 := x);
        assert (F1 : zoomed z g g1)
    end.
    { destruct F0 as (Z0 & C0 & S0 & O0).
      unfold zoomed. split; [exact Z0|].
      split; [revert C0; unfold sameControl, g1; cbn; tauto|].
      split; [|exact O0].
      unfold sameItems in *. eapply Forall2_sameItem_trans; [exact S0|].
      unfold g1; cbn. apply placeItems_sameItem. }
    clearbody g1.
    destruct (Grid.getTotalDimensionsItems g1) as [d|] eqn:Ed.
    + pose proof (zoomed_recenter z d g g1 F1) as F2.
      set (g2 := Grid.recenter true d g1) in *. clearbody g2.
      destruct (Grid.imagesGL g2) as [|f2 r2] eqn:E2.
      * eexists; split; [right; reflexivity|]. split; [exact F2|].
        intros Hne. destruct F2 as (_ & _ & S2 & _).
        elim Hne. exact (sameItems_nil _ _ S2 E2).
      * eexists; split; [left; reflexivity|].
        split; [|reflexivity].
        revert F2. unfold zoomed, sameControl, sameItems. cbn. tauto.
    + eexists; split; [right; reflexivity|]. split; [exact F1|].
      intros Hne. destruct F1 as (_ & _ & S1 & _).
      elim Hne. exact (sameItems_nil _ _ S1 (dimensions_none _ Ed)).
Qed.

(** [setSizeItemsDefault] changes the layout only, and throws only on an
    empty grid. *)
Lemma setSizeItemsDefault_frame (g : Grid.t) :
  exists g',
    (Grid.setSizeItemsDefault g = Ok g' \/ Grid.setSizeItemsDefault g = Threw g')
    /\ sameControl g g'
    /\ sameItems g g'
    /\ (Grid.imagesGL g <> [] -> Grid.setSizeItemsDefault g = Ok g').
Proof.
  unfold Grid.setSizeItemsDefault.
  match goal with
  | |- context [Grid.getTotalDimensionsItems ?x] =>
      set (g1 := x);
      assert (C1 : sameControl g g1) by (unfold sameControl, g1; repeat split);
      assert (S1 : sameItems g g1)
        by (unfold sameItems, g1; cbn; apply placeItems_sameItem)
  end.
  clearbody g1.
  destruct (Grid.getTotalDimensionsItems g1) as [d|] eqn:Ed.
  - destruct (Grid.imagesGL g1) as [|f1 r1] eqn:E1.
    + eexists; split; [right; reflexivity|]. split; [exact C1|].
      split; [exact S1|]. intros Hne. elim Hne. exact (sameItems_nil _ _ S1 E1).
    + pose proof (recenter_sameControl true d g1) as C2.
      pose proof (recenter_sameItems true d g1) as S2.
      assert (C : sameControl g (Grid.recenter true d g1))
        by eauto using sameControl_trans.
      assert (S : sameItems g (Grid.recenter true d g1))
        by (unfold sameItems in *; eauto using Forall2_sameItem_trans).
      set (g2 := Grid.recenter true d g1) in *. clearbody g2.
      destruct (Grid.imagesGL g2) as [|f2 r2] eqn:E2.
      * eexists; split; [right; reflexivity|]. split; [exact C|].
        split; [exact S|]. intros Hne. elim Hne. exact (sameItems_nil _ _ S E2).
      * eexists; split; [left; reflexivity|].
        split; [revert C; unfold sameControl; cbn; tauto|].
        split; [revert S; unfold sameItems; cbn; tauto|reflexivity].
  - eexists; split; [right; reflexivity|]. split; [exact C1|].
    split; [exact S1|]. intros Hne. elim Hne.
    exact (sameItems_nil _ _ S1 (dimensions_none _ Ed)).
Qed.

End Frames.

(** ** Zoom actions on the renderer *)

Section ZoomActions.

Import Props.

Lemma lookupAnim_fresh (n : nat) (a : Animation) (l : list (nat * Animation)) :
  Forall (fun e => (fst e < n)%nat) l ->
  Grid.lookupAnim n (l ++ [(n, a)]) = Some a.
Proof.
  induction 1 as [|[k b] l Hk _ IH]; simpl.
  - rewrite Nat.eqb_refl. reflexivity.
  - simpl in Hk. destruct (Nat.eqb_spec k n); [lia | exact IH].
Qed.

Lemma lookupAnim_absent (n : nat) (l : list (nat * Animation)) :
  Forall (fun e => (fst e < n)%nat) l -> Grid.lookupAnim n l = None.
Proof.
  induction 1 as [|[k b] l Hk _ IH]; simpl.
  - reflexivity.
  - simpl in Hk. destruct (Nat.eqb_spec k n); [lia | exact IH].
Qed.

Lemma removeAnim_bound (n id : nat) (l : list (nat * Animation)) :
  Forall (fun e => (fst e < n)%nat) l ->
  Forall (fun e => (fst e < n)%nat) (Grid.removeAnim id l).
Proof.
  unfold Grid.removeAnim. intros H. rewrite Forall_forall in *.
  intros e He. apply filter_In in He. apply H, He.
Qed.

Lemma replaceAnim_bound (n id : nat) (a : Animation) (l : list (nat * Animation)) :
  Forall (fun e => (fst e < n)%nat) l ->
  Forall (fun e => (fst e < n)%nat) (Grid.replaceAnim id a l).
Proof.
  induction 1 as [|[k b] l Hk Hl IH]; simpl.
  - constructor.
  - destruct (Nat.eqb k id); constructor; auto.
Qed.

Lemma bound_weaken (n : nat) (l : list (nat * Animation)) :
  Forall (fun e => (fst e < n)%nat) l ->
  Forall (fun e => (fst e < S n)%nat) l.
Proof. apply Forall_impl. intros; lia. Qed.

Lemma mix_end (from to_ : Q) : Grid.mix from to_ 1 == to_.
Proof. unfold Grid.mix. ring. Qed.

Lemma zoom_shown (action : string) (g : Grid.t) :
  Grid.isIntroShown g = true ->
  Grid.animations (Grid.zoom action g)
    = (Grid.animations g
       ++ [(nextAnim (Grid.world g),
            ZoomTween (Grid.currentZoom g)
              (Grid.targetZoom action (Grid.currentZoom g)))])%list
  /\ nextAnim (Grid.world (Grid.zoom action g)) = S (nextAnim (Grid.world g))
  /\ Grid.isIntroShown (Grid.zoom action g) = true
  /\ Grid.currentZoom (Grid.zoom action g) = Grid.currentZoom g.
Proof.
  intros H. unfold Grid.zoom. rewrite H. repeat split. exact H.
Qed.

Lemma zoom_not_shown (action : string) (g : Grid.t) :
  Grid.isIntroShown g = false -> Grid.zoom action g = g.
Proof. intros H. unfold Grid.zoom. rewrite H. reflexivity. Qed.

(** The end of a zoom tween: the zoom is the tween's target; the tween is
    unregistered unless [applyZoom] threw. *)
Lemma complete_zoomTween (id : nat) (from to_ : Q) (g : Grid.t) :
  Grid.lookupAnim id (Grid.animations g) = Some (ZoomTween from to_) ->
  let r := Grid.fire (Grid.Complete id) g in
  Grid.currentZoom r == to_
  /\ Grid.isIntroShown r = Grid.isIntroShown g
  /\ Grid.world r = Grid.world g
  /\ (Grid.animations r = Grid.removeAnim id (Grid.animations g)
      \/ Grid.animations r
         = Grid.replaceAnim id (ZoomTween from to_) (Grid.animations g)).
Proof.
  intros L. unfold Grid.fire, Grid.animationComplete. rewrite L.
  unfold Grid.renderAnimation.
  destruct (applyZoom_frame (Grid.mix from to_ 1) g)
    as (g' & [E | E] & (Z & C & _) & _); rewrite E; clear E;
    destruct C as (_&_&_&_&_&_&_&_&_&_&Cshown&_&_&_&_&_&_&_&_&_&Cworld&Canim&_).
  - split; [cbv zeta; eapply Qeq_trans; [|apply (mix_end from to_)];
           rewrite <- Z; apply Qeq_refl|].
    split; [exact Cshown|]. split; [exact Cworld|].
    left. rewrite <- Canim. reflexivity.
  - split; [cbv zeta; eapply Qeq_trans; [|apply (mix_end from to_)];
           rewrite <- Z; apply Qeq_refl|].
    split; [exact Cshown|]. split; [exact Cworld|].
    right. rewrite <- Canim. reflexivity.
Qed.

(** One settled zoom action on a renderer whose intro is over. *)
Lemma zoomSettled_shown (action : string) (g : Grid.t) :
  Grid.isIntroShown g = true -> animFresh g ->
  Grid.currentZoom (Grid.zoomSettled action g)
    == Grid.targetZoom action (Grid.currentZoom g)
  /\ Grid.isIntroShown (Grid.zoomSettled action g) = true
  /\ animFresh (Grid.zoomSettled action g).
Proof.
  intros Hshown Hfresh.
  destruct (zoom_shown action g Hshown) as (A & N & Sh' & _).
  unfold Grid.zoomSettled.
  assert (L : Grid.lookupAnim (nextAnim (Grid.world g))
                (Grid.animations (Grid.zoom action g))
              = Some (ZoomTween (Grid.currentZoom g)
                        (Grid.targetZoom action (Grid.currentZoom g)))).
  { rewrite A. apply lookupAnim_fresh, Hfresh. }
  destruct (complete_zoomTween _ _ _ _ L) as (Z & Sh & W & An).
  split; [exact Z|]. split; [rewrite Sh; exact Sh'|].
  unfold animFresh. rewrite W, N.
  assert (B : Forall (fun e => (fst e < S (nextAnim (Grid.world g)))%nat)
                (Grid.animations (Grid.zoom action g))).
  { rewrite A. apply Forall_app. split.
    - apply bound_weaken, Hfresh.
    - repeat constructor. }
  destruct An as [-> | ->].
  - apply removeAnim_bound, B.
  - apply replaceAnim_bound, B.
Qed.

(** Before the intro is over [zoom] does nothing, and neither does the
    completion of a tween that was never created. *)
Lemma zoomSettled_not_shown (action : string) (g : Grid.t) :
  Grid.isIntroShown g = false -> animFresh g ->
  Grid.zoomSettled action g = g.
Proof.
  intros H F. unfold Grid.zoomSettled. rewrite (zoom_not_shown _ _ H).
  unfold Grid.fire, Grid.animationComplete.
  rewrite lookupAnim_absent by exact F. reflexivity.
Qed.

Lemma zoomAll_invariant (actions : list string) :
  forall (g : Grid.t) (k : Z),
    Grid.isIntroShown g = true -> animFresh g ->
    Grid.currentZoom g == k # 1000 -> onLadder k ->
    exists k',
      Grid.currentZoom (zoomAll actions g) == k' # 1000
      /\ onLadder k'
      /\ Grid.isIntroShown (zoomAll actions g) = true
      /\ animFresh (zoomAll actions g).
Proof.
  induction actions as [|a rest IH]; intros g k Hs Hf Hz Hl.
  - exists k. auto.
  - simpl. destruct (zoomSettled_shown a g Hs Hf) as (Z & S' & F').
    apply (IH _ (stepLevel a k)); auto.
    + rewrite Z. apply targetZoom_thousandths, Hz.
    + apply stepLevel_onLadder, Hl.
Qed.

Lemma zoomAll_one (a : string) (s : Grid.t) (k : Z) :
  Grid.isIntroShown s = true -> animFresh s ->
  Grid.currentZoom s == k # 1000 ->
  Grid.currentZoom (zoomAll [a] s) == stepLevel a k # 1000
  /\ Grid.isIntroShown (zoomAll [a] s) = true
  /\ animFresh (zoomAll [a] s).
Proof.
  intros Sk Fk Zk. simpl.
  destruct (zoomSettled_shown a s Sk Fk) as (Z1 & S1 & F1).
  split; [|split; assumption].
  rewrite Z1. apply targetZoom_thousandths, Zk.
Qed.

Lemma zoomAll_two (a b : string) (s : Grid.t) (k : Z) :
  Grid.isIntroShown s = true -> animFresh s ->
  Grid.currentZoom s == k # 1000 ->
  Grid.currentZoom (zoomAll [a; b] s)
    == stepLevel b (stepLevel a k) # 1000.
Proof.
  intros Sk Fk Zk.
  destruct (zoomAll_one a s k Sk Fk Zk) as (Z1 & S1 & F1).
  destruct (zoomAll_one b _ _ S1 F1 Z1) as (Z2 & _).
  exact Z2.
Qed.

Lemma zoomAll_app (xs ys : list string) (g : Grid.t) :
  zoomAll (xs ++ ys) g = zoomAll ys (zoomAll xs g).
Proof. unfold zoomAll. apply fold_left_app. Qed.

Lemma zoomAll_zoom_in (n : nat) :
  forall (g : Grid.t) (m : nat),
    Grid.isIntroShown g = true -> animFresh g ->
    Grid.currentZoom g == (900 * 2 ^ Z.of_nat m) # 1000 ->
    Grid.currentZoom (zoomAll (repeat "zoom-in"%string n) g)
      == (900 * 2 ^ Z.of_nat (m + n)) # 1000.
Proof.
  induction n as [|n IH]; intros g m Hs Hf Hz.
  - simpl. rewrite Nat.add_0_r. exact Hz.
  - simpl. destruct (zoomSettled_shown "zoom-in" g Hs Hf) as (Z & S' & F').
    rewrite (IH _ (S m) S' F').
    + replace (S m + n)%nat with (m + S n)%nat by lia. reflexivity.
    + rewrite Z, (targetZoom_thousandths _ _ _ Hz).
      unfold stepLevel. simpl String.eqb. cbv iota.
      rewrite pow2_succ. pose proof (pow2_pos m).
      rewrite Z.max_r by lia.
      replace (2 * (900 * 2 ^ Z.of_nat m))%Z
        with (900 * (2 * 2 ^ Z.of_nat m))%Z by lia.
      reflexivity.
Qed.

Lemma ladder_value (b : Z) : (900 * b) # 1000 == 0.9 * inject_Z b.
Proof.
  unfold Qeq, Qmult, inject_Z. cbn [Qnum Qden].
  change (Z.pos (10 * 1)) with 10%Z. lia.
Qed.

Lemma resting_on_ladder : onLadder 900.
Proof. right; left. exists 0%nat. reflexivity. Qed.

Lemma sample_resting_ready :
  Grid.isIntroShown Sample.resting = true
  /\ animFresh Sample.resting
  /\ Grid.currentZoom Sample.resting == 0.9.
Proof.
  split; [vm_compute; reflexivity|].
  split; [|vm_compute; reflexivity].
  unfold animFresh. vm_compute. repeat constructor.
Qed.

End ZoomActions.

(** ** C10: every action other than 'zoom-in' zooms out *)

(** C10.  Once the intro has completed, [zoom(action)] with any action
    string other than 'zoom-in' is accepted and behaves as 'zoom-out': a
    tween is created whose target is the current zoom halved, rounded to 3
    decimals and clamped at 0.25, and that is the zoom once the tween has
    run. *)
Theorem zoom_other_action_zooms_out (action : string) (g : Grid.t) :
  Grid.isIntroShown g = true ->
  action <> "zoom-in"%string ->
  let target :=
    Qmax 0.25 (inject_Z (JS.Math_round (Grid.currentZoom g * 0.5 * 1000)) / 1000) in
  Grid.zoom action g = Grid.zoom "zoom-out" g
  /\ Grid.animations (Grid.zoom action g)
     = (Grid.animations g
        ++ [(nextAnim (Grid.world g), ZoomTween (Grid.currentZoom g) target)])%list
  /\ (Props.animFresh g ->
      Grid.currentZoom (Grid.zoomSettled action g) == target).
Proof.
  intros Hshown Hneq target.
  assert (T : Grid.targetZoom action (Grid.currentZoom g) = target).
  { unfold Grid.targetZoom, target, JS.Math_max.
    apply String.eqb_neq in Hneq. rewrite Hneq. reflexivity. }
  split.
  - unfold Grid.zoom. rewrite Hshown. simpl negb. cbv iota.
    rewrite T. reflexivity.
  - split.
    + destruct (zoom_shown action g Hshown) as (A & _). rewrite A, T. reflexivity.
    + intros Hfresh.
      destruct (zoomSettled_shown action g Hshown Hfresh) as (Z & _).
      rewrite Z, T. reflexivity.
Qed.

Lemma zoom_other_action_witness :
  Grid.isIntroShown Sample.resting = true
  /\ "sideways"%string <> "zoom-in"%string
  /\ Grid.zoom "sideways" Sample.resting = Grid.zoom "zoom-out" Sample.resting.
Proof.
  assert (Hs : Grid.isIntroShown Sample.resting = true) by (vm_compute; reflexivity).
  assert (Hn : "sideways"%string <> "zoom-in"%string) by discriminate.
  split; [exact Hs|]. split; [exact Hn|].
  exact (proj1 (zoom_other_action_zooms_out "sideways" Sample.resting Hs Hn)).
Defined.

(** ** C3: the zoom never goes below 0.25 *)

(** C3.  From the resting zoom 0.9 reached at the end of the intro, after
    any sequence of [zoom] calls (each animation run to its end) the zoom is
    at least 0.25; each call sets it to the current zoom times 2 ('zoom-in')
    or 0.5 (otherwise), rounded to 3 decimals and clamped below at 0.25;
    there is no upper clamp: [n] calls of 'zoom-in' give 0.9 * 2^n. *)
Theorem zoom_never_below_floor (g : Grid.t) (actions : list string) :
  Grid.isIntroShown g = true ->
  Props.animFresh g ->
  Grid.currentZoom g == 0.9 ->
  0.25 <= Grid.currentZoom (Props.zoomAll actions g)
  /\ (forall a : string,
        Grid.currentZoom (Grid.zoomSettled a (Props.zoomAll actions g))
        == Qmax 0.25
             (Props.round3 (Grid.currentZoom (Props.zoomAll actions g)
                            * Props.factor a)))
  /\ (forall n : nat,
        Grid.currentZoom (Props.zoomAll (repeat "zoom-in"%string n) g)
        == 0.9 * inject_Z (2 ^ Z.of_nat n)).
Proof.
  intros Hs Hf Hz.
  assert (Hk : Grid.currentZoom g == 900 # 1000) by (rewrite Hz; reflexivity).
  destruct (zoomAll_invariant actions g 900 Hs Hf Hk resting_on_ladder)
    as (k & Zk & Lk & Sk & Fk).
  split; [|split].
  - rewrite Zk. pose proof (onLadder_floor k Lk). unfold Qle; simpl. lia.
  - intros a. destruct (zoomSettled_shown a _ Sk Fk) as (Z & _).
    rewrite Z. apply targetZoom_formula.
  - intros n. rewrite (zoomAll_zoom_in n g 0 Hs Hf Hk). simpl Nat.add.
    apply ladder_value.
Qed.

Lemma zoom_never_below_floor_witness :
  Grid.isIntroShown Sample.resting = true
  /\ Props.animFresh Sample.resting
  /\ Grid.currentZoom Sample.resting == 0.9
  /\ 0.25 <= Grid.currentZoom
               (Props.zoomAll ["zoom-out"; "zoom-out"; "zoom-out"]%string
                  Sample.resting).
Proof.
  assert (Hs : Grid.isIntroShown Sample.resting = true) by (vm_compute; reflexivity).
  assert (Hf : Props.animFresh Sample.resting)
    by (unfold Props.animFresh; vm_compute; repeat constructor).
  assert (Hz : Grid.currentZoom Sample.resting == 0.9) by (vm_compute; reflexivity).
  split; [exact Hs|]. split; [exact Hf|]. split; [exact Hz|].
  exact (proj1 (zoom_never_below_floor Sample.resting
                  ["zoom-out"; "zoom-out"; "zoom-out"]%string Hs Hf Hz)).
Defined.

(** ** C2: zooming in and out again *)

(** C2, as stated, fails.  From the resting zoom 0.9 one 'zoom-out' gives
    0.45; from there 'zoom-out' is clamped to 0.25 and the following
    'zoom-in' gives 0.5, which is not within 0.001 of 0.45. *)
Lemma zoom_out_in_counterexample :
  let reached := Props.zoomAll ["zoom-out"]%string Sample.resting in
  Grid.currentZoom reached == 0.45
  /\ Grid.currentZoom (Props.zoomAll ["zoom-out"; "zoom-in"]%string reached) == 0.5
  /\ ~ Props.withinRounding
        (Grid.currentZoom (Props.zoomAll ["zoom-out"; "zoom-in"]%string reached))
        (Grid.currentZoom reached).
Proof.
  intros reached.
  destruct sample_resting_ready as (Hs & Hf & Hz).
  assert (Hk : Grid.currentZoom Sample.resting == 900 # 1000)
    by (rewrite Hz; reflexivity).
  destruct (zoomAll_one "zoom-out" _ _ Hs Hf Hk) as (Z1 & S1 & F1).
  fold reached in Z1, S1, F1.
  pose proof (zoomAll_two "zoom-out" "zoom-in" _ _ S1 F1 Z1) as Z2.
  assert (E1 : Grid.currentZoom reached == 0.45) by (rewrite Z1; reflexivity).
  assert (E2 : Grid.currentZoom
                 (Props.zoomAll ["zoom-out"; "zoom-in"]%string reached) == 0.5)
    by (rewrite Z2; reflexivity).
  split; [exact E1|]. split; [exact E2|].
  unfold Props.withinRounding.
  generalize dependent (Grid.currentZoom
    (Props.zoomAll ["zoom-out"; "zoom-in"]%string reached)).
  generalize dependent (Grid.currentZoom reached).
  intros y _ E1 x _ E2 H. rewrite E1, E2 in H.
  apply H. reflexivity.
Qed.

(** C2, amended.  For every zoom value [z] reached from the resting zoom
    0.9 by [zoom] calls: 'zoom-in' then 'zoom-out' returns exactly to [z];
    'zoom-out' then 'zoom-in' returns exactly to [z] when [z >= 0.5], and
    otherwise ([z] is 0.45 or 0.25, where the halved value is clamped to
    0.25) ends at 0.5. *)
Theorem zoom_round_trip (g : Grid.t) (actions : list string) :
  Grid.isIntroShown g = true ->
  Props.animFresh g ->
  Grid.currentZoom g == 0.9 ->
  let s := Props.zoomAll actions g in
  let z := Grid.currentZoom s in
  Grid.currentZoom (Props.zoomAll ["zoom-in"; "zoom-out"]%string s) == z
  /\ (0.5 <= z ->
      Grid.currentZoom (Props.zoomAll ["zoom-out"; "zoom-in"]%string s) == z)
  /\ (z < 0.5 ->
      (z == 0.45 \/ z == 0.25)
      /\ Grid.currentZoom (Props.zoomAll ["zoom-out"; "zoom-in"]%string s) == 0.5).
Proof.
  intros Hs Hf Hz s z.
  assert (Hk : Grid.currentZoom g == 900 # 1000) by (rewrite Hz; reflexivity).
  destruct (zoomAll_invariant actions g 900 Hs Hf Hk resting_on_ladder)
    as (k & Zk & Lk & Sk & Fk).
  fold s in Zk, Sk, Fk. fold z in Zk.
  pose proof (onLadder_floor k Lk) as Hfloor.
  assert (Two : forall a b : string,
             Grid.currentZoom (Props.zoomAll [a; b] s)
             == Props.stepLevel b (Props.stepLevel a k) # 1000)
    by (intros a b; apply zoomAll_two; assumption).
  split; [|split].
  - rewrite Two, stepLevel_in_out by exact Hfloor. symmetry. exact Zk.
  - intros Hge. rewrite Two, stepLevel_out_in by exact Lk.
    assert (500 <= k)%Z by (rewrite Zk in Hge; unfold Qle in Hge; simpl in Hge; lia).
    destruct (Z.leb_spec 500 k); [symmetry; exact Zk | lia].
  - intros Hlt.
    assert (Hk500 : (k < 500)%Z)
      by (rewrite Zk in Hlt; unfold Qlt in Hlt; simpl in Hlt; lia).
    split.
    + destruct Lk as [-> | [[n ->] | [[|n] ->]]].
      * left. rewrite Zk. reflexivity.
      * pose proof (pow2_pos n). lia.
      * right. rewrite Zk. reflexivity.
      * rewrite pow2_succ in Hk500. pose proof (pow2_pos n). lia.
    + rewrite Two, stepLevel_out_in by exact Lk.
      destruct (Z.leb_spec 500 k); [lia | reflexivity].
Qed.

Lemma zoom_round_trip_witness :
  Grid.isIntroShown Sample.resting = true
  /\ Props.animFresh Sample.resting
  /\ Grid.currentZoom Sample.resting == 0.9
  /\ Grid.currentZoom
       (Props.zoomAll ["zoom-in"; "zoom-out"]%string
          (Props.zoomAll ["zoom-in"]%string Sample.resting))
     == Grid.currentZoom (Props.zoomAll ["zoom-in"]%string Sample.resting).
Proof.
  assert (Hs : Grid.isIntroShown Sample.resting = true) by (vm_compute; reflexivity).
  assert (Hf : Props.animFresh Sample.resting)
    by (unfold Props.animFresh; vm_compute; repeat constructor).
  assert (Hz : Grid.currentZoom Sample.resting == 0.9) by (vm_compute; reflexivity).
  split; [exact Hs|]. split; [exact Hf|]. split; [exact Hz|].
  exact (proj1 (zoom_round_trip Sample.resting ["zoom-in"]%string Hs Hf Hz)).
Defined.

(** ** C4: wraparound of the items *)

Section Wraparound.

Import Props.

Lemma leb_true (x y : Q) : JS.leb x y = true <-> x <= y.
Proof. unfold JS.leb. apply Qle_bool_iff. Qed.

Lemma leb_false (x y : Q) : JS.leb x y = false <-> y < x.
Proof.
  unfold JS.leb. split; intros H.
  - apply Qnot_le_lt. intros L. apply Qle_bool_iff in L. congruence.
  - destruct (Qle_bool x y) eqn:E; [|reflexivity].
    apply Qle_bool_iff in E. lra.
Qed.









(** Each frame hands one and the same delta to every item. *)
Lemma frame_moves_all_items (g : Grid.t) :
  exists dx dy : Q,
    Grid.imagesGL (Grid.update g) = map (Tile.update dx dy) (Grid.imagesGL g).
Proof.
  unfold Grid.update. destruct (Grid.isDragging _); eexists; eexists; reflexivity.
Qed.

End Wraparound.




(** ** C5: the placeholder pixel *)

(** C5, as stated, fails.  For an image whose colour is [#ff0000], in a
    fresh WebGL context, the 1x1 placeholder that [createImageTexture]
    uploads is the RGBA pixel (0, 0, 255, 255), blue; the colour is only
    parsed into the fields [r], [g], [b] of the texture object, here
    (1, 0, 0). *)
Lemma placeholder_pixel_counterexample :
  let w := {| nextHandle := 0%nat; nextAnim := 0%nat; trace := [];
              requests := [] |} in
  let made :=
    Texture.createImageTexture "a.jpg" "#ff0000" CallSDLoaded true w in
  trace (snd made)
  = [GlCreateTexture 0%nat; GlTexImagePixel 0%nat [0; 0; 255; 255]%Z;
     ImageRequest "a.jpg"]
  /\ Color.hexToRgb "#ff0000"
     = {| Color.r := 255; Color.g := 0; Color.b := 0 |}
  /\ Texture.r (fst made) == 1
  /\ Texture.g (fst made) == 0
  /\ Texture.b (fst made) == 0.
Proof.
  repeat split.
Qed.

(** ** C7: repeated [load()] *)

(** C7 (the code departs from it).  [isInit] is set only by
    [createImageTexture] when it loads immediately, which it does for SD
    textures: calling [load()] on them again requests nothing.  An HD
    texture is created without loading and [load()] never sets [isInit], so
    every call issues a new image request: on the sample renderer zoomed
    past 8, the first frame requests the HD source once per visible item
    that carries it (two items), and the second frame requests it again. *)
Theorem hd_load_requests_every_time (src colour : string) (w : World) :
  let sd := Texture.createImageTexture src colour CallSDLoaded true w in
  let hd := Texture.createImageTexture src colour CallHDLoaded false w in
  trace (Texture.load (fst sd) (snd sd)) = trace (snd sd)
  /\ Texture.isInit (fst hd) = false
  /\ trace (Texture.load (fst hd) (Texture.load (fst hd) (snd hd)))
     = (trace (snd hd) ++ [ImageRequest src; ImageRequest src])%list
  /\ Grid.requestsFor "b.jpg?h=3200&fm=avif&q=80&fit=fill" Sample.zoomedIn = 0%nat
  /\ Grid.requestsFor "b.jpg?h=3200&fm=avif&q=80&fit=fill"
       (Grid.run [Grid.Frame] Sample.zoomedIn) = 2%nat
  /\ Grid.requestsFor "b.jpg?h=3200&fm=avif&q=80&fit=fill"
       (Grid.run [Grid.Frame; Grid.Frame] Sample.zoomedIn) = 4%nat.
Proof.
  split; [reflexivity|]. split; [reflexivity|].
  split; [cbn; rewrite <- app_assoc; reflexivity|].
  split; [vm_compute; reflexivity|].
  split; vm_compute; reflexivity.
Qed.

(** ** C1: the intro sequence *)

(** C1 (the code departs from it).  [isIntroShown] becomes true only when
    the intro timeline completes.  On the sample renderer the last SD image
    load starts the intro; a call of [startIntroSequence()] while that
    timeline is running creates a second one. *)
Theorem intro_started_twice :
  Grid.texturesLoaded Sample.loaded = true
  /\ Grid.isIntroShown Sample.loaded = false
  /\ Grid.introsStarted Sample.loaded = 1%nat
  /\ Grid.introsStarted (Grid.run [Grid.StartIntro] Sample.loaded) = 2%nat
  /\ Grid.introsStarted (Grid.run [Grid.Complete 2; Grid.StartIntro] Sample.loaded)
     = 1%nat.
Proof.
  repeat split; vm_compute; reflexivity.
Qed.

(** ** Growth of the trace *)

Section Traces.

Import Props.

Lemma grows_refl (srcs : list string) (t : list Effect) : grows srcs t t.
Proof. exists []. rewrite app_nil_r. split; [reflexivity | constructor]. Qed.

Lemma grows_trans (srcs : list string) (t1 t2 t3 : list Effect) :
  grows srcs t1 t2 -> grows srcs t2 t3 -> grows srcs t1 t3.
Proof.
  intros (a & -> & Ha) (b & -> & Hb). exists (a ++ b)%list.
  rewrite app_assoc. split; [reflexivity | apply Forall_app; auto].
Qed.

Lemma grows_snoc (srcs : list string) (t t' es : list Effect) :
  grows srcs t t' -> Forall (allowed srcs) es -> grows srcs t (t' ++ es).
Proof.
  intros H Hes. eapply grows_trans; [exact H|].
  exists es. auto.
Qed.

End Traces.

(** ** Construction of the grid *)

Section Shuffle.

Context {A : Type}.

Lemma assign_perm (l : list A) :
  forall (j : nat) (aj a : A),
    nth_error l j = Some aj ->
    Permutation (aj :: JS.assign l j a) (a :: l).
Proof.
  induction l as [|x rest IH]; intros j aj a H.
  - destruct j; discriminate.
  - destruct j as [|j']; simpl in *.
    + injection H as ->. apply perm_swap.
    + eapply perm_trans; [apply perm_swap|].
      eapply perm_trans; [|apply perm_swap].
      apply perm_skip. apply IH, H.
Qed.

Lemma swap_perm (l : list A) :
  forall i j : nat, Permutation (JS.swap l i j) l.
Proof.
  unfold JS.swap, JS.index.
  induction l as [|x rest IH]; intros i j.
  - destruct i; reflexivity.
  - destruct i as [|i'], j as [|j']; simpl.
    + reflexivity.
    + destruct (nth_error rest j') as [aj|] eqn:Ej; [|reflexivity].
      apply assign_perm, Ej.
    + destruct (nth_error rest i') as [ai|] eqn:Ei; [|reflexivity].
      apply assign_perm, Ei.
    + specialize (IH i' j').
      destruct (nth_error rest i') as [ai|]; [|reflexivity].
      destruct (nth_error rest j') as [aj|]; [|reflexivity].
      apply perm_skip, IH.
Qed.

Lemma shuffleLoop_perm (rand : nat -> Q) (i : nat) :
  forall (k : nat) (arr : list A),
    Permutation (fst (shuffleLoop rand k i arr)) arr.
Proof.
  induction i as [|i IH]; intros k arr; simpl.
  - reflexivity.
  - eapply perm_trans; [apply IH|]. apply swap_perm.
Qed.

Lemma randomizeArray_perm (rand : nat -> Q) (k : nat) (arr : list A) :
  Permutation (fst (randomizeArray rand k arr)) arr.
Proof. apply shuffleLoop_perm. Qed.

Lemma findIndex_some (p : A -> bool) (l : list A) :
  (exists x, In x l /\ p x = true) ->
  exists i x, JS.findIndex p l = Some i /\ nth_error l i = Some x /\ p x = true.
Proof.
  induction l as [|a rest IH]; intros (x & Hin & Hp).
  - destruct Hin.
  - simpl. destruct (p a) eqn:Ea.
    + exists 0%nat, a. auto.
    + destruct Hin as [-> | Hin]; [congruence|].
      destruct IH as (i & y & E & N & P); [eauto|].
      exists (S i), y. rewrite E. auto.
Qed.

End Shuffle.

Section Main.

Import Props.

Lemma getImageSource_setup (g g' : Grid.t) :
  setup g' = setup g ->
  forall img hd, Grid.getImageSource g' img hd = Grid.getImageSource g img hd.
Proof.
  unfold setup. intros E img hd. injection E as _ Ef Em Ep _ _ _.
  unfold Grid.getImageSource. rewrite Ef, Em, Ep. reflexivity.
Qed.

Lemma needHDTexture_setup (g g' : Grid.t) :
  setup g' = setup g ->
  forall img, Grid.needHDTexture g' img = Grid.needHDTexture g img.
Proof.
  unfold setup. intros E img. injection E as _ _ Em Ep Ee _ _.
  unfold Grid.needHDTexture, Grid.isMobileViewport. rewrite Em, Ep, Ee.
  reflexivity.
Qed.

Lemma nth_error_seq_inv (n : nat) :
  forall s i k : nat,
    nth_error (seq s n) i = Some k -> k = (s + i)%nat /\ (i < n)%nat.
Proof.
  induction n as [|n IH]; intros s i k H; simpl in H.
  - destruct i; discriminate.
  - destruct i as [|i]; simpl in H.
    + injection H as <-. lia.
    + apply IH in H. lia.
Qed.

Lemma selected_entry (l : list Image) (i : nat) :
  l <> [] ->
  match List.length l with
  | O => None
  | S m => JS.index l (i mod S m)
  end = nth_error l (i mod List.length l).
Proof. destruct l; [congruence | reflexivity]. Qed.

Lemma selectedImages_some (g : Grid.t) :
  Grid.images g <> [] ->
  exists imgs : list Image,
    Grid.selectedImages g = map Some imgs
    /\ List.length imgs
       = (Grid.COLUMN_ITEM_LENGTH g * Grid.ROW_ITEM_LENGTH g)%nat
    /\ (forall i img,
          nth_error imgs i = Some img ->
          nth_error (Grid.images g) (i mod List.length (Grid.images g))
          = Some img).
Proof.
  intros Hne. unfold Grid.selectedImages.
  set (M := (Grid.COLUMN_ITEM_LENGTH g * Grid.ROW_ITEM_LENGTH g)%nat).
  set (l := Grid.images g) in *.
  assert (Hn : List.length l <> 0%nat) by (destruct l; simpl; congruence).
  destruct l as [|d rest] eqn:El; [congruence|]. rewrite <- El in *.
  exists (map (fun i => nth (i mod List.length l) l d) (seq 0 M)).
  split; [|split].
  - rewrite map_map. apply map_ext. intros i.
    rewrite (selected_entry l i Hne).
    apply nth_error_nth'. apply Nat.mod_upper_bound. exact Hn.
  - rewrite length_map, length_seq. reflexivity.
  - intros i img H.
    rewrite nth_error_map in H.
    destruct (nth_error (seq 0 M) i) as [k|] eqn:Ek; [|discriminate].
    simpl in H. injection H as <-.
    apply nth_error_seq_inv in Ek. destruct Ek as [-> _]. simpl.
    apply nth_error_nth'. apply Nat.mod_upper_bound. exact Hn.
Qed.

Lemma prepareImageData_some (g : Grid.t) (imgs : list Image) :
  Grid.prepareImageData g (map Some imgs) = Some (map (infoOf g) imgs).
Proof.
  induction imgs as [|img rest IH]; simpl.
  - reflexivity.
  - rewrite IH. reflexivity.
Qed.

Lemma createImageTexture_fields (src colour : string) (cb : LoadCallback)
    (now : bool) (w : World) :
  let tex := fst (Texture.createImageTexture src colour cb now w) in
  Texture.source tex = src
  /\ Texture.texture tex = Some (nextHandle w)
  /\ Texture.isInit tex = now
  /\ Texture.callbackLoaded tex = cb.
Proof. destruct now; repeat split. Qed.

Lemma includes_true (l : list string) (s : string) :
  JS.includes l s = true <-> In s l.
Proof.
  unfold JS.includes. rewrite existsb_exists. split.
  - intros (x & Hin & E). apply String.eqb_eq in E. subst. exact Hin.
  - intros Hin. exists s. split; [exact Hin | apply String.eqb_refl].
Qed.

Lemma mapTextures_spec (g : Grid.t) (hd : bool) (imgs : list Image) :
  forall (processed : list string) (w : World) r p w',
    Grid.mapTextures g hd imgs processed w = (r, p, w') ->
    p = (processed ++ map Texture.source (Grid.filterNotNull r))%list
    /\ (forall img, In img imgs ->
          (hd = true -> Grid.needHDTexture g img = true) ->
          In (Grid.getImageSource g img hd) p)
    /\ Forall (textureOf g imgs hd) (Grid.filterNotNull r).
Proof.
  induction imgs as [|img rest IH]; intros processed w r p w' E; simpl in E.
  - injection E as <- <- <-. simpl. rewrite app_nil_r.
    split; [reflexivity|]. split; [intros ? []|constructor].
  - assert (Hweak : forall tex, textureOf g rest hd tex ->
                                textureOf g (img :: rest) hd tex).
    { intros tex ((i & Hi & Hs) & Ht). split; [|exact Ht].
      exists i. split; [right; exact Hi | exact Hs]. }
    destruct (hd && negb (Grid.needHDTexture g img)) eqn:Eskip.
    + destruct (Grid.mapTextures g hd rest processed w) as [[r0 p0] w0] eqn:E0.
      injection E as <- <- <-.
      destruct (IH _ _ _ _ _ E0) as (Hp & Hin & Hall).
      split; [exact Hp|]. split.
      * intros i [<- | Hi] Hneed.
        -- apply andb_true_iff in Eskip. destruct Eskip as [-> Hno].
           rewrite Hneed in Hno by reflexivity. discriminate.
        -- apply Hin; assumption.
      * simpl. eapply Forall_impl; [exact Hweak | exact Hall].
    + destruct (negb (JS.includes processed (Grid.getImageSource g img hd)))
        eqn:Enew.
      * destruct (Texture.createImageTexture _ _ _ _ w) as [tex w1] eqn:Etex.
        destruct (Grid.mapTextures g hd rest _ w1) as [[r0 p0] w0] eqn:E0.
        injection E as <- <- <-.
        destruct (IH _ _ _ _ _ E0) as (Hp & Hin & Hall).
        pose proof (createImageTexture_fields
                      (Grid.getImageSource g img hd) (color img)
                      (if hd then CallHDLoaded else CallSDLoaded) (negb hd) w)
          as F. rewrite Etex in F. simpl in F. destruct F as (Fs & Ft & Fi & _).
        split; [|split].
        -- rewrite Hp. simpl. rewrite Fs, <- app_assoc. reflexivity.
        -- intros i [<- | Hi] Hneed.
           ++ rewrite Hp. apply in_or_app. left. apply in_or_app. right.
              left. reflexivity.
           ++ apply Hin; assumption.
        -- simpl. constructor.
           ++ split; [exists img; split; [left; reflexivity | exact Fs]|].
              split; [rewrite Ft; discriminate | exact Fi].
           ++ eapply Forall_impl; [exact Hweak | exact Hall].
      * destruct (Grid.mapTextures g hd rest processed w) as [[r0 p0] w0] eqn:E0.
        injection E as <- <- <-.
        destruct (IH _ _ _ _ _ E0) as (Hp & Hin & Hall).
        split; [exact Hp|]. split.
        -- intros i [<- | Hi] Hneed.
           ++ apply negb_false_iff, includes_true in Enew.
              rewrite Hp. apply in_or_app. left. exact Enew.
           ++ apply Hin; assumption.
        -- simpl. eapply Forall_impl; [exact Hweak | exact Hall].
Qed.

End Main.

Section Main2.

Import Props.

Lemma createGridItem_spec (g : Grid.t) (info : Grid.ImageInfo) (i : nat) :
  let g' := Grid.createGridItem g info i in
  Grid.textures g' = Grid.textures g
  /\ Grid.texturesHD g' = Grid.texturesHD g
  /\ setup g' = setup g
  /\ Grid.isInit g' = Grid.isInit g
  /\ (Grid.program g' = Grid.program g
      /\ Grid.positionBuffer g' = Grid.positionBuffer g
      /\ Grid.texcoordBuffer g' = Grid.texcoordBuffer g)
  /\ exists item,
       Grid.imagesGL g' = (Grid.imagesGL g ++ [item])%list
       /\ madeFrom (Grid.textures g) (Grid.texturesHD g) info i item.
Proof.
  unfold Grid.createGridItem, madeFrom. cbv zeta.
  repeat split. eexists. split; [reflexivity|]. repeat split.
Qed.

Lemma createGridItems_spec (infos : list Grid.ImageInfo) :
  forall (g : Grid.t) (i : nat),
    let g' := Grid.createGridItems g infos i in
    Grid.textures g' = Grid.textures g
    /\ Grid.texturesHD g' = Grid.texturesHD g
    /\ setup g' = setup g
    /\ Grid.isInit g' = Grid.isInit g
    /\ (Grid.program g' = Grid.program g
        /\ Grid.positionBuffer g' = Grid.positionBuffer g
        /\ Grid.texcoordBuffer g' = Grid.texcoordBuffer g)
    /\ exists items,
         Grid.imagesGL g' = (Grid.imagesGL g ++ items)%list
         /\ List.length items = List.length infos
         /\ (forall k item,
               nth_error items k = Some item ->
               exists info,
                 nth_error infos k = Some info
                 /\ madeFrom (Grid.textures g) (Grid.texturesHD g) info
                      (i + k) item).
Proof.
  induction infos as [|info rest IH]; intros g i; simpl.
  - repeat split. exists []. rewrite app_nil_r. repeat split.
    intros k item H. destruct k; discriminate.
  - destruct (createGridItem_spec g info i)
      as (T1 & H1 & S1 & I1 & (P1 & Q1 & R1) & item & E1 & M1).
    destruct (IH (Grid.createGridItem g info i) (S i))
      as (T2 & H2 & S2 & I2 & (P2 & Q2 & R2) & items & E2 & L2 & N2).
    split; [congruence|]. split; [congruence|]. split; [congruence|].
    split; [congruence|]. split; [repeat split; congruence|].
    exists (item :: items). split; [|split].
    + rewrite E2, E1, <- app_assoc. reflexivity.
    + simpl. congruence.
    + intros k it H. destruct k as [|k]; simpl in H.
      * injection H as <-. exists info. rewrite Nat.add_0_r. auto.
      * destruct (N2 k it H) as (inf & Hn & Hm). exists inf. split; [exact Hn|].
        rewrite T1, H1 in Hm. replace (i + S k)%nat with (S i + k)%nat by lia.
        exact Hm.
Qed.

Lemma Forall2_nth_error_r {A B} (R : A -> B -> Prop) (l : list A) (l' : list B) :
  Forall2 R l l' ->
  forall i b, nth_error l' i = Some b ->
              exists a, nth_error l i = Some a /\ R a b.
Proof.
  induction 1 as [|a b l l' Hab _ IH]; intros i y H.
  - destruct i; discriminate.
  - destruct i as [|i]; simpl in *.
    + injection H as <-. eauto.
    + apply IH, H.
Qed.

Lemma Forall2_length_eq {A B} (R : A -> B -> Prop) (l : list A) (l' : list B) :
  Forall2 R l l' -> List.length l = List.length l'.
Proof. induction 1; simpl; congruence. Qed.

(** Assignment of images and textures survives a change of layout. *)
Lemma allAssigned_layout (g g' : Grid.t) :
  setup g' = setup g ->
  Grid.textures g' = Grid.textures g ->
  Forall2 Props.sameItem (Grid.imagesGL g) (Grid.imagesGL g') ->
  allAssigned g -> allAssigned g'.
Proof.
  intros Hs Ht Hi Ha i item' H.
  destruct (Forall2_nth_error_r _ _ _ Hi i item' H) as (item & Hn & Hsame).
  destruct (Ha i item Hn) as (img & k & tex & A1 & A2 & A3 & A4 & A5 & A6 & A7).
  destruct Hsame as (Si & Ss & St & _).
  assert (Ei : Grid.images g' = Grid.images g)
    by (unfold setup in Hs; congruence).
  exists img, k, tex. rewrite Ei, Ht, Si, Ss, St.
  rewrite (getImageSource_setup g g' Hs). repeat split; assumption.
Qed.

End Main2.

Section Main3.

Import Props.

Lemma sameControl_setup (g g' : Grid.t) :
  Props.sameControl g g' -> setup g' = setup g.
Proof.
  unfold Props.sameControl, setup. intros H.
  repeat match goal with H : _ /\ _ |- _ => destruct H end.
  congruence.
Qed.

Lemma sameControl_textures (g g' : Grid.t) :
  Props.sameControl g g' ->
  Grid.textures g' = Grid.textures g
  /\ Grid.texturesHD g' = Grid.texturesHD g
  /\ Grid.isInit g' = Grid.isInit g.
Proof.
  unfold Props.sameControl. intros H.
  repeat match goal with H : _ /\ _ |- _ => destruct H end.
  auto.
Qed.

Lemma textureOf_setup (g g' : Grid.t) (imgs : list Image) (hd : bool)
    (tex : Texture.t) :
  setup g' = setup g -> textureOf g' imgs hd tex -> textureOf g imgs hd tex.
Proof.
  intros Hs ((img & Hin & E) & R). split; [|exact R].
  exists img. split; [exact Hin|].
  rewrite <- (getImageSource_setup g g' Hs). exact E.
Qed.

Lemma liveHandles_sameControl (g g' : Grid.t) :
  Props.sameControl g g' -> liveHandles g' = liveHandles g.
Proof.
  unfold Props.sameControl, liveHandles. intros H.
  repeat match goal with H : _ /\ _ |- _ => destruct H end.
  congruence.
Qed.

Lemma createImageTexture_next (src colour : string) (cb : LoadCallback)
    (now : bool) (w : World) :
  nextHandle (snd (Texture.createImageTexture src colour cb now w))
  = S (nextHandle w).
Proof. destruct now; reflexivity. Qed.

(** The textures made by one pass of [mapTextures] have distinct handles,
    allocated during that pass. *)
Lemma mapTextures_handles (g : Grid.t) (hd : bool) (imgs : list Image) :
  forall (processed : list string) (w : World) r p w',
    Grid.mapTextures g hd imgs processed w = (r, p, w') ->
    (nextHandle w <= nextHandle w')%nat
    /\ allocated (nextHandle w) (nextHandle w')
         (textureHandles (Grid.filterNotNull r)).
Proof.
  unfold allocated.
  induction imgs as [|img rest IH]; intros processed w r p w' E; simpl in E.
  - injection E as <- <- <-. simpl. split; [lia|]. split; constructor.
  - destruct (hd && negb (Grid.needHDTexture g img)).
    + destruct (Grid.mapTextures g hd rest processed w) as [[r0 p0] w0] eqn:E0.
      injection E as <- <- <-. apply (IH _ _ _ _ _ E0).
    + destruct (negb (JS.includes processed (Grid.getImageSource g img hd))).
      * destruct (Texture.createImageTexture _ _ _ _ w) as [tex w1] eqn:Etex.
        destruct (Grid.mapTextures g hd rest _ w1) as [[r0 p0] w0] eqn:E0.
        injection E as <- <- <-.
        destruct (IH _ _ _ _ _ E0) as (Hle & Hnd & Hrange).
        pose proof (createImageTexture_fields
                      (Grid.getImageSource g img hd) (color img)
                      (if hd then CallHDLoaded else CallSDLoaded) (negb hd) w)
          as F. rewrite Etex in F. simpl in F. destruct F as (_ & Ft & _).
        pose proof (createImageTexture_next
                      (Grid.getImageSource g img hd) (color img)
                      (if hd then CallHDLoaded else CallSDLoaded) (negb hd) w)
          as N. rewrite Etex in N. simpl in N.
        rewrite N in Hle, Hrange.
        split; [lia|]. simpl. unfold textureHandles in *. simpl. rewrite Ft. simpl.
        split.
        -- constructor; [|exact Hnd].
           intros Hin. rewrite Forall_forall in Hrange.
           apply Hrange in Hin. lia.
        -- constructor; [lia|].
           eapply Forall_impl; [|exact Hrange]. simpl. intros; lia.
      * destruct (Grid.mapTextures g hd rest processed w) as [[r0 p0] w0] eqn:E0.
        injection E as <- <- <-. apply (IH _ _ _ _ _ E0).
Qed.

Lemma allowed_incl (srcs srcs' : list string) (e : Effect) :
  incl srcs srcs' -> allowed srcs e -> allowed srcs' e.
Proof. intros I. destruct e; simpl; auto. Qed.

Lemma grows_incl (srcs srcs' : list string) (t t' : list Effect) :
  incl srcs srcs' -> grows srcs t t' -> grows srcs' t t'.
Proof.
  intros I (es & E & A). exists es. split; [exact E|].
  eapply Forall_impl; [|exact A]. intros e. apply allowed_incl, I.
Qed.

Lemma createImageTexture_trace (src colour : string) (cb : LoadCallback)
    (now : bool) (w : World) :
  grows (if now then [src] else [])
    (trace w) (trace (snd (Texture.createImageTexture src colour cb now w))).
Proof.
  destruct now; simpl.
  - apply grows_snoc; [|repeat constructor; simpl; auto].
    apply grows_snoc; [apply grows_refl | repeat constructor].
  - apply grows_snoc; [apply grows_refl | repeat constructor].
Qed.

(** The SD pass of [mapTextures] requests the sources of the textures it
    makes; the HD pass requests nothing; neither deletes anything. *)
Lemma mapTextures_trace (g : Grid.t) (hd : bool) (imgs : list Image) :
  forall (processed : list string) (w : World) r p w',
    Grid.mapTextures g hd imgs processed w = (r, p, w') ->
    grows (if hd then [] else sources (Grid.filterNotNull r))
      (trace w) (trace w').
Proof.
  induction imgs as [|img rest IH]; intros processed w r p w' E; simpl in E.
  - injection E as <- <- <-. apply grows_refl.
  - destruct (hd && negb (Grid.needHDTexture g img)).
    + destruct (Grid.mapTextures g hd rest processed w) as [[r0 p0] w0] eqn:E0.
      injection E as <- <- <-. apply (IH _ _ _ _ _ E0).
    + destruct (negb (JS.includes processed (Grid.getImageSource g img hd))).
      * pose proof (createImageTexture_trace
                      (Grid.getImageSource g img hd) (color img)
                      (if hd then CallHDLoaded else CallSDLoaded) (negb hd) w)
          as T.
        pose proof (createImageTexture_fields
                      (Grid.getImageSource g img hd) (color img)
                      (if hd then CallHDLoaded else CallSDLoaded) (negb hd) w)
          as F.
        destruct (Texture.createImageTexture _ _ _ _ w) as [tex w1] eqn:Etex.
        destruct (Grid.mapTextures g hd rest _ w1) as [[r0 p0] w0] eqn:E0.
        injection E as <- <- <-. simpl in T, F. destruct F as (Fs & _).
        specialize (IH _ _ _ _ _ E0).
        eapply grows_trans.
        -- eapply grows_incl; [|exact T].
           destruct hd; simpl; [apply incl_refl|].
           rewrite Fs. intros s [<-|[]]. left. reflexivity.
        -- eapply grows_incl; [|exact IH].
           destruct hd; simpl; [apply incl_refl|]. apply incl_tl, incl_refl.
      * destruct (Grid.mapTextures g hd rest processed w) as [[r0 p0] w0] eqn:E0.
        injection E as <- <- <-. apply (IH _ _ _ _ _ E0).
Qed.

Lemma createGridItems_trace (infos : list Grid.ImageInfo) :
  forall (g : Grid.t) (i : nat),
    grows [] (trace (Grid.world g))
      (trace (Grid.world (Grid.createGridItems g infos i))).
Proof.
  induction infos as [|info rest IH]; intros g i; simpl.
  - apply grows_refl.
  - eapply grows_trans; [|apply IH].
    unfold Grid.createGridItem. cbv zeta.
    apply grows_snoc; [apply grows_refl | repeat constructor].
Qed.

(** [main()] on a non-empty pool and a non-empty grid. *)
Lemma main_spec (g : Grid.t) :
  Grid.images g <> [] ->
  (Grid.COLUMN_ITEM_LENGTH g * Grid.ROW_ITEM_LENGTH g)%nat <> 0%nat ->
  exists g',
    Grid.main g = Ok g'
    /\ setup g' = setup g
    /\ Grid.isInit g' = Grid.isInit g
    /\ Forall (textureOf g (Grid.images g) false) (Grid.textures g')
    /\ Forall (textureOf g (Grid.images g) true) (Grid.texturesHD g')
    /\ List.length (Grid.imagesGL g')
       = (Grid.COLUMN_ITEM_LENGTH g * Grid.ROW_ITEM_LENGTH g)%nat
    /\ allAssigned g'
    /\ Grid.currentZoom g' = 0.4
    /\ NoDup (liveHandles g')
    /\ grows (sources (Grid.textures g'))
         (trace (Grid.world g)) (trace (Grid.world g')).
Proof.
  intros Hne HM. unfold Grid.main, freshHandle. cbv beta iota zeta.
  match goal with
  | |- context [Grid.prepareImageData ?x _] => set (g1 := x)
  end.
  assert (S1 : setup g1 = setup g) by reflexivity.
  assert (I1 : Grid.isInit g1 = Grid.isInit g) by reflexivity.
  assert (Im1 : Grid.images g1 = Grid.images g) by reflexivity.
  assert (M1 : (Grid.COLUMN_ITEM_LENGTH g1 * Grid.ROW_ITEM_LENGTH g1
                = Grid.COLUMN_ITEM_LENGTH g * Grid.ROW_ITEM_LENGTH g)%nat)
    by reflexivity.
  set (n := nextHandle (Grid.world g)).
  assert (B1 : Grid.program g1 = Some n
               /\ Grid.positionBuffer g1 = Some (S n)
               /\ Grid.texcoordBuffer g1 = Some (S (S n))
               /\ nextHandle (Grid.world g1) = S (S (S n)))
    by (repeat split).
  assert (W1 : grows [] (trace (Grid.world g)) (trace (Grid.world g1)))
    by (apply grows_snoc; [apply grows_refl | repeat constructor]).
  clearbody g1.
  destruct (selectedImages_some g1) as (imgs & Esel & Elen & Enth);
    [rewrite Im1; exact Hne|].
  rewrite M1 in Elen.
  rewrite Esel, prepareImageData_some.
  destruct (Grid.mapTextures g1 false (Grid.images g1) [] (Grid.world g1))
    as [[sd p1] w1] eqn:E1.
  destruct (mapTextures_spec _ _ _ _ _ _ _ _ E1) as (P1 & In1 & All1).
  destruct (mapTextures_handles _ _ _ _ _ _ _ _ E1) as (Le1 & Al1).
  pose proof (mapTextures_trace _ _ _ _ _ _ _ _ E1) as W2. simpl in W2.
  simpl in P1.
  match goal with
  | |- context [Grid.mapTextures ?x true _ _ _] => set (g2 := x)
  end.
  assert (B2 : Grid.program g2 = Grid.program g1
               /\ Grid.positionBuffer g2 = Grid.positionBuffer g1
               /\ Grid.texcoordBuffer g2 = Grid.texcoordBuffer g1
               /\ Grid.world g2 = w1)
    by (repeat split).
  assert (S2 : setup g2 = setup g1) by reflexivity.
  assert (I2 : Grid.isInit g2 = Grid.isInit g1) by reflexivity.
  assert (T2 : Grid.textures g2 = Grid.filterNotNull sd) by reflexivity.
  clearbody g2.
  destruct (Grid.mapTextures g2 true (Grid.images g2) p1 (Grid.world g2))
    as [[hd p2] w2] eqn:E2.
  destruct (mapTextures_spec _ _ _ _ _ _ _ _ E2) as (_ & _ & All2).
  destruct (mapTextures_handles _ _ _ _ _ _ _ _ E2) as (Le2 & Al2).
  pose proof (mapTextures_trace _ _ _ _ _ _ _ _ E2) as W3. simpl in W3.
  match goal with
  | |- context [Grid.createGridItems ?x _ _] => set (g4 := x)
  end.
  assert (W4 : Grid.world g4 = w2) by reflexivity.
  assert (B4 : Grid.program g4 = Grid.program g2
               /\ Grid.positionBuffer g4 = Grid.positionBuffer g2
               /\ Grid.texcoordBuffer g4 = Grid.texcoordBuffer g2)
    by (repeat split).
  assert (S4 : setup g4 = setup g2) by reflexivity.
  assert (I4 : Grid.isInit g4 = Grid.isInit g2) by reflexivity.
  assert (T4 : Grid.textures g4 = Grid.textures g2) by reflexivity.
  assert (H4 : Grid.texturesHD g4 = Grid.filterNotNull hd) by reflexivity.
  assert (G4 : Grid.imagesGL g4 = []) by reflexivity.
  clearbody g4.
  destruct (createGridItems_spec (map (infoOf g1) imgs) g4 0)
    as (T5 & H5 & S5 & I5 & B5 & items & E5 & L5 & N5).
  pose proof (createGridItems_trace (map (infoOf g1) imgs) g4 0) as W5.
  set (g5 := Grid.createGridItems g4 (map (infoOf g1) imgs) 0) in *.
  clearbody g5.
  rewrite G4 in E5. simpl in E5. rewrite length_map in L5.
  assert (Sg5 : setup g5 = setup g) by congruence.
  assert (Im5 : Grid.images g5 = Grid.images g)
    by (unfold setup in Sg5; congruence).
  assert (A5 : allAssigned g5).
  { intros i item Hi. rewrite E5 in Hi.
    destruct (N5 i item Hi) as (info & Hinfo & Mi & Ms & Mt & _).
    rewrite nth_error_map in Hinfo.
    destruct (nth_error imgs i) as [img|] eqn:Eimg; [|discriminate].
    simpl in Hinfo. injection Hinfo as <-. simpl in Ms, Mt.
    pose proof (Enth i img Eimg) as Hpool.
    assert (Hin : In img (Grid.images g1)) by (eapply nth_error_In; exact Hpool).
    pose proof (In1 img Hin ltac:(discriminate)) as Hsrc.
    rewrite P1 in Hsrc. apply in_map_iff in Hsrc.
    destruct Hsrc as (tex0 & Hs0 & Hin0).
    destruct (findIndex_some
                (Grid.sourceIs (Grid.getImageSource g1 img false))
                (Grid.filterNotNull sd))
      as (k & tex & Ek & Nk & Pk).
    { exists tex0. split; [exact Hin0|].
      unfold Grid.sourceIs. rewrite Hs0. apply String.eqb_refl. }
    unfold Grid.sourceIs in Pk. apply String.eqb_eq in Pk.
    assert (Gs : Grid.getImageSource g5 img false
                 = Grid.getImageSource g1 img false).
    { apply getImageSource_setup. congruence. }
    exists img, k, tex.
    rewrite Im5, <- Im1. split; [exact Hpool|].
    split; [exact Mi|]. split; [rewrite Ms, Gs; reflexivity|].
    split; [rewrite Mt, T4, T2; exact Ek|].
    split; [rewrite T5, T4, T2; exact Nk|].
    split; [rewrite Ms; exact Pk|].
    apply nth_error_In in Nk.
    rewrite Forall_forall in All1. destruct (All1 tex Nk) as (_ & R & _).
    exact R. }
  assert (Ne5 : Grid.imagesGL g5 <> []).
  { rewrite E5. intros ->. simpl in L5. lia. }
  destruct (setSizeItemsDefault_frame g5) as (g6 & _ & C6 & It6 & Ok6).
  rewrite (Ok6 Ne5). unfold bind.
  match goal with
  | |- context [Grid.applyZoom _ ?x] => set (g6' := x)
  end.
  assert (C6' : Props.sameControl g6 g6') by (unfold Props.sameControl; repeat split).
  assert (It6' : Props.sameItems g6 g6') by (apply Forall2_sameItem_refl).
  clearbody g6'.
  assert (Ne6 : Grid.imagesGL g6' <> []).
  { intros E. apply Ne5. eapply sameItems_nil; [exact It6|].
    eapply sameItems_nil; [exact It6'|exact E]. }
  destruct (applyZoom_frame 0.4 g6') as (g7 & _ & (Z7 & C7 & It7 & _) & Ok7).
  rewrite (Ok7 Ne6). exists g7. split; [reflexivity|].
  pose proof (sameControl_trans _ _ _ (sameControl_trans _ _ _ C6 C6') C7) as C.
  assert (It : Forall2 Props.sameItem (Grid.imagesGL g5) (Grid.imagesGL g7)).
  { unfold Props.sameItems in *.
    eapply Forall2_sameItem_trans; [exact It6|].
    eapply Forall2_sameItem_trans; [exact It6'|exact It7]. }
  destruct (sameControl_textures _ _ C) as (Tc & Hc & Ic).
  pose proof (sameControl_setup _ _ C) as Sc.
  split; [congruence|]. split; [congruence|].
  split.
  { rewrite Tc, T5, T4, T2. rewrite <- Im1.
    eapply Forall_impl; [|exact All1].
    intros tex. apply textureOf_setup. congruence. }
  split.
  { rewrite Hc, H5, H4.
    assert (Im2 : Grid.images g2 = Grid.images g)
      by (unfold setup in S2, S1; congruence).
    rewrite <- Im2.
    eapply Forall_impl; [|exact All2].
    intros tex. apply textureOf_setup. congruence. }
  split.
  { rewrite <- (Forall2_length_eq _ _ _ It), E5, L5, Elen. reflexivity. }
  split; [eapply allAssigned_layout; [exact Sc | exact Tc | exact It | exact A5]|].
  split; [exact Z7|].
  split; cycle 1.
  { assert (Wc : Grid.world g7 = Grid.world g5).
    { unfold sameControl in C.
      repeat match goal with H : _ /\ _ |- _ => destruct H end. assumption. }
    rewrite Wc, Tc, T5, T4, T2.
    destruct B2 as (_ & _ & _ & Bw2). rewrite Bw2 in W3. rewrite W4 in W5.
    eapply grows_trans; [eapply grows_incl; [|exact W1]; intros ? []|].
    eapply grows_trans; [exact W2|].
    eapply grows_trans; [eapply grows_incl; [|exact W3]; intros ? []|].
    eapply grows_incl; [|exact W5]. intros ? []. }
  rewrite (liveHandles_sameControl _ _ C). unfold liveHandles.
  destruct B1 as (Bp1 & Bq1 & Br1 & Bn1).
  destruct B2 as (Bp2 & Bq2 & Br2 & Bw2).
  destruct B4 as (Bp4 & Bq4 & Br4).
  destruct B5 as (Bp5 & Bq5 & Br5).
  rewrite T5, T4, T2, H5, H4, Bp5, Bq5, Br5, Bp4, Bq4, Br4, Bp2, Bq2, Br2,
    Bp1, Bq1, Br1.
  rewrite Bw2 in Le2, Al2. rewrite Bn1 in Le1, Al1.
  destruct Al1 as (Nd1 & R1). destruct Al2 as (Nd2 & R2).
  rewrite Forall_forall in R1, R2. simpl.
  apply NoDup_app; [exact Nd1 | |].
  - apply NoDup_app; [exact Nd2 | |].
    + repeat constructor; simpl; intuition lia.
    + intros h Hh Hin. apply R2 in Hh. simpl in Hin. intuition lia.
  - intros h Hh Hin. apply R1 in Hh. apply in_app_or in Hin.
    destruct Hin as [Hin | Hin].
    + apply R2 in Hin. lia.
    + simpl in Hin. intuition lia.
Qed.

End Main3.

Section Create.

Import Props.

Lemma setWindow_sameItem d (a : Tile.t) : Props.sameItem a (Tile.setWindow d a).
Proof. unfold Props.sameItem. repeat split. Qed.

(** [setWindow()] before [isInit] is set: its [render()] returns at once. *)
Lemma setWindow_before_init (g : Grid.t) :
  Grid.isInit g = false ->
  exists g',
    Grid.setWindow g = Ok g'
    /\ Props.sameControl g g'
    /\ Props.sameItems g g'
    /\ Grid.currentZoom g' = Grid.currentZoom g.
Proof.
  intros Hi. unfold Grid.setWindow. cbv zeta.
  match goal with
  | |- context [Grid.getTotalDimensionsItems ?x] =>
      set (g1 := x);
      assert (C1 : Props.sameControl g g1)
        by (unfold Props.sameControl, g1; repeat split);
      assert (S1 : Props.sameItems g g1)
        by (unfold Props.sameItems, g1; cbn;
            apply Forall2_sameItem_map; intros; apply setWindow_sameItem);
      assert (Z1 : Grid.currentZoom g1 = Grid.currentZoom g) by reflexivity
  end.
  clearbody g1.
  assert (R : forall x, Props.sameControl g x -> Grid.render x = Ok x).
  { intros x C. unfold Grid.render.
    destruct (sameControl_textures _ _ C) as (_ & _ & ->).
    rewrite Hi. reflexivity. }
  destruct (Grid.getTotalDimensionsItems g1) as [d|].
  - pose proof (recenter_sameControl false d g1) as C2.
    pose proof (recenter_sameItems false d g1) as S2.
    exists (Grid.recenter false d g1).
    split; [apply R; eauto using sameControl_trans|].
    split; [eauto using sameControl_trans|].
    split; [unfold Props.sameItems in *; eauto using Forall2_sameItem_trans|].
    rewrite <- Z1. reflexivity.
  - exists g1. split; [apply R; exact C1|]. auto.
Qed.

Lemma constructor_spec (e : Env) (imgs : list Image) (mobile delay : bool) :
  let g := Grid.constructor e imgs mobile delay in
  Permutation (Grid.images g) (imgs ++ imgs)
  /\ Grid.isInit g = false
  /\ (Grid.COLUMN_ITEM_LENGTH g * Grid.ROW_ITEM_LENGTH g)%nat <> 0%nat
  /\ Grid.env g = e
  /\ Grid.isMobile g = mobile
  /\ Grid.delayIntroAnimation g = delay
  /\ trace (Grid.world g) = []
  /\ Grid.isDestroyed g = false
  /\ Grid.pixelRatio g
     = (if mobile then JS.Math_min (orOne (devicePixelRatio e)) 2
        else orOne (devicePixelRatio e)).
Proof.
  unfold Grid.constructor.
  pose proof (randomizeArray_perm (random e) 0 imgs) as P1.
  destruct (randomizeArray (random e) 0 imgs) as [sh k1].
  pose proof (randomizeArray_perm (random e) k1 sh) as P2.
  destruct (randomizeArray (random e) k1 sh) as [re k2]. simpl in P1, P2.
  cbv zeta. split; [|split; [reflexivity|split; [|repeat split]]].
  - cbn. apply Permutation_app; [exact P1|].
    eapply perm_trans; eassumption.
  - cbn. destruct mobile; [|discriminate].
    destruct (JS.ltb (innerWidth e) 480); discriminate.
Qed.

(** The renderer once [init()] is over, for a non-empty list of images. *)
Lemma create_spec (e : Env) (imgs : list Image) (mobile delay : bool) :
  imgs <> [] ->
  let g := Grid.create e imgs mobile delay in
  Grid.isInit g = true
  /\ Permutation (Grid.images g) (imgs ++ imgs)
  /\ List.length (Grid.imagesGL g)
     = (Grid.COLUMN_ITEM_LENGTH g * Grid.ROW_ITEM_LENGTH g)%nat
  /\ allAssigned g
  /\ Forall (textureOf g (Grid.images g) false) (Grid.textures g)
  /\ Forall (textureOf g (Grid.images g) true) (Grid.texturesHD g)
  /\ Grid.fileFormat g = (if avifDecodes e then "avif" else "jpeg")%string
  /\ Grid.currentZoom g = 0.4
  /\ NoDup (liveHandles g)
  /\ Forall (allowed (sources (Grid.textures g))) (trace (Grid.world g))
  /\ Grid.isMobile g = mobile
  /\ Grid.pixelRatio g
     = (if mobile then JS.Math_min (orOne (devicePixelRatio e)) 2
        else orOne (devicePixelRatio e)).
Proof.
  intros Hne. unfold Grid.create.
  destruct (constructor_spec e imgs mobile delay)
    as (P0 & I0 & M0 & E0 & Mb0 & _ & W0 & _ & R0).
  set (g0 := Grid.constructor e imgs mobile delay) in *. clearbody g0.
  unfold Grid.init. cbv zeta.
  match goal with
  | |- context [Grid.main ?x] => set (g1 := x)
  end.
  assert (Im1 : Grid.images g1 = Grid.images g0) by reflexivity.
  assert (I1 : Grid.isInit g1 = Grid.isInit g0) by reflexivity.
  assert (M1 : (Grid.COLUMN_ITEM_LENGTH g1 * Grid.ROW_ITEM_LENGTH g1
                = Grid.COLUMN_ITEM_LENGTH g0 * Grid.ROW_ITEM_LENGTH g0)%nat)
    by reflexivity.
  assert (F1 : Grid.fileFormat g1
               = (if avifDecodes e then "avif" else "jpeg")%string)
    by (rewrite <- E0; reflexivity).
  assert (W1 : trace (Grid.world g1) = []) by exact W0.
  assert (Mb1 : Grid.isMobile g1 = mobile) by exact Mb0.
  assert (R1 : Grid.pixelRatio g1
               = (if mobile then JS.Math_min (orOne (devicePixelRatio e)) 2
                  else orOne (devicePixelRatio e))) by exact R0.
  clearbody g1.
  assert (Hne1 : Grid.images g1 <> []).
  { rewrite Im1. intros E. rewrite E in P0.
    apply Permutation_nil in P0. destruct imgs; [congruence | discriminate]. }
  destruct (main_spec g1 Hne1 ltac:(rewrite M1; exact M0))
    as (g2 & Em & S2 & I2 & T2 & H2 & L2 & A2 & Z2 & Nd2 & W2).
  rewrite Em. unfold bind.
  destruct (setWindow_before_init g2 ltac:(congruence))
    as (g3 & Ew & C3 & It3 & Z3).
  rewrite Ew.
  destruct (sameControl_textures _ _ C3) as (Tc & Hc & _).
  pose proof (sameControl_setup _ _ C3) as Sc.
  assert (S31 : setup g3 = setup g1) by congruence.
  assert (Im3 : Grid.images g3 = Grid.images g1)
    by (unfold setup in S31; congruence).
  set (g4 := g3 <| Grid.isInit := true |>).
  assert (S4 : setup g4 = setup g3) by reflexivity.
  assert (T4 : Grid.textures g4 = Grid.textures g3) by reflexivity.
  assert (H4 : Grid.texturesHD g4 = Grid.texturesHD g3) by reflexivity.
  assert (G4 : Grid.imagesGL g4 = Grid.imagesGL g3) by reflexivity.
  assert (I4 : Grid.isInit g4 = true) by reflexivity.
  assert (Z4 : Grid.currentZoom g4 = Grid.currentZoom g3) by reflexivity.
  assert (Lv4 : liveHandles g4 = liveHandles g3) by reflexivity.
  assert (W4 : Grid.world g4 = Grid.world g3) by reflexivity.
  clearbody g4.
  assert (S41 : setup g4 = setup g1) by congruence.
  assert (Im4 : Grid.images g4 = Grid.images g1)
    by (unfold setup in S41; congruence).
  split; [exact I4|].
  split; [rewrite Im4, Im1; exact P0|].
  split.
  { rewrite G4, <- (Forall2_length_eq _ _ _ It3), L2.
    unfold setup in S41. congruence. }
  split.
  { eapply allAssigned_layout; [exact S4 | exact T4 | | ].
    - rewrite G4. apply Forall2_sameItem_refl.
    - eapply allAssigned_layout; [exact Sc | exact Tc | exact It3 | exact A2]. }
  split.
  { rewrite T4, Tc, Im4. eapply Forall_impl; [|exact T2].
    intros tex Ht. eapply textureOf_setup; [|exact Ht]. congruence. }
  split.
  { rewrite H4, Hc, Im4. eapply Forall_impl; [|exact H2].
    intros tex Ht. eapply textureOf_setup; [|exact Ht]. congruence. }
  split; [unfold setup in S41; congruence|].
  split; [congruence|].
  split; [rewrite Lv4, (liveHandles_sameControl _ _ C3); exact Nd2|].
  assert (Wc : Grid.world g3 = Grid.world g2).
  { unfold sameControl in C3.
    repeat match goal with H : _ /\ _ |- _ => destruct H end. assumption. }
  split.
  { rewrite W4, Wc, T4, Tc.
    destruct W2 as (es & Ees & Aes). rewrite Ees, W1. exact Aes. }
  unfold setup in S41. split; congruence.
Qed.

End Create.

(** ** What no event changes *)

Section Setup.

Import Props.

Lemma zoom_setup (a : string) (g : Grid.t) : setup (Grid.zoom a g) = setup g.
Proof. unfold Grid.zoom. destruct (negb (Grid.isIntroShown g)); reflexivity. Qed.

Lemma fadeInFrom_setup (texs : list Texture.t) :
  forall (i : nat) (g : Grid.t), setup (Grid.fadeInFrom i texs g) = setup g.
Proof.
  induction texs as [|tex rest IH]; intros i g; simpl.
  - reflexivity.
  - rewrite IH. reflexivity.
Qed.

Lemma introSequence_setup (g : Grid.t) : setup (Grid.introSequence g) = setup g.
Proof.
  unfold Grid.introSequence. destruct (Grid.isIntroShown g); [reflexivity|].
  transitivity (setup (Grid.fadeInAllTextures g)); [reflexivity|].
  apply fadeInFrom_setup.
Qed.

Lemma startIntroSequence_setup (g : Grid.t) :
  setup (Grid.startIntroSequence g) = setup g.
Proof.
  unfold Grid.startIntroSequence.
  destruct (Grid.isIntroShown g); [reflexivity|].
  destruct (negb (Grid.texturesLoaded g)); [reflexivity|].
  apply introSequence_setup.
Qed.

Lemma onTextureSDLoaded_setup (g : Grid.t) :
  setup (Grid.onTextureSDLoaded g) = setup g.
Proof.
  unfold Grid.onTextureSDLoaded. cbv zeta.
  destruct (Nat.eqb _ _); [|reflexivity].
  destruct (negb _); [|reflexivity].
  rewrite introSequence_setup. reflexivity.
Qed.

Lemma imageLoaded_setup (k : nat) (w h : Q) (g : Grid.t) :
  setup (Grid.imageLoaded k w h g) = setup g.
Proof.
  unfold Grid.imageLoaded.
  destruct (JS.index _ k) as [[src cb]|]; [|reflexivity].
  cbv zeta. destruct cb.
  - destruct (Grid.updateBySource _ _ _ _ _) as [texs w'].
    rewrite onTextureSDLoaded_setup. reflexivity.
  - destruct (Grid.updateBySource _ _ _ _ _) as [texs w']. reflexivity.
Qed.

Lemma applyZoom_setup (z : Q) (g : Grid.t) :
  setup (settle (Grid.applyZoom z g)) = setup g.
Proof.
  destruct (applyZoom_frame z g) as (g' & [E | E] & (_ & C & _) & _);
    rewrite E; simpl; apply sameControl_setup, C.
Qed.

Lemma renderAnimation_setup (a : Animation) (p : Q) (g : Grid.t) :
  setup (settle (snd (Grid.renderAnimation a p g))) = setup g.
Proof.
  destruct a as [called gh gv z gray | from to_ | i from]; simpl.
  - rewrite applyZoom_setup. destruct called; reflexivity.
  - apply applyZoom_setup.
  - reflexivity.
Qed.

Lemma animationUpdate_setup (id : nat) (p : Q) (g : Grid.t) :
  setup (settle (Grid.animationUpdate id p g)) = setup g.
Proof.
  unfold Grid.animationUpdate.
  destruct (Grid.lookupAnim id _) as [a|]; [|reflexivity].
  pose proof (renderAnimation_setup a p g) as H.
  destruct (Grid.renderAnimation a p g) as [a' o]. simpl in H.
  destruct o as [g' | g']; simpl in *; rewrite <- H; reflexivity.
Qed.

Lemma animationComplete_setup (id : nat) (g : Grid.t) :
  setup (settle (Grid.animationComplete id g)) = setup g.
Proof.
  unfold Grid.animationComplete.
  destruct (Grid.lookupAnim id _) as [a|]; [|reflexivity].
  pose proof (renderAnimation_setup a 1 g) as H.
  destruct (Grid.renderAnimation a 1 g) as [a' o]. simpl in H.
  destruct o as [g' | g']; simpl in *; rewrite <- H.
  - destruct a'; reflexivity.
  - reflexivity.
Qed.

Lemma update_setup (g : Grid.t) : setup (Grid.update g) = setup g.
Proof. unfold Grid.update. cbv zeta. destruct (Grid.isDragging _); reflexivity. Qed.

Lemma drawItem_setup (item : Tile.t) (g : Grid.t) :
  setup (settle (snd (Grid.drawItem item g))) = setup g.
Proof.
  unfold Grid.drawItem. cbv zeta.
  destruct (Tile.isVisible _); [|reflexivity].
  destruct (Tile.texture _); reflexivity.
Qed.

Lemma triggerHD_setup (item : Tile.t) (g : Grid.t) :
  setup (Grid.triggerHD item g) = setup g.
Proof.
  unfold Grid.triggerHD.
  destruct (_ && _); [|reflexivity].
  destruct (Tile.textureHD item); [|reflexivity].
  destruct (JS.index _ _); reflexivity.
Qed.

Lemma drawLoop_setup (todo : list Tile.t) :
  forall (done : list Tile.t) (g : Grid.t),
    setup (settle (Grid.drawLoop todo done g)) = setup g.
Proof.
  induction todo as [|item rest IH]; intros done g; simpl.
  - reflexivity.
  - destruct (negb _); [|apply IH].
    pose proof (drawItem_setup item g) as H.
    destruct (Grid.drawItem item g) as [item' o]. simpl in H.
    destruct o as [g' | g']; simpl in *.
    + rewrite IH, triggerHD_setup. rewrite <- H. reflexivity.
    + rewrite <- H. reflexivity.
Qed.

Lemma render_setup (g : Grid.t) : setup (settle (Grid.render g)) = setup g.
Proof.
  unfold Grid.render. destruct (_ || _); [reflexivity|].
  unfold Grid.draw. rewrite drawLoop_setup.
  transitivity (setup (Grid.update g)); [reflexivity | apply update_setup].
Qed.

Lemma setWindow_setup (g : Grid.t) : setup (settle (Grid.setWindow g)) = setup g.
Proof.
  unfold Grid.setWindow. cbv zeta.
  rewrite render_setup.
  destruct (Grid.getTotalDimensionsItems _); reflexivity.
Qed.

Lemma destroy_setup (g : Grid.t) : setup (Grid.destroy g) = setup g.
Proof.
  destruct g. destruct isDestroyed, resizeObserver, TLIntro; reflexivity.
Qed.

Lemma fireTimer_setup (k : nat) (g : Grid.t) : setup (Grid.fireTimer k g) = setup g.
Proof.
  unfold Grid.fireTimer. destruct (JS.index _ k) as [[|]|]; reflexivity.
Qed.

Lemma fire_setup (ev : Grid.Event) (g : Grid.t) : setup (Grid.fire ev g) = setup g.
Proof.
  destruct ev; simpl.
  - apply imageLoaded_setup.
  - apply animationUpdate_setup.
  - apply animationComplete_setup.
  - apply render_setup.
  - apply setWindow_setup.
  - apply zoom_setup.
  - apply startIntroSequence_setup.
  - apply destroy_setup.
  - apply fireTimer_setup.
Qed.

Lemma run_setup (evs : list Grid.Event) :
  forall g : Grid.t, setup (Grid.run evs g) = setup g.
Proof.
  induction evs as [|ev rest IH]; intros g; simpl.
  - reflexivity.
  - unfold Grid.run in IH. rewrite IH. apply fire_setup.
Qed.

End Setup.

(** ** Steps that delete nothing *)

Section Calm.

Import Props.

Lemma calm_refl (g : Grid.t) : calm g g.
Proof. unfold calm. repeat split. apply grows_refl. Qed.

Lemma calm_trans (a b c : Grid.t) : calm a b -> calm b c -> calm a c.
Proof.
  unfold calm.
  intros (A1 & A2 & A3 & A4 & A5 & A6 & A7) (B1 & B2 & B3 & B4 & B5 & B6 & B7).
  repeat split; try congruence.
  rewrite A6 in B7. eapply grows_trans; eassumption.
Qed.

Lemma sameControl_calm (g g' : Grid.t) : sameControl g g' -> calm g g'.
Proof.
  unfold sameControl, calm. intros H.
  repeat match goal with H : _ /\ _ |- _ => destruct H end.
  repeat split; try congruence.
  replace (Grid.world g') with (Grid.world g) by congruence. apply grows_refl.
Qed.

(** Steps that only touch fields outside [calm], or emit allowed effects. *)
Ltac calm_step :=
  unfold calm; repeat split;
  lazy -[app allowed sources grows];
  repeat first
    [ apply grows_refl
    | apply grows_snoc; [| repeat constructor ] ].

Lemma zoom_calm (a : string) (g : Grid.t) : calm g (Grid.zoom a g).
Proof.
  unfold Grid.zoom. destruct (negb (Grid.isIntroShown g)); [apply calm_refl|].
  destruct g. calm_step.
Qed.

Lemma fadeTextureIn_calm (i : nat) (tex : Texture.t) (g : Grid.t) :
  calm g (Grid.fadeTextureIn i tex g).
Proof. destruct g. unfold Grid.fadeTextureIn. calm_step. Qed.

Lemma fadeInFrom_calm (texs : list Texture.t) :
  forall (i : nat) (g : Grid.t), calm g (Grid.fadeInFrom i texs g).
Proof.
  induction texs as [|tex rest IH]; intros i g; simpl.
  - apply calm_refl.
  - eapply calm_trans; [apply fadeTextureIn_calm | apply IH].
Qed.

(** A step that leaves everything [calm] looks at and appends allowed
    effects to the trace. *)
Lemma calm_emit (g g' : Grid.t) (es : list Effect) :
  Grid.textures g' = Grid.textures g ->
  Grid.texturesHD g' = Grid.texturesHD g ->
  Grid.positionBuffer g' = Grid.positionBuffer g ->
  Grid.texcoordBuffer g' = Grid.texcoordBuffer g ->
  Grid.program g' = Grid.program g ->
  trace (Grid.world g') = (trace (Grid.world g) ++ es)%list ->
  Forall (allowed (sources (Grid.texturesHD g))) es ->
  calm g g'.
Proof.
  intros T H P Q R W A. unfold calm. rewrite T, H, P, Q, R.
  repeat split. exists es. auto.
Qed.

Lemma introSequence_calm (g : Grid.t) : calm g (Grid.introSequence g).
Proof.
  unfold Grid.introSequence. destruct (Grid.isIntroShown g); [apply calm_refl|].
  eapply calm_trans; [apply (fadeInFrom_calm (Grid.textures g) 0 g)|].
  fold (Grid.fadeInAllTextures g).
  set (g1 := Grid.fadeInAllTextures g). clearbody g1.
  eapply (calm_emit _ _ [GsapTimeline (nextAnim (Grid.world g1))]);
    try reflexivity.
  repeat constructor.
Qed.

Lemma startIntroSequence_calm (g : Grid.t) :
  calm g (Grid.startIntroSequence g).
Proof.
  unfold Grid.startIntroSequence.
  destruct (Grid.isIntroShown g); [apply calm_refl|].
  destruct (negb (Grid.texturesLoaded g)); [apply calm_refl|].
  apply introSequence_calm.
Qed.

Lemma calm_same (g g' : Grid.t) :
  Grid.textures g' = Grid.textures g ->
  Grid.texturesHD g' = Grid.texturesHD g ->
  Grid.positionBuffer g' = Grid.positionBuffer g ->
  Grid.texcoordBuffer g' = Grid.texcoordBuffer g ->
  Grid.program g' = Grid.program g ->
  trace (Grid.world g') = trace (Grid.world g) ->
  calm g g'.
Proof.
  intros T H P Q R W. unfold calm. rewrite T, H, P, Q, R, W.
  repeat split. apply grows_refl.
Qed.

Lemma onTextureSDLoaded_calm (g : Grid.t) :
  calm g (Grid.onTextureSDLoaded g).
Proof.
  unfold Grid.onTextureSDLoaded. cbv zeta.
  destruct (Nat.eqb _ _); [|apply calm_same; reflexivity].
  destruct (negb _); [|apply calm_same; reflexivity].
  eapply calm_trans; [|apply introSequence_calm].
  apply calm_same; reflexivity.
Qed.

Lemma updateBySource_keeps (src : string) (imgW imgH : Q) (srcs : list string)
    (texs : list Texture.t) :
  forall w : World,
    let r := Grid.updateBySource src imgW imgH texs w in
    textureHandles (fst r) = textureHandles texs
    /\ sources (fst r) = sources texs
    /\ grows srcs (trace w) (trace (snd r)).
Proof.
  induction texs as [|tex rest IH]; intros w; simpl.
  - repeat split. apply grows_refl.
  - destruct (Grid.sourceIs src tex).
    + simpl. repeat split.
      exists [GlTexImageFromImage (Texture.texture tex) (Texture.source tex)].
      split; [reflexivity | repeat constructor].
    + specialize (IH w).
      destruct (Grid.updateBySource src imgW imgH rest w) as [rest' w'].
      simpl in *. destruct IH as (Hh & Hs & Hg).
      unfold textureHandles, sources in *. simpl. rewrite Hh, Hs. auto.
Qed.

Lemma imageLoaded_calm (k : nat) (w h : Q) (g : Grid.t) :
  calm g (Grid.imageLoaded k w h g).
Proof.
  unfold Grid.imageLoaded.
  destruct (JS.index _ k) as [[src cb]|]; [|apply calm_refl].
  cbv zeta.
  match goal with
  | |- context [Grid.updateBySource _ _ _ _ (Grid.world ?x)] => set (g1 := x)
  end.
  assert (C1 : calm g g1) by (apply calm_same; reflexivity).
  assert (T1 : Grid.textures g1 = Grid.textures g) by reflexivity.
  assert (H1 : Grid.texturesHD g1 = Grid.texturesHD g) by reflexivity.
  clearbody g1.
  destruct cb.
  - pose proof (updateBySource_keeps src w h (sources (Grid.texturesHD g1))
                  (Grid.textures g1) (Grid.world g1)) as K.
    destruct (Grid.updateBySource src w h (Grid.textures g1) (Grid.world g1))
      as [texs w']. simpl in K. destruct K as (Kh & Ks & Kg).
    eapply calm_trans; [exact C1|].
    eapply calm_trans; [|apply onTextureSDLoaded_calm].
    unfold calm. repeat split; assumption.
  - pose proof (updateBySource_keeps src w h (sources (Grid.texturesHD g1))
                  (Grid.texturesHD g1) (Grid.world g1)) as K.
    destruct (Grid.updateBySource src w h (Grid.texturesHD g1) (Grid.world g1))
      as [texs w']. simpl in K. destruct K as (Kh & Ks & Kg).
    eapply calm_trans; [exact C1|].
    unfold calm. repeat split; assumption.
Qed.

Lemma applyZoom_calm (z : Q) (g : Grid.t) : calm g (settle (Grid.applyZoom z g)).
Proof.
  destruct (applyZoom_frame z g) as (g' & [E | E] & (_ & C & _) & _);
    rewrite E; simpl; apply sameControl_calm, C.
Qed.

Lemma modifyAt_opacity (v : Q) (i : nat) (texs : list Texture.t) :
  textureHandles (Grid.modifyAt (Grid.setOpacity v) i texs) = textureHandles texs.
Proof.
  revert i. induction texs as [|tex rest IH]; intros [|i]; simpl; try reflexivity.
  unfold textureHandles in *. simpl. rewrite IH. reflexivity.
Qed.

Lemma renderAnimation_calm (a : Animation) (p : Q) (g : Grid.t) :
  calm g (settle (snd (Grid.renderAnimation a p g))).
Proof.
  destruct a as [called gh gv z gray | from to_ | i from]; simpl.
  - eapply calm_trans; [|apply applyZoom_calm].
    destruct called.
    + apply calm_same; reflexivity.
    + eapply (calm_emit _ _ [IntroMostlyDone]); try reflexivity.
      repeat constructor.
  - apply applyZoom_calm.
  - unfold calm. repeat split; try apply grows_refl.
    apply modifyAt_opacity.
Qed.

Lemma animationUpdate_calm (id : nat) (p : Q) (g : Grid.t) :
  calm g (settle (Grid.animationUpdate id p g)).
Proof.
  unfold Grid.animationUpdate.
  destruct (Grid.lookupAnim id _) as [a|]; [|apply calm_refl].
  pose proof (renderAnimation_calm a p g) as H.
  destruct (Grid.renderAnimation a p g) as [a' o]. simpl in H.
  destruct o as [g' | g']; simpl in *;
    (eapply calm_trans; [exact H | apply calm_same; reflexivity]).
Qed.

Lemma animationComplete_calm (id : nat) (g : Grid.t) :
  calm g (settle (Grid.animationComplete id g)).
Proof.
  unfold Grid.animationComplete.
  destruct (Grid.lookupAnim id _) as [a|]; [|apply calm_refl].
  pose proof (renderAnimation_calm a 1 g) as H.
  destruct (Grid.renderAnimation a 1 g) as [a' o]. simpl in H.
  destruct o as [g' | g']; simpl in *.
  - eapply calm_trans; [exact H|].
    destruct a'; try (apply calm_same; reflexivity).
    eapply (calm_emit _ _ [BindEvents]); try reflexivity.
    repeat constructor.
  - eapply calm_trans; [exact H | apply calm_same; reflexivity].
Qed.

Lemma update_calm (g : Grid.t) : calm g (Grid.update g).
Proof.
  unfold Grid.update. cbv zeta.
  destruct (Grid.isDragging _); apply calm_same; reflexivity.
Qed.

Lemma drawItem_calm (item : Tile.t) (g : Grid.t) :
  calm g (settle (snd (Grid.drawItem item g))).
Proof.
  unfold Grid.drawItem. cbv zeta.
  destruct (Tile.isVisible _); [|apply calm_refl].
  destruct (Tile.texture _); [|apply calm_refl].
  simpl. eapply calm_emit; try reflexivity. repeat constructor.
Qed.

Lemma load_grows (srcs : list string) (tex : Texture.t) (w : World) :
  In (Texture.source tex) srcs -> grows srcs (trace w) (trace (Texture.load tex w)).
Proof.
  intros Hin. unfold Texture.load. destruct (Texture.isInit tex).
  - apply grows_refl.
  - exists [ImageRequest (Texture.source tex)].
    split; [reflexivity | repeat constructor; exact Hin].
Qed.

Lemma triggerHD_calm (item : Tile.t) (g : Grid.t) :
  calm g (Grid.triggerHD item g).
Proof.
  unfold Grid.triggerHD.
  destruct (_ && _); [|apply calm_refl].
  destruct (Tile.textureHD item) as [j|]; [|apply calm_refl].
  destruct (JS.index _ j) as [tex|] eqn:E; [|apply calm_refl].
  unfold calm. repeat split.
  apply load_grows. apply in_map. eapply nth_error_In. exact E.
Qed.

Lemma drawLoop_calm (todo : list Tile.t) :
  forall (done : list Tile.t) (g : Grid.t),
    calm g (settle (Grid.drawLoop todo done g)).
Proof.
  induction todo as [|item rest IH]; intros done g; simpl.
  - apply calm_same; reflexivity.
  - destruct (negb _); [|apply IH].
    pose proof (drawItem_calm item g) as H.
    destruct (Grid.drawItem item g) as [item' o]. simpl in H.
    destruct o as [g' | g']; simpl in *.
    + eapply calm_trans; [exact H|].
      eapply calm_trans; [|apply IH].
      eapply calm_trans; [|apply triggerHD_calm].
      apply calm_same; reflexivity.
    + eapply calm_trans; [exact H | apply calm_same; reflexivity].
Qed.

Lemma render_calm (g : Grid.t) : calm g (settle (Grid.render g)).
Proof.
  unfold Grid.render. destruct (_ || _); [apply calm_refl|].
  unfold Grid.draw.
  eapply calm_trans; [apply update_calm|].
  eapply calm_trans; [|apply drawLoop_calm].
  apply calm_same; reflexivity.
Qed.

Lemma setWindow_calm (g : Grid.t) : calm g (settle (Grid.setWindow g)).
Proof.
  unfold Grid.setWindow. cbv zeta.
  eapply calm_trans; [|apply render_calm].
  destruct (Grid.getTotalDimensionsItems _).
  - eapply calm_trans; [|apply sameControl_calm, recenter_sameControl].
    apply calm_same; reflexivity.
  - apply calm_same; reflexivity.
Qed.

Lemma destroy_calm (g : Grid.t) : calm g (Grid.destroy g).
Proof.
  destruct g. destruct isDestroyed; [apply calm_refl|].
  destruct resizeObserver, TLIntro; unfold Grid.destroy, Grid.unbindEvents;
    calm_step.
Qed.

End Calm.

(** ** Teardown *)

Section Teardown.

Import Props.

Lemma deletions_app (g : Grid.t) (w : World) (es : list Effect) :
  trace w = (trace (Grid.world g) ++ es)%list ->
  flat_map Grid.deleted (trace w) = (Grid.deletions g ++ flat_map Grid.deleted es)%list.
Proof. intros ->. unfold Grid.deletions. apply flat_map_app. Qed.

Lemma destroyTextures_trace (texs : list Texture.t) :
  forall w : World,
    trace (Grid.destroyTextures texs w)
    = (trace w ++ map GlDeleteTexture (textureHandles texs))%list.
Proof.
  induction texs as [|tex rest IH]; intros w; simpl.
  - rewrite app_nil_r. reflexivity.
  - rewrite IH. unfold Texture.destroy, textureHandles. simpl.
    destruct (Texture.texture tex) as [h|]; simpl.
    + rewrite <- app_assoc. reflexivity.
    + reflexivity.
Qed.

Lemma deleteWith_trace (mk : GL.handle -> Effect) (h : option GL.handle) (w : World) :
  trace (Grid.deleteWith mk h w) = (trace w ++ map mk (optional h))%list.
Proof. destruct h; simpl; [reflexivity | rewrite app_nil_r; reflexivity]. Qed.

Lemma deleted_textures (l : list GL.handle) :
  flat_map Grid.deleted (map GlDeleteTexture l) = l.
Proof. induction l; simpl; congruence. Qed.

Lemma deleted_buffers (l : list GL.handle) :
  flat_map Grid.deleted (map GlDeleteBuffer l) = l.
Proof. induction l; simpl; congruence. Qed.

Lemma deleted_programs (l : list GL.handle) :
  flat_map Grid.deleted (map GlDeleteProgram l) = l.
Proof. induction l; simpl; congruence. Qed.

(** The 800 ms callback deletes every object the renderer owns, once, and
    leaves it owning nothing. *)
Lemma teardown_deletions (g : Grid.t) :
  Grid.deletions (Grid.teardown g) = (Grid.deletions g ++ liveHandles g)%list
  /\ liveHandles (Grid.teardown g) = []
  /\ Grid.imagesGL (Grid.teardown g) = []
  /\ Grid.timers (Grid.teardown g) = (Grid.timers g ++ [LoseContext])%list.
Proof.
  split; [|repeat split].
  unfold Grid.deletions at 1.
  assert (E : trace (Grid.world (Grid.teardown g))
              = (trace (Grid.world g)
                 ++ map GlDeleteTexture (textureHandles (Grid.textures g))
                 ++ map GlDeleteTexture (textureHandles (Grid.texturesHD g))
                 ++ map GlDeleteBuffer (optional (Grid.positionBuffer g))
                 ++ map GlDeleteBuffer (optional (Grid.texcoordBuffer g))
                 ++ map GlDeleteProgram (optional (Grid.program g)))%list).
  { unfold Grid.teardown. cbv zeta.
    change (trace (Grid.world ?x)) with (trace (Grid.world x)).
    match goal with
    | |- trace ?w = _ =>
        change w with
          (Grid.deleteWith GlDeleteProgram (Grid.program g)
             (Grid.deleteWith GlDeleteBuffer (Grid.texcoordBuffer g)
                (Grid.deleteWith GlDeleteBuffer (Grid.positionBuffer g)
                   (Grid.destroyTextures (Grid.texturesHD g)
                      (Grid.destroyTextures (Grid.textures g) (Grid.world g))))))
    end.
    rewrite !deleteWith_trace, !destroyTextures_trace, <- !app_assoc.
    reflexivity. }
  rewrite E, !flat_map_app, deleted_textures, deleted_textures,
    deleted_buffers, deleted_buffers, deleted_programs.
  reflexivity.
Qed.

Lemma destroy_twice (g : Grid.t) : Grid.destroy (Grid.destroy g) = Grid.destroy g.
Proof.
  unfold Grid.destroy at 1.
  assert (E : Grid.isDestroyed (Grid.destroy g) = true).
  { destruct g. destruct isDestroyed, resizeObserver, TLIntro; reflexivity. }
  rewrite E. reflexivity.
Qed.

Lemma view_destroy_twice (v : View.t) : View.destroy (View.destroy v) = View.destroy v.
Proof.
  unfold View.destroy at 1.
  assert (E : View.isDestroyed (View.destroy v) = true).
  { destruct v. destruct isDestroyed, rafId, resizeObserver; reflexivity. }
  rewrite E. reflexivity.
Qed.

(** [destroy()] itself deletes nothing and schedules one teardown. *)
Lemma destroy_schedules (g : Grid.t) :
  Grid.isDestroyed g = false ->
  Grid.timers (Grid.destroy g) = (Grid.timers g ++ [TeardownGPU])%list
  /\ Grid.deletions (Grid.destroy g) = Grid.deletions g
  /\ liveHandles (Grid.destroy g) = liveHandles g.
Proof.
  intros D. destruct g. simpl in D. subst.
  destruct resizeObserver, TLIntro;
    (split; [reflexivity|]; split; [|reflexivity]);
    unfold Grid.deletions; lazy -[app flat_map];
    rewrite !flat_map_app; cbn [flat_map Grid.deleted app];
    rewrite ?app_nil_r; reflexivity.
Qed.

End Teardown.

(** ** Invariants of a renderer's life *)

Section Life.

Import Props.

Lemma allowed_not_deleted (srcs : list string) (es : list Effect) :
  Forall (allowed srcs) es -> flat_map Grid.deleted es = [].
Proof.
  induction 1 as [|e es He _ IH]; simpl; [reflexivity|].
  rewrite IH. destruct e; simpl in *; try reflexivity; contradiction.
Qed.

Lemma allowed_requested (srcs : list string) (es : list Effect) :
  Forall (allowed srcs) es -> incl (flat_map requested es) srcs.
Proof.
  induction 1 as [|e es He _ IH]; simpl; [intros ? []|].
  apply incl_app; [|exact IH].
  destruct e; simpl in *; intros s Hs; try contradiction.
  destruct Hs as [<-|[]]. exact He.
Qed.

(** A calm step deletes nothing, keeps what the renderer owns, and requests
    only sources of its HD textures. *)
Lemma calm_ledger (g g' : Grid.t) :
  calm g g' ->
  Grid.deletions g' = Grid.deletions g
  /\ liveHandles g' = liveHandles g
  /\ sources (Grid.texturesHD g') = sources (Grid.texturesHD g)
  /\ exists extra,
       requestedUrls g' = (requestedUrls g ++ extra)%list
       /\ incl extra (sources (Grid.texturesHD g)).
Proof.
  intros (A1 & A2 & A3 & A4 & A5 & A6 & es & E & A).
  unfold Grid.deletions, liveHandles, requestedUrls.
  rewrite E, !flat_map_app, (allowed_not_deleted _ _ A), app_nil_r.
  rewrite A1, A2, A3, A4, A5.
  repeat split; [exact A6|].
  exists (flat_map requested es). split; [reflexivity|].
  apply allowed_requested, A.
Qed.

Lemma requested_deletes (mk : GL.handle -> Effect) (l : list GL.handle) :
  (forall h, requested (mk h) = []) -> flat_map requested (map mk l) = [].
Proof. intros H. induction l; simpl; [reflexivity|]. rewrite H, IHl. reflexivity. Qed.

Lemma teardown_requestedUrls (g : Grid.t) :
  requestedUrls (Grid.teardown g) = requestedUrls g.
Proof.
  unfold requestedUrls.
  assert (E : trace (Grid.world (Grid.teardown g))
              = (trace (Grid.world g)
                 ++ map GlDeleteTexture (textureHandles (Grid.textures g))
                 ++ map GlDeleteTexture (textureHandles (Grid.texturesHD g))
                 ++ map GlDeleteBuffer (optional (Grid.positionBuffer g))
                 ++ map GlDeleteBuffer (optional (Grid.texcoordBuffer g))
                 ++ map GlDeleteProgram (optional (Grid.program g)))%list).
  { unfold Grid.teardown. cbv zeta.
    match goal with
    | |- trace ?w = _ =>
        change w with
          (Grid.deleteWith GlDeleteProgram (Grid.program g)
             (Grid.deleteWith GlDeleteBuffer (Grid.texcoordBuffer g)
                (Grid.deleteWith GlDeleteBuffer (Grid.positionBuffer g)
                   (Grid.destroyTextures (Grid.texturesHD g)
                      (Grid.destroyTextures (Grid.textures g) (Grid.world g))))))
    end.
    rewrite !deleteWith_trace, !destroyTextures_trace, <- !app_assoc.
    reflexivity. }
  rewrite E, !flat_map_app, !requested_deletes by reflexivity.
  rewrite !app_nil_r. reflexivity.
Qed.

Lemma poolUrl_setup (g g' : Grid.t) (s : string) :
  setup g' = setup g -> poolUrl g s -> poolUrl g' s.
Proof.
  intros E (img & hd & Hin & ->). exists img, hd.
  rewrite (getImageSource_setup g g' E).
  split; [|reflexivity]. unfold setup in E. congruence.
Qed.

Lemma calm_invariants (g g' : Grid.t) :
  setup g' = setup g -> calm g g' ->
  (tidy g -> tidy g') /\ (fetchesPool g -> fetchesPool g').
Proof.
  intros S C. destruct (calm_ledger g g' C) as (D & L & H & extra & R & I).
  split.
  - unfold tidy. rewrite D, L. auto.
  - intros (F1 & F2). unfold fetchesPool. rewrite R, H. split.
    + apply Forall_app. split.
      * eapply Forall_impl; [|exact F1]. intros s. apply poolUrl_setup, S.
      * rewrite Forall_forall in *. intros s Hs.
        apply (poolUrl_setup g g' s S). apply F2, I, Hs.
    + eapply Forall_impl; [|exact F2]. intros s. apply poolUrl_setup, S.
Qed.

Lemma teardown_invariants (g : Grid.t) :
  (tidy g -> tidy (Grid.teardown g))
  /\ (fetchesPool g -> fetchesPool (Grid.teardown g)).
Proof.
  destruct (teardown_deletions g) as (D & L & _).
  split.
  - unfold tidy. rewrite D, L, app_nil_r. auto.
  - intros (F1 & _). unfold fetchesPool.
    rewrite teardown_requestedUrls. split; [|constructor].
    eapply Forall_impl; [|exact F1]. intros s. apply poolUrl_setup. reflexivity.
Qed.

Lemma fireTimer_invariants (k : nat) (g : Grid.t) :
  (tidy g -> tidy (Grid.fireTimer k g))
  /\ (fetchesPool g -> fetchesPool (Grid.fireTimer k g)).
Proof.
  unfold Grid.fireTimer. destruct (JS.index _ k) as [tm|]; [|tauto].
  cbv zeta.
  match goal with
  | |- context [match tm with _ => _ end] => idtac
  end.
  set (g1 := g <| Grid.timers ::= Grid.removeNth k |>).
  assert (C1 : calm g g1) by (apply calm_same; reflexivity).
  assert (S1 : setup g1 = setup g) by reflexivity.
  destruct (calm_invariants g g1 S1 C1) as (T1 & F1).
  clearbody g1. destruct tm.
  - destruct (teardown_invariants g1) as (T2 & F2). split; auto.
  - assert (C2 : calm g1 (g1 <| Grid.world ::= emit [GlLoseContext] |>)).
    { eapply calm_emit; try reflexivity. repeat constructor. }
    assert (S2 : setup (g1 <| Grid.world ::= emit [GlLoseContext] |>) = setup g1)
      by reflexivity.
    destruct (calm_invariants _ _ S2 C2) as (T2 & F2).
    split; auto.
Qed.

Lemma fire_invariants (ev : Grid.Event) (g : Grid.t) :
  (tidy g -> tidy (Grid.fire ev g))
  /\ (fetchesPool g -> fetchesPool (Grid.fire ev g)).
Proof.
  destruct ev; simpl;
    try (apply calm_invariants; [apply (fire_setup _ g)|]).
  - apply (calm_invariants _ _ (fire_setup (Grid.ImageLoaded k imgW imgH) g)).
    apply imageLoaded_calm.
  - apply (calm_invariants _ _ (fire_setup (Grid.Tick id p) g)).
    apply animationUpdate_calm.
  - apply (calm_invariants _ _ (fire_setup (Grid.Complete id) g)).
    apply animationComplete_calm.
  - apply (calm_invariants _ _ (fire_setup Grid.Frame g)). apply render_calm.
  - apply (calm_invariants _ _ (fire_setup Grid.Resize g)). apply setWindow_calm.
  - apply (calm_invariants _ _ (fire_setup (Grid.Zoom action) g)). apply zoom_calm.
  - apply (calm_invariants _ _ (fire_setup Grid.StartIntro g)).
    apply startIntroSequence_calm.
  - apply (calm_invariants _ _ (fire_setup Grid.Destroy g)). apply destroy_calm.
  - apply fireTimer_invariants.
Qed.

Lemma run_invariants (evs : list Grid.Event) :
  forall g : Grid.t,
    (tidy g -> tidy (Grid.run evs g))
    /\ (fetchesPool g -> fetchesPool (Grid.run evs g)).
Proof.
  induction evs as [|ev rest IH]; intros g; simpl.
  - tauto.
  - destruct (fire_invariants ev g) as (T1 & F1).
    destruct (IH (Grid.fire ev g)) as (T2 & F2). unfold Grid.run in *.
    split; auto.
Qed.

Lemma textureOf_poolUrl (g : Grid.t) (hd : bool) (texs : list Texture.t) :
  Forall (textureOf g (Grid.images g) hd) texs ->
  Forall (poolUrl g) (sources texs).
Proof.
  intros H. unfold sources. rewrite Forall_map.
  eapply Forall_impl; [|exact H].
  intros tex ((img & Hin & E) & _). exists img, hd. auto.
Qed.

(** The renderer as created is tidy and has fetched pool URLs only. *)
Lemma create_invariants (e : Env) (imgs : list Image) (mobile delay : bool) :
  imgs <> [] ->
  tidy (Grid.create e imgs mobile delay)
  /\ fetchesPool (Grid.create e imgs mobile delay).
Proof.
  intros Hne.
  destruct (create_spec e imgs mobile delay Hne)
    as (_ & _ & _ & _ & T & H & _ & _ & Nd & W & _).
  set (g := Grid.create e imgs mobile delay) in *. clearbody g.
  split.
  - unfold tidy, Grid.deletions.
    pose proof (allowed_not_deleted _ _ W) as D. rewrite D. exact Nd.
  - split.
    + pose proof (allowed_requested _ _ W) as R.
      pose proof (textureOf_poolUrl g false _ T) as P.
      rewrite Forall_forall in *. intros s Hs. apply P, R, Hs.
    + apply (textureOf_poolUrl g true _ H).
Qed.

End Life.

(** ** C6: construction of the grid *)

(** C6.  For a non-empty list of images (and [Math.random()] in [0, 1)),
    once [init()] is over the renderer is initialised; its working pool is
    the list followed by itself, both shuffled, of length 2N; there are
    exactly columns x rows items; the item at position [i] shows the pool
    image at [i mod 2N] and holds a reference to an SD texture object of
    the renderer's texture list, whose source is that image's SD source and
    whose WebGL texture exists. *)
Theorem grid_construction (e : Env) (originalImages : list Image)
    (mobile delayIntro : bool) :
  originalImages <> [] ->
  (forall k : nat, 0 <= random e k < 1) ->
  let g := Grid.create e originalImages mobile delayIntro in
  let pool := Grid.images g in
  Grid.isInit g = true
  /\ Permutation pool (originalImages ++ originalImages)
  /\ List.length pool = (2 * List.length originalImages)%nat
  /\ List.length (Grid.imagesGL g)
     = (Grid.COLUMN_ITEM_LENGTH g * Grid.ROW_ITEM_LENGTH g)%nat
  /\ (forall (i : nat) (item : Tile.t),
        nth_error (Grid.imagesGL g) i = Some item ->
        exists (img : Image) (k : nat) (tex : Texture.t),
          nth_error pool (i mod List.length pool) = Some img
          /\ Tile.index item = i
          /\ Tile.source item = Grid.getImageSource g img false
          /\ Tile.texture item = Some k
          /\ nth_error (Grid.textures g) k = Some tex
          /\ Texture.source tex = Tile.source item
          /\ Texture.texture tex <> None).
Proof.
  intros Hne _ g pool.
  destruct (create_spec e originalImages mobile delayIntro Hne)
    as (I & P & L & A & _).
  fold g in I, P, L, A. fold pool in P.
  split; [exact I|]. split; [exact P|].
  split; [rewrite (Permutation_length P), length_app; lia|].
  split; [exact L|].
  exact A.
Qed.

Lemma grid_construction_witness :
  Sample.pictures <> []
  /\ (forall k : nat, 0 <= random Sample.env k < 1)
  /\ Grid.isInit (Grid.create Sample.env Sample.pictures false false) = true.
Proof.
  assert (Hne : Sample.pictures <> []) by discriminate.
  assert (Hr : forall k : nat, 0 <= random Sample.env k < 1)
    by (intros k; cbn; lra).
  split; [exact Hne|]. split; [exact Hr|].
  exact (proj1 (grid_construction Sample.env Sample.pictures false false Hne Hr)).
Defined.

(** ** C8: destroying twice *)

(** C8.  For any state of a renderer or of a view, a second [destroy()]
    right after the first returns the state unchanged: nothing is thrown,
    no effect is emitted, no timer is added.  The first call on a live
    renderer deletes nothing itself and schedules one teardown; when that
    teardown runs, the objects deleted are exactly the textures, buffers
    and program the renderer owned, each once, and it owns nothing
    afterwards.  The objects owned by a renderer as constructed are
    pairwise distinct, and whatever events follow its construction
    ([destroy()] calls and timers firing among them, in any order and
    number), no WebGL object is deleted twice. *)
Theorem destroy_idempotent :
  (forall g : Grid.t, Grid.destroy (Grid.destroy g) = Grid.destroy g)
  /\ (forall v : View.t, View.destroy (View.destroy v) = View.destroy v)
  /\ (forall g : Grid.t,
        Grid.isDestroyed g = false ->
        let g2 := Grid.destroy (Grid.destroy g) in
        Grid.timers g2 = (Grid.timers g ++ [TeardownGPU])%list
        /\ Grid.deletions g2 = Grid.deletions g
        /\ Grid.deletions (Grid.teardown g2)
           = (Grid.deletions g ++ Props.liveHandles g)%list
        /\ Props.liveHandles (Grid.teardown g2) = [])
  /\ (forall (e : Env) (imgs : list Image) (mobile delayIntro : bool),
        imgs <> [] ->
        NoDup (Props.liveHandles (Grid.create e imgs mobile delayIntro)))
  /\ (forall (e : Env) (imgs : list Image) (mobile delayIntro : bool)
             (evs : list Grid.Event),
        imgs <> [] ->
        NoDup (Grid.deletions
                 (Grid.run evs (Grid.create e imgs mobile delayIntro)))).
Proof.
  split; [exact destroy_twice|]. split; [exact view_destroy_twice|].
  split; [|split].
  - intros g D g2. unfold g2. rewrite destroy_twice.
    destruct (destroy_schedules g D) as (T & Dl & Lv).
    destruct (teardown_deletions (Grid.destroy g)) as (Td & Tl & _).
    split; [exact T|]. split; [exact Dl|].
    split; [rewrite Td, Dl, Lv; reflexivity | exact Tl].
  - intros e imgs mobile delayIntro Hne.
    destruct (create_spec e imgs mobile delayIntro Hne)
      as (_ & _ & _ & _ & _ & _ & _ & _ & Nd & _).
    exact Nd.
  - intros e imgs mobile delayIntro evs Hne.
    destruct (create_invariants e imgs mobile delayIntro Hne) as (T & _).
    apply (proj1 (run_invariants evs _)) in T.
    unfold Props.tidy in T. apply NoDup_app_remove_r in T. exact T.
Qed.

Lemma destroy_idempotent_witness :
  Grid.isDestroyed Sample.booted = false
  /\ Grid.timers (Grid.destroy (Grid.destroy Sample.booted))
     = (Grid.timers Sample.booted ++ [TeardownGPU])%list.
Proof.
  assert (D : Grid.isDestroyed Sample.booted = false) by (vm_compute; reflexivity).
  split; [exact D|].
  exact (proj1 (proj1 (proj2 (proj2 destroy_idempotent)) Sample.booted D)).
Defined.

(** ** C9: the URL of an image *)

Example sample_source :
  Grid.getImageSource Sample.booted (Sample.image "a.jpg" 1200) false
  = "a.jpg?h=1200&fm=avif&q=70&fit=fill"%string
  /\ Grid.getImageSource Sample.booted (Sample.image "b.jpg" 4000) true
     = "b.jpg?h=3200&fm=avif&q=80&fit=fill"%string.
Proof. split; vm_compute; reflexivity. Qed.

(** C9.  For a renderer constructed over a non-empty list of images, in
    whatever state later events leave it: its format is the one detected
    at [init()] ("avif", or "jpeg" when AVIF does not decode); for every
    image and either resolution, [getImageSource] is the image's url
    followed by [?h=<h>&fm=<format>&q=<q>&fit=fill], with [h] the ceiling
    of the smaller of target size x pixel ratio and the image's height and
    [q] the quality of the device class and resolution; and every URL the
    renderer has requested is such a URL, for one of the images. *)
Theorem image_source_contract (e : Env) (imgs : list Image)
    (mobile delayIntro : bool) (evs : list Grid.Event) :
  imgs <> [] ->
  let g := Grid.run evs (Grid.create e imgs mobile delayIntro) in
  let format := Props.detectedFormat e in
  let ratio :=
    if mobile then JS.Math_min (orOne (devicePixelRatio e)) 2
    else orOne (devicePixelRatio e) in
  Grid.fileFormat g = format
  /\ Grid.pixelRatio g = ratio
  /\ (forall (img : Image) (hd : bool),
        Grid.getImageSource g img hd
        = Props.contractUrl format mobile ratio img hd)
  /\ (forall s : string,
        In s (Props.requestedUrls g) ->
        exists (img : Image) (hd : bool),
          In img imgs /\ s = Props.contractUrl format mobile ratio img hd).
Proof.
  intros Hne g format ratio.
  destruct (create_spec e imgs mobile delayIntro Hne)
    as (_ & P & _ & _ & _ & _ & F & _ & _ & _ & Mb & R).
  destruct (create_invariants e imgs mobile delayIntro Hne) as (_ & FP).
  apply (proj2 (run_invariants evs _)) in FP. fold g in FP.
  pose proof (run_setup evs (Grid.create e imgs mobile delayIntro)) as S.
  fold g in S. unfold Props.setup in S.
  set (g0 := Grid.create e imgs mobile delayIntro) in *. clearbody g.
  injection S as Si Sf Sm Sr _ _ _.
  assert (U : forall img hd,
             Grid.getImageSource g img hd
             = Props.contractUrl format mobile ratio img hd).
  { intros img hd. unfold Grid.getImageSource, Props.contractUrl.
    cbv zeta. rewrite Sf, Sm, Sr, F, Mb, R.
    unfold JS.Math_ceil, JS.Math_min, Props.targetSize, Props.qualityFor.
    destruct mobile, hd; reflexivity. }
  split; [rewrite Sf; exact F|]. split; [rewrite Sr; exact R|].
  split; [exact U|].
  intros s Hs. destruct FP as (FR & _).
  rewrite Forall_forall in FR.
  destruct (FR s Hs) as (img & hd & Hin & ->).
  exists img, hd. split; [|apply U].
  rewrite Si in Hin. apply (Permutation_in _ P) in Hin.
  apply in_app_or in Hin. tauto.
Qed.

Lemma image_source_contract_witness :
  Sample.pictures <> []
  /\ Grid.fileFormat
       (Grid.run [Grid.Frame]
          (Grid.create Sample.env Sample.pictures false false))
     = Props.detectedFormat Sample.env.
Proof.
  assert (Hne : Sample.pictures <> []) by discriminate.
  split; [exact Hne|].
  exact (proj1 (image_source_contract Sample.env Sample.pictures false false
                  [Grid.Frame] Hne)).
Defined.
(* ================================================================= *)
(** * Further properties of the code *)

(** ** Colours *)

Section Colours.

Import Terms.

Lemma nibble_cases (n : Z) :
  (0 <= n < 16)%Z ->
  n = 0%Z \/ n = 1%Z \/ n = 2%Z \/ n = 3%Z \/ n = 4%Z \/ n = 5%Z \/ n = 6%Z
  \/ n = 7%Z \/ n = 8%Z \/ n = 9%Z \/ n = 10%Z \/ n = 11%Z \/ n = 12%Z
  \/ n = 13%Z \/ n = 14%Z \/ n = 15%Z.
Proof. lia. Qed.

Lemma hexDigit_hexChar (upper : bool) (n : Z) :
  (0 <= n < 16)%Z ->
  Color.hexDigit (hexChar upper n) = Some n
  /\ hexChar upper n <> "#"%char.
Proof.
  intros H. apply nibble_cases in H.
  repeat (destruct H as [-> | H]); try subst n;
    destruct upper; (split; [reflexivity | discriminate]).
Qed.

Lemma hexPair_hexByte (upper : bool) (n : Z) :
  isByte n ->
  Color.hexPair (hexChar upper (n / 16)) (hexChar upper (n mod 16)) = Some n.
Proof.
  intros [H0 H1]. unfold Color.hexPair.
  assert (Hhi : (0 <= n / 16 < 16)%Z)
    by (split; [apply Z.div_pos; lia | apply Z.div_lt_upper_bound; lia]).
  assert (Hlo : (0 <= n mod 16 < 16)%Z) by (apply Z.mod_pos_bound; lia).
  destruct (hexDigit_hexChar upper _ Hhi) as [-> _].
  destruct (hexDigit_hexChar upper _ Hlo) as [-> _].
  f_equal. pose proof (Z.div_mod n 16). lia.
Qed.

Lemma sixDigits_hexColor (upper : bool) (c : Color.rgb) :
  isByte (Color.r c) -> isByte (Color.g c) -> isByte (Color.b c) ->
  Color.sixDigits (hexColor false upper c) = Some c.
Proof.
  intros Hr Hg Hb. destruct c as [r g b]. simpl in *.
  unfold hexColor, hexByte. simpl.
  rewrite !hexPair_hexByte by assumption. reflexivity.
Qed.

Lemma hexDigit_range (ch : ascii) (n : Z) :
  Color.hexDigit ch = Some n -> (0 <= n < 16)%Z.
Proof.
  unfold Color.hexDigit. cbv zeta.
  generalize (Z.of_nat (nat_of_ascii ch)). intros k.
  destruct ((48 <=? k) && (k <=? 57))%Z eqn:E1;
    [|destruct ((97 <=? k) && (k <=? 102))%Z eqn:E2;
      [|destruct ((65 <=? k) && (k <=? 70))%Z eqn:E3; [|discriminate]]];
    intros [= <-];
    match goal with
    | E : (_ && _)%bool = true |- _ =>
        apply andb_true_iff in E; destruct E as [Ea Eb];
        apply Z.leb_le in Ea, Eb
    end; lia.
Qed.

Lemma hexPair_range (x y : ascii) (n : Z) :
  Color.hexPair x y = Some n -> isByte n.
Proof.
  unfold Color.hexPair, isByte.
  destruct (Color.hexDigit x) as [hi|] eqn:Ex; [|discriminate].
  destruct (Color.hexDigit y) as [lo|] eqn:Ey; [|discriminate].
  apply hexDigit_range in Ex. apply hexDigit_range in Ey.
  intros H. assert (E : n = (16 * hi + lo)%Z) by congruence. lia.
Qed.

Lemma sixDigits_range (s : string) (c : Color.rgb) :
  Color.sixDigits s = Some c ->
  String.length s = 6%nat
  /\ isByte (Color.r c) /\ isByte (Color.g c) /\ isByte (Color.b c).
Proof.
  unfold Color.sixDigits.
  destruct s as [|r1 [|r2 [|g1 [|g2 [|b1 [|b2 [|? ?]]]]]]]; try discriminate.
  destruct (Color.hexPair r1 r2) as [rr|] eqn:Er; [|discriminate].
  destruct (Color.hexPair g1 g2) as [gg|] eqn:Eg; [|discriminate].
  destruct (Color.hexPair b1 b2) as [bb|] eqn:Eb; [|discriminate].
  intros [= <-]. simpl.
  repeat split; eapply hexPair_range; eassumption.
Qed.

Lemma exec_range (hex : string) (c : Color.rgb) :
  Color.exec hex = Some c ->
  (String.length hex = 6%nat
   \/ (String.length hex = 7%nat /\ exists rest, hex = String "#"%char rest))
  /\ isByte (Color.r c) /\ isByte (Color.g c) /\ isByte (Color.b c).
Proof.
  unfold Color.exec. intros H.
  assert (D : (exists rest, hex = String "#"%char rest
                            /\ Color.sixDigits rest = Some c)
              \/ Color.sixDigits hex = Some c).
  { destruct hex as [|ch rest]; [right; exact H|].
    destruct (Ascii.ascii_dec ch "#"%char) as [-> | Hne].
    - left. eauto.
    - right. destruct ch as [[] [] [] [] [] [] [] []]; try exact H.
      congruence. }
  destruct D as [(rest & -> & D) | D]; apply sixDigits_range in D.
  - destruct D as (L & R). split; [|exact R].
    right. simpl. split; [lia | eauto].
  - destruct D as (L & R). split; [left; exact L | exact R].
Qed.

End Colours.

(** X1.  Hexadecimal notation read back: for a colour whose three channels
    are bytes, written as six hexadecimal digits in lower or upper case,
    with or without the leading [#], [hexToRgb] returns that colour. *)
Theorem hexToRgb_round_trip (hash upper : bool) (c : Color.rgb) :
  Terms.isByte (Color.r c) -> Terms.isByte (Color.g c) ->
  Terms.isByte (Color.b c) ->
  Color.hexToRgb (Terms.hexColor hash upper c) = c.
Proof.
  intros Hr Hg Hb. unfold Color.hexToRgb.
  assert (E : Color.exec (Terms.hexColor hash upper c) = Some c).
  { pose proof (sixDigits_hexColor upper c Hr Hg Hb) as S.
    destruct hash.
    - exact S.
    - unfold Color.exec.
      change (Terms.hexColor false upper c)
        with (String (Terms.hexChar upper (Color.r c / 16))
                (String (Terms.hexChar upper (Color.r c mod 16)) ""
                 ++ Terms.hexByte upper (Color.g c)
                 ++ Terms.hexByte upper (Color.b c))%string) in *.
      destruct (Terms.hexChar upper (Color.r c / 16))
        as [[] [] [] [] [] [] [] []]; exact S. }
  rewrite E. reflexivity.
Qed.

Lemma hexToRgb_round_trip_witness :
  Terms.isByte 15 /\ Terms.isByte 171 /\ Terms.isByte 255
  /\ Color.hexToRgb "#0FABFF"
     = {| Color.r := 15; Color.g := 171; Color.b := 255 |}.
Proof.
  assert (H1 : Terms.isByte 15) by (unfold Terms.isByte; lia).
  assert (H2 : Terms.isByte 171) by (unfold Terms.isByte; lia).
  assert (H3 : Terms.isByte 255) by (unfold Terms.isByte; lia).
  repeat (split; [assumption|]).
  exact (hexToRgb_round_trip true true
           {| Color.r := 15; Color.g := 171; Color.b := 255 |} H1 H2 H3).
Defined.

(** X2.  Whatever string it is given, [hexToRgb] returns three bytes; and
    it returns a colour other than black only for a string of six
    characters, or of seven of which the first is [#]. *)
Theorem hexToRgb_total (hex : string) :
  let c := Color.hexToRgb hex in
  Terms.isByte (Color.r c) /\ Terms.isByte (Color.g c)
  /\ Terms.isByte (Color.b c)
  /\ (c <> Terms.black ->
      String.length hex = 6%nat
      \/ (String.length hex = 7%nat
          /\ exists rest, hex = String "#"%char rest)).
Proof.
  unfold Color.hexToRgb.
  destruct (Color.exec hex) as [c|] eqn:E.
  - destruct (exec_range hex c E) as (L & R & G & B). auto.
  - unfold Terms.isByte. simpl.
    repeat (split; [lia|]). intros H. exfalso. apply H. reflexivity.
Qed.

(** ** Smoothing, shuffling, image sizes *)

Section Numbers.

Import Terms.

Lemma geb_true (x y : Q) : JS.geb x y = true <-> y <= x.
Proof. unfold JS.geb. apply leb_true. Qed.

Lemma gtb_true (x y : Q) : JS.gtb x y = true <-> y < x.
Proof.
  unfold JS.gtb, JS.ltb. rewrite negb_true_iff.
  fold (JS.leb x y). apply leb_false.
Qed.

Lemma shuffleLoop_calls {A} (rand : nat -> Q) (i : nat) :
  forall (k : nat) (arr : list A),
    snd (shuffleLoop rand k i arr) = (k + i)%nat.
Proof.
  induction i as [|i IH]; intros k arr; simpl.
  - lia.
  - rewrite IH. lia.
Qed.

Lemma shuffleLoop_zero {A} (rand : nat -> Q) (k : nat) (arr : list A) :
  shuffleLoop rand k 0 arr = (arr, k).
Proof. reflexivity. Qed.

Lemma drawn_le (r : Q) (i : nat) : 0 <= r < 1 -> (drawn r i <= i)%nat.
Proof.
  intros [H0 H1]. unfold drawn, JS.Math_floor.
  set (n := inject_Z (Z.of_nat i + 1)).
  assert (Hn : 0 < n).
  { unfold n. change 0 with (inject_Z 0). rewrite <- Zlt_Qlt. lia. }
  assert (L : (Qfloor (r * n) < Z.of_nat i + 1)%Z).
  { pose proof (Qfloor_le (r * n)) as F.
    rewrite Zlt_Qlt. fold n. nra. }
  assert (G : (0 <= Qfloor (r * n))%Z).
  { change 0%Z with (Qfloor 0). apply Qfloor_resp_le. nra. }
  lia.
Qed.

End Numbers.

(** X3.  [lerp] with a weight between 0 and 1 stays between its two ends and
    never ends farther from the target than it started; when the two ends
    are within 0.001 of each other it returns the target itself. *)
Theorem lerp_between (start end_ s : Q) :
  0 <= s <= 1 ->
  Qmin start end_ <= Grid.lerp start end_ s <= Qmax start end_
  /\ Qabs (end_ - Grid.lerp start end_ s) <= Qabs (end_ - start)
  /\ (Qabs (end_ - start) <= 0.001 -> Grid.lerp start end_ s = end_).
Proof.
  intros [H0 H1]. unfold Grid.lerp.
  destruct (JS.leb (Qabs (end_ - start)) 0.001) eqn:E.
  - split; [|split; [|reflexivity]].
    + split; [apply Q.le_min_r | apply Q.le_max_r].
    + setoid_replace (end_ - end_) with 0 by ring.
      apply Qabs_nonneg.
  - apply leb_false in E. split; [|split; [|lra]].
    + destruct (Qlt_le_dec start end_) as [L | L].
      * rewrite (Q.min_l start end_) by lra.
        rewrite (Q.max_r start end_) by lra. split; nra.
      * rewrite (Q.min_r start end_) by lra.
        rewrite (Q.max_l start end_) by lra. split; nra.
    + setoid_replace (end_ - (start * (1 - s) + end_ * s))
        with ((end_ - start) * (1 - s)) by ring.
      rewrite Qabs_Qmult. rewrite (Qabs_pos (1 - s)) by lra.
      pose proof (Qabs_nonneg (end_ - start)). nra.
Qed.

Lemma lerp_between_witness :
  0 <= 0.12 <= 1 /\ Qmin 0 10 <= Grid.lerp 0 10 0.12 <= Qmax 0 10.
Proof.
  assert (H : 0 <= 0.12 <= 1) by lra.
  split; [exact H|]. exact (proj1 (lerp_between 0 10 0.12 H)).
Defined.

(** X4.  [randomizeArray] with random numbers in [0, 1): at position [i] the
    index drawn is at most [i], so every swap stays inside the array; the
    result is a permutation of the argument, of the same length; one random
    number is taken per position from the last down to the second; a list
    of at most one element is returned as it is, with no random number
    taken. *)
Theorem randomizeArray_shuffles {A : Type} (rand : nat -> Q) (k : nat)
    (arr : list A) :
  (forall n : nat, 0 <= rand n < 1) ->
  Permutation (fst (randomizeArray rand k arr)) arr
  /\ List.length (fst (randomizeArray rand k arr)) = List.length arr
  /\ snd (randomizeArray rand k arr) = (k + (List.length arr - 1))%nat
  /\ (forall (n i : nat) (l : list A),
        shuffleLoop rand n (S i) l
        = shuffleLoop rand (S n) i
            (JS.swap l (S i) (Terms.drawn (rand n) (S i)))
        /\ (Terms.drawn (rand n) (S i) <= S i)%nat)
  /\ ((List.length arr <= 1)%nat -> randomizeArray rand k arr = (arr, k)).
Proof.
  intros Hr.
  pose proof (randomizeArray_perm rand k arr) as P.
  split; [exact P|].
  split; [apply Permutation_length, P|].
  split; [apply shuffleLoop_calls|].
  split.
  - intros n i l. split; [reflexivity | apply drawn_le, Hr].
  - intros L. unfold randomizeArray.
    replace (List.length arr - 1)%nat with 0%nat by lia. reflexivity.
Qed.

Lemma randomizeArray_shuffles_witness :
  (forall n : nat, 0 <= random Sample.env n < 1)
  /\ Permutation (fst (randomizeArray (random Sample.env) 0 Sample.pictures))
       Sample.pictures.
Proof.
  assert (H : forall n : nat, 0 <= random Sample.env n < 1)
    by (intros n; cbn; lra).
  split; [exact H|].
  exact (proj1 (randomizeArray_shuffles (random Sample.env) 0
                  Sample.pictures H)).
Defined.

(** X5.  Which images get an HD texture.  On a mobile renderer: those
    taller than 750 x pixelRatio.  Otherwise: those at least 600 x
    pixelRatio tall when the window is at most 960 wide, and at least
    1200 x pixelRatio tall when it is wider.  So an image at least as tall
    as one that gets an HD texture gets one too. *)
Theorem needHDTexture_threshold (g : Grid.t) (img : Image) :
  (Grid.isMobile g = true ->
   (Grid.needHDTexture g img = true
    <-> 750 * Grid.pixelRatio g < naturalHeight img))
  /\ (Grid.isMobile g = false -> Grid.isMobileViewport g = true ->
      (Grid.needHDTexture g img = true
       <-> 600 * Grid.pixelRatio g <= naturalHeight img))
  /\ (Grid.isMobile g = false -> Grid.isMobileViewport g = false ->
      (Grid.needHDTexture g img = true
       <-> 1200 * Grid.pixelRatio g <= naturalHeight img))
  /\ (forall img' : Image,
        Grid.needHDTexture g img = true ->
        naturalHeight img <= naturalHeight img' ->
        Grid.needHDTexture g img' = true).
Proof.
  unfold Grid.needHDTexture. cbv zeta.
  split; [|split; [|split]].
  - intros ->. rewrite gtb_true. split; intros H; lra.
  - intros -> ->. rewrite geb_true. split; intros H; lra.
  - intros -> ->. rewrite geb_true. split; intros H; lra.
  - intros img'. destruct (Grid.isMobile g).
    + rewrite !gtb_true. intros; lra.
    + rewrite !geb_true. intros; lra.
Qed.

Lemma needHDTexture_threshold_witness :
  Grid.isMobile Sample.booted = false
  /\ Grid.isMobileViewport Sample.booted = false
  /\ (Grid.needHDTexture Sample.booted (Sample.image "b.jpg" 4000) = true
      <-> 1200 * Grid.pixelRatio Sample.booted <= 4000).
Proof.
  assert (M : Grid.isMobile Sample.booted = false) by (vm_compute; reflexivity).
  assert (V : Grid.isMobileViewport Sample.booted = false)
    by (vm_compute; reflexivity).
  split; [exact M|]. split; [exact V|].
  exact (proj1 (proj2 (proj2
           (needHDTexture_threshold Sample.booted (Sample.image "b.jpg" 4000))))
           M V).
Defined.

(** X6.  The height [getImageSource] puts in the URL is never more than the
    image's own height rounded up, and, for a pixel ratio that is not
    negative, the height asked for the HD version is at least the one asked
    for the SD version. *)
Theorem requested_height_capped (g : Grid.t) (img : Image) :
  0 <= Grid.pixelRatio g ->
  (forall hd : bool,
     (exists rest : string,
        Grid.getImageSource g img hd
        = (url img ++ "?h="
             ++ JS.toString (Terms.requestedHeight g img hd) ++ rest)%string)
     /\ (Terms.requestedHeight g img hd <= Qceiling (naturalHeight img))%Z)
  /\ (Terms.requestedHeight g img false <= Terms.requestedHeight g img true)%Z.
Proof.
  intros Hp. split.
  - intros hd. split.
    + eexists. unfold Grid.getImageSource, Terms.requestedHeight.
      cbv zeta. reflexivity.
    + unfold Terms.requestedHeight, JS.Math_ceil, JS.Math_min.
      apply Qceiling_resp_le. apply Q.le_min_r.
  - unfold Terms.requestedHeight, JS.Math_ceil, JS.Math_min.
    apply Qceiling_resp_le. apply Q.min_le_compat_r.
    destruct (Grid.isMobile g); nra.
Qed.

Lemma requested_height_capped_witness :
  0 <= Grid.pixelRatio Sample.booted
  /\ (Terms.requestedHeight Sample.booted (Sample.image "b.jpg" 4000) false
      <= Terms.requestedHeight Sample.booted (Sample.image "b.jpg" 4000) true)%Z.
Proof.
  assert (H : 0 <= Grid.pixelRatio Sample.booted) by (vm_compute; discriminate).
  split; [exact H|].
  exact (proj2 (requested_height_capped Sample.booted
                  (Sample.image "b.jpg" 4000) H)).
Defined.

(** ** The layout *)

Section Layout.

Import Props Terms.

Lemma remIsZero_spec (i c : nat) :
  (0 < c)%nat -> Grid.remIsZero i c = Nat.eqb (i mod c) 0.
Proof. intros H. destruct c; [lia | reflexivity]. Qed.

Lemma succ_div_mod (i c : nat) :
  (0 < c)%nat ->
  (S (i mod c) < c /\ S i / c = i / c /\ S i mod c = S (i mod c))%nat
  \/ (S (i mod c) = c /\ S i / c = S (i / c) /\ S i mod c = 0)%nat.
Proof.
  intros Hc.
  pose proof (Nat.div_mod_eq i c) as E.
  pose proof (Nat.mod_upper_bound i c ltac:(lia)) as B.
  destruct (Nat.eq_dec (S (i mod c)) c) as [Heq | Hne].
  - right. split; [exact Heq|].
    assert (D : S i = (c * S (i / c) + 0)%nat) by nia.
    split.
    + symmetry. apply (Nat.div_unique (S i) c (S (i / c)) 0); lia.
    + symmetry. apply (Nat.mod_unique (S i) c (S (i / c)) 0); lia.
  - left. split; [lia|].
    assert (D : S i = (c * (i / c) + S (i mod c))%nat) by nia.
    split.
    + symmetry. apply (Nat.div_unique (S i) c (i / c) (S (i mod c))); lia.
    + symmetry. apply (Nat.mod_unique (S i) c (i / c) (S (i mod c))); lia.
Qed.

Lemma updateSize_position (px py w : Q) (t : Tile.t) :
  Grid.tileX (Tile.updateSize px py w t) = px
  /\ Grid.tileY (Tile.updateSize px py w t) = py
  /\ Tile.displayWidth (Tile.textureObject (Tile.updateSize px py w t)) = w.
Proof. repeat split. Qed.

Lemma placeItems_from (g : Grid.t) (x0 y0 : Q) (items : list Tile.t) :
  (0 < Grid.COLUMN_ITEM_LENGTH g)%nat ->
  forall (index : nat) (row : Z) (x y : Q),
    onLattice g x0 y0 index row x y ->
    forall (j : nat) (item : Tile.t),
      nth_error (Grid.placeItems g x0 y0 items index row x y) j = Some item ->
      Grid.tileX item
      == x0 + inject_Z (Z.of_nat ((index + j) mod Grid.COLUMN_ITEM_LENGTH g))
              * (Grid.ITEM_WIDTH g + Grid.HORIZONTAL_GAP g)
      /\ Grid.tileY item
         == y0 + inject_Z (Z.of_nat ((index + j) / Grid.COLUMN_ITEM_LENGTH g))
                 * (Grid.ITEM_HEIGHT g + Grid.VERTICAL_GAP g)
      /\ Tile.displayWidth (Tile.textureObject item) = Grid.ITEM_WIDTH g.
Proof.
  intros Hc.
  induction items as [|a items IH]; intros index row x y Inv j item Hj.
  - destruct j; discriminate.
  - cbn [Grid.placeItems] in Hj.
    rewrite (remIsZero_spec _ _ Hc) in Hj.
    set (c := Grid.COLUMN_ITEM_LENGTH g) in *.
    set (P := Grid.ITEM_WIDTH g + Grid.HORIZONTAL_GAP g) in *.
    set (H := Grid.ITEM_HEIGHT g + Grid.VERTICAL_GAP g) in *.
    unfold onLattice in Inv. cbv zeta in Inv. fold c P H in Inv.
    destruct Inv as [Inv1 Inv0].
    destruct (Nat.eqb (index mod c) 0) eqn:Ez.
    + apply Nat.eqb_eq in Ez. specialize (Inv0 Ez).
      destruct j as [|j]; simpl in Hj.
      * injection Hj as <-.
        destruct (updateSize_position x0 (y0 + inject_Z (row + 1) * H)
                    (Grid.ITEM_WIDTH g) a) as (-> & -> & ->).
        rewrite Nat.add_0_r, Ez.
        replace (row + 1)%Z with (Z.of_nat (index / c)) by lia.
        split; [|split; [|reflexivity]].
        -- change (inject_Z (Z.of_nat 0)) with 0. ring.
        -- reflexivity.
      * replace (index + S j)%nat with (S index + j)%nat by lia.
        eapply IH; [|exact Hj].
        unfold onLattice. cbv zeta. fold c P H.
        destruct (succ_div_mod index c Hc) as [(B & D & M) | (B & D & M)];
          rewrite D, M.
        -- split; [|intros; lia]. intros _.
           split; [lia|]. split; [|reflexivity].
           rewrite Ez. change (inject_Z (Z.of_nat 1)) with 1. ring.
        -- split; [intros; lia|]. intros _. lia.
    + apply Nat.eqb_neq in Ez. destruct (Inv1 Ez) as (Er & Ex & Ey).
      destruct j as [|j]; simpl in Hj.
      * injection Hj as <-.
        destruct (updateSize_position x y (Grid.ITEM_WIDTH g) a)
          as (-> & -> & ->).
        rewrite Nat.add_0_r. rewrite <- Er.
        split; [exact Ex|]. split; [exact Ey | reflexivity].
      * replace (index + S j)%nat with (S index + j)%nat by lia.
        eapply IH; [|exact Hj].
        unfold onLattice. cbv zeta. fold c P H.
        destruct (succ_div_mod index c Hc) as [(B & D & M) | (B & D & M)];
          rewrite D, M.
        -- split; [|intros; lia]. intros _.
           split; [exact Er|]. split; [|exact Ey].
           rewrite Ex. rewrite Nat2Z.inj_succ. unfold Z.succ.
           rewrite inject_Z_plus. change (inject_Z 1) with 1. ring.
        -- split; [intros; lia|]. intros _. lia.
Qed.

End Layout.

(** The placement loop of [setSizeItemsDefault] and [applyZoom], for a
    grid of at least one column: the item at position [i] is put in column
    [i mod columns] and row [i / columns] of a lattice that starts at
    [(x0, y0)]. *)
Lemma placeItems_lattice (g : Grid.t) (x0 y0 : Q) (items : list Tile.t)
    (i : nat) (item : Tile.t) :
  (0 < Grid.COLUMN_ITEM_LENGTH g)%nat ->
  nth_error (Grid.placeItems g x0 y0 items 0 (-1) 0 0) i = Some item ->
  Grid.tileX item
  == x0 + inject_Z (Z.of_nat (i mod Grid.COLUMN_ITEM_LENGTH g))
          * (Grid.ITEM_WIDTH g + Grid.HORIZONTAL_GAP g)
  /\ Grid.tileY item
     == y0 + inject_Z (Z.of_nat (i / Grid.COLUMN_ITEM_LENGTH g))
             * (Grid.ITEM_HEIGHT g + Grid.VERTICAL_GAP g)
  /\ Tile.displayWidth (Tile.textureObject item) = Grid.ITEM_WIDTH g
  /\ List.length (Grid.placeItems g x0 y0 items 0 (-1) 0 0)
     = List.length items.
Proof.
  intros Hc Hi.
  assert (Inv : Terms.onLattice g x0 y0 0 (-1) 0 0).
  { unfold Terms.onLattice. cbv zeta. rewrite Nat.Div0.mod_0_l, Nat.Div0.div_0_l.
    split; [intros H; congruence | intros _; reflexivity]. }
  destruct (placeItems_from g x0 y0 items Hc 0%nat (-1)%Z 0 0 Inv i item Hi)
    as (X & Y & W).
  split; [exact X|]. split; [exact Y|]. split; [exact W|].
  symmetry. eapply Forall2_length_eq. apply placeItems_sameItem.
Qed.

Section Centring.

Import Props Terms.

Lemma recenter_items (d : Tile.Dimensions) (g : Grid.t) :
  let offX := (Tile.dimWidth d - Grid.HORIZONTAL_GAP g
               - Tile.dimWidth (Grid.windowSize g)) / 2 in
  let offY := (Tile.dimHeight d - Grid.VERTICAL_GAP g
               - Tile.dimHeight (Grid.windowSize g)) / 2 in
  Grid.centerCameraOffsetX (Grid.recenter true d g) = offX
  /\ Grid.centerCameraOffsetY (Grid.recenter true d g) = offY
  /\ Forall2 (fun a b =>
                Grid.tileX b = Grid.tileX a - offX
                /\ Grid.tileY b = Grid.tileY a - offY
                /\ Tile.left (Tile.bounds b) = - offX
                /\ Tile.top (Tile.bounds b) = - offY
                /\ Tile.right (Tile.bounds b) = Tile.dimWidth d - offX
                /\ Tile.bottom (Tile.bounds b) = Tile.dimHeight d - offY
                /\ Tile.itemWidth b = Grid.ITEM_WIDTH g + Grid.HORIZONTAL_GAP g
                /\ Tile.itemHeight b = Grid.ITEM_HEIGHT g + Grid.VERTICAL_GAP g
                /\ Tile.displayWidth (Tile.textureObject b)
                   = Tile.displayWidth (Tile.textureObject a))
       (Grid.imagesGL g) (Grid.imagesGL (Grid.recenter true d g)).
Proof.
  cbv zeta. split; [reflexivity|]. split; [reflexivity|].
  change (Grid.imagesGL (Grid.recenter true d g))
    with (map (fun item =>
                 Tile.updateBounds d
                   (Grid.ITEM_WIDTH g + Grid.HORIZONTAL_GAP g)
                   (Grid.ITEM_HEIGHT g + Grid.VERTICAL_GAP g)
                   ((Tile.dimWidth d - Grid.HORIZONTAL_GAP g
                     - Tile.dimWidth (Grid.windowSize g)) / 2)
                   ((Tile.dimHeight d - Grid.VERTICAL_GAP g
                     - Tile.dimHeight (Grid.windowSize g)) / 2)
                   (item <| Tile.textureObject -> Tile.x ::= fun v =>
                              v - (Tile.dimWidth d - Grid.HORIZONTAL_GAP g
                                   - Tile.dimWidth (Grid.windowSize g)) / 2 |>
                         <| Tile.textureObject -> Tile.y ::= fun v =>
                              v - (Tile.dimHeight d - Grid.VERTICAL_GAP g
                                   - Tile.dimHeight (Grid.windowSize g)) / 2 |>))
            (Grid.imagesGL g)).
  induction (Grid.imagesGL g) as [|a l IH]; simpl; constructor.
  - repeat split.
  - exact IH.
Qed.

End Centring.

Section Extent.

Import Props Terms.

Lemma stepMin_fold_le (f : Tile.t -> Q) (l : list Tile.t) :
  forall v m : Q,
    fold_left (fun m item => Grid.stepMin m (f item)) l (Some v) = Some m ->
    m <= v.
Proof.
  induction l as [|a rest IH]; intros v m H; simpl in H.
  - injection H as <-. lra.
  - destruct (JS.leb (f a) v) eqn:E.
    + apply leb_true in E. apply IH in H. lra.
    + apply IH in H. exact H.
Qed.

Lemma stepMax_fold_ge (f : Tile.t -> Q) (l : list Tile.t) :
  forall v : Q,
    v <= fold_left (fun m item => Grid.stepMax m (f item)) l v.
Proof.
  induction l as [|a rest IH]; intros v; simpl.
  - lra.
  - unfold Grid.stepMax at 2. destruct (JS.geb (f a) v) eqn:E.
    + apply geb_true in E. specialize (IH (f a)). lra.
    + apply IH.
Qed.

Lemma minOf_le_maxOf (f : Tile.t -> Q) (l : list Tile.t) (m : Q) :
  Grid.minOf f l = Some m -> m <= Grid.maxOf f l.
Proof.
  unfold Grid.minOf, Grid.maxOf. destruct l as [|a rest]; [discriminate|].
  simpl. intros H. apply stepMin_fold_le in H.
  pose proof (stepMax_fold_ge f rest (Grid.stepMax 0 (f a))) as G.
  assert (f a <= Grid.stepMax 0 (f a)).
  { unfold Grid.stepMax. destruct (JS.geb (f a) 0) eqn:E; [lra|].
    unfold JS.geb in E. apply leb_false in E. lra. }
  lra.
Qed.

(** The total dimensions are at least one lattice step in each direction. *)
Lemma dimensions_extent (g : Grid.t) (d : Tile.Dimensions) :
  Grid.getTotalDimensionsItems g = Some d ->
  Grid.ITEM_WIDTH g + Grid.HORIZONTAL_GAP g <= Tile.dimWidth d
  /\ Grid.ITEM_HEIGHT g + Grid.VERTICAL_GAP g <= Tile.dimHeight d.
Proof.
  unfold Grid.getTotalDimensionsItems.
  destruct (Grid.minOf Grid.tileX _) as [mx|] eqn:Ex; [|discriminate].
  destruct (Grid.minOf Grid.tileY _) as [my|] eqn:Ey; [|discriminate].
  intros [= <-]. apply minOf_le_maxOf in Ex, Ey. simpl. split; lra.
Qed.

End Extent.

(** X8.  What [applyZoom(z)] leaves when it returns, for a grid of at least
    one column: the zoom is [z]; the items lie on a lattice whose steps are
    the original item size plus gap, times [z]: item [i] in column
    [i mod columns] and row [i / columns]; every item's wrap periods are
    those steps; and its bounds are at least one step wide and high.  So
    when the steps are positive the items are sized as the wraparound of
    [update] needs. *)
Theorem applyZoom_layout (z : Q) (g g' : Grid.t) :
  Grid.applyZoom z g = Ok g' ->
  (0 < Grid.COLUMN_ITEM_LENGTH g)%nat ->
  let stepX :=
    Grid.ORIGINAL_ITEM_WIDTH g * z + Grid.ORIGINAL_HORIZONTAL_GAP g * z in
  let stepY :=
    Grid.ORIGINAL_ITEM_HEIGHT g * z + Grid.ORIGINAL_VERTICAL_GAP g * z in
  Grid.currentZoom g' = z
  /\ List.length (Grid.imagesGL g') = List.length (Grid.imagesGL g)
  /\ exists originX originY : Q,
       forall (i : nat) (item : Tile.t),
         nth_error (Grid.imagesGL g') i = Some item ->
         Grid.tileX item
         == originX
            + inject_Z (Z.of_nat (i mod Grid.COLUMN_ITEM_LENGTH g)) * stepX
         /\ Grid.tileY item
            == originY
               + inject_Z (Z.of_nat (i / Grid.COLUMN_ITEM_LENGTH g)) * stepY
         /\ Tile.itemWidth item = stepX
         /\ Tile.itemHeight item = stepY
         /\ stepX <= Tile.right (Tile.bounds item) - Tile.left (Tile.bounds item)
         /\ stepY <= Tile.bottom (Tile.bounds item) - Tile.top (Tile.bounds item)
         /\ (0 < stepX -> 0 < stepY -> Props.wellSized item).
Proof.
  intros E Hc stepX stepY. unfold Grid.applyZoom in E.
  match type of E with
  | context [match Grid.imagesGL ?x with _ => _ end] => set (g0 := x) in E
  end.
  assert (C0 : Grid.COLUMN_ITEM_LENGTH g0 = Grid.COLUMN_ITEM_LENGTH g)
    by reflexivity.
  assert (W0 : Grid.ITEM_WIDTH g0 = Grid.ORIGINAL_ITEM_WIDTH g * z)
    by reflexivity.
  assert (H0 : Grid.ITEM_HEIGHT g0 = Grid.ORIGINAL_ITEM_HEIGHT g * z)
    by reflexivity.
  assert (Gh0 : Grid.HORIZONTAL_GAP g0 = Grid.ORIGINAL_HORIZONTAL_GAP g * z)
    by reflexivity.
  assert (Gv0 : Grid.VERTICAL_GAP g0 = Grid.ORIGINAL_VERTICAL_GAP g * z)
    by reflexivity.
  assert (Z0 : Grid.currentZoom g0 = z) by reflexivity.
  assert (I0 : Grid.imagesGL g0 = Grid.imagesGL g) by reflexivity.
  clearbody g0.
  destruct (Grid.imagesGL g0) as [|first rest] eqn:E0; [discriminate|].
  cbv zeta in E.
  match type of E with
  | context [Grid.getTotalDimensionsItems ?x] => set (g1 := x) in E
  end.
  assert (P1 : exists ax ay : Q,
             Grid.imagesGL g1
             = Grid.placeItems g0 ax ay (Grid.imagesGL g0) 0 (-1) 0 0).
  { unfold g1. do 2 eexists. reflexivity. }
  assert (W1 : Grid.ITEM_WIDTH g1 = Grid.ITEM_WIDTH g0) by reflexivity.
  assert (H1 : Grid.ITEM_HEIGHT g1 = Grid.ITEM_HEIGHT g0) by reflexivity.
  assert (Gh1 : Grid.HORIZONTAL_GAP g1 = Grid.HORIZONTAL_GAP g0) by reflexivity.
  assert (Gv1 : Grid.VERTICAL_GAP g1 = Grid.VERTICAL_GAP g0) by reflexivity.
  assert (Z1 : Grid.currentZoom g1 = Grid.currentZoom g0) by reflexivity.
  clearbody g1.
  destruct (Grid.getTotalDimensionsItems g1) as [d|] eqn:Ed; [|discriminate].
  pose proof (recenter_items d g1) as R. cbv zeta in R.
  assert (Z2 : Grid.currentZoom (Grid.recenter true d g1) = Grid.currentZoom g1)
    by reflexivity.
  set (g2 := Grid.recenter true d g1) in *. clearbody g2.
  destruct (Grid.imagesGL g2) as [|f2 r2] eqn:E2; [discriminate|].
  injection E as E.
  assert (Ig : Grid.imagesGL g' = Grid.imagesGL g2) by (rewrite <- E; reflexivity).
  assert (Zg : Grid.currentZoom g' = Grid.currentZoom g2)
    by (rewrite <- E; reflexivity).
  rewrite <- E2 in *. clear E.
  destruct R as (_ & _ & R).
  destruct P1 as (ax & ay & P1).
  pose proof (dimensions_extent g1 d Ed) as [Dw Dh].
  split; [congruence|].
  split.
  { rewrite Ig, <- (Forall2_length_eq _ _ _ R), P1, <- I0, <- E0.
    symmetry. eapply Forall2_length_eq. apply placeItems_sameItem. }
  set (offX := (Tile.dimWidth d - Grid.HORIZONTAL_GAP g1
                - Tile.dimWidth (Grid.windowSize g1)) / 2) in *.
  set (offY := (Tile.dimHeight d - Grid.VERTICAL_GAP g1
                - Tile.dimHeight (Grid.windowSize g1)) / 2) in *.
  exists (ax - offX), (ay - offY).
  intros i item Hi. rewrite Ig in Hi.
  destruct (Forall2_nth_error_r _ _ _ R i item Hi)
    as (a & Ha & X & Y & Bl & Bt & Br & Bb & Pw & Ph & _).
  rewrite P1 in Ha.
  assert (Hc0 : (0 < Grid.COLUMN_ITEM_LENGTH g0)%nat) by (rewrite C0; exact Hc).
  destruct (placeItems_from g0 ax ay (Grid.imagesGL g0) Hc0 0%nat (-1)%Z 0 0)
    with (j := i) (item := a) as (Xa & Ya & _).
  { unfold Terms.onLattice. cbv zeta.
    rewrite Nat.Div0.mod_0_l, Nat.Div0.div_0_l.
    split; [intros N; congruence | intros _; reflexivity]. }
  { exact Ha. }
  simpl in Xa, Ya. rewrite C0, W0, Gh0 in Xa. rewrite C0, H0, Gv0 in Ya.
  assert (Ew : Tile.itemWidth item = stepX)
    by (unfold stepX; congruence).
  assert (Eh : Tile.itemHeight item = stepY)
    by (unfold stepY; congruence).
  assert (Sw : stepX <= Tile.right (Tile.bounds item) - Tile.left (Tile.bounds item)).
  { rewrite Br, Bl. unfold stepX. rewrite W1, Gh1, W0, Gh0 in Dw. lra. }
  assert (Sh : stepY <= Tile.bottom (Tile.bounds item) - Tile.top (Tile.bounds item)).
  { rewrite Bb, Bt. unfold stepY. rewrite H1, Gv1, H0, Gv0 in Dh. lra. }
  split; [rewrite X, Xa; unfold stepX; ring|].
  split; [rewrite Y, Ya; unfold stepY; ring|].
  split; [exact Ew|]. split; [exact Eh|].
  split; [exact Sw|]. split; [exact Sh|].
  intros Px Py. unfold Props.wellSized. rewrite Ew, Eh. auto.
Qed.

Lemma applyZoom_layout_witness :
  Grid.applyZoom 1 Sample.booted = Ok (settle (Grid.applyZoom 1 Sample.booted))
  /\ (0 < Grid.COLUMN_ITEM_LENGTH Sample.booted)%nat
  /\ Grid.currentZoom (settle (Grid.applyZoom 1 Sample.booted)) = 1.
Proof.
  assert (E : Grid.applyZoom 1 Sample.booted
              = Ok (settle (Grid.applyZoom 1 Sample.booted)))
    by (vm_compute; reflexivity).
  assert (C : (0 < Grid.COLUMN_ITEM_LENGTH Sample.booted)%nat)
    by (vm_compute; lia).
  split; [exact E|]. split; [exact C|].
  exact (proj1 (applyZoom_layout 1 Sample.booted _ E C)).
Defined.

(** X7.  What [setSizeItemsDefault()] leaves when it returns, for a grid of
    at least one column: item [i] sits [i mod columns] steps to the right
    of the left bound and [i / columns] steps below the top bound, a step
    being the item size plus the gap; it is as wide as [ITEM_WIDTH]; the
    left and top bounds are minus the camera offsets; the anchors are the
    position of the first item and 1/32 of the window. *)
Theorem setSizeItemsDefault_layout (g g' : Grid.t) :
  Grid.setSizeItemsDefault g = Ok g' ->
  (0 < Grid.COLUMN_ITEM_LENGTH g)%nat ->
  let stepX := Grid.ITEM_WIDTH g + Grid.HORIZONTAL_GAP g in
  let stepY := Grid.ITEM_HEIGHT g + Grid.VERTICAL_GAP g in
  List.length (Grid.imagesGL g') = List.length (Grid.imagesGL g)
  /\ (forall (i : nat) (item : Tile.t),
        nth_error (Grid.imagesGL g') i = Some item ->
        Grid.tileX item - Tile.left (Tile.bounds item)
        == inject_Z (Z.of_nat (i mod Grid.COLUMN_ITEM_LENGTH g)) * stepX
        /\ Grid.tileY item - Tile.top (Tile.bounds item)
           == inject_Z (Z.of_nat (i / Grid.COLUMN_ITEM_LENGTH g)) * stepY
        /\ Tile.displayWidth (Tile.textureObject item) = Grid.ITEM_WIDTH g
        /\ Tile.left (Tile.bounds item) = - Grid.centerCameraOffsetX g'
        /\ Tile.top (Tile.bounds item) = - Grid.centerCameraOffsetY g'
        /\ Tile.itemWidth item = stepX
        /\ Tile.itemHeight item = stepY)
  /\ (exists first : Tile.t,
        nth_error (Grid.imagesGL g') 0 = Some first
        /\ Grid.anchorLeft g' = Grid.tileX first
        /\ Grid.anchorTop g' = Grid.tileY first)
  /\ Grid.anchorCenterLeft g' = Tile.dimWidth (Grid.windowSize g) / 32
  /\ Grid.anchorCenterTop g' = Tile.dimHeight (Grid.windowSize g) / 32.
Proof.
  intros E Hc stepX stepY. unfold Grid.setSizeItemsDefault in E.
  cbv zeta in E.
  match type of E with
  | context [Grid.getTotalDimensionsItems ?x] => set (g1 := x) in E
  end.
  assert (P1 : Grid.imagesGL g1
               = Grid.placeItems g 0 0 (Grid.imagesGL g) 0 (-1) 0 0)
    by reflexivity.
  assert (W1 : Grid.ITEM_WIDTH g1 = Grid.ITEM_WIDTH g) by reflexivity.
  assert (H1 : Grid.ITEM_HEIGHT g1 = Grid.ITEM_HEIGHT g) by reflexivity.
  assert (Gh1 : Grid.HORIZONTAL_GAP g1 = Grid.HORIZONTAL_GAP g) by reflexivity.
  assert (Gv1 : Grid.VERTICAL_GAP g1 = Grid.VERTICAL_GAP g) by reflexivity.
  assert (Wn1 : Grid.windowSize g1 = Grid.windowSize g) by reflexivity.
  clearbody g1.
  destruct (Grid.getTotalDimensionsItems g1) as [d|] eqn:Ed; [|discriminate].
  destruct (Grid.imagesGL g1) as [|a1 r1] eqn:E1; [discriminate|].
  rewrite <- E1 in *.
  pose proof (recenter_items d g1) as R. cbv zeta in R.
  assert (Wn2 : Grid.windowSize (Grid.recenter true d g1) = Grid.windowSize g1)
    by reflexivity.
  set (g2 := Grid.recenter true d g1) in *. clearbody g2.
  destruct (Grid.imagesGL g2) as [|f2 r2] eqn:E2; [discriminate|].
  rewrite <- E2 in R. injection E as E.
  assert (Ig : Grid.imagesGL g' = Grid.imagesGL g2) by (rewrite <- E; reflexivity).
  assert (Ox : Grid.centerCameraOffsetX g' = Grid.centerCameraOffsetX g2)
    by (rewrite <- E; reflexivity).
  assert (Oy : Grid.centerCameraOffsetY g' = Grid.centerCameraOffsetY g2)
    by (rewrite <- E; reflexivity).
  assert (Al : Grid.anchorLeft g' = Grid.tileX f2) by (rewrite <- E; reflexivity).
  assert (At : Grid.anchorTop g' = Grid.tileY f2) by (rewrite <- E; reflexivity).
  assert (Ac : Grid.anchorCenterLeft g' = Tile.dimWidth (Grid.windowSize g2) / 32)
    by (rewrite <- E; reflexivity).
  assert (Ad : Grid.anchorCenterTop g' = Tile.dimHeight (Grid.windowSize g2) / 32)
    by (rewrite <- E; reflexivity).
  clear E. destruct R as (Rx & Ry & R).
  split.
  { rewrite Ig, <- (Forall2_length_eq _ _ _ R), P1.
    symmetry. eapply Forall2_length_eq. apply placeItems_sameItem. }
  split.
  { intros i item Hi. rewrite Ig in Hi.
    destruct (Forall2_nth_error_r _ _ _ R i item Hi)
      as (a & Ha & X & Y & Bl & Bt & Br & Bb & Pw & Ph & Dw).
    rewrite P1 in Ha.
    destruct (placeItems_from g 0 0 (Grid.imagesGL g) Hc 0%nat (-1)%Z 0 0)
      with (j := i) (item := a) as (Xa & Ya & Da).
    { unfold Terms.onLattice. cbv zeta.
      rewrite Nat.Div0.mod_0_l, Nat.Div0.div_0_l.
      split; [intros N; congruence | intros _; reflexivity]. }
    { exact Ha. }
    simpl in Xa, Ya.
    split; [rewrite X, Bl, Xa; unfold stepX; ring|].
    split; [rewrite Y, Bt, Ya; unfold stepY; ring|].
    split; [congruence|].
    split; [rewrite Bl, Ox, Rx; reflexivity|].
    split; [rewrite Bt, Oy, Ry; reflexivity|].
    unfold stepX, stepY. split; congruence. }
  split.
  { exists f2. rewrite Ig, E2. auto. }
  split; congruence.
Qed.

Lemma setSizeItemsDefault_layout_witness :
  Grid.setSizeItemsDefault Sample.booted
  = Ok (settle (Grid.setSizeItemsDefault Sample.booted))
  /\ (0 < Grid.COLUMN_ITEM_LENGTH Sample.booted)%nat
  /\ List.length (Grid.imagesGL (settle (Grid.setSizeItemsDefault Sample.booted)))
     = List.length (Grid.imagesGL Sample.booted).
Proof.
  assert (E : Grid.setSizeItemsDefault Sample.booted
              = Ok (settle (Grid.setSizeItemsDefault Sample.booted)))
    by (vm_compute; reflexivity).
  assert (C : (0 < Grid.COLUMN_ITEM_LENGTH Sample.booted)%nat)
    by (vm_compute; lia).
  split; [exact E|]. split; [exact C|].
  exact (proj1 (setSizeItemsDefault_layout Sample.booted _ E C)).
Defined.

(** ** What the events leave alone *)

Section Still.

Import Props Terms.

Lemma zoom_inner (a : string) (g : Grid.t) : inner (Grid.zoom a g) = inner g.
Proof. unfold Grid.zoom. destruct (negb (Grid.isIntroShown g)); reflexivity. Qed.

Lemma fadeInFrom_inner (texs : list Texture.t) :
  forall (i : nat) (g : Grid.t), inner (Grid.fadeInFrom i texs g) = inner g.
Proof.
  induction texs as [|tex rest IH]; intros i g; simpl.
  - reflexivity.
  - rewrite IH. reflexivity.
Qed.

Lemma introSequence_inner (g : Grid.t) : inner (Grid.introSequence g) = inner g.
Proof.
  unfold Grid.introSequence. destruct (Grid.isIntroShown g); [reflexivity|].
  transitivity (inner (Grid.fadeInAllTextures g)); [reflexivity|].
  apply fadeInFrom_inner.
Qed.

Lemma startIntroSequence_inner (g : Grid.t) :
  inner (Grid.startIntroSequence g) = inner g.
Proof.
  unfold Grid.startIntroSequence.
  destruct (Grid.isIntroShown g); [reflexivity|].
  destruct (negb (Grid.texturesLoaded g)); [reflexivity|].
  apply introSequence_inner.
Qed.

Lemma onTextureSDLoaded_inner (g : Grid.t) :
  inner (Grid.onTextureSDLoaded g) = inner g.
Proof.
  unfold Grid.onTextureSDLoaded. cbv zeta.
  destruct (Nat.eqb _ _); [|reflexivity].
  destruct (negb _); [|reflexivity].
  rewrite introSequence_inner. reflexivity.
Qed.

Lemma imageLoaded_inner (k : nat) (w h : Q) (g : Grid.t) :
  inner (Grid.imageLoaded k w h g) = inner g.
Proof.
  unfold Grid.imageLoaded.
  destruct (JS.index _ k) as [[src cb]|]; [|reflexivity].
  cbv zeta. destruct cb.
  - destruct (Grid.updateBySource _ _ _ _ _) as [texs w'].
    rewrite onTextureSDLoaded_inner. reflexivity.
  - destruct (Grid.updateBySource _ _ _ _ _) as [texs w']. reflexivity.
Qed.

Lemma applyZoom_inner (z : Q) (g : Grid.t) :
  inner (settle (Grid.applyZoom z g)) = inner g.
Proof.
  unfold Grid.applyZoom.
  match goal with
  | |- context [match Grid.imagesGL ?x with _ => _ end] =>
      set (g0 := x); assert (F0 : inner g0 = inner g) by reflexivity
  end.
  clearbody g0.
  destruct (Grid.imagesGL g0) as [|first rest]; [exact F0|].
  cbv zeta.
  match goal with
  | |- context [Grid.getTotalDimensionsItems ?x] =>
      set (g1 := x); assert (F1 : inner g1 = inner g0) by reflexivity
  end.
  clearbody g1.
  destruct (Grid.getTotalDimensionsItems g1) as [d|]; [|simpl; congruence].
  assert (F2 : inner (Grid.recenter true d g1) = inner g1) by reflexivity.
  set (g2 := Grid.recenter true d g1) in *. clearbody g2.
  destruct (Grid.imagesGL g2); simpl.
  - congruence.
  - transitivity (inner g2); [reflexivity | congruence].
Qed.

Lemma renderAnimation_inner (a : Animation) (p : Q) (g : Grid.t) :
  inner (settle (snd (Grid.renderAnimation a p g))) = inner g.
Proof.
  destruct a as [called gh gv z gray | from to_ | i from]; simpl.
  - rewrite applyZoom_inner. destruct called; reflexivity.
  - apply applyZoom_inner.
  - reflexivity.
Qed.

Lemma animationUpdate_inner (id : nat) (p : Q) (g : Grid.t) :
  inner (settle (Grid.animationUpdate id p g)) = inner g.
Proof.
  unfold Grid.animationUpdate.
  destruct (Grid.lookupAnim id _) as [a|]; [|reflexivity].
  pose proof (renderAnimation_inner a p g) as H.
  destruct (Grid.renderAnimation a p g) as [a' o]. simpl in H.
  destruct o as [g' | g']; simpl in *; rewrite <- H; reflexivity.
Qed.

Lemma animationComplete_inner (id : nat) (g : Grid.t) :
  inner (settle (Grid.animationComplete id g)) = inner g.
Proof.
  unfold Grid.animationComplete.
  destruct (Grid.lookupAnim id _) as [a|]; [|reflexivity].
  pose proof (renderAnimation_inner a 1 g) as H.
  destruct (Grid.renderAnimation a 1 g) as [a' o]. simpl in H.
  destruct o as [g' | g']; simpl in *; rewrite <- H.
  - destruct a'; reflexivity.
  - reflexivity.
Qed.

Lemma drawItem_inner (item : Tile.t) (g : Grid.t) :
  inner (settle (snd (Grid.drawItem item g))) = inner g.
Proof.
  unfold Grid.drawItem. cbv zeta.
  destruct (Tile.isVisible _); [|reflexivity].
  destruct (Tile.texture _); reflexivity.
Qed.

Lemma triggerHD_inner (item : Tile.t) (g : Grid.t) :
  inner (Grid.triggerHD item g) = inner g.
Proof.
  unfold Grid.triggerHD.
  destruct (_ && _); [|reflexivity].
  destruct (Tile.textureHD item); [|reflexivity].
  destruct (JS.index _ _); reflexivity.
Qed.

Lemma drawLoop_inner (todo : list Tile.t) :
  forall (done : list Tile.t) (g : Grid.t),
    inner (settle (Grid.drawLoop todo done g)) = inner g.
Proof.
  induction todo as [|item rest IH]; intros done g; simpl.
  - reflexivity.
  - destruct (negb _); [|apply IH].
    pose proof (drawItem_inner item g) as H.
    destruct (Grid.drawItem item g) as [item' o]. simpl in H.
    destruct o as [g' | g']; simpl in *.
    + rewrite IH, triggerHD_inner. rewrite <- H. reflexivity.
    + rewrite <- H. reflexivity.
Qed.

Lemma draw_inner (g : Grid.t) : inner (settle (Grid.draw g)) = inner g.
Proof. unfold Grid.draw. rewrite drawLoop_inner. reflexivity. Qed.

Lemma update_phase (g : Grid.t) : phase (Grid.update g) = phase g.
Proof. unfold Grid.update. cbv zeta. destruct (Grid.isDragging _); reflexivity. Qed.

Lemma render_phase (g : Grid.t) : phase (settle (Grid.render g)) = phase g.
Proof.
  unfold Grid.render. destruct (_ || _); [reflexivity|].
  pose proof (draw_inner (Grid.update g)) as H.
  assert (E : phase (settle (Grid.draw (Grid.update g))) = phase (Grid.update g))
    by (unfold inner in H; congruence).
  rewrite E. apply update_phase.
Qed.

Lemma setWindow_phase (g : Grid.t) : phase (settle (Grid.setWindow g)) = phase g.
Proof.
  unfold Grid.setWindow. cbv zeta.
  rewrite render_phase.
  destruct (Grid.getTotalDimensionsItems _); reflexivity.
Qed.

Lemma destroy_pointerState (g : Grid.t) :
  pointerState (Grid.destroy g) = pointerState g
  /\ Grid.isInit (Grid.destroy g) = Grid.isInit g
  /\ Grid.isDestroyed (Grid.destroy g) = true.
Proof.
  destruct g. destruct isDestroyed, resizeObserver, TLIntro; repeat split.
Qed.

Lemma fireTimer_inner (k : nat) (g : Grid.t) : inner (Grid.fireTimer k g) = inner g.
Proof.
  unfold Grid.fireTimer. destruct (JS.index _ k) as [[|]|]; reflexivity.
Qed.

(** No event but a frame or a resize touches the pointer state. *)
Lemma fire_pointerState (ev : Grid.Event) (g : Grid.t) :
  ev <> Grid.Frame -> ev <> Grid.Resize ->
  pointerState (Grid.fire ev g) = pointerState g.
Proof.
  intros Hf Hr.
  assert (P : forall a b, inner a = inner b -> pointerState a = pointerState b)
    by (unfold inner; intros a b H; congruence).
  destruct ev; simpl; try congruence.
  - apply P, imageLoaded_inner.
  - apply P, animationUpdate_inner.
  - apply P, animationComplete_inner.
  - apply P, zoom_inner.
  - apply P, startIntroSequence_inner.
  - apply destroy_pointerState.
  - apply P, fireTimer_inner.
Qed.

(** No event resets [isInit]; only [destroy()] changes [isDestroyed], to
    true. *)
Lemma fire_phase (ev : Grid.Event) (g : Grid.t) :
  Grid.isInit (Grid.fire ev g) = Grid.isInit g
  /\ Grid.isDestroyed (Grid.fire ev g)
     = match ev with
       | Grid.Destroy => true
       | _ => Grid.isDestroyed g
       end.
Proof.
  assert (P : forall a b, inner a = inner b -> phase a = phase b)
    by (unfold inner; intros a b H; congruence).
  assert (S : forall a b, phase a = phase b ->
                Grid.isInit a = Grid.isInit b
                /\ Grid.isDestroyed a = Grid.isDestroyed b)
    by (unfold phase; intros a b H; split; congruence).
  destruct ev; simpl.
  - apply S, P, imageLoaded_inner.
  - apply S, P, animationUpdate_inner.
  - apply S, P, animationComplete_inner.
  - apply S, render_phase.
  - apply S, setWindow_phase.
  - apply S, P, zoom_inner.
  - apply S, P, startIntroSequence_inner.
  - destruct (destroy_pointerState g) as (_ & I & D). auto.
  - apply S, P, fireTimer_inner.
Qed.

End Still.

(** ** Frames, gliding and the pointer *)

Section Motion.

Import Props Terms.

Lemma inner_split (a b : Grid.t) :
  inner a = inner b -> pointerState a = pointerState b /\ phase a = phase b.
Proof. unfold inner. intros H. split; congruence. Qed.

Lemma frame_live (g : Grid.t) :
  Grid.isInit g = true -> Grid.isDestroyed g = false ->
  pointerState (Grid.fire Grid.Frame g) = pointerState (Grid.update g).
Proof.
  intros I D. simpl. unfold Grid.render. rewrite I, D. simpl.
  apply inner_split, draw_inner.
Qed.

Lemma update_gliding (g : Grid.t) :
  Grid.isDragging g = false ->
  Grid.velocity (Grid.update g)
  = {| Grid.vx := Grid.vx (Grid.velocity g) * 0.95;
       Grid.vy := Grid.vy (Grid.velocity g) * 0.95 |}
  /\ Grid.isDragging (Grid.update g) = false.
Proof.
  intros D. destruct g. simpl in D. subst isDragging.
  split; reflexivity.
Qed.

Lemma update_dragging (g : Grid.t) :
  Grid.isDragging g = true ->
  let lm := {| Grid.vx := Grid.lerp (Grid.vx (Grid.lerpedMouse g))
                            (Grid.vx (Grid.mouse g)) 0.075;
               Grid.vy := Grid.lerp (Grid.vy (Grid.lerpedMouse g))
                            (Grid.vy (Grid.mouse g)) 0.075 |} in
  Grid.velocity (Grid.update g)
  = {| Grid.vx := Grid.vx lm - Grid.vx (Grid.prevLerpedMouse g);
       Grid.vy := Grid.vy lm - Grid.vy (Grid.prevLerpedMouse g) |}
  /\ Grid.lerpedMouse (Grid.update g) = lm
  /\ Grid.prevLerpedMouse (Grid.update g) = lm
  /\ Grid.mouse (Grid.update g) = Grid.mouse g
  /\ Grid.isDragging (Grid.update g) = true.
Proof.
  intros D. destruct g. simpl in D. subst isDragging.
  repeat split.
Qed.

Lemma pointerState_fields (a b : Grid.t) :
  pointerState a = pointerState b ->
  Grid.mouse a = Grid.mouse b
  /\ Grid.lerpedMouse a = Grid.lerpedMouse b
  /\ Grid.prevLerpedMouse a = Grid.prevLerpedMouse b
  /\ Grid.velocity a = Grid.velocity b
  /\ Grid.isDragging a = Grid.isDragging b.
Proof. unfold pointerState. intros H. repeat split; congruence. Qed.

End Motion.

Section InitPhase.

Import Props Terms.

Lemma createGridItems_isDestroyed (infos : list Grid.ImageInfo) :
  forall (g : Grid.t) (i : nat),
    Grid.isDestroyed (Grid.createGridItems g infos i) = Grid.isDestroyed g.
Proof.
  induction infos as [|info rest IH]; intros g i; simpl; [reflexivity|].
  rewrite IH. reflexivity.
Qed.

Lemma sameControl_isDestroyed (g g' : Grid.t) :
  sameControl g g' -> Grid.isDestroyed g' = Grid.isDestroyed g.
Proof.
  unfold sameControl. intros H.
  repeat match goal with H : _ /\ _ |- _ => destruct H end.
  assumption.
Qed.

(** [main()], whether it returns or throws, leaves [isDestroyed] as it
    is. *)
Lemma main_isDestroyed (g : Grid.t) :
  Grid.isDestroyed (settle (Grid.main g)) = Grid.isDestroyed g.
Proof.
  unfold Grid.main, freshHandle. cbv beta iota zeta.
  match goal with
  | |- context [Grid.prepareImageData ?x _] => set (g1 := x)
  end.
  assert (D1 : Grid.isDestroyed g1 = Grid.isDestroyed g) by reflexivity.
  clearbody g1.
  destruct (Grid.prepareImageData g1 _) as [infos|]; [|exact D1].
  destruct (Grid.mapTextures g1 false _ _ _) as [[sd p1] w1].
  match goal with
  | |- context [Grid.mapTextures ?x true _ _ _] => set (g2 := x)
  end.
  assert (D2 : Grid.isDestroyed g2 = Grid.isDestroyed g1) by reflexivity.
  clearbody g2.
  destruct (Grid.mapTextures g2 true _ _ _) as [[hd p2] w2].
  match goal with
  | |- context [Grid.createGridItems ?x _ _] => set (g4 := x)
  end.
  assert (D4 : Grid.isDestroyed g4 = Grid.isDestroyed g2) by reflexivity.
  clearbody g4.
  pose proof (createGridItems_isDestroyed infos g4 0) as D5.
  set (g5 := Grid.createGridItems g4 infos 0) in *. clearbody g5.
  destruct (setSizeItemsDefault_frame g5) as (g6 & E6 & C6 & _).
  pose proof (sameControl_isDestroyed _ _ C6) as D6.
  destruct E6 as [E6 | E6]; rewrite E6; unfold bind; [|simpl; congruence].
  match goal with
  | |- context [Grid.applyZoom _ ?x] => set (g6' := x)
  end.
  assert (D6' : Grid.isDestroyed g6' = Grid.isDestroyed g6) by reflexivity.
  clearbody g6'.
  destruct (applyZoom_frame 0.4 g6') as (g7 & E7 & (_ & C7 & _) & _).
  pose proof (sameControl_isDestroyed _ _ C7) as D7.
  destruct E7 as [E7 | E7]; rewrite E7; simpl; congruence.
Qed.

(** Nor does the rest of [init()], which sets [isInit] when [main()] and
    [setWindow()] have returned. *)
Lemma init_isDestroyed (g : Grid.t) :
  Grid.isDestroyed (Grid.init g) = Grid.isDestroyed g.
Proof.
  unfold Grid.init. cbv zeta.
  match goal with
  | |- context [Grid.main ?x] => set (g1 := x)
  end.
  assert (D1 : Grid.isDestroyed g1 = Grid.isDestroyed g) by reflexivity.
  clearbody g1.
  pose proof (main_isDestroyed g1) as D2.
  destruct (Grid.main g1) as [g2 | g2]; simpl in D2; unfold bind;
    [|congruence].
  pose proof (setWindow_phase g2) as P3.
  destruct (Grid.setWindow g2) as [g3 | g3]; simpl in P3;
    unfold phase in P3;
    assert (D3 : Grid.isDestroyed g3 = Grid.isDestroyed g2) by congruence.
  - change (Grid.isDestroyed g3 = Grid.isDestroyed g). congruence.
  - congruence.
Qed.

End InitPhase.

(** X9.  Once a renderer is destroyed it stays destroyed, whatever events
    follow; the rest of [init()] ([main()], [setWindow()], [isInit]),
    should it run only after [destroy()], does not reset the flag either.
    From then on a frame changes nothing at all.  A resize still sizes
    the canvas and sets the viewport, one more call of [gl.viewport], but
    it draws nothing, requests nothing and starts no animation. *)
Theorem destroyed_for_good (evs : list Grid.Event) (g : Grid.t) :
  Grid.isDestroyed g = true ->
  let g' := Grid.run evs g in
  Grid.isDestroyed g' = true
  /\ Grid.isDestroyed (Grid.init g') = true
  /\ Grid.fire Grid.Frame g' = g'
  /\ Grid.viewports (Grid.fire Grid.Resize g')
     = (Grid.viewports g'
        ++ [(canvasWidth (Grid.env g'), canvasHeight (Grid.env g'))])%list
  /\ Grid.world (Grid.fire Grid.Resize g') = Grid.world g'
  /\ Grid.animations (Grid.fire Grid.Resize g') = Grid.animations g'.
Proof.
  intros D. cbv zeta.
  assert (D' : Grid.isDestroyed (Grid.run evs g) = true).
  { revert g D. induction evs as [|ev rest IH]; intros g D; simpl.
    - exact D.
    - destruct (fire_phase ev g) as (I1 & D1).
      assert (D2 : Grid.isDestroyed (Grid.fire ev g) = true)
        by (rewrite D1; destruct ev; auto).
      exact (IH _ D2). }
  set (g' := Grid.run evs g) in *. clearbody g'.
  split; [exact D'|].
  split; [rewrite init_isDestroyed; exact D'|].
  assert (R : forall x, Grid.isDestroyed x = true -> Grid.render x = Ok x).
  { intros x Dx. unfold Grid.render. rewrite Dx, orb_true_r. reflexivity. }
  split; [simpl; rewrite (R g' D'); reflexivity|].
  simpl. unfold Grid.setWindow. cbv zeta.
  match goal with
  | |- context [Grid.render ?x] =>
      set (g2 := x);
      assert (D2 : Grid.isDestroyed g2 = true)
  end.
  { unfold g2. destruct (Grid.getTotalDimensionsItems _); exact D'. }
  assert (W2 : Grid.viewports g2
               = (Grid.viewports g'
                  ++ [(canvasWidth (Grid.env g'),
                       canvasHeight (Grid.env g'))])%list
               /\ Grid.world g2 = Grid.world g'
               /\ Grid.animations g2 = Grid.animations g').
  { unfold g2. destruct (Grid.getTotalDimensionsItems _); repeat split. }
  clearbody g2. rewrite (R g2 D2). exact W2.
Qed.

Lemma destroyed_for_good_witness :
  Grid.isDestroyed (Grid.destroy Sample.booted) = true
  /\ Grid.isDestroyed
       (Grid.run [Grid.Frame; Grid.Zoom "zoom-in"]
          (Grid.destroy Sample.booted)) = true.
Proof.
  assert (D : Grid.isDestroyed (Grid.destroy Sample.booted) = true)
    by (vm_compute; reflexivity).
  split; [exact D|].
  exact (proj1 (destroyed_for_good [Grid.Frame; Grid.Zoom "zoom-in"]
                  (Grid.destroy Sample.booted) D)).
Defined.

(** X10.  Gliding: on an initialised renderer that is not destroyed and
    not being dragged, each frame multiplies the velocity by 0.95, so after
    [n] frames it is 0.95 to the [n] times what it was; the renderer is
    still not dragged. *)
Theorem glide_decays (n : nat) (g : Grid.t) :
  Grid.isInit g = true -> Grid.isDestroyed g = false ->
  Grid.isDragging g = false ->
  let g' := Grid.run (Terms.frames n) g in
  Grid.vx (Grid.velocity g') == Grid.vx (Grid.velocity g) * Terms.decay n
  /\ Grid.vy (Grid.velocity g') == Grid.vy (Grid.velocity g) * Terms.decay n
  /\ Grid.isDragging g' = false.
Proof.
  revert g. induction n as [|n IH]; intros g I D Dr; cbv zeta.
  - simpl. split; [ring|]. split; [ring | exact Dr].
  - change (Grid.run (Terms.frames (S n)) g)
      with (Grid.run (Terms.frames n) (Grid.fire Grid.Frame g)).
    destruct (fire_phase Grid.Frame g) as (I1 & D1).
    pose proof (frame_live g I D) as P.
    apply pointerState_fields in P. destruct P as (_ & _ & _ & V & Dg).
    destruct (update_gliding g Dr) as (V' & Dg').
    destruct (IH (Grid.fire Grid.Frame g)) as (X & Y & Z); try congruence.
    cbv zeta in X, Y, Z.
    split; [|split; [|exact Z]].
    + rewrite X, V, V'. simpl. ring.
    + rewrite Y, V, V'. simpl. ring.
Qed.

Lemma glide_decays_witness :
  Grid.isInit Sample.resting = true
  /\ Grid.isDestroyed Sample.resting = false
  /\ Grid.isDragging Sample.resting = false
  /\ Grid.isDragging (Grid.run (Terms.frames 3) Sample.resting) = false.
Proof.
  assert (I : Grid.isInit Sample.resting = true) by (vm_compute; reflexivity).
  assert (D : Grid.isDestroyed Sample.resting = false)
    by (vm_compute; reflexivity).
  assert (R : Grid.isDragging Sample.resting = false)
    by (vm_compute; reflexivity).
  split; [exact I|]. split; [exact D|]. split; [exact R|].
  exact (proj2 (proj2 (glide_decays 3 Sample.resting I D R))).
Defined.

Section PointerFacts.

Import Props Terms.

Lemma limit_values (g : Grid.t) :
  Pointer.limit g = 100 \/ Pointer.limit g = 1000.
Proof. unfold Pointer.limit. destruct (_ || _); auto. Qed.

Lemma clamp_spec (d l : Q) :
  0 <= l ->
  let c := JS.Math_min (JS.Math_max d (- l)) l in
  - l <= c <= l /\ (Qabs d <= l -> c == d).
Proof.
  intros Hl. cbv zeta. unfold JS.Math_min, JS.Math_max.
  destruct (Q.max_spec d (- l)) as [[H1 E1] | [H1 E1]];
    destruct (Q.min_spec (Qmax d (- l)) l) as [[H2 E2] | [H2 E2]];
    rewrite E2; rewrite ?E1 in *.
  - split; [lra|]. intros A. apply Qabs_Qle_condition in A. lra.
  - split; [lra|]. intros A. apply Qabs_Qle_condition in A. lra.
  - split; [lra|]. intros A. reflexivity.
  - split; [lra|]. intros A. apply Qabs_Qle_condition in A. lra.
Qed.

Lemma lerp_zero (a b s : Q) : a == 0 -> b == 0 -> Grid.lerp a b s == 0.
Proof.
  intros Ha Hb. unfold Grid.lerp. destruct (JS.leb _ _); [exact Hb|].
  rewrite Ha, Hb. ring.
Qed.

Lemma frame_held (g : Grid.t) :
  held g ->
  held (Grid.fire Grid.Frame g)
  /\ Grid.vx (Grid.velocity (Grid.fire Grid.Frame g)) == 0
  /\ Grid.vy (Grid.velocity (Grid.fire Grid.Frame g)) == 0.
Proof.
  intros (I & D & Dr & Mx & My & Lx & Ly & Px & Py).
  destruct (fire_phase Grid.Frame g) as (I1 & D1).
  pose proof (frame_live g I D) as P.
  apply pointerState_fields in P. destruct P as (M & L & Pv & V & Dg).
  destruct (update_dragging g Dr) as (V' & L' & P' & M' & Dg').
  cbv zeta in V', L', P'.
  pose proof (lerp_zero _ _ 0.075 Lx Mx) as Zx.
  pose proof (lerp_zero _ _ 0.075 Ly My) as Zy.
  unfold held. rewrite I1, D1, Dg, Dg', M, M', L, L', Pv, P', V, V'. simpl.
  repeat split; try assumption; rewrite ?Zx, ?Zy, ?Px, ?Py; ring.
Qed.

Lemma frames_held (n : nat) (p : Pointer.t) :
  held (Pointer.grid p) ->
  held (Pointer.grid (Nat.iter n Pointer.frame p))
  /\ ((0 < n)%nat ->
      Grid.vx (Grid.velocity (Pointer.grid (Nat.iter n Pointer.frame p))) == 0
      /\ Grid.vy (Grid.velocity (Pointer.grid (Nat.iter n Pointer.frame p))) == 0).
Proof.
  intros H. induction n as [|n [IH _]]; simpl.
  - split; [exact H | lia].
  - destruct (frame_held _ IH) as (H' & Vx & Vy).
    split; [exact H' | intros _; split; assumption].
Qed.

End PointerFacts.

(** X11.  One pointer move, for a pixel ratio that is not negative: the
    drag target [mouse] moves on each axis by the pointer's displacement
    since the last event times 2 x pixelRatio, the displacement being cut
    to the limit (100, or 1000 on a window at most 960 wide or at zoom 3
    and more); [offset] becomes the pointer's position; nothing else of
    the renderer changes. *)
Theorem pointer_move_clamped (e : Pointer.Point) (this : Pointer.t) :
  0 <= Grid.pixelRatio (Pointer.grid this) ->
  let g := Pointer.grid this in
  let this' := Pointer.handleMouseMove e this in
  let g' := Pointer.grid this' in
  let dx := Pointer.clientX e - Grid.vx (Pointer.offset this) in
  let dy := Pointer.clientY e - Grid.vy (Pointer.offset this) in
  (Pointer.limit g = 100 \/ Pointer.limit g = 1000)
  /\ Qabs (Grid.vx (Grid.mouse g') - Grid.vx (Grid.mouse g))
     <= Pointer.limit g * Grid.pixelRatio g * 2
  /\ Qabs (Grid.vy (Grid.mouse g') - Grid.vy (Grid.mouse g))
     <= Pointer.limit g * Grid.pixelRatio g * 2
  /\ (Qabs dx <= Pointer.limit g ->
      Grid.vx (Grid.mouse g')
      == Grid.vx (Grid.mouse g) + dx * Grid.pixelRatio g * 2)
  /\ (Qabs dy <= Pointer.limit g ->
      Grid.vy (Grid.mouse g')
      == Grid.vy (Grid.mouse g) + dy * Grid.pixelRatio g * 2)
  /\ Pointer.offset this'
     = {| Grid.vx := Pointer.clientX e; Grid.vy := Pointer.clientY e |}
  /\ Pointer.tracking this' = Pointer.tracking this
  /\ g' = g <| Grid.mouse := Grid.mouse g' |>.
Proof.
  intros Hp g this' g' dx dy.
  pose proof (limit_values g) as L.
  assert (Hl : 0 <= Pointer.limit g) by (destruct L as [-> | ->]; lra).
  destruct (clamp_spec dx (Pointer.limit g) Hl) as (Bx & Ex).
  destruct (clamp_spec dy (Pointer.limit g) Hl) as (By & Ey).
  set (cx := JS.Math_min (JS.Math_max dx (- Pointer.limit g)) (Pointer.limit g)) in *.
  set (cy := JS.Math_min (JS.Math_max dy (- Pointer.limit g)) (Pointer.limit g)) in *.
  assert (Mx : Grid.vx (Grid.mouse g')
               = Grid.vx (Grid.mouse g) + cx * Grid.pixelRatio g * 2)
    by reflexivity.
  assert (My : Grid.vy (Grid.mouse g')
               = Grid.vy (Grid.mouse g) + cy * Grid.pixelRatio g * 2)
    by reflexivity.
  split; [exact L|].
  split.
  { rewrite Mx. apply Qabs_Qle_condition. fold g in Hp. split; nra. }
  split.
  { rewrite My. apply Qabs_Qle_condition. fold g in Hp. split; nra. }
  split; [intros A; rewrite Mx, (Ex A); reflexivity|].
  split; [intros A; rewrite My, (Ey A); reflexivity|].
  repeat split.
Qed.

Lemma pointer_move_clamped_witness :
  0 <= Grid.pixelRatio (Pointer.grid (Pointer.attach Sample.booted))
  /\ (Pointer.limit (Pointer.grid (Pointer.attach Sample.booted)) = 100
      \/ Pointer.limit (Pointer.grid (Pointer.attach Sample.booted)) = 1000).
Proof.
  assert (H : 0 <= Grid.pixelRatio (Pointer.grid (Pointer.attach Sample.booted)))
    by (vm_compute; discriminate).
  split; [exact H|].
  exact (proj1 (pointer_move_clamped
                  {| Pointer.clientX := 500; Pointer.clientY := 20 |}
                  (Pointer.attach Sample.booted) H)).
Defined.

(** X12.  Pressing the pointer stops the glide.  On an initialised renderer
    that is not destroyed, after [handleMouseDown] every frame that comes
    before the next pointer move leaves the velocity at zero, and so does a
    release without a move, which also ends the drag. *)
Theorem grab_stops_glide (e : Pointer.Point) (rectLeft rectTop : Q)
    (this : Pointer.t) (n : nat) :
  Grid.isInit (Pointer.grid this) = true ->
  Grid.isDestroyed (Pointer.grid this) = false ->
  let held := Nat.iter (S n) Pointer.frame
                (Pointer.handleMouseDown e rectLeft rectTop this) in
  let released := Pointer.handleMouseUp held in
  Grid.isDragging (Pointer.grid held) = true
  /\ Grid.vx (Grid.velocity (Pointer.grid held)) == 0
  /\ Grid.vy (Grid.velocity (Pointer.grid held)) == 0
  /\ Grid.isDragging (Pointer.grid released) = false
  /\ Grid.vx (Grid.velocity (Pointer.grid released)) == 0
  /\ Grid.vy (Grid.velocity (Pointer.grid released)) == 0
  /\ Pointer.tracking held = true
  /\ Pointer.tracking released = false.
Proof.
  intros I D held released.
  assert (H0 : Terms.held
                 (Pointer.grid (Pointer.handleMouseDown e rectLeft rectTop this))).
  { unfold Terms.held.
    split; [exact I|]. split; [exact D|]. repeat split; reflexivity. }
  destruct (frames_held (S n) _ H0) as (H & V).
  destruct (V ltac:(lia)) as (Vx & Vy). fold held in H, Vx, Vy.
  assert (T : forall k p, Pointer.tracking (Nat.iter k Pointer.frame p)
                          = Pointer.tracking p).
  { intros k p. induction k; simpl; [reflexivity | exact IHk]. }
  assert (Th : Pointer.tracking held = true)
    by (unfold held; rewrite T; reflexivity).
  destruct H as (_ & _ & Dr & _). clearbody held.
  split; [exact Dr|]. split; [exact Vx|]. split; [exact Vy|].
  assert (R : Grid.isDragging (Pointer.grid released) = false
              /\ Pointer.tracking released = false
              /\ (Grid.velocity (Pointer.grid released)
                  = Grid.velocity (Pointer.grid held)
                  \/ Grid.velocity (Pointer.grid released)
                     = {| Grid.vx := Grid.vx (Grid.velocity (Pointer.grid held)) * 2;
                          Grid.vy := Grid.vy (Grid.velocity (Pointer.grid held)) * 2 |})).
  { unfold released, Pointer.handleMouseUp. cbv zeta.
    destruct (_ || _); repeat split; auto. }
  destruct R as (Rd & Rt & Rv). clearbody released.
  split; [exact Rd|].
  destruct Rv as [Rv | Rv]; rewrite Rv.
  - split; [exact Vx|]. split; [exact Vy|]. auto.
  - cbn [Grid.vx Grid.vy]. rewrite Vx, Vy.
    split; [ring|]. split; [ring|]. auto.
Qed.

Lemma grab_stops_glide_witness :
  Grid.isInit (Pointer.grid (Pointer.attach Sample.resting)) = true
  /\ Grid.isDestroyed (Pointer.grid (Pointer.attach Sample.resting)) = false
  /\ Grid.isDragging
       (Pointer.grid
          (Nat.iter 1 Pointer.frame
             (Pointer.handleMouseDown
                {| Pointer.clientX := 10; Pointer.clientY := 10 |} 0 0
                (Pointer.attach Sample.resting)))) = true.
Proof.
  assert (I : Grid.isInit (Pointer.grid (Pointer.attach Sample.resting)) = true)
    by (vm_compute; reflexivity).
  assert (D : Grid.isDestroyed (Pointer.grid (Pointer.attach Sample.resting))
              = false) by (vm_compute; reflexivity).
  split; [exact I|]. split; [exact D|].
  exact (proj1 (grab_stops_glide
                  {| Pointer.clientX := 10; Pointer.clientY := 10 |} 0 0
                  (Pointer.attach Sample.resting) 0 I D)).
Defined.

Lemma updateCanvasSize_shape (e : Env) (pixelRatio : Q) (canvas : Canvas.t) :
  exists newWidth newHeight : Z,
    forall c : Canvas.t,
      Canvas.clientWidth c = Canvas.clientWidth canvas ->
      Canvas.clientHeight c = Canvas.clientHeight canvas ->
      Canvas.parentElement c = Canvas.parentElement canvas ->
      Canvas.updateCanvasSize e pixelRatio c
      = if ((Z.abs (Canvas.width c - newWidth) >? 2)
            || (Z.abs (Canvas.height c - newHeight) >? 2))%Z
        then (true, c <| Canvas.width := newWidth |>
                      <| Canvas.height := newHeight |>)
        else (false, c).
Proof.
  destruct (if JS.ltb (Canvas.clientWidth canvas) 100
               || JS.ltb (Canvas.clientHeight canvas) 100
            then match Canvas.parentElement canvas with
                 | Some (w, h) => (w, h)
                 | None => (innerWidth e, innerHeight e)
                 end
            else (Canvas.clientWidth canvas, Canvas.clientHeight canvas))
    as [dw dh] eqn:Ed.
  exists (JS.Math_floor (dw * pixelRatio)), (JS.Math_floor (dh * pixelRatio)).
  intros c E1 E2 E3. unfold Canvas.updateCanvasSize.
  rewrite E1, E2, E3, Ed. reflexivity.
Qed.

(** X13.  The size of the canvas.  After [updateCanvasSize] a second call
    on the same layout reports no change and leaves the canvas as it is;
    the call never touches the layout, and a call that reports no change
    has changed nothing; on a canvas that has a parent and is laid out more
    than 100 wide and high, [updateCanvasSize] right after [fixCanvasSize]
    reports no change (pixel ratio not negative). *)
Theorem canvas_size_settles (e : Env) (pixelRatio : Q) (canvas : Canvas.t) :
  0 <= pixelRatio ->
  let canvas' := snd (Canvas.updateCanvasSize e pixelRatio canvas) in
  Canvas.updateCanvasSize e pixelRatio canvas' = (false, canvas')
  /\ Canvas.clientWidth canvas' = Canvas.clientWidth canvas
  /\ Canvas.clientHeight canvas' = Canvas.clientHeight canvas
  /\ Canvas.parentElement canvas' = Canvas.parentElement canvas
  /\ (fst (Canvas.updateCanvasSize e pixelRatio canvas) = false ->
      canvas' = canvas)
  /\ (Canvas.parentElement canvas <> None ->
      100 < Canvas.clientWidth canvas -> 100 < Canvas.clientHeight canvas ->
      Canvas.updateCanvasSize e pixelRatio
        (Canvas.fixCanvasSize e pixelRatio canvas)
      = (false, Canvas.fixCanvasSize e pixelRatio canvas)).
Proof.
  intros Hp. cbv zeta.
  assert (Z0 : forall a : Z, ((Z.abs (a - a) >? 2) = false)%Z).
  { intros a. rewrite Z.sub_diag. reflexivity. }
  destruct (updateCanvasSize_shape e pixelRatio canvas) as (nw & nh & U).
  pose proof (U canvas eq_refl eq_refl eq_refl) as U0.
  assert (A : Canvas.updateCanvasSize e pixelRatio
                (snd (Canvas.updateCanvasSize e pixelRatio canvas))
              = (false, snd (Canvas.updateCanvasSize e pixelRatio canvas))
              /\ Canvas.clientWidth
                   (snd (Canvas.updateCanvasSize e pixelRatio canvas))
                 = Canvas.clientWidth canvas
              /\ Canvas.clientHeight
                   (snd (Canvas.updateCanvasSize e pixelRatio canvas))
                 = Canvas.clientHeight canvas
              /\ Canvas.parentElement
                   (snd (Canvas.updateCanvasSize e pixelRatio canvas))
                 = Canvas.parentElement canvas
              /\ (fst (Canvas.updateCanvasSize e pixelRatio canvas) = false ->
                  snd (Canvas.updateCanvasSize e pixelRatio canvas) = canvas)).
  { assert (F : forall c : Canvas.t,
               c = canvas <| Canvas.width := nw |> <| Canvas.height := nh |> ->
               Canvas.updateCanvasSize e pixelRatio c = (false, c)).
    { intros c ->. rewrite U by reflexivity.
      change (Canvas.width (canvas <| Canvas.width := nw |>
                                   <| Canvas.height := nh |>)) with nw.
      change (Canvas.height (canvas <| Canvas.width := nw |>
                                    <| Canvas.height := nh |>)) with nh.
      rewrite !Z0. reflexivity. }
    rewrite U0.
    destruct ((Z.abs (Canvas.width canvas - nw) >? 2)
              || (Z.abs (Canvas.height canvas - nh) >? 2))%Z eqn:Ec;
      unfold fst, snd.
    - split; [|repeat split; intros; discriminate].
      apply F. reflexivity.
    - split; [exact U0 | repeat split]. }
  destruct A as (A1 & A2 & A3 & A4 & A5).
  split; [exact A1|]. split; [exact A2|]. split; [exact A3|].
  split; [exact A4|]. split; [exact A5|].
  intros Hpar Hw Hh.
  destruct canvas as [w h cw ch par]. cbn [Canvas.parentElement] in Hpar.
  cbn [Canvas.clientWidth Canvas.clientHeight] in Hw, Hh.
  destruct par as [[pw ph]|]; [|congruence].
  assert (Gw : JS.gtb cw 100 = true) by (apply gtb_true; exact Hw).
  assert (Gh : JS.gtb ch 100 = true) by (apply gtb_true; exact Hh).
  assert (Lw : JS.ltb cw 100 = false).
  { unfold JS.ltb. apply negb_false_iff. apply Qle_bool_iff. lra. }
  assert (Lh : JS.ltb ch 100 = false).
  { unfold JS.ltb. apply negb_false_iff. apply Qle_bool_iff. lra. }
  unfold Canvas.fixCanvasSize.
  cbn [Canvas.parentElement Canvas.clientWidth Canvas.clientHeight].
  rewrite Gw, Gh.
  set (nw' := Canvas.toAttribute (cw * pixelRatio)).
  set (nh' := Canvas.toAttribute (ch * pixelRatio)).
  unfold Canvas.updateCanvasSize.
  change (Canvas.clientWidth _) with cw.
  change (Canvas.clientHeight _) with ch.
  rewrite Lw, Lh. cbn [orb].
  change (JS.Math_floor (cw * pixelRatio)) with nw'.
  change (JS.Math_floor (ch * pixelRatio)) with nh'.
  change (Canvas.width _) with nw'.
  change (Canvas.height _) with nh'.
  rewrite !Z0. reflexivity.
Qed.

Lemma canvas_size_settles_witness :
  0 <= 2
  /\ Canvas.updateCanvasSize Sample.env 2
       {| Canvas.width := 2880; Canvas.height := 1800;
          Canvas.clientWidth := 1440; Canvas.clientHeight := 900;
          Canvas.parentElement := Some (1440, 900) |}
     = (false,
        {| Canvas.width := 2880; Canvas.height := 1800;
           Canvas.clientWidth := 1440; Canvas.clientHeight := 900;
           Canvas.parentElement := Some (1440, 900) |}).
Proof.
  assert (H : 0 <= 2) by lra.
  split; [exact H|].
  exact (proj1 (canvas_size_settles Sample.env 2
                  {| Canvas.width := 2880; Canvas.height := 1800;
                     Canvas.clientWidth := 1440; Canvas.clientHeight := 900;
                     Canvas.parentElement := Some (1440, 900) |} H)).
Defined.

(** ** One frame of drawing *)

Section Drawing.

Import Props Terms.

Lemma hasKey_In (k : Z * Z) (keys : list (Z * Z)) :
  Grid.hasKey k keys = true <-> In k keys.
Proof.
  unfold Grid.hasKey. rewrite existsb_exists. split.
  - intros ([a b] & Hin & E). apply andb_true_iff in E. destruct E as [E1 E2].
    apply Z.eqb_eq in E1, E2. destruct k as [c d]. simpl in *. subst. exact Hin.
  - intros Hin. exists k. split; [exact Hin|].
    rewrite !Z.eqb_refl. reflexivity.
Qed.

Lemma draws_emit (g : Grid.t) (es : list Effect) :
  draws (g <| Grid.world ::= emit es |>)
  = (draws g + List.length (filter isDraw es))%nat.
Proof.
  unfold draws.
  change (trace (Grid.world (g <| Grid.world ::= emit es |>)))
    with (trace (Grid.world g) ++ es)%list.
  rewrite filter_app, length_app. reflexivity.
Qed.

(** [item.draw()]: the item changes in its visibility flag only; at most
    one draw call is issued; an item that has a texture does not throw. *)
Lemma drawItem_spec (item : Tile.t) (g : Grid.t) :
  let r := Grid.drawItem item g in
  sameButVisible item (fst r)
  /\ Grid.posKey (fst r) = Grid.posKey item
  /\ Grid.drawnPositions (settle (snd r)) = Grid.drawnPositions g
  /\ (draws (settle (snd r)) <= draws g + 1)%nat
  /\ (draws g <= draws (settle (snd r)))%nat
  /\ (Tile.texture item <> None -> completed (snd r) = true).
Proof.
  unfold Grid.drawItem. cbv zeta.
  destruct (Tile.isVisible _) eqn:V.
  - destruct (Tile.texture _) as [i|] eqn:T.
    + cbn [fst snd settle completed].
      split; [reflexivity|]. split; [reflexivity|]. split; [reflexivity|].
      rewrite draws_emit. simpl. split; [lia|]. split; [lia|]. reflexivity.
    + cbn [fst snd settle completed].
      split; [reflexivity|]. split; [reflexivity|]. split; [reflexivity|].
      split; [lia|]. split; [lia|].
      intros H. change (Tile.texture item = None) in T. congruence.
  - cbn [fst snd settle completed].
    split; [reflexivity|]. split; [reflexivity|]. split; [reflexivity|].
    split; [lia|]. split; [lia|]. reflexivity.
Qed.

Lemma load_draws (tex : Texture.t) (w : World) :
  filter isDraw (trace (Texture.load tex w)) = filter isDraw (trace w).
Proof.
  unfold Texture.load. destruct (Texture.isInit tex); [reflexivity|].
  destruct w as [nh na tr rq]. cbn.
  rewrite filter_app. simpl. apply app_nil_r.
Qed.

Lemma triggerHD_spec (item : Tile.t) (g : Grid.t) :
  Grid.drawnPositions (Grid.triggerHD item g) = Grid.drawnPositions g
  /\ draws (Grid.triggerHD item g) = draws g.
Proof.
  unfold Grid.triggerHD.
  destruct (_ && _); [|split; reflexivity].
  destruct (Tile.textureHD item); [|split; reflexivity].
  destruct (JS.index _ _) as [tex|]; [|split; reflexivity].
  split; [reflexivity|]. unfold draws.
  change (trace (Grid.world (g <| Grid.world ::= Texture.load tex |>)))
    with (trace (Texture.load tex (Grid.world g))).
  rewrite load_draws. reflexivity.
Qed.

Lemma Forall2_snoc {A B} (R : A -> B -> Prop) (l : list A) (l' : list B) a b :
  Forall2 R l l' -> R a b -> Forall2 R (l ++ [a]) (l' ++ [b]).
Proof. intros H Hab. apply Forall2_app; [exact H | repeat constructor; exact Hab]. Qed.

Lemma drawLoop_spec (todo : list Tile.t) :
  forall (done orig : list Tile.t) (g : Grid.t) (base : nat),
    Forall (fun it => Tile.texture it <> None) todo ->
    NoDup (Grid.drawnPositions g) ->
    Forall2 sameButVisible orig (rev done) ->
    (forall it, In it orig -> In (Grid.posKey it) (Grid.drawnPositions g)) ->
    (draws g <= base + List.length (Grid.drawnPositions g))%nat ->
    (base <= draws g)%nat ->
    exists g',
      Grid.drawLoop todo done g = Ok g'
      /\ NoDup (Grid.drawnPositions g')
      /\ Forall2 sameButVisible (orig ++ todo) (Grid.imagesGL g')
      /\ (forall it, In it (orig ++ todo) ->
                     In (Grid.posKey it) (Grid.drawnPositions g'))
      /\ (draws g' <= base + List.length (Grid.drawnPositions g'))%nat
      /\ (base <= draws g')%nat.
Proof.
  induction todo as [|item rest IH]; intros done orig g base T Nd F K D B.
  - simpl. eexists. split; [reflexivity|]. rewrite app_nil_r.
    split; [exact Nd|]. split; [exact F|]. split; [exact K|].
    split; [exact D | exact B].
  - inversion T as [|? ? Ti Tr]; subst.
    cbn [Grid.drawLoop].
    destruct (negb (Grid.hasKey (Grid.posKey item) (Grid.drawnPositions g)))
      eqn:Hk.
    + apply negb_true_iff in Hk.
      assert (Hnot : ~ In (Grid.posKey item) (Grid.drawnPositions g)).
      { intros Hin. apply hasKey_In in Hin. congruence. }
      pose proof (drawItem_spec item g) as S. cbv zeta in S.
      destruct (Grid.drawItem item g) as [item' o].
      cbn [fst snd] in S. destruct S as (Sv & Sk & Sp & Sd & Sb & Sc).
      specialize (Sc Ti). destruct o as [g1 | g1]; [|discriminate].
      cbn [settle] in *.
      match goal with
      | |- context [Grid.triggerHD item' ?x] => set (g2 := x)
      end.
      assert (P2 : Grid.drawnPositions g2
                   = Grid.posKey item' :: Grid.drawnPositions g1)
        by reflexivity.
      assert (D2 : draws g2 = draws g1) by reflexivity.
      clearbody g2.
      destruct (triggerHD_spec item' g2) as (P3 & D3).
      destruct (IH (item' :: done) (orig ++ [item]) (Grid.triggerHD item' g2) base)
        as (g' & E & Nd' & F' & K' & D' & B'); try assumption.
      * rewrite P3, P2, Sp, Sk. constructor; assumption.
      * simpl. apply Forall2_snoc; assumption.
      * intros it Hin. rewrite P3, P2, Sp, Sk.
        apply in_app_or in Hin. destruct Hin as [Hin | [<- | []]].
        -- right. apply K, Hin.
        -- left. reflexivity.
      * rewrite P3, P2, D3, D2, Sp. simpl. lia.
      * rewrite D3, D2. lia.
      * exists g'. rewrite <- app_assoc in F', K'. simpl in F', K'.
        repeat (split; [assumption|]). assumption.
    + apply negb_false_iff in Hk. apply hasKey_In in Hk.
      destruct (IH (item :: done) (orig ++ [item]) g base)
        as (g' & E & Nd' & F' & K' & D' & B'); try assumption.
      * simpl. apply Forall2_snoc; [assumption|].
        unfold sameButVisible. destruct item; reflexivity.
      * intros it Hin. apply in_app_or in Hin.
        destruct Hin as [Hin | [<- | []]]; auto.
      * exists g'. rewrite <- app_assoc in F', K'. simpl in F', K'.
        repeat (split; [assumption|]). assumption.
Qed.

End Drawing.

(** X14.  One [draw()] on a grid all of whose items have a texture: it
    returns; every item keeps everything but its visibility flag; the set
    of drawn positions has no duplicate and holds the rounded position of
    every item; and the draw calls issued are at most as many as the
    positions drawn, so no two items at the same rounded position are both
    drawn. *)
Theorem draw_once_per_position (g : Grid.t) :
  Forall (fun it => Tile.texture it <> None) (Grid.imagesGL g) ->
  exists g' : Grid.t,
    Grid.draw g = Ok g'
    /\ Forall2 Terms.sameButVisible (Grid.imagesGL g) (Grid.imagesGL g')
    /\ NoDup (Grid.drawnPositions g')
    /\ (forall it : Tile.t,
          In it (Grid.imagesGL g) ->
          In (Grid.posKey it) (Grid.drawnPositions g'))
    /\ (Terms.draws g <= Terms.draws g')%nat
    /\ (Terms.draws g' - Terms.draws g
        <= List.length (Grid.drawnPositions g'))%nat.
Proof.
  intros T. unfold Grid.draw.
  set (g0 := g <| Grid.drawnPositions := [] |>).
  assert (P0 : Grid.drawnPositions g0 = []) by reflexivity.
  assert (D0 : Terms.draws g0 = Terms.draws g) by reflexivity.
  assert (I0 : Grid.imagesGL g0 = Grid.imagesGL g) by reflexivity.
  clearbody g0. rewrite <- I0 in *.
  destruct (drawLoop_spec (Grid.imagesGL g0) [] [] g0 (Terms.draws g0))
    as (g' & E & Nd & F & K & D & B).
  - exact T.
  - rewrite P0. constructor.
  - constructor.
  - intros it [].
  - lia.
  - lia.
  - exists g'. simpl in F, K. rewrite <- D0.
    repeat (split; [assumption|]). lia.
Qed.

Lemma draw_once_per_position_witness :
  Forall (fun it => Tile.texture it <> None) (Grid.imagesGL Sample.resting)
  /\ exists g' : Grid.t, Grid.draw Sample.resting = Ok g'.
Proof.
  assert (T : Forall (fun it => Tile.texture it <> None)
                (Grid.imagesGL Sample.resting)).
  { vm_compute. repeat constructor; discriminate. }
  split; [exact T|].
  destruct (draw_once_per_position Sample.resting T) as (g' & E & _).
  exists g'. exact E.
Defined.

(** ** The loading coordinator *)

Section CoordinatorFacts.

Import Coordinator Terms.

Lemma registered_snoc (cs : list Call) (c : Call) :
  registered (cs ++ [c])
  = (registered cs ++ registered [c])%list.
Proof. unfold registered. rewrite flat_map_app. reflexivity. Qed.

Lemma unfinished_state (l : list Call) :
  forall s : PreloaderState,
    existsb finishes l = false -> finished s = false ->
    finished (fold_left (fun s call =>
                           match call with
                           | SetPreloaderState state => state
                           | SkipPreloader => SKIPPED
                           | _ => s
                           end) l s) = false.
Proof.
  induction l as [|a l IHl]; intros s Hl Hs; cbn in *; [exact Hs|].
  apply orb_false_iff in Hl. destruct Hl as [Ha Hl].
  apply IHl; [exact Hl|]. destruct a; cbn in *; auto; discriminate.
Qed.

Lemma step_settled (cs : list Call) (c : Call) (x : t) :
  isReset c = false -> settled cs x -> settled (cs ++ [c]) (step c x).
Proof.
  intros R (A & B & C & D). destruct x as [s l k].
  unfold settled, canLoadMedia in *. cbn in A, B, C, D.
  rewrite registered_snoc, existsb_app, fold_left_app.
  cbn [fold_left existsb]. rewrite orb_false_r. rewrite <- D, <- A.
  destruct c as [state | | cb |]; cbn in R; try discriminate;
    unfold step, skipPreloader, setPreloaderState, onPreloaderComplete,
      notifyCompletion, canLoadMedia.
  - cbn. unfold constant.
    destruct (finished state) eqn:Fs, (finished s) eqn:Fp; cbn;
      rewrite ?app_nil_r, ?orb_true_r, ?orb_false_r, ?Fs;
      try rewrite (B eq_refl); repeat split; auto; try discriminate;
      intros; congruence.
  - cbn. unfold constant. destruct (finished s) eqn:Fp; cbn;
      rewrite ?app_nil_r, ?orb_true_r;
      try rewrite (B eq_refl); repeat split; auto; try discriminate.
  - cbn. unfold constant. destruct (finished s) eqn:Fp; cbn;
      rewrite ?orb_false_r.
    + rewrite (B eq_refl), !app_nil_r.
      repeat split; auto.
      intros H. exfalso.
      rewrite D in Fp. rewrite (unfinished_state cs NOT_STARTED H eq_refl) in Fp.
      discriminate.
    + rewrite app_assoc. repeat split; auto; try discriminate.
      intros; congruence.
Qed.

Lemma run_settled (cs : list Call) :
  existsb isReset cs = false -> settled cs (run cs instance).
Proof.
  induction cs as [|c cs IH] using rev_ind; intros R.
  - unfold settled. cbn. repeat split; auto.
  - rewrite existsb_app in R. apply orb_false_iff in R. destruct R as [R Rc].
    cbn in Rc. rewrite orb_false_r in Rc.
    unfold run. rewrite fold_left_app. cbn [fold_left].
    apply step_settled; [exact Rc | apply IH, R].
Qed.

End CoordinatorFacts.

(** X15.  The loading coordinator, from its first state and as long as
    [reset()] is not called: the callbacks called so far, followed by those
    still waiting, are the callbacks registered so far, in the order of
    their registration, so a callback is called at most once for each
    registration and never out of order; when media may load
    ([canLoadMedia()]) no callback is waiting, so every registered callback
    has been called; and as long as no call has set a finished state
    (COMPLETED or SKIPPED) no callback has been called. *)
Theorem coordinator_calls_each_once (cs : list Coordinator.Call) :
  existsb Coordinator.isReset cs = false ->
  let c := Coordinator.run cs Coordinator.instance in
  (Coordinator.calls c ++ Coordinator._completionListeners c)%list
  = Coordinator.registered cs
  /\ (Coordinator.canLoadMedia c = true ->
      Coordinator._completionListeners c = []
      /\ Coordinator.calls c = Coordinator.registered cs)
  /\ (existsb Coordinator.finishes cs = false -> Coordinator.calls c = []).
Proof.
  intros R c. destruct (run_settled cs R) as (A & B & C & _). fold c in A, B, C.
  split; [exact A|]. split; [|exact C].
  intros L. specialize (B L). split; [exact B|].
  rewrite B, app_nil_r in A. exact A.
Qed.

Lemma coordinator_calls_each_once_witness :
  existsb Coordinator.isReset
    [Coordinator.OnPreloaderComplete 1%nat;
     Coordinator.SetPreloaderState Coordinator.IN_PROGRESS;
     Coordinator.OnPreloaderComplete 2%nat;
     Coordinator.SetPreloaderState Coordinator.COMPLETED;
     Coordinator.SkipPreloader;
     Coordinator.OnPreloaderComplete 3%nat] = false
  /\ Coordinator.calls
       (Coordinator.run
          [Coordinator.OnPreloaderComplete 1%nat;
           Coordinator.SetPreloaderState Coordinator.IN_PROGRESS;
           Coordinator.OnPreloaderComplete 2%nat;
           Coordinator.SetPreloaderState Coordinator.COMPLETED;
           Coordinator.SkipPreloader;
           Coordinator.OnPreloaderComplete 3%nat]
          Coordinator.instance)
     = [1; 2; 3]%nat.
Proof.
  split; [reflexivity|].
  exact (proj2 (proj1 (proj2
           (coordinator_calls_each_once
              [Coordinator.OnPreloaderComplete 1%nat;
               Coordinator.SetPreloaderState Coordinator.IN_PROGRESS;
               Coordinator.OnPreloaderComplete 2%nat;
               Coordinator.SetPreloaderState Coordinator.COMPLETED;
               Coordinator.SkipPreloader;
               Coordinator.OnPreloaderComplete 3%nat] eq_refl)) eq_refl)).
Defined.

(** ** The life of a view and of its renderer *)

Section ViewLife.

Import Props Terms.

Lemma teardown_after_destroy (g : Grid.t) :
  Grid.isDestroyed g = false -> Grid.timers g = [] ->
  let g1 := Grid.destroy g in
  let g2 := Grid.fireTimer 0 g1 in
  Grid.isDestroyed g1 = true
  /\ Grid.deletions g1 = Grid.deletions g
  /\ Grid.deletions g2 = (Grid.deletions g ++ liveHandles g)%list
  /\ liveHandles g2 = []
  /\ Grid.imagesGL g2 = []
  /\ Grid.timers g2 = [LoseContext].
Proof.
  intros D T. cbv zeta.
  destruct (destroy_schedules g D) as (Tm & Dl & Lv).
  destruct (destroy_pointerState g) as (_ & _ & Dd).
  rewrite T in Tm. simpl in Tm.
  split; [exact Dd|]. split; [exact Dl|].
  unfold Grid.fireTimer. rewrite Tm. cbn [JS.index nth_error].
  set (x := (Grid.destroy g) <| Grid.timers ::= Grid.removeNth 0 |>).
  assert (Xd : Grid.deletions x = Grid.deletions (Grid.destroy g)) by reflexivity.
  assert (Xl : liveHandles x = liveHandles (Grid.destroy g)) by reflexivity.
  assert (Xt : Grid.timers x = Grid.removeNth 0 (Grid.timers (Grid.destroy g)))
    by reflexivity.
  clearbody x.
  destruct (teardown_deletions x) as (A & B & C & E).
  rewrite A, B, C, E, Xd, Xl, Xt, Dl, Lv, Tm. repeat split.
Qed.

End ViewLife.

(** X16.  Destroying a view that holds a live renderer (neither has a
    timer pending).  [destroy()] leaves the renderer untouched and
    schedules one callback.  When that fires, the view lets go of the
    renderer and the renderer is destroyed; when the renderer's own
    teardown then fires, the WebGL objects deleted are exactly those the
    renderer owned, and it owns none and has no item left.  When the
    view's second callback fires, the container and the zoom buttons are
    removed from the document and the image list is emptied.  From
    [destroy()] on, [triggerIntroSequence()] does nothing. *)
Theorem view_teardown (v : View.t) (g : Grid.t) :
  View.scene v = Some g ->
  View.isDestroyed v = false ->
  View.vtimers v = [] ->
  Grid.isDestroyed g = false ->
  Grid.timers g = [] ->
  let v1 := View.destroy v in
  let v2 := View.fireTimer 0 v1 in
  let v3 := View.fireTimer 0 v2 in
  View.scene v1 = Some g
  /\ View.vtimers v1 = [View.DestroyScene]
  /\ View.triggerIntroSequence v1 = v1
  /\ View.scene v2 = None
  /\ View.released v2 = Some (Grid.destroy g)
  /\ Grid.deletions (Grid.fireTimer 0 (Grid.destroy g))
     = (Grid.deletions g ++ Props.liveHandles g)%list
  /\ Props.liveHandles (Grid.fireTimer 0 (Grid.destroy g)) = []
  /\ Grid.imagesGL (Grid.fireTimer 0 (Grid.destroy g)) = []
  /\ View.vtimers v2 = [View.RemoveDom]
  /\ View.vtimers v3 = []
  /\ View.canvas v3 = false
  /\ View.zoomUI v3 = false
  /\ View.images v3 = []
  /\ View.triggerIntroSequence v3 = v3
  /\ In (DomRemove "archive-container") (View.vtrace v3).
Proof.
  intros S D T Dg Tg. cbv zeta.
  destruct (teardown_after_destroy g Dg Tg) as (_ & _ & A & B & C & _).
  cbv zeta in A, B, C.
  destruct v as [sc rel imgs tr ds raf cv zu ro idl ve vt vtm].
  cbn in S, D, T. subst sc ds vtm.
  split; [destruct raf, ro; reflexivity|].
  split; [destruct raf, ro; reflexivity|].
  split; [destruct raf, ro; reflexivity|].
  split; [destruct raf, ro; reflexivity|].
  split; [destruct raf, ro; reflexivity|].
  split; [exact A|]. split; [exact B|]. split; [exact C|].
  split; [destruct raf, ro; reflexivity|].
  split; [destruct raf, ro, zu; reflexivity|].
  split; [destruct raf, ro, zu; reflexivity|].
  split; [destruct raf, ro, zu; reflexivity|].
  split; [destruct raf, ro, zu; reflexivity|].
  split; [destruct raf, ro, zu; reflexivity|].
  destruct raf, ro, zu; cbn; rewrite ?in_app_iff; cbn; tauto.
Qed.

Lemma view_teardown_witness :
  View.scene Sample.view = Some Sample.booted
  /\ View.isDestroyed Sample.view = false
  /\ View.vtimers Sample.view = []
  /\ Grid.isDestroyed Sample.booted = false
  /\ Grid.timers Sample.booted = []
  /\ View.images Sample.view <> []
  /\ Grid.imagesGL Sample.booted <> []
  /\ Props.liveHandles Sample.booted <> []
  /\ Grid.imagesGL (Grid.fireTimer 0 (Grid.destroy Sample.booted)) = [].
Proof.
  assert (S : View.scene Sample.view = Some Sample.booted) by reflexivity.
  assert (D : View.isDestroyed Sample.view = false) by reflexivity.
  assert (T : View.vtimers Sample.view = []) by reflexivity.
  assert (Dg : Grid.isDestroyed Sample.booted = false)
    by (vm_compute; reflexivity).
  assert (Tg : Grid.timers Sample.booted = []) by (vm_compute; reflexivity).
  split; [exact S|]. split; [exact D|]. split; [exact T|].
  split; [exact Dg|]. split; [exact Tg|].
  split; [discriminate|].
  split; [vm_compute; discriminate|].
  split; [vm_compute; discriminate|].
  exact (proj1 (proj2 (proj2 (proj2 (proj2 (proj2 (proj2 (proj2
          (view_teardown Sample.view Sample.booted S D T Dg Tg))))))))).
Defined.

(** X17.  Whatever events follow the construction of a renderer over a
    non-empty list of images, it never holds a WebGL object that it has
    deleted: no texture of its SD or HD texture objects, neither of its
    buffers, nor its program is among the objects deleted so far. *)
Theorem no_dangling_handle (e : Env) (imgs : list Image)
    (mobile delayIntro : bool) (evs : list Grid.Event) :
  imgs <> [] ->
  let g := Grid.run evs (Grid.create e imgs mobile delayIntro) in
  forall h : GL.handle,
    In h (Props.liveHandles g) -> ~ In h (Grid.deletions g).
Proof.
  intros Hne g h Hl Hd.
  destruct (create_invariants e imgs mobile delayIntro Hne) as (T & _).
  apply (proj1 (run_invariants evs _)) in T. fold g in T.
  unfold Props.tidy in T.
  apply in_split in Hd. destruct Hd as (l1 & l2 & Ed). rewrite Ed in T.
  rewrite <- app_assoc in T. simpl in T.
  apply NoDup_remove_2 in T. apply T.
  rewrite !in_app_iff. right. right. exact Hl.
Qed.

Lemma no_dangling_handle_witness :
  Sample.pictures <> []
  /\ forall h : GL.handle,
       In h (Props.liveHandles
               (Grid.run [Grid.Destroy]
                  (Grid.create Sample.env Sample.pictures false false))) ->
       ~ In h (Grid.deletions
                 (Grid.run [Grid.Destroy]
                    (Grid.create Sample.env Sample.pictures false false))).
Proof.
  assert (Hne : Sample.pictures <> []) by discriminate.
  split; [exact Hne|].
  exact (no_dangling_handle Sample.env Sample.pictures false false
           [Grid.Destroy] Hne).
Defined.

Section IntroEnd.

Import Props Terms.

Lemma lookupAnim_removeAnim (id : nat) (l : list (nat * Animation)) :
  Grid.lookupAnim id (Grid.removeAnim id l) = None.
Proof.
  unfold Grid.removeAnim. induction l as [|[k a] l IH]; simpl.
  - reflexivity.
  - destruct (Nat.eqb k id) eqn:E; simpl; [exact IH|].
    rewrite E. exact IH.
Qed.

End IntroEnd.

(** X18.  The end of the intro on a grid that has items: when the intro
    timeline completes, the intro counts as shown (so that [zoom] is
    accepted from now on), the zoom is 0.9, the image is in full colour
    (grayscale 0), the original gaps are 90 and 140 times the pixel ratio,
    the timeline is no longer registered, and the pointer listeners are
    bound last; the callback [onIntroMostlyDone] has been called once,
    before, unless an earlier tick had called it. *)
Theorem intro_ends_at_rest (id : nat) (called : bool) (gapH gapV z gray : Q)
    (g : Grid.t) :
  Grid.lookupAnim id (Grid.animations g)
  = Some (IntroTimeline called gapH gapV z gray) ->
  Grid.imagesGL g <> [] ->
  let g' := Grid.fire (Grid.Complete id) g in
  Grid.isIntroShown g' = true
  /\ Grid.currentZoom g' == 0.9
  /\ Grid.grayscale g' == 0
  /\ Grid.ORIGINAL_HORIZONTAL_GAP g' == 90 * Grid.pixelRatio g
  /\ Grid.ORIGINAL_VERTICAL_GAP g' == 140 * Grid.pixelRatio g
  /\ Grid.lookupAnim id (Grid.animations g') = None
  /\ trace (Grid.world g')
     = (trace (Grid.world g)
        ++ (if called then [] else [IntroMostlyDone]) ++ [BindEvents])%list
  /\ Grid.zoom "zoom-in" g' <> g'.
Proof.
  intros L Hne. cbv zeta. unfold Grid.fire, Grid.animationComplete.
  rewrite L. unfold Grid.renderAnimation.
  match goal with
  | |- context [Grid.applyZoom _ ?x] => set (g0 := x)
  end.
  assert (I0 : Grid.imagesGL g0 = Grid.imagesGL g)
    by (unfold g0; destruct called; reflexivity).
  assert (P0 : Grid.pixelRatio g0 = Grid.pixelRatio g)
    by (unfold g0; destruct called; reflexivity).
  assert (Gh0 : Grid.ORIGINAL_HORIZONTAL_GAP g0
                = Grid.mix gapH (90 * Grid.pixelRatio g) 1)
    by (unfold g0; destruct called; reflexivity).
  assert (Gv0 : Grid.ORIGINAL_VERTICAL_GAP g0
                = Grid.mix gapV (140 * Grid.pixelRatio g) 1)
    by (unfold g0; destruct called; reflexivity).
  assert (Gr0 : Grid.grayscale g0 = Grid.mix gray 0 1)
    by (unfold g0; destruct called; reflexivity).
  assert (W0 : trace (Grid.world g0)
               = (trace (Grid.world g)
                  ++ (if called then [] else [IntroMostlyDone]))%list)
    by (unfold g0; destruct called;
        [symmetry; apply app_nil_r | reflexivity]).
  assert (A0 : Grid.animations g0 = Grid.animations g)
    by (unfold g0; destruct called; reflexivity).
  clearbody g0.
  destruct (applyZoom_frame (Grid.mix z 0.9 1) g0)
    as (g1 & _ & (Z1 & C1 & _ & O1 & O2 & O3) & Ok1).
  rewrite (Ok1 ltac:(rewrite I0; exact Hne)).
  destruct C1 as (_&_&_&_&_&_&_&_&_&_&_&_&_&_&_&_&_&_&_&_&Cworld&Canim&_).
  cbn [settle].
  match goal with
  | |- Grid.isIntroShown ?x = true /\ _ => set (g2 := x)
  end.
  assert (F : Grid.isIntroShown g2 = true
              /\ Grid.currentZoom g2 = Grid.currentZoom g1
              /\ Grid.grayscale g2 = Grid.grayscale g1
              /\ Grid.ORIGINAL_HORIZONTAL_GAP g2 = Grid.ORIGINAL_HORIZONTAL_GAP g1
              /\ Grid.ORIGINAL_VERTICAL_GAP g2 = Grid.ORIGINAL_VERTICAL_GAP g1
              /\ Grid.animations g2 = Grid.removeAnim id (Grid.animations g1)
              /\ trace (Grid.world g2)
                 = (trace (Grid.world g1) ++ [BindEvents])%list)
    by (repeat split).
  destruct F as (F1 & F2 & F3 & F4 & F5 & F6 & F7).
  assert (Zm : Grid.zoom "zoom-in" g2 <> g2).
  { intros E. assert (E' : Grid.animations (Grid.zoom "zoom-in" g2)
                           = Grid.animations g2) by (rewrite E; reflexivity).
    destruct (zoom_shown "zoom-in" g2 F1) as (A & _).
    rewrite A in E'. apply (f_equal (@List.length _)) in E'.
    rewrite length_app in E'. simpl in E'. lia. }
  clearbody g2.
  split; [exact F1|].
  split; [rewrite F2, Z1; apply mix_end|].
  split; [rewrite F3, O3, Gr0; apply mix_end|].
  split; [rewrite F4, O1, Gh0; apply mix_end|].
  split; [rewrite F5, O2, Gv0; apply mix_end|].
  split; [rewrite F6; apply lookupAnim_removeAnim|].
  split; [rewrite F7, Cworld, W0, <- app_assoc; reflexivity | exact Zm].
Qed.

Lemma intro_ends_at_rest_witness :
  Grid.lookupAnim 2 (Grid.animations Sample.loaded)
  = Some (IntroTimeline false
            (Grid.ORIGINAL_HORIZONTAL_GAP Sample.loaded)
            (Grid.ORIGINAL_VERTICAL_GAP Sample.loaded)
            (Grid.currentZoom Sample.loaded) (Grid.grayscale Sample.loaded))
  /\ Grid.imagesGL Sample.loaded <> []
  /\ Grid.isIntroShown (Grid.fire (Grid.Complete 2) Sample.loaded) = true.
Proof.
  assert (L : Grid.lookupAnim 2 (Grid.animations Sample.loaded)
              = Some (IntroTimeline false
                        (Grid.ORIGINAL_HORIZONTAL_GAP Sample.loaded)
                        (Grid.ORIGINAL_VERTICAL_GAP Sample.loaded)
                        (Grid.currentZoom Sample.loaded)
                        (Grid.grayscale Sample.loaded)))
    by (vm_compute; reflexivity).
  assert (N : Grid.imagesGL Sample.loaded <> [])
    by (vm_compute; discriminate).
  split; [exact L|]. split; [exact N|].
  exact (proj1 (intro_ends_at_rest 2 false _ _ _ _ Sample.loaded L N)).
Defined.

(** X19.  The image descriptors an [ArchiveView] builds from the elements
    of the page never have a zero width or height (an image that has not
    loaded counts as 800 x 1200), they all carry the colour [#0F0F0F], and
    there is one per element, in order, with the element's [src] as url. *)
Theorem view_images_sized (e : Env) (imageElements : list View.ImgElement)
    (delayIntro : bool) :
  let v := View.constructor e imageElements delayIntro in
  List.length (View.images v) = List.length imageElements
  /\ map url (View.images v) = map View.src imageElements
  /\ Forall (fun img : Image =>
               ~ naturalWidth img == 0 /\ ~ naturalHeight img == 0
               /\ color img = "#0F0F0F"%string)
       (View.images v)
  /\ View.scene v = None
  /\ View.isDestroyed v = false.
Proof.
  cbv zeta. unfold View.constructor. cbn.
  split; [apply length_map|]. split; [rewrite map_map; reflexivity|].
  split; [|split; reflexivity].
  apply Forall_forall. intros img Hin. apply in_map_iff in Hin.
  destruct Hin as (el & <- & _). unfold View.describe, View.orElse. cbn.
  split; [|split; [|reflexivity]].
  - destruct (Qeq_bool (View.elNaturalWidth el) 0) eqn:E.
    + intros H. discriminate.
    + intros H. apply Qeq_bool_iff in H. congruence.
  - destruct (Qeq_bool (View.elNaturalHeight el) 0) eqn:E.
    + intros H. discriminate.
    + intros H. apply Qeq_bool_iff in H. congruence.
Qed.

(** ** What each event may do to the outside world *)

Section Alphabet.

Import Props Terms.

Variable P : Effect -> Prop.

Lemma emits_refl (g : Grid.t) : emits P g g.
Proof. exists []. rewrite app_nil_r. split; [reflexivity | constructor]. Qed.

Lemma emits_trans (a b c : Grid.t) : emits P a b -> emits P b c -> emits P a c.
Proof.
  intros (e1 & E1 & F1) (e2 & E2 & F2). exists (e1 ++ e2)%list.
  rewrite E2, E1, app_assoc. split; [reflexivity | apply Forall_app; auto].
Qed.

Lemma emits_same (g g' : Grid.t) :
  trace (Grid.world g') = trace (Grid.world g) -> emits P g g'.
Proof.
  intros E. exists []. rewrite E, app_nil_r. split; [reflexivity | constructor].
Qed.

Lemma emits_list (g g' : Grid.t) (es : list Effect) :
  trace (Grid.world g') = (trace (Grid.world g) ++ es)%list ->
  Forall P es -> emits P g g'.
Proof. intros E F. exists es. auto. Qed.

Lemma zoom_emits (a : string) (g : Grid.t) :
  (forall id, P (GsapTween id)) -> emits P g (Grid.zoom a g).
Proof.
  intros H. unfold Grid.zoom.
  destruct (negb (Grid.isIntroShown g)); [apply emits_refl|].
  eapply (emits_list _ _ [GsapTween (nextAnim (Grid.world g))]);
    [reflexivity | repeat constructor; apply H].
Qed.

Lemma fadeInFrom_emits (texs : list Texture.t) :
  (forall id, P (GsapTween id)) ->
  forall (i : nat) (g : Grid.t), emits P g (Grid.fadeInFrom i texs g).
Proof.
  intros H. induction texs as [|tex rest IH]; intros i g; simpl.
  - apply emits_refl.
  - eapply emits_trans; [|apply IH].
    eapply (emits_list _ _ [GsapTween (nextAnim (Grid.world g))]);
      [reflexivity | repeat constructor; apply H].
Qed.

Lemma introSequence_emits (g : Grid.t) :
  (forall id, P (GsapTween id)) -> (forall id, P (GsapTimeline id)) ->
  emits P g (Grid.introSequence g).
Proof.
  intros H1 H2. unfold Grid.introSequence.
  destruct (Grid.isIntroShown g); [apply emits_refl|].
  eapply emits_trans; [apply (fadeInFrom_emits (Grid.textures g) H1 0 g)|].
  fold (Grid.fadeInAllTextures g).
  set (g1 := Grid.fadeInAllTextures g). clearbody g1.
  eapply (emits_list _ _ [GsapTimeline (nextAnim (Grid.world g1))]);
    [reflexivity | repeat constructor; apply H2].
Qed.

Lemma startIntroSequence_emits (g : Grid.t) :
  (forall id, P (GsapTween id)) -> (forall id, P (GsapTimeline id)) ->
  emits P g (Grid.startIntroSequence g).
Proof.
  intros H1 H2. unfold Grid.startIntroSequence.
  destruct (Grid.isIntroShown g); [apply emits_refl|].
  destruct (negb (Grid.texturesLoaded g)); [apply emits_refl|].
  apply introSequence_emits; assumption.
Qed.

Lemma onTextureSDLoaded_emits (g : Grid.t) :
  (forall id, P (GsapTween id)) -> (forall id, P (GsapTimeline id)) ->
  emits P g (Grid.onTextureSDLoaded g).
Proof.
  intros H1 H2. unfold Grid.onTextureSDLoaded. cbv zeta.
  destruct (Nat.eqb _ _); [|apply emits_same; reflexivity].
  destruct (negb _); [|apply emits_same; reflexivity].
  eapply emits_trans; [|apply introSequence_emits; assumption].
  apply emits_same; reflexivity.
Qed.

Lemma updateBySource_emits (src : string) (imgW imgH : Q)
    (texs : list Texture.t) :
  (forall h s, P (GlTexImageFromImage h s)) ->
  forall w : World,
    exists es,
      trace (snd (Grid.updateBySource src imgW imgH texs w))
      = (trace w ++ es)%list /\ Forall P es.
Proof.
  intros H. induction texs as [|tex rest IH]; intros w; simpl.
  - exists []. rewrite app_nil_r. split; [reflexivity | constructor].
  - destruct (Grid.sourceIs src tex).
    + simpl.
      exists [GlTexImageFromImage (Texture.texture tex) (Texture.source tex)].
      split; [reflexivity | repeat constructor; apply H].
    + specialize (IH w).
      destruct (Grid.updateBySource src imgW imgH rest w) as [rest' w'].
      exact IH.
Qed.

Lemma imageLoaded_emits (k : nat) (w h : Q) (g : Grid.t) :
  (forall id, P (GsapTween id)) -> (forall id, P (GsapTimeline id)) ->
  (forall x s, P (GlTexImageFromImage x s)) ->
  emits P g (Grid.imageLoaded k w h g).
Proof.
  intros H1 H2 H3. unfold Grid.imageLoaded.
  destruct (JS.index _ k) as [[src cb]|]; [|apply emits_refl].
  cbv zeta.
  match goal with
  | |- context [Grid.updateBySource _ _ _ _ (Grid.world ?x)] => set (g1 := x)
  end.
  assert (C1 : emits P g g1) by (apply emits_same; reflexivity).
  clearbody g1.
  destruct cb.
  - destruct (updateBySource_emits src w h (Grid.textures g1) H3 (Grid.world g1))
      as (es & E & F).
    destruct (Grid.updateBySource src w h (Grid.textures g1) (Grid.world g1))
      as [texs w']. simpl in E.
    eapply emits_trans; [exact C1|].
    eapply emits_trans; [|apply onTextureSDLoaded_emits; assumption].
    exists es. auto.
  - destruct (updateBySource_emits src w h (Grid.texturesHD g1) H3 (Grid.world g1))
      as (es & E & F).
    destruct (Grid.updateBySource src w h (Grid.texturesHD g1) (Grid.world g1))
      as [texs w']. simpl in E.
    eapply emits_trans; [exact C1|]. exists es. auto.
Qed.

Lemma applyZoom_emits (z : Q) (g : Grid.t) :
  emits P g (settle (Grid.applyZoom z g)).
Proof.
  destruct (applyZoom_frame z g) as (g' & [E | E] & (_ & C & _) & _);
    rewrite E; simpl; apply emits_same;
    destruct C as (_&_&_&_&_&_&_&_&_&_&_&_&_&_&_&_&_&_&_&_&Cworld&_);
    rewrite Cworld; reflexivity.
Qed.

Lemma renderAnimation_emits (a : Animation) (p : Q) (g : Grid.t) :
  P IntroMostlyDone ->
  emits P g (settle (snd (Grid.renderAnimation a p g))).
Proof.
  intros H. destruct a as [called gh gv z gray | from to_ | i from]; simpl.
  - eapply emits_trans; [|apply applyZoom_emits].
    destruct called.
    + apply emits_same; reflexivity.
    + eapply (emits_list _ _ [IntroMostlyDone]);
        [reflexivity | repeat constructor; exact H].
  - apply applyZoom_emits.
  - apply emits_same; reflexivity.
Qed.

Lemma animationUpdate_emits (id : nat) (p : Q) (g : Grid.t) :
  P IntroMostlyDone ->
  emits P g (settle (Grid.animationUpdate id p g)).
Proof.
  intros H0. unfold Grid.animationUpdate.
  destruct (Grid.lookupAnim id _) as [a|]; [|apply emits_refl].
  pose proof (renderAnimation_emits a p g H0) as H.
  destruct (Grid.renderAnimation a p g) as [a' o]. simpl in H.
  destruct o as [g' | g']; simpl in *;
    (eapply emits_trans; [exact H | apply emits_same; reflexivity]).
Qed.

Lemma animationComplete_emits (id : nat) (g : Grid.t) :
  P IntroMostlyDone -> P BindEvents ->
  emits P g (settle (Grid.animationComplete id g)).
Proof.
  intros H0 H1. unfold Grid.animationComplete.
  destruct (Grid.lookupAnim id _) as [a|]; [|apply emits_refl].
  pose proof (renderAnimation_emits a 1 g H0) as H.
  destruct (Grid.renderAnimation a 1 g) as [a' o]. simpl in H.
  destruct o as [g' | g']; simpl in *.
  - eapply emits_trans; [exact H|].
    destruct a'; try (apply emits_same; reflexivity).
    eapply (emits_list _ _ [BindEvents]);
      [reflexivity | repeat constructor; exact H1].
  - eapply emits_trans; [exact H | apply emits_same; reflexivity].
Qed.

Lemma update_emits (g : Grid.t) : emits P g (Grid.update g).
Proof.
  unfold Grid.update. cbv zeta.
  destruct (Grid.isDragging _); apply emits_same; reflexivity.
Qed.

Lemma drawItem_emits (item : Tile.t) (g : Grid.t) :
  (forall sd, P (GlDrawArrays sd)) ->
  emits P g (settle (snd (Grid.drawItem item g))).
Proof.
  intros H. unfold Grid.drawItem. cbv zeta.
  destruct (Tile.isVisible _); [|apply emits_refl].
  destruct (Tile.texture _); [|apply emits_refl].
  simpl. eapply emits_list; [reflexivity | repeat constructor; apply H].
Qed.

Lemma triggerHD_emits (item : Tile.t) (g : Grid.t) :
  (forall s, P (ImageRequest s)) -> emits P g (Grid.triggerHD item g).
Proof.
  intros H. unfold Grid.triggerHD.
  destruct (_ && _); [|apply emits_refl].
  destruct (Tile.textureHD item) as [j|]; [|apply emits_refl].
  destruct (JS.index _ j) as [tex|] eqn:E; [|apply emits_refl].
  unfold emits.
  change (trace (Grid.world (g <| Grid.world ::= Texture.load tex |>)))
    with (trace (Texture.load tex (Grid.world g))).
  unfold Texture.load. destruct (Texture.isInit tex).
  - exists []. rewrite app_nil_r. split; [reflexivity | constructor].
  - exists [ImageRequest (Texture.source tex)].
    split; [reflexivity | repeat constructor; apply H].
Qed.

Lemma drawLoop_emits (todo : list Tile.t) :
  (forall sd, P (GlDrawArrays sd)) -> (forall s, P (ImageRequest s)) ->
  forall (done : list Tile.t) (g : Grid.t),
    emits P g (settle (Grid.drawLoop todo done g)).
Proof.
  intros H1 H2.
  induction todo as [|item rest IH]; intros done g; simpl.
  - apply emits_same; reflexivity.
  - destruct (negb _); [|apply IH].
    pose proof (drawItem_emits item g H1) as H.
    destruct (Grid.drawItem item g) as [item' o]. simpl in H.
    destruct o as [g' | g']; simpl in *.
    + eapply emits_trans; [exact H|].
      eapply emits_trans; [|apply IH].
      eapply emits_trans; [|apply triggerHD_emits; exact H2].
      apply emits_same; reflexivity.
    + eapply emits_trans; [exact H | apply emits_same; reflexivity].
Qed.

Lemma render_emits (g : Grid.t) :
  (forall sd, P (GlDrawArrays sd)) -> (forall s, P (ImageRequest s)) ->
  emits P g (settle (Grid.render g)).
Proof.
  intros H1 H2. unfold Grid.render. destruct (_ || _); [apply emits_refl|].
  unfold Grid.draw.
  eapply emits_trans; [apply update_emits|].
  eapply emits_trans; [|apply drawLoop_emits; assumption].
  apply emits_same; reflexivity.
Qed.

Lemma setWindow_emits (g : Grid.t) :
  (forall sd, P (GlDrawArrays sd)) -> (forall s, P (ImageRequest s)) ->
  emits P g (settle (Grid.setWindow g)).
Proof.
  intros H1 H2. unfold Grid.setWindow. cbv zeta.
  eapply emits_trans; [|apply render_emits; assumption].
  destruct (Grid.getTotalDimensionsItems _); apply emits_same; reflexivity.
Qed.

Lemma destroy_emits (g : Grid.t) :
  P ObserverDisconnect -> P RemoveResizeListener -> P UnbindEvents ->
  (forall id, P (GsapKill id)) ->
  emits P g (Grid.destroy g).
Proof.
  intros H1 H2 H3 H4. destruct g.
  destruct isDestroyed; [apply emits_refl|].
  destruct resizeObserver, TLIntro; unfold Grid.destroy, Grid.unbindEvents, emits;
    lazy -[app];
    eexists; (split; [rewrite <- ?app_assoc; reflexivity|]);
    repeat constructor; auto.
Qed.

Lemma map_Forall (mk : GL.handle -> Effect) (l : list GL.handle) :
  (forall h, P (mk h)) -> Forall P (map mk l).
Proof. intros H. induction l; simpl; constructor; auto. Qed.

Lemma fireTimer_emits (k : nat) (g : Grid.t) :
  (forall h, P (GlDeleteTexture h)) -> (forall h, P (GlDeleteBuffer h)) ->
  (forall h, P (GlDeleteProgram h)) -> P GlLoseContext ->
  emits P g (Grid.fireTimer k g).
Proof.
  intros H1 H2 H3 H4. unfold Grid.fireTimer.
  destruct (JS.index _ k) as [tm|]; [|apply emits_refl].
  cbv zeta.
  set (g1 := g <| Grid.timers ::= Grid.removeNth k |>).
  assert (C1 : emits P g g1) by (apply emits_same; reflexivity).
  clearbody g1. eapply emits_trans; [exact C1|]. destruct tm.
  - unfold emits.
    assert (E : trace (Grid.world (Grid.teardown g1))
                = (trace (Grid.world g1)
                   ++ map GlDeleteTexture (textureHandles (Grid.textures g1))
                   ++ map GlDeleteTexture (textureHandles (Grid.texturesHD g1))
                   ++ map GlDeleteBuffer (optional (Grid.positionBuffer g1))
                   ++ map GlDeleteBuffer (optional (Grid.texcoordBuffer g1))
                   ++ map GlDeleteProgram (optional (Grid.program g1)))%list).
    { unfold Grid.teardown. cbv zeta.
      match goal with
      | |- trace ?w = _ =>
          change w with
            (Grid.deleteWith GlDeleteProgram (Grid.program g1)
               (Grid.deleteWith GlDeleteBuffer (Grid.texcoordBuffer g1)
                  (Grid.deleteWith GlDeleteBuffer (Grid.positionBuffer g1)
                     (Grid.destroyTextures (Grid.texturesHD g1)
                        (Grid.destroyTextures (Grid.textures g1)
                           (Grid.world g1))))))
      end.
      rewrite !deleteWith_trace, !destroyTextures_trace, <- !app_assoc.
      reflexivity. }
    eexists. split; [exact E|].
    repeat (apply Forall_app; split); apply map_Forall; assumption.
  - eapply (emits_list _ _ [GlLoseContext]);
      [reflexivity | repeat constructor; exact H4].
Qed.

End Alphabet.

(** X20.  What each event may do to the outside world, as far as the
    trace records it (WebGL objects, uploads and draw calls, image
    requests, GSAP animations, listeners and observers, the intro
    callback): the trace after an event is the trace before it followed by
    effects of that event's own kinds only.  A loaded image uploads it
    and may start the intro (tweens and the timeline); a tick or the end
    of an animation may call [onIntroMostlyDone], and the end may bind the
    pointer listeners; a frame or a resize may draw and may request
    images; [zoom] starts a tween; [startIntroSequence] starts tweens and
    the timeline; [destroy] detaches observers and listeners and kills the
    timeline; a timer deletes WebGL objects or loses the context.  So
    nothing is drawn, requested, created or deleted outside these
    events. *)
Theorem event_effects (ev : Grid.Event) (g : Grid.t) :
  Terms.emits (Terms.speaks ev) g (Grid.fire ev g).
Proof.
  destruct ev; simpl.
  - apply imageLoaded_emits; simpl; auto.
  - apply animationUpdate_emits; simpl; auto.
  - apply animationComplete_emits; simpl; auto.
  - apply render_emits; simpl; auto.
  - apply setWindow_emits; simpl; auto.
  - apply zoom_emits; simpl; auto.
  - apply startIntroSequence_emits; simpl; auto.
  - apply destroy_emits; simpl; auto.
  - apply fireTimer_emits; simpl; auto.
Qed.

(** ** Loading of the SD images *)

Section Loading.

Import Props Terms.

Lemma builds_refl (w : World) : builds [] w w.
Proof. exists []. rewrite app_nil_r. repeat split. constructor. Qed.

Lemma builds_trans (a b : list string) (w1 w2 w3 : World) :
  builds a w1 w2 -> builds b w2 w3 -> builds (a ++ b) w1 w3.
Proof.
  intros (e1 & E1 & F1 & R1) (e2 & E2 & F2 & R2). exists (e1 ++ e2)%list.
  rewrite E2, E1, app_assoc. split; [reflexivity|].
  split; [apply Forall_app; auto|].
  rewrite flat_map_app. congruence.
Qed.

Lemma createImageTexture_loading (src colour : string) (cb : LoadCallback)
    (now : bool) (w : World) :
  let r := Texture.createImageTexture src colour cb now w in
  requests (snd r) = (requests w ++ (if now then [(src, cb)] else []))%list
  /\ builds (if now then [src] else []) w (snd r)
  /\ Texture.isLoaded (fst r) = false
  /\ nextAnim (snd r) = nextAnim w.
Proof.
  destruct w as [nh na tr rq]. unfold builds. destruct now; simpl.
  - split; [reflexivity|]. split; [|split; reflexivity].
    eexists. split; [rewrite <- app_assoc; reflexivity|].
    split; [repeat constructor | reflexivity].
  - split; [rewrite app_nil_r; reflexivity|]. split; [|split; reflexivity].
    eexists. split; [reflexivity|]. split; [repeat constructor | reflexivity].
Qed.

Lemma not_includes (l : list string) (s : string) :
  JS.includes l s = false -> ~ In s l.
Proof.
  intros E H. apply includes_true in H. congruence.
Qed.

Lemma NoDup_snoc (l : list string) (s : string) :
  NoDup l -> ~ In s l -> NoDup (l ++ [s]).
Proof.
  intros N H. apply NoDup_app; [exact N | repeat constructor; intros [] |].
  intros x Hx [<- | []]. exact (H Hx).
Qed.

(** The SD pass of [mapTextures] leaves one pending request per texture
    object it makes, the HD pass none; the sources processed stay
    distinct; no texture object made is loaded. *)
Lemma mapTextures_loading (g : Grid.t) (hd : bool) (imgs : list Image) :
  forall (processed : list string) (w : World) r p w',
    Grid.mapTextures g hd imgs processed w = (r, p, w') ->
    requests w'
    = (requests w
       ++ (if hd then [] else map requestOf (Grid.filterNotNull r)))%list
    /\ builds (if hd then [] else sources (Grid.filterNotNull r)) w w'
    /\ (NoDup processed -> NoDup p)
    /\ Forall (fun tex => Texture.isLoaded tex = false) (Grid.filterNotNull r)
    /\ nextAnim w' = nextAnim w.
Proof.
  induction imgs as [|img rest IH]; intros processed w r p w' E; simpl in E.
  - injection E as <- <- <-. simpl.
    split; [destruct hd; rewrite app_nil_r; reflexivity|].
    split; [destruct hd; apply builds_refl|].
    split; [auto|]. split; [constructor | reflexivity].
  - destruct (hd && negb (Grid.needHDTexture g img)).
    + destruct (Grid.mapTextures g hd rest processed w) as [[r0 p0] w0] eqn:E0.
      injection E as <- <- <-. apply (IH _ _ _ _ _ E0).
    + destruct (negb (JS.includes processed (Grid.getImageSource g img hd)))
        eqn:Enew.
      * pose proof (createImageTexture_loading
                      (Grid.getImageSource g img hd) (color img)
                      (if hd then CallHDLoaded else CallSDLoaded) (negb hd) w)
          as L.
        pose proof (createImageTexture_fields
                      (Grid.getImageSource g img hd) (color img)
                      (if hd then CallHDLoaded else CallSDLoaded) (negb hd) w)
          as F.
        destruct (Texture.createImageTexture _ _ _ _ w) as [tex w1] eqn:Etex.
        destruct (Grid.mapTextures g hd rest _ w1) as [[r0 p0] w0] eqn:E0.
        injection E as <- <- <-. simpl in L, F.
        destruct L as (Lr & Lb & Ll & La). destruct F as (Fs & _).
        destruct (IH _ _ _ _ _ E0) as (Hr & Hb & Hn & Hl & Ha).
        split; [|split; [|split; [|split]]].
        -- rewrite Hr, Lr. destruct hd; simpl.
           ++ rewrite !app_nil_r. reflexivity.
           ++ unfold requestOf at 2. rewrite Fs, <- app_assoc. reflexivity.
        -- destruct hd; simpl in *.
           ++ exact (builds_trans [] [] _ _ _ Lb Hb).
           ++ rewrite Fs.
              exact (builds_trans [Grid.getImageSource g img false] _ _ _ _ Lb Hb).
        -- intros N. apply Hn. apply NoDup_snoc; [exact N|].
           apply not_includes. apply negb_true_iff. exact Enew.
        -- simpl. constructor; assumption.
        -- congruence.
      * destruct (Grid.mapTextures g hd rest processed w) as [[r0 p0] w0] eqn:E0.
        injection E as <- <- <-. apply (IH _ _ _ _ _ E0).
Qed.

Lemma createGridItems_loading (infos : list Grid.ImageInfo) :
  forall (g : Grid.t) (i : nat),
    let g' := Grid.createGridItems g infos i in
    requests (Grid.world g') = requests (Grid.world g)
    /\ builds [] (Grid.world g) (Grid.world g')
    /\ progress g' = progress g
    /\ Grid.animations g' = Grid.animations g.
Proof.
  induction infos as [|info rest IH]; intros g i; simpl.
  - split; [reflexivity|]. split; [apply builds_refl | split; reflexivity].
  - destruct (IH (Grid.createGridItem g info i) (S i)) as (R & B & P & A).
    split; [rewrite R; reflexivity|].
    split; [|rewrite P, A; split; reflexivity].
    refine (builds_trans [] [] _ _ _ _ B).
    unfold Grid.createGridItem. cbv zeta.
    eexists. split; [reflexivity|]. split; [repeat constructor | reflexivity].
Qed.

Lemma sameControl_loading (g g' : Grid.t) :
  Props.sameControl g g' ->
  Grid.world g' = Grid.world g /\ progress g' = progress g.
Proof.
  unfold Props.sameControl, progress. intros H.
  repeat match goal with H : _ /\ _ |- _ => destruct H end.
  split; congruence.
Qed.

Lemma placeItems_itemTextures (g : Grid.t) (x0 y0 : Q) (items : list Tile.t) :
  forall index row x y,
    map (fun item => Tile.textureHDInfo (Tile.textureObject item))
      (Grid.placeItems g x0 y0 items index row x y)
    = map (fun item => Tile.textureHDInfo (Tile.textureObject item)) items.
Proof.
  induction items as [|a items IH]; intros index row x y; simpl.
  - reflexivity.
  - destruct (Grid.remIsZero index (Grid.COLUMN_ITEM_LENGTH g));
      simpl; f_equal; apply IH.
Qed.

Lemma recenter_itemTextures (shift : bool) d (g : Grid.t) :
  itemTextures (Grid.recenter shift d g) = itemTextures g.
Proof.
  unfold itemTextures, Grid.recenter. cbn. rewrite map_map.
  apply map_ext. intros a. destruct shift; reflexivity.
Qed.

(** The layout keeps the items' placeholder textures. *)
Lemma setSizeItemsDefault_itemTextures (g : Grid.t) :
  itemTextures (settle (Grid.setSizeItemsDefault g)) = itemTextures g.
Proof.
  unfold Grid.setSizeItemsDefault.
  match goal with
  | |- context [Grid.getTotalDimensionsItems ?x] => set (g1 := x)
  end.
  assert (H1 : itemTextures g1 = itemTextures g)
    by (unfold itemTextures, g1; cbn; apply placeItems_itemTextures).
  clearbody g1.
  destruct (Grid.getTotalDimensionsItems g1) as [d|]; [|exact H1].
  destruct (Grid.imagesGL g1) as [|f1 r1]; [exact H1|].
  pose proof (recenter_itemTextures true d g1) as H2.
  set (g2 := Grid.recenter true d g1) in *. clearbody g2.
  destruct (Grid.imagesGL g2) as [|f2 r2];
    unfold settle; rewrite <- H1, <- H2; reflexivity.
Qed.

Lemma applyZoom_itemTextures (z : Q) (g : Grid.t) :
  itemTextures (settle (Grid.applyZoom z g)) = itemTextures g.
Proof.
  unfold Grid.applyZoom.
  match goal with
  | |- context [match Grid.imagesGL ?x with _ => _ end] => set (g0 := x)
  end.
  assert (H0 : itemTextures g0 = itemTextures g) by reflexivity.
  clearbody g0.
  destruct (Grid.imagesGL g0) as [|first rest]; [exact H0|].
  cbv zeta.
  match goal with
  | |- context [Grid.getTotalDimensionsItems ?x] => set (g1 := x)
  end.
  assert (H1 : itemTextures g1 = itemTextures g0)
    by (unfold itemTextures, g1; cbn; apply placeItems_itemTextures).
  clearbody g1.
  destruct (Grid.getTotalDimensionsItems g1) as [d|];
    [|unfold settle; congruence].
  pose proof (recenter_itemTextures true d g1) as H2.
  set (g2 := Grid.recenter true d g1) in *. clearbody g2.
  destruct (Grid.imagesGL g2) as [|f2 r2];
    unfold settle; rewrite <- H0, <- H1, <- H2; reflexivity.
Qed.

Lemma setWindow_itemTextures (g : Grid.t) :
  Grid.isInit g = false ->
  itemTextures (settle (Grid.setWindow g)) = itemTextures g.
Proof.
  intros Hi. unfold Grid.setWindow. cbv zeta.
  match goal with
  | |- context [Grid.getTotalDimensionsItems ?x] => set (g1 := x)
  end.
  assert (H1 : itemTextures g1 = itemTextures g).
  { unfold itemTextures, g1. cbn. rewrite map_map. reflexivity. }
  assert (I1 : Grid.isInit g1 = false) by exact Hi.
  clearbody g1.
  assert (R : forall x, Grid.isInit x = false -> settle (Grid.render x) = x).
  { intros x Hx. unfold Grid.render. rewrite Hx. reflexivity. }
  destruct (Grid.getTotalDimensionsItems g1) as [d|].
  - rewrite R by exact I1. rewrite recenter_itemTextures. exact H1.
  - rewrite R by exact I1. exact H1.
Qed.

(** Each item gets a texture of its own, the next fresh WebGL object. *)
Lemma createGridItems_itemTextures (infos : list Grid.ImageInfo) :
  forall (g : Grid.t) (i : nat),
    let g' := Grid.createGridItems g infos i in
    itemTextures g'
    = (itemTextures g
       ++ seq (nextHandle (Grid.world g)) (List.length infos))%list
    /\ (forall e, In e (trace (Grid.world g)) -> In e (trace (Grid.world g')))
    /\ Forall (fun h => In (GlCreateTexture h) (trace (Grid.world g')))
         (seq (nextHandle (Grid.world g)) (List.length infos)).
Proof.
  induction infos as [|info rest IH]; intros g i; simpl.
  - rewrite app_nil_r. repeat split; auto.
  - destruct (IH (Grid.createGridItem g info i) (S i)) as (T & K & C).
    assert (F : itemTextures (Grid.createGridItem g info i)
                = (itemTextures g ++ [nextHandle (Grid.world g)])%list
                /\ nextHandle (Grid.world (Grid.createGridItem g info i))
                   = S (nextHandle (Grid.world g))
                /\ (forall e, In e (trace (Grid.world g)) ->
                      In e (trace (Grid.world (Grid.createGridItem g info i))))
                /\ In (GlCreateTexture (nextHandle (Grid.world g)))
                     (trace (Grid.world (Grid.createGridItem g info i)))).
    { unfold Grid.createGridItem, itemTextures, freshHandle. cbn.
      rewrite map_app. repeat split.
      - intros e0 H0. destruct (Grid.world g). cbn in *.
        apply in_or_app. left. exact H0.
      - destruct (Grid.world g). cbn.
        apply in_or_app. right. left. reflexivity. }
    destruct F as (F1 & F2 & F3 & F4).
    rewrite F1, F2 in T. rewrite F2 in C.
    split; [rewrite T, <- app_assoc; reflexivity|].
    split; [auto|]. constructor; auto.
Qed.

Lemma createImageTexture_opacity (src colour : string) (cb : LoadCallback)
    (now : bool) (w : World) :
  Texture.opacity (fst (Texture.createImageTexture src colour cb now w)) = 0.
Proof. destruct now; reflexivity. Qed.

(** The texture objects [mapTextures] makes have opacity 0 and report
    to the callback of their pass. *)
Lemma mapTextures_fresh (g : Grid.t) (hd : bool) (imgs : list Image) :
  forall (processed : list string) (w : World) r p w',
    Grid.mapTextures g hd imgs processed w = (r, p, w') ->
    Forall (fun tex =>
              Texture.callbackLoaded tex
              = (if hd then CallHDLoaded else CallSDLoaded)
              /\ Texture.opacity tex = 0)
      (Grid.filterNotNull r).
Proof.
  induction imgs as [|img rest IH]; intros processed w r p w' E; simpl in E.
  - injection E as <- <- <-. constructor.
  - destruct (hd && negb (Grid.needHDTexture g img)).
    + destruct (Grid.mapTextures g hd rest processed w) as [[r0 p0] w0] eqn:E0.
      injection E as <- <- <-. apply (IH _ _ _ _ _ E0).
    + destruct (negb (JS.includes processed (Grid.getImageSource g img hd))).
      * pose proof (createImageTexture_fields
                      (Grid.getImageSource g img hd) (color img)
                      (if hd then CallHDLoaded else CallSDLoaded) (negb hd) w)
          as F.
        pose proof (createImageTexture_opacity
                      (Grid.getImageSource g img hd) (color img)
                      (if hd then CallHDLoaded else CallSDLoaded) (negb hd) w)
          as O.
        destruct (Texture.createImageTexture _ _ _ _ w) as [tex w1] eqn:Etex.
        destruct (Grid.mapTextures g hd rest _ w1) as [[r0 p0] w0] eqn:E0.
        injection E as <- <- <-. simpl in F, O. destruct F as (_ & _ & _ & Fc).
        simpl. constructor; [split; assumption|]. apply (IH _ _ _ _ _ E0).
      * destruct (Grid.mapTextures g hd rest processed w) as [[r0 p0] w0] eqn:E0.
        injection E as <- <- <-. apply (IH _ _ _ _ _ E0).
Qed.

(** [main()] as to loading. *)
Lemma main_loading (g : Grid.t) :
  Grid.images g <> [] ->
  (Grid.COLUMN_ITEM_LENGTH g * Grid.ROW_ITEM_LENGTH g)%nat <> 0%nat ->
  exists g',
    Grid.main g = Ok g'
    /\ requests (Grid.world g')
       = (requests (Grid.world g) ++ map requestOf (Grid.textures g'))%list
    /\ builds (sources (Grid.textures g')) (Grid.world g) (Grid.world g')
    /\ NoDup (sources (Grid.textures g') ++ sources (Grid.texturesHD g'))
    /\ Forall (fun tex => Texture.isLoaded tex = false)
         (Grid.textures g' ++ Grid.texturesHD g')
    /\ (forall img, In img (Grid.images g) ->
          In (Grid.getImageSource g img false) (sources (Grid.textures g')))
    /\ Grid.indexTextureSD g' = 0%nat
    /\ Grid.texturesLoaded g' = Grid.texturesLoaded g
    /\ Grid.isIntroShown g' = Grid.isIntroShown g
    /\ Grid.delayIntroAnimation g' = Grid.delayIntroAnimation g
    /\ Forall (fun tex => Texture.opacity tex = 0) (Grid.textures g')
    /\ Forall hdKind (Grid.texturesHD g')
    /\ Grid.animations g' = Grid.animations g
    /\ exists lo : nat,
         itemTextures g'
         = seq lo (Grid.COLUMN_ITEM_LENGTH g * Grid.ROW_ITEM_LENGTH g)
         /\ Forall (fun h => (h < lo)%nat) (liveHandles g')
         /\ Forall (fun h => In (GlCreateTexture h) (trace (Grid.world g')))
              (itemTextures g').
Proof.
  intros Hne HM. unfold Grid.main, freshHandle. cbv beta iota zeta.
  match goal with
  | |- context [Grid.prepareImageData ?x _] => set (g1 := x)
  end.
  assert (S1 : setup g1 = setup g) by reflexivity.
  assert (Im1 : Grid.images g1 = Grid.images g) by reflexivity.
  assert (M1 : (Grid.COLUMN_ITEM_LENGTH g1 * Grid.ROW_ITEM_LENGTH g1
                = Grid.COLUMN_ITEM_LENGTH g * Grid.ROW_ITEM_LENGTH g)%nat)
    by reflexivity.
  assert (R1 : requests (Grid.world g1) = requests (Grid.world g))
    by reflexivity.
  assert (P1 : (Grid.texturesLoaded g1, Grid.isIntroShown g1,
                Grid.delayIntroAnimation g1)
               = (Grid.texturesLoaded g, Grid.isIntroShown g,
                  Grid.delayIntroAnimation g)) by reflexivity.
  assert (An1 : Grid.animations g1 = Grid.animations g) by reflexivity.
  set (n := nextHandle (Grid.world g)).
  assert (B1 : Grid.program g1 = Some n
               /\ Grid.positionBuffer g1 = Some (S n)
               /\ Grid.texcoordBuffer g1 = Some (S (S n))
               /\ nextHandle (Grid.world g1) = S (S (S n)))
    by (repeat split).
  assert (W1 : builds [] (Grid.world g) (Grid.world g1)).
  { eexists. split; [reflexivity|]. split; [repeat constructor | reflexivity]. }
  clearbody g1.
  destruct (selectedImages_some g1) as (imgs & Esel & Elen & Enth);
    [rewrite Im1; exact Hne|].
  rewrite M1 in Elen.
  rewrite Esel, prepareImageData_some.
  destruct (Grid.mapTextures g1 false (Grid.images g1) [] (Grid.world g1))
    as [[sd p1] w1] eqn:E1.
  destruct (mapTextures_spec _ _ _ _ _ _ _ _ E1) as (Q1 & In1 & _).
  destruct (mapTextures_loading _ _ _ _ _ _ _ _ E1) as (Rq1 & Bd1 & Nd1 & Ul1 & _).
  destruct (mapTextures_handles _ _ _ _ _ _ _ _ E1) as (Le1 & Al1).
  pose proof (mapTextures_fresh _ _ _ _ _ _ _ _ E1) as Fr1.
  simpl in Q1, Rq1, Bd1.
  match goal with
  | |- context [Grid.mapTextures ?x true _ _ _] => set (g2 := x)
  end.
  assert (W2 : Grid.world g2 = w1) by reflexivity.
  assert (B2 : Grid.program g2 = Grid.program g1
               /\ Grid.positionBuffer g2 = Grid.positionBuffer g1
               /\ Grid.texcoordBuffer g2 = Grid.texcoordBuffer g1)
    by (repeat split).
  assert (T2 : Grid.textures g2 = Grid.filterNotNull sd) by reflexivity.
  assert (P2 : (Grid.texturesLoaded g2, Grid.isIntroShown g2,
                Grid.delayIntroAnimation g2)
               = (Grid.texturesLoaded g1, Grid.isIntroShown g1,
                  Grid.delayIntroAnimation g1)) by reflexivity.
  assert (An2 : Grid.animations g2 = Grid.animations g1) by reflexivity.
  clearbody g2.
  destruct (Grid.mapTextures g2 true (Grid.images g2) p1 (Grid.world g2))
    as [[hd p2] w2] eqn:E2.
  destruct (mapTextures_spec _ _ _ _ _ _ _ _ E2) as (Q2 & _ & _).
  destruct (mapTextures_loading _ _ _ _ _ _ _ _ E2) as (Rq2 & Bd2 & Nd2 & Ul2 & _).
  destruct (mapTextures_handles _ _ _ _ _ _ _ _ E2) as (Le2 & Al2).
  pose proof (mapTextures_fresh _ _ _ _ _ _ _ _ E2) as Fr2.
  simpl in Rq2, Bd2. rewrite app_nil_r in Rq2. rewrite W2 in Rq2, Bd2, Le2, Al2.
  match goal with
  | |- context [Grid.createGridItems ?x _ _] => set (g4 := x)
  end.
  assert (W4 : Grid.world g4 = w2) by reflexivity.
  assert (T4 : Grid.textures g4 = Grid.textures g2) by reflexivity.
  assert (H4 : Grid.texturesHD g4 = Grid.filterNotNull hd) by reflexivity.
  assert (G4 : Grid.imagesGL g4 = []) by reflexivity.
  assert (It4 : itemTextures g4 = []) by reflexivity.
  assert (B4 : Grid.program g4 = Grid.program g2
               /\ Grid.positionBuffer g4 = Grid.positionBuffer g2
               /\ Grid.texcoordBuffer g4 = Grid.texcoordBuffer g2)
    by (repeat split).
  assert (X4 : Grid.indexTextureSD g4 = 0%nat) by reflexivity.
  assert (P4 : (Grid.texturesLoaded g4, Grid.isIntroShown g4,
                Grid.delayIntroAnimation g4)
               = (Grid.texturesLoaded g2, Grid.isIntroShown g2,
                  Grid.delayIntroAnimation g2)) by reflexivity.
  assert (An4 : Grid.animations g4 = Grid.animations g2) by reflexivity.
  clearbody g4.
  destruct (createGridItems_spec (map (infoOf g1) imgs) g4 0)
    as (T5 & H5 & _ & _ & B5 & items & E5 & L5 & _).
  destruct (createGridItems_loading (map (infoOf g1) imgs) g4 0)
    as (Rq5 & Bd5 & P5 & An5).
  destruct (createGridItems_itemTextures (map (infoOf g1) imgs) g4 0)
    as (It5 & _ & Cr5).
  rewrite It4, length_map, Elen in It5. rewrite length_map, Elen in Cr5.
  simpl in It5.
  set (g5 := Grid.createGridItems g4 (map (infoOf g1) imgs) 0) in *.
  clearbody g5.
  rewrite G4 in E5. simpl in E5. rewrite length_map in L5.
  assert (Ne5 : Grid.imagesGL g5 <> []).
  { rewrite E5. intros ->. simpl in L5. lia. }
  destruct (setSizeItemsDefault_frame g5) as (g6 & _ & C6 & It6 & Ok6).
  pose proof (setSizeItemsDefault_itemTextures g5) as It6h.
  rewrite (Ok6 Ne5) in It6h.
  change (itemTextures g6 = itemTextures g5) in It6h.
  rewrite (Ok6 Ne5). unfold bind.
  match goal with
  | |- context [Grid.applyZoom _ ?x] => set (g6' := x)
  end.
  assert (C6' : Props.sameControl g6 g6') by (unfold Props.sameControl; repeat split).
  assert (It6' : Props.sameItems g6 g6') by (apply Forall2_sameItem_refl).
  assert (It6'h : itemTextures g6' = itemTextures g6) by reflexivity.
  clearbody g6'.
  assert (Ne6 : Grid.imagesGL g6' <> []).
  { intros E. apply Ne5. eapply sameItems_nil; [exact It6|].
    eapply sameItems_nil; [exact It6'|exact E]. }
  destruct (applyZoom_frame 0.4 g6') as (g7 & _ & (_ & C7 & _) & Ok7).
  pose proof (applyZoom_itemTextures 0.4 g6') as It7h.
  rewrite (Ok7 Ne6) in It7h.
  change (itemTextures g7 = itemTextures g6') in It7h.
  rewrite (Ok7 Ne6). exists g7. split; [reflexivity|].
  pose proof (sameControl_trans _ _ _ (sameControl_trans _ _ _ C6 C6') C7) as C.
  destruct (sameControl_textures _ _ C) as (Tc & Hc & _).
  destruct (sameControl_loading _ _ C) as (Wc & Pc).
  unfold progress in Pc, P5.
  rewrite Wc, Tc, Hc, T5, H5, T4, T2, H4.
  rewrite W4 in Rq5, Bd5, It5, Cr5.
  split; [rewrite Rq5, Rq2, Rq1, R1; reflexivity|].
  split.
  { pose proof (builds_trans _ _ _ _ _ W1
                  (builds_trans _ _ _ _ _ Bd1 (builds_trans _ _ _ _ _ Bd2 Bd5)))
      as B.
    simpl in B. rewrite app_nil_r in B. exact B. }
  split; [unfold sources; rewrite <- Q1, <- Q2; apply Nd2, Nd1; constructor|].
  split; [apply Forall_app; split; assumption|].
  split.
  { intros img Hin. rewrite <- Im1 in Hin.
    unfold sources. rewrite <- (getImageSource_setup g g1 S1), <- Q1.
    apply In1; [exact Hin | discriminate]. }
  split; [congruence|]. split; [congruence|]. split; [congruence|].
  split; [congruence|].
  split; [eapply Forall_impl; [|exact Fr1]; intros tex (_ & O); exact O|].
  split.
  { eapply Forall_impl; [|exact Fr2]. intros tex (Cb & O). split; assumption. }
  split.
  { unfold Props.sameControl in C.
    assert (An7 : Grid.animations g7 = Grid.animations g5)
      by (repeat match goal with H : _ /\ _ |- _ => destruct H end; assumption).
    congruence. }
  assert (It : itemTextures g7
               = seq (nextHandle w2)
                   (Grid.COLUMN_ITEM_LENGTH g * Grid.ROW_ITEM_LENGTH g))
    by congruence.
  exists (nextHandle w2). split; [exact It|].
  split; [|rewrite It; exact Cr5].
  rewrite (liveHandles_sameControl _ _ C). unfold liveHandles.
  destruct B1 as (Bp1 & Bq1 & Br1 & Bn1).
  destruct B2 as (Bp2 & Bq2 & Br2).
  destruct B4 as (Bp4 & Bq4 & Br4).
  destruct B5 as (Bp5 & Bq5 & Br5).
  rewrite T5, T4, T2, H5, H4, Bp5, Bq5, Br5, Bp4, Bq4, Br4, Bp2, Bq2, Br2,
    Bp1, Bq1, Br1.
  rewrite Bn1 in Le1, Al1.
  destruct Al1 as (_ & R1'). destruct Al2 as (_ & R2').
  repeat (apply Forall_app; split).
  - eapply Forall_impl; [|exact R1']. simpl. intros; lia.
  - eapply Forall_impl; [|exact R2']. simpl. intros; lia.
  - repeat constructor. lia.
  - repeat constructor. lia.
  - repeat constructor. lia.
Qed.

(** The renderer after [init()], as to loading. *)
Lemma create_loading (e : Env) (imgs : list Image) (mobile delay : bool) :
  imgs <> [] ->
  let g := Grid.create e imgs mobile delay in
  requests (Grid.world g) = map requestOf (Grid.textures g)
  /\ builds (sources (Grid.textures g))
       (Grid.world (Grid.constructor e imgs mobile delay)) (Grid.world g)
  /\ NoDup (sources (Grid.textures g) ++ sources (Grid.texturesHD g))
  /\ Forall (fun tex => Texture.isLoaded tex = false)
       (Grid.textures g ++ Grid.texturesHD g)
  /\ (forall img, In img (Grid.images g) ->
        In (Grid.getImageSource g img false) (sources (Grid.textures g)))
  /\ progress g = (0%nat, false, false, delay)
  /\ Forall (fun tex => Texture.opacity tex = 0) (Grid.textures g)
  /\ Forall hdKind (Grid.texturesHD g)
  /\ Grid.animations g = []
  /\ exists lo : nat,
       itemTextures g
       = seq lo (Grid.COLUMN_ITEM_LENGTH g * Grid.ROW_ITEM_LENGTH g)
       /\ Forall (fun h => (h < lo)%nat) (liveHandles g)
       /\ Forall (fun h => In (GlCreateTexture h) (trace (Grid.world g)))
            (itemTextures g).
Proof.
  intros Hne. unfold Grid.create.
  destruct (constructor_spec e imgs mobile delay)
    as (P0 & I0 & M0 & _).
  assert (F0 : requests (Grid.world (Grid.constructor e imgs mobile delay)) = []
               /\ Grid.animations (Grid.constructor e imgs mobile delay) = []
               /\ Grid.texturesLoaded (Grid.constructor e imgs mobile delay)
                  = false
               /\ Grid.isIntroShown (Grid.constructor e imgs mobile delay)
                  = false
               /\ Grid.delayIntroAnimation (Grid.constructor e imgs mobile delay)
                  = delay).
  { unfold Grid.constructor.
    destruct (randomizeArray (random e) 0 imgs) as [sh k1].
    destruct (randomizeArray (random e) k1 sh) as [re k2].
    repeat split. }
  set (g0 := Grid.constructor e imgs mobile delay) in *. clearbody g0.
  destruct F0 as (R0 & A0 & L0 & S0 & D0).
  unfold Grid.init. cbv zeta.
  match goal with
  | |- context [Grid.main ?x] => set (g1 := x)
  end.
  assert (Im1 : Grid.images g1 = Grid.images g0) by reflexivity.
  assert (I1 : Grid.isInit g1 = Grid.isInit g0) by reflexivity.
  assert (M1 : (Grid.COLUMN_ITEM_LENGTH g1 * Grid.ROW_ITEM_LENGTH g1
                = Grid.COLUMN_ITEM_LENGTH g0 * Grid.ROW_ITEM_LENGTH g0)%nat)
    by reflexivity.
  assert (W1 : Grid.world g1 = Grid.world g0) by reflexivity.
  assert (P1 : (Grid.texturesLoaded g1, Grid.isIntroShown g1,
                Grid.delayIntroAnimation g1)
               = (Grid.texturesLoaded g0, Grid.isIntroShown g0,
                  Grid.delayIntroAnimation g0)) by reflexivity.
  assert (An1 : Grid.animations g1 = Grid.animations g0) by reflexivity.
  assert (G1 : forall img hd,
             Grid.getImageSource g1 img hd
             = Grid.getImageSource (g1 <| Grid.isInit := true |>) img hd)
    by reflexivity.
  clearbody g1.
  assert (Hne1 : Grid.images g1 <> []).
  { rewrite Im1. intros E. rewrite E in P0.
    apply Permutation_nil in P0. destruct imgs; [congruence | discriminate]. }
  assert (HM1 : (Grid.COLUMN_ITEM_LENGTH g1 * Grid.ROW_ITEM_LENGTH g1)%nat
                <> 0%nat) by (rewrite M1; exact M0).
  destruct (main_spec g1 Hne1 HM1) as (g2' & Em' & S2 & I2 & _).
  destruct (main_loading g1 Hne1 HM1)
    as (g2 & Em & Rq2 & B2 & Nd2 & Ul2 & In2 & X2 & L2 & Sh2 & D2
        & Op2 & Hk2 & An2 & lo & It2 & Lo2 & Cr2).
  assert (g2' = g2) by congruence. subst g2'.
  rewrite Em. unfold bind.
  destruct (setWindow_before_init g2 ltac:(congruence))
    as (g3 & Ew & C3 & _).
  pose proof (setWindow_itemTextures g2 ltac:(congruence)) as It3.
  rewrite Ew in It3. change (itemTextures g3 = itemTextures g2) in It3.
  rewrite Ew.
  destruct (sameControl_textures _ _ C3) as (Tc & Hc & _).
  destruct (sameControl_loading _ _ C3) as (Wc & Pc).
  pose proof (sameControl_setup _ _ C3) as Sc.
  unfold progress in Pc.
  set (g4 := g3 <| Grid.isInit := true |>).
  assert (T4 : Grid.textures g4 = Grid.textures g3) by reflexivity.
  assert (H4 : Grid.texturesHD g4 = Grid.texturesHD g3) by reflexivity.
  assert (W4 : Grid.world g4 = Grid.world g3) by reflexivity.
  assert (S4 : setup g4 = setup g3) by reflexivity.
  assert (P4 : progress g4 = progress g3) by reflexivity.
  assert (An4 : Grid.animations g4 = Grid.animations g3) by reflexivity.
  assert (It4 : itemTextures g4 = itemTextures g3) by reflexivity.
  assert (Lv4 : liveHandles g4 = liveHandles g3) by reflexivity.
  clearbody g4.
  assert (S41 : setup g4 = setup g1) by congruence.
  rewrite W4, Wc, T4, Tc, H4, Hc, P4.
  split; [rewrite Rq2, W1, R0; reflexivity|].
  split; [rewrite <- W1; exact B2|].
  split; [exact Nd2|]. split; [exact Ul2|].
  split.
  { intros img Hin.
    rewrite (getImageSource_setup g1 g4 S41).
    apply In2. unfold setup in S41. congruence. }
  split; [unfold progress; congruence|].
  split; [exact Op2|]. split; [exact Hk2|].
  split.
  { unfold Props.sameControl in C3.
    assert (An3 : Grid.animations g3 = Grid.animations g2)
      by (repeat match goal with H : _ /\ _ |- _ => destruct H end; assumption).
    congruence. }
  exists lo. rewrite It4, It3, Lv4, (liveHandles_sameControl _ _ C3).
  split; [|split; assumption].
  rewrite It2. unfold setup in S41. f_equal. congruence.
Qed.

Lemma filter_building (es : list Effect) :
  Forall building es -> filter Grid.isTimeline es = [].
Proof.
  induction 1 as [|e es He _ IH]; [reflexivity|].
  simpl. rewrite IH. destruct e; simpl in *; try reflexivity; contradiction.
Qed.

End Loading.

(** X21.  What construction requests.  For a non-empty list of images,
    once [init()] is over: the images still loading are those of the SD
    texture objects, one each, in their order, and each will report to
    [onTextureSDLoaded]; the URLs requested so far are exactly the SD
    sources, once each, and every effect recorded so far created a WebGL
    object, filled a placeholder pixel or requested an image; every pool image
    has its SD source among the SD textures; the sources of the SD and HD
    texture objects are pairwise distinct; no texture object is loaded
    yet, none is counted as loaded, and no intro has been started. *)
Theorem construction_requests (e : Env) (originalImages : list Image)
    (mobile delayIntro : bool) :
  originalImages <> [] ->
  let g := Grid.create e originalImages mobile delayIntro in
  requests (Grid.world g) = map Terms.requestOf (Grid.textures g)
  /\ Props.requestedUrls g = Props.sources (Grid.textures g)
  /\ Forall Terms.building (trace (Grid.world g))
  /\ (forall img : Image,
        In img (Grid.images g) ->
        In (Grid.getImageSource g img false) (Props.sources (Grid.textures g)))
  /\ NoDup (Props.sources (Grid.textures g)
            ++ Props.sources (Grid.texturesHD g))
  /\ Forall (fun tex => Texture.isLoaded tex = false)
       (Grid.textures g ++ Grid.texturesHD g)
  /\ Grid.indexTextureSD g = 0%nat
  /\ Grid.texturesLoaded g = false
  /\ Grid.introsStarted g = 0%nat.
Proof.
  intros Hne g.
  destruct (create_loading e originalImages mobile delayIntro Hne)
    as (R & (es & E & F & U) & Nd & Ul & I & P & _).
  fold g in R, E, U, Nd, Ul, I, P.
  destruct (constructor_spec e originalImages mobile delayIntro)
    as (_ & _ & _ & _ & _ & _ & W0 & _).
  cbv zeta in W0. rewrite W0 in E. clearbody g.
  change ([] ++ es)%list with es in E.
  unfold Terms.progress in P.
  assert (X : Grid.indexTextureSD g = 0%nat /\ Grid.texturesLoaded g = false)
    by (split; congruence).
  clear P. destruct X as (X1 & X2).
  split; [exact R|].
  split; [unfold Props.requestedUrls; rewrite E; exact U|].
  split; [rewrite E; exact F|].
  split; [exact I|]. split; [exact Nd|]. split; [exact Ul|].
  split; [exact X1|]. split; [exact X2|].
  unfold Grid.introsStarted. rewrite E, (filter_building es F). reflexivity.
Qed.

Lemma construction_requests_witness :
  Sample.pictures <> []
  /\ Grid.indexTextureSD (Grid.create Sample.env Sample.pictures false false)
     = 0%nat.
Proof.
  assert (Hne : Sample.pictures <> []) by discriminate.
  split; [exact Hne|].
  exact (proj1 (proj2 (proj2 (proj2 (proj2 (proj2 (proj2
          (construction_requests Sample.env Sample.pictures false false
             Hne)))))))).
Defined.

(** ** The intro starts when the last SD image has loaded *)

Section LoadingPhase.

Import Props Terms.

Lemma removeNth_spec {A} (l : list A) :
  forall (k : nat) (x : A),
    nth_error l k = Some x ->
    Permutation l (x :: Grid.removeNth k l)
    /\ List.length (Grid.removeNth k l) = Nat.pred (List.length l)
    /\ (forall P : A -> Prop, Forall P l -> Forall P (Grid.removeNth k l)).
Proof.
  induction l as [|a rest IH]; intros k x H.
  - destruct k; discriminate.
  - destruct k as [|k]; simpl in H.
    + injection H as <-. simpl. split; [apply Permutation_refl|].
      split; [reflexivity|]. intros P F. inversion F. assumption.
    + destruct (IH k x H) as (Pm & L & F). simpl.
      split; [|split].
      * eapply perm_trans; [apply perm_skip; exact Pm | apply perm_swap].
      * rewrite L. destruct rest; [destruct k; discriminate | reflexivity].
      * intros P Fa. inversion Fa. constructor; auto.
Qed.

Lemma sources_unloaded_incl (texs : list Texture.t) (s : string) :
  In s (sources (unloaded texs)) -> In s (sources texs).
Proof.
  unfold sources, unloaded. rewrite !in_map_iff.
  intros (tex & E & H). apply filter_In in H. exists tex. tauto.
Qed.

(** [updateTexture] reaches the texture object of the source, which is
    not loaded yet, and no other. *)
Lemma updateBySource_loading (src : string) (imgW imgH : Q)
    (texs : list Texture.t) (w : World) :
  NoDup (sources texs) ->
  In src (sources (unloaded texs)) ->
  let r := Grid.updateBySource src imgW imgH texs w in
  sources (fst r) = sources texs
  /\ Permutation (sources (unloaded texs)) (src :: sources (unloaded (fst r)))
  /\ requests (snd r) = requests w
  /\ filter Grid.isTimeline (trace (snd r)) = filter Grid.isTimeline (trace w).
Proof.
  induction texs as [|tex rest IH]; intros Nd Hin; [destruct Hin|].
  simpl in Nd. inversion Nd as [|s l Hnot Nd']. subst.
  cbn [Grid.updateBySource]. unfold Grid.sourceIs.
  destruct (String.eqb (Texture.source tex) src) eqn:E.
  - apply String.eqb_eq in E.
    assert (U : Texture.isLoaded tex = false).
    { destruct (Texture.isLoaded tex) eqn:L; [|reflexivity].
      exfalso. apply Hnot. rewrite E.
      apply sources_unloaded_incl. unfold unloaded in *. cbn [filter] in Hin.
      rewrite L in Hin. exact Hin. }
    cbn. unfold unloaded. cbn [filter]. rewrite U. cbn.
    split; [reflexivity|]. split; [rewrite E; apply Permutation_refl|].
    split; [reflexivity|].
    rewrite filter_app. cbn. apply app_nil_r.
  - apply String.eqb_neq in E.
    assert (Hin' : In src (sources (unloaded rest))).
    { unfold unloaded in *. cbn [filter] in Hin.
      destruct (negb (Texture.isLoaded tex)); [|exact Hin].
      destruct Hin as [Hh | Ht]; [contradiction | exact Ht]. }
    specialize (IH Nd' Hin'). cbv zeta in IH.
    destruct (Grid.updateBySource src imgW imgH rest w) as [rest' w'].
    cbn [fst snd] in *. destruct IH as (S & Pm & R & T).
    split; [cbn; f_equal; exact S|].
    split; [|split; assumption].
    unfold unloaded in *. cbn [filter].
    destruct (negb (Texture.isLoaded tex)); [|exact Pm].
    cbn. eapply perm_trans; [apply perm_skip; exact Pm | apply perm_swap].
Qed.

Lemma fadeInFrom_loading (texs : list Texture.t) :
  forall (i : nat) (g : Grid.t),
    let g' := Grid.fadeInFrom i texs g in
    Grid.textures g' = Grid.textures g
    /\ requests (Grid.world g') = requests (Grid.world g)
    /\ progress g' = progress g
    /\ filter Grid.isTimeline (trace (Grid.world g'))
       = filter Grid.isTimeline (trace (Grid.world g)).
Proof.
  induction texs as [|tex rest IH]; intros i g; simpl.
  - repeat split.
  - destruct (IH (S i) (Grid.fadeTextureIn i tex g)) as (T & R & P & F).
    rewrite T, R, P, F. repeat split.
    unfold Grid.fadeTextureIn, freshAnim. cbn.
    rewrite filter_app. cbn. apply app_nil_r.
Qed.

Lemma introSequence_loading (g : Grid.t) :
  Grid.isIntroShown g = false ->
  let g' := Grid.introSequence g in
  Grid.textures g' = Grid.textures g
  /\ requests (Grid.world g') = requests (Grid.world g)
  /\ progress g' = progress g
  /\ Grid.introsStarted g' = S (Grid.introsStarted g).
Proof.
  intros Sh. unfold Grid.introSequence. rewrite Sh.
  destruct (fadeInFrom_loading (Grid.textures g) 0 g) as (T & R & P & F).
  fold (Grid.fadeInAllTextures g) in T, R, P, F.
  set (g1 := Grid.fadeInAllTextures g) in *. clearbody g1.
  unfold Grid.introsStarted. rewrite <- T, <- R, <- P, <- F.
  split; [reflexivity|]. split; [reflexivity|]. split; [reflexivity|].
  unfold freshAnim. cbn. rewrite filter_app, length_app. cbn.
  rewrite Nat.add_1_r. reflexivity.
Qed.

Lemma startIntroSequence_loading (g : Grid.t) :
  Grid.isIntroShown g = false ->
  Grid.introsStarted (Grid.startIntroSequence g)
  = (if Grid.texturesLoaded g then S (Grid.introsStarted g)
     else Grid.introsStarted g).
Proof.
  intros Sh. unfold Grid.startIntroSequence. rewrite Sh.
  destruct (Grid.texturesLoaded g); [|reflexivity].
  apply introSequence_loading, Sh.
Qed.

Lemma onTextureSDLoaded_loading (g : Grid.t) :
  Grid.isIntroShown g = false ->
  let g' := Grid.onTextureSDLoaded g in
  let last :=
    Nat.eqb (S (Grid.indexTextureSD g)) (List.length (Grid.textures g)) in
  Grid.textures g' = Grid.textures g
  /\ requests (Grid.world g') = requests (Grid.world g)
  /\ Grid.indexTextureSD g' = S (Grid.indexTextureSD g)
  /\ Grid.isIntroShown g' = false
  /\ Grid.delayIntroAnimation g' = Grid.delayIntroAnimation g
  /\ Grid.texturesLoaded g' = (if last then true else Grid.texturesLoaded g)
  /\ Grid.introsStarted g'
     = (if last && negb (Grid.delayIntroAnimation g)
        then S (Grid.introsStarted g) else Grid.introsStarted g).
Proof.
  intros Sh. unfold Grid.onTextureSDLoaded. cbv zeta.
  set (g1 := g <| Grid.indexTextureSD ::= S |>).
  assert (F1 : Grid.textures g1 = Grid.textures g
               /\ Grid.world g1 = Grid.world g
               /\ Grid.indexTextureSD g1 = S (Grid.indexTextureSD g)
               /\ Grid.isIntroShown g1 = Grid.isIntroShown g
               /\ Grid.delayIntroAnimation g1 = Grid.delayIntroAnimation g
               /\ Grid.texturesLoaded g1 = Grid.texturesLoaded g)
    by (repeat split).
  clearbody g1. destruct F1 as (T1 & W1 & X1 & S1 & D1 & L1).
  rewrite X1, T1.
  destruct (Nat.eqb (S (Grid.indexTextureSD g)) (List.length (Grid.textures g))).
  - set (g2 := g1 <| Grid.texturesLoaded := true |>).
    assert (F2 : Grid.textures g2 = Grid.textures g1
                 /\ Grid.world g2 = Grid.world g1
                 /\ Grid.indexTextureSD g2 = Grid.indexTextureSD g1
                 /\ Grid.isIntroShown g2 = Grid.isIntroShown g1
                 /\ Grid.delayIntroAnimation g2 = Grid.delayIntroAnimation g1
                 /\ Grid.texturesLoaded g2 = true)
      by (repeat split).
    clearbody g2. destruct F2 as (T2 & W2 & X2 & S2 & D2 & L2).
    rewrite D2, D1.
    destruct (Grid.delayIntroAnimation g); cbn [negb andb].
    + unfold Grid.introsStarted. rewrite W2, W1.
      repeat split; congruence.
    + destruct (introSequence_loading g2 ltac:(congruence)) as (T & R & P & I).
      unfold progress in P. unfold Grid.introsStarted in *.
      rewrite I, T, R, W2, W1.
      repeat split; congruence.
  - cbn [andb]. unfold Grid.introsStarted. rewrite W1.
    repeat split; congruence.
Qed.

(** One pending SD image decodes. *)
Lemma imageLoaded_waiting (k : nat) (imgW imgH : Q) (g : Grid.t) :
  waiting g ->
  (k < List.length (requests (Grid.world g)))%nat ->
  let g' := Grid.imageLoaded k imgW imgH g in
  waiting g'
  /\ Grid.indexTextureSD g' = S (Grid.indexTextureSD g)
  /\ List.length (requests (Grid.world g'))
     = Nat.pred (List.length (requests (Grid.world g)))
  /\ List.length (Grid.textures g') = List.length (Grid.textures g)
  /\ Grid.delayIntroAnimation g' = Grid.delayIntroAnimation g.
Proof.
  intros (Nd & Cb & Pm & Cnt & Sh & Ld & St) Hk.
  unfold Grid.imageLoaded, JS.index.
  destruct (nth_error (requests (Grid.world g)) k) as [[src cb]|] eqn:En;
    [|apply nth_error_None in En; lia].
  assert (Ecb : cb = CallSDLoaded).
  { rewrite Forall_forall in Cb.
    exact (Cb _ (nth_error_In _ _ En)). }
  subst cb. cbv zeta.
  destruct (removeNth_spec _ _ _ En) as (Pr & Lr & Fr).
  assert (Hsrc : In src (sources (unloaded (Grid.textures g)))).
  { eapply Permutation_in; [exact Pm|].
    apply in_map_iff. exists (src, CallSDLoaded).
    split; [reflexivity | exact (nth_error_In _ _ En)]. }
  set (g1 := g <| Grid.world -> requests ::= Grid.removeNth k |>).
  assert (F1 : Grid.textures g1 = Grid.textures g
               /\ requests (Grid.world g1)
                  = Grid.removeNth k (requests (Grid.world g))
               /\ trace (Grid.world g1) = trace (Grid.world g)
               /\ Grid.indexTextureSD g1 = Grid.indexTextureSD g
               /\ Grid.isIntroShown g1 = Grid.isIntroShown g
               /\ Grid.delayIntroAnimation g1 = Grid.delayIntroAnimation g
               /\ Grid.texturesLoaded g1 = Grid.texturesLoaded g)
    by (repeat split).
  clearbody g1. destruct F1 as (T1 & R1 & W1 & X1 & S1 & D1 & L1).
  rewrite T1.
  destruct (updateBySource_loading src imgW imgH (Grid.textures g)
              (Grid.world g1) Nd Hsrc) as (Us & Up & Ur & Ut).
  destruct (Grid.updateBySource src imgW imgH (Grid.textures g) (Grid.world g1))
    as [texs w']. cbn [fst snd] in Us, Up, Ur, Ut.
  set (g2 := g1 <| Grid.textures := texs |> <| Grid.world := w' |>).
  assert (F2 : Grid.textures g2 = texs
               /\ Grid.world g2 = w'
               /\ Grid.indexTextureSD g2 = Grid.indexTextureSD g1
               /\ Grid.isIntroShown g2 = Grid.isIntroShown g1
               /\ Grid.delayIntroAnimation g2 = Grid.delayIntroAnimation g1
               /\ Grid.texturesLoaded g2 = Grid.texturesLoaded g1)
    by (repeat split).
  clearbody g2. destruct F2 as (T2 & W2 & X2 & S2 & D2 & L2).
  destruct (onTextureSDLoaded_loading g2 ltac:(congruence))
    as (T3 & R3 & X3 & S3 & D3 & L3 & I3).
  set (g3 := Grid.onTextureSDLoaded g2) in *. clearbody g3.
  assert (Len : List.length texs = List.length (Grid.textures g)).
  { unfold sources in Us. rewrite <- (length_map Texture.source texs), Us.
    apply length_map. }
  cbv zeta in L3, I3.
  assert (Tg : Grid.textures g3 = texs) by congruence.
  assert (Rq : requests (Grid.world g3)
               = Grid.removeNth k (requests (Grid.world g)))
    by congruence.
  assert (Ix : Grid.indexTextureSD g3 = S (Grid.indexTextureSD g))
    by congruence.
  assert (Dl : Grid.delayIntroAnimation g3 = Grid.delayIntroAnimation g)
    by congruence.
  assert (Before : Nat.eqb (Grid.indexTextureSD g)
                     (List.length (Grid.textures g)) = false)
    by (apply Nat.eqb_neq; lia).
  rewrite Before in Ld, St. cbn [andb] in St.
  assert (I0 : Grid.introsStarted g2 = 0%nat).
  { unfold Grid.introsStarted. rewrite W2, Ut, W1. exact St. }
  rewrite X2, X1, T2, Len, L2, L1, Ld in L3.
  rewrite X2, X1, T2, Len, D2, D1, I0 in I3.
  split; [|split; [exact Ix|split; [rewrite Rq; exact Lr|split; congruence]]].
  unfold waiting.
  rewrite Tg, Rq, Ix, Len, S3, Dl, L3, I3.
  split; [rewrite Us; exact Nd|].
  split; [apply Fr; exact Cb|].
  split.
  { apply (Permutation_cons_inv (a := src)).
    eapply perm_trans; [|exact Up].
    eapply perm_trans; [|exact Pm].
    apply Permutation_sym.
    exact (Permutation_map fst Pr). }
  split; [rewrite Lr; lia|].
  split; [reflexivity|].
  destruct (Nat.eqb (S (Grid.indexTextureSD g)) (List.length (Grid.textures g)));
    split; reflexivity.
Qed.

(** The pending SD images decode one after the other, in any order. *)
Lemma loads_waiting (ks : list (nat * Q * Q)) :
  forall g : Grid.t,
    waiting g ->
    answering (List.length (requests (Grid.world g))) ks ->
    let g' := Grid.run (loads ks) g in
    waiting g'
    /\ Grid.indexTextureSD g' = (Grid.indexTextureSD g + List.length ks)%nat
    /\ List.length (Grid.textures g') = List.length (Grid.textures g)
    /\ Grid.delayIntroAnimation g' = Grid.delayIntroAnimation g.
Proof.
  induction ks as [|[[k w] h] rest IH]; intros g W A.
  - simpl. rewrite Nat.add_0_r. auto.
  - destruct A as (Hk & A). cbn [fst snd] in Hk.
    destruct (imageLoaded_waiting k w h g W Hk) as (W1 & X1 & R1 & T1 & D1).
    rewrite <- R1 in A.
    destruct (IH _ W1 A) as (W2 & X2 & T2 & D2).
    cbn [loads map Grid.run fold_left Grid.fire fst snd].
    fold (loads rest).
    change (fold_left (fun g0 ev => Grid.fire ev g0) (loads rest)
              (Grid.imageLoaded k w h g))
      with (Grid.run (loads rest) (Grid.imageLoaded k w h g)).
    split; [exact W2|]. cbn [List.length].
    split; [lia|]. split; congruence.
Qed.

(** The renderer after [init()] is waiting for its SD images, of which
    there is at least one. *)
Lemma create_waiting (e : Env) (imgs : list Image) (mobile delay : bool) :
  imgs <> [] ->
  let g := Grid.create e imgs mobile delay in
  waiting g
  /\ Grid.indexTextureSD g = 0%nat
  /\ Grid.delayIntroAnimation g = delay
  /\ List.length (requests (Grid.world g)) = List.length (Grid.textures g)
  /\ (0 < List.length (Grid.textures g))%nat.
Proof.
  intros Hne g.
  destruct (create_loading e imgs mobile delay Hne)
    as (R & (es & E & F & U) & Nd & Ul & I & P & _).
  destruct (create_spec e imgs mobile delay Hne) as (_ & Pm & _).
  destruct (constructor_spec e imgs mobile delay)
    as (_ & _ & _ & _ & _ & _ & W0 & _).
  fold g in R, E, Nd, Ul, I, P, Pm. cbv zeta in W0. rewrite W0 in E.
  clearbody g. change ([] ++ es)%list with es in E.
  unfold progress in P.
  assert (X : Grid.indexTextureSD g = 0%nat /\ Grid.texturesLoaded g = false
              /\ Grid.isIntroShown g = false
              /\ Grid.delayIntroAnimation g = delay)
    by (repeat split; congruence).
  clear P. destruct X as (X1 & X2 & X3 & X4).
  assert (Pos : (0 < List.length (Grid.textures g))%nat).
  { destruct imgs as [|img0 rest0]; [congruence|].
    assert (Hin : In img0 (Grid.images g)).
    { eapply Permutation_in; [apply Permutation_sym; exact Pm|]. left.
      reflexivity. }
    apply I in Hin. unfold sources in Hin.
    destruct (Grid.textures g); [destruct Hin | simpl; lia]. }
  assert (Lr : List.length (requests (Grid.world g))
               = List.length (Grid.textures g))
    by (rewrite R; apply length_map).
  assert (Ne : Nat.eqb 0 (List.length (Grid.textures g)) = false)
    by (apply Nat.eqb_neq; lia).
  split; [|auto].
  unfold waiting. rewrite X1, X2, X3, Ne. cbn [andb].
  apply Forall_app in Ul. destruct Ul as (Ul & _).
  split; [apply NoDup_app_remove_r in Nd; exact Nd|].
  split; [rewrite R; apply Forall_forall; intros r Hr;
          apply in_map_iff in Hr; destruct Hr as (tex & <- & _); reflexivity|].
  split.
  { rewrite R, map_map. unfold requestOf. cbn [fst].
    replace (unloaded (Grid.textures g)) with (Grid.textures g);
      [apply Permutation_refl|].
    unfold unloaded. clear - Ul.
    induction Ul as [|tex l U _ IH]; [reflexivity|].
    cbn [filter]. rewrite U. cbn [negb]. f_equal. exact IH. }
  split; [lia|]. split; [reflexivity|]. split; [reflexivity|].
  unfold Grid.introsStarted. rewrite E, (filter_building es F). reflexivity.
Qed.

Lemma waiting_all_loaded (g : Grid.t) :
  waiting g ->
  Grid.indexTextureSD g = List.length (Grid.textures g) ->
  requests (Grid.world g) = []
  /\ Forall (fun tex => Texture.isLoaded tex = true) (Grid.textures g).
Proof.
  intros (_ & _ & Pm & Cnt & _) E.
  assert (R : requests (Grid.world g) = []).
  { destruct (requests (Grid.world g)); [reflexivity | simpl in Cnt; lia]. }
  split; [exact R|]. rewrite R in Pm. simpl in Pm.
  apply Permutation_nil in Pm. unfold sources, unloaded in Pm.
  apply map_eq_nil in Pm.
  apply Forall_forall. intros tex Hin.
  destruct (Texture.isLoaded tex) eqn:L; [reflexivity|].
  assert (H : In tex (filter (fun t => negb (Texture.isLoaded t))
                        (Grid.textures g))).
  { apply filter_In. split; [exact Hin | rewrite L; reflexivity]. }
  rewrite Pm in H. destruct H.
Qed.

End LoadingPhase.

(** X22.  The intro starts when the last SD image has loaded.  After
    [init()] on a non-empty list of images, let the pending SD images
    decode one after the other, in any order (each event addresses one of
    those still pending).  Then [indexTextureSD] counts the decoded
    images and the others are still pending; [texturesLoaded] is set
    exactly when all have decoded, and then every SD texture object is
    loaded and nothing is pending; an intro timeline has been started
    exactly when all have decoded and the intro is not delayed, and it is
    the only one; and a call of [startIntroSequence()] does nothing
    before all have decoded, and starts a timeline afterwards. *)
Theorem intro_after_last_image (e : Env) (originalImages : list Image)
    (mobile delayIntro : bool) (ks : list (nat * Q * Q)) :
  originalImages <> [] ->
  Terms.answering
    (List.length
       (Grid.textures (Grid.create e originalImages mobile delayIntro))) ks ->
  let g0 := Grid.create e originalImages mobile delayIntro in
  let g := Grid.run (Terms.loads ks) g0 in
  let all := Nat.eqb (List.length ks) (List.length (Grid.textures g0)) in
  Grid.indexTextureSD g = List.length ks
  /\ List.length (requests (Grid.world g))
     = (List.length (Grid.textures g0) - List.length ks)%nat
  /\ Grid.texturesLoaded g = all
  /\ (all = true ->
      Forall (fun tex => Texture.isLoaded tex = true) (Grid.textures g))
  /\ Grid.introsStarted g = (if all && negb delayIntro then 1 else 0)%nat
  /\ Grid.introsStarted (Grid.fire Grid.StartIntro g)
     = (if all then S (Grid.introsStarted g) else 0)%nat.
Proof.
  intros Hne A g0 g all.
  destruct (create_waiting e originalImages mobile delayIntro Hne)
    as (W0 & X0 & D0 & R0 & Pos).
  fold g0 in A, W0, X0, D0, R0, Pos. subst g all. clearbody g0.
  rewrite <- R0 in A.
  destruct (loads_waiting ks g0 W0 A) as (W & X & T & D).
  set (g := Grid.run (Terms.loads ks) g0) in *. clearbody g.
  rewrite X0 in X. simpl in X. rewrite <- T, <- X.
  pose proof W as (_ & _ & _ & Cnt & Sh & Ld & St).
  split; [reflexivity|]. split; [lia|]. split; [exact Ld|].
  split.
  { intros E. apply Nat.eqb_eq in E. apply (waiting_all_loaded g W E). }
  split; [rewrite St, D, D0; reflexivity|].
  cbn [Grid.fire]. rewrite (startIntroSequence_loading g Sh), Ld.
  destruct (Nat.eqb (Grid.indexTextureSD g) (List.length (Grid.textures g)));
    [reflexivity|].
  rewrite St. reflexivity.
Qed.

Lemma intro_after_last_image_witness :
  Sample.pictures <> []
  /\ Terms.answering
       (List.length
          (Grid.textures (Grid.create Sample.env Sample.pictures false false)))
       [(0%nat, 800, 1200)]
  /\ Grid.indexTextureSD
       (Grid.run (Terms.loads [(0%nat, 800, 1200)])
          (Grid.create Sample.env Sample.pictures false false))
     = List.length [(0%nat, 800, 1200)].
Proof.
  assert (Hne : Sample.pictures <> []) by discriminate.
  assert (A : Terms.answering
                (List.length
                   (Grid.textures
                      (Grid.create Sample.env Sample.pictures false false)))
                [(0%nat, 800, 1200)]).
  { split; [|exact I].
    exact (proj2 (proj2 (proj2 (proj2
             (create_waiting Sample.env Sample.pictures false false Hne))))). }
  split; [exact Hne|]. split; [exact A|].
  exact (proj1 (intro_after_last_image Sample.env Sample.pictures false false
                  [(0%nat, 800, 1200)] Hne A)).
Defined.

(** ** The items' placeholder textures *)

Section Owned.

Import Props Terms.

Variable owned : list GL.handle.

Lemma calm_owned (g g' : Grid.t) :
  calm g g' ->
  incl (Grid.deletions g ++ liveHandles g) owned ->
  incl (Grid.deletions g' ++ liveHandles g') owned.
Proof.
  intros C H. destruct (calm_ledger g g' C) as (D & L & _).
  rewrite D, L. exact H.
Qed.

Lemma fireTimer_owned (k : nat) (g : Grid.t) :
  incl (Grid.deletions g ++ liveHandles g) owned ->
  incl (Grid.deletions (Grid.fireTimer k g)
        ++ liveHandles (Grid.fireTimer k g)) owned.
Proof.
  intros H. unfold Grid.fireTimer.
  destruct (JS.index _ k) as [tm|]; [|exact H].
  cbv zeta.
  set (g1 := g <| Grid.timers ::= Grid.removeNth k |>).
  assert (C1 : calm g g1) by (apply calm_same; reflexivity).
  pose proof (calm_owned g g1 C1 H) as H1.
  clearbody g1. destruct tm.
  - destruct (teardown_deletions g1) as (D & L & _).
    rewrite D, L, app_nil_r. exact H1.
  - refine (calm_owned g1 _ _ H1).
    eapply calm_emit; try reflexivity. repeat constructor.
Qed.

Lemma fire_owned (ev : Grid.Event) (g : Grid.t) :
  incl (Grid.deletions g ++ liveHandles g) owned ->
  incl (Grid.deletions (Grid.fire ev g) ++ liveHandles (Grid.fire ev g)) owned.
Proof.
  destruct ev; simpl.
  - apply calm_owned, imageLoaded_calm.
  - apply calm_owned, animationUpdate_calm.
  - apply calm_owned, animationComplete_calm.
  - apply calm_owned, render_calm.
  - apply calm_owned, setWindow_calm.
  - apply calm_owned, zoom_calm.
  - apply calm_owned, startIntroSequence_calm.
  - apply calm_owned, destroy_calm.
  - apply fireTimer_owned.
Qed.

Lemma run_owned (evs : list Grid.Event) :
  forall g : Grid.t,
    incl (Grid.deletions g ++ liveHandles g) owned ->
    incl (Grid.deletions (Grid.run evs g) ++ liveHandles (Grid.run evs g))
      owned.
Proof.
  induction evs as [|ev rest IH]; intros g H; simpl.
  - exact H.
  - apply (IH (Grid.fire ev g)), fire_owned, H.
Qed.

End Owned.

Lemma building_not_deleted (es : list Effect) :
  Forall Terms.building es -> flat_map Grid.deleted es = [].
Proof.
  induction 1 as [|e es He _ IH]; [reflexivity|].
  simpl. rewrite IH. destruct e; simpl in *; try reflexivity; contradiction.
Qed.

(** X23.  The items' placeholder textures are never deleted.  For a
    non-empty list of images, once [init()] is over every item holds a
    texture of its own ([textureHDInfo], made by [createEmptyTexture()]):
    there are columns x rows of them, pairwise distinct, each created on
    the WebGL context and none of them among the objects the renderer
    keeps in [textures], [texturesHD], the buffers and the program.
    Whatever events follow ([destroy()] and its timers among them), only
    objects of that second kind are ever deleted, so no item's
    placeholder texture is ever passed to [deleteTexture]. *)
Theorem item_textures_never_deleted (e : Env) (originalImages : list Image)
    (mobile delayIntro : bool) (evs : list Grid.Event) :
  originalImages <> [] ->
  let g := Grid.create e originalImages mobile delayIntro in
  List.length (Terms.itemTextures g)
  = (Grid.COLUMN_ITEM_LENGTH g * Grid.ROW_ITEM_LENGTH g)%nat
  /\ NoDup (Terms.itemTextures g)
  /\ Forall (fun h =>
               In (GlCreateTexture h) (trace (Grid.world g))
               /\ ~ In h (Props.liveHandles g)
               /\ ~ In h (Grid.deletions (Grid.run evs g)))
       (Terms.itemTextures g)
  /\ incl (Grid.deletions (Grid.run evs g)) (Props.liveHandles g).
Proof.
  intros Hne g.
  destruct (create_loading e originalImages mobile delayIntro Hne)
    as (_ & (es & E & F & _) & _ & _ & _ & _ & _ & _ & _ & lo & It & Lo & Cr).
  destruct (constructor_spec e originalImages mobile delayIntro)
    as (_ & _ & _ & _ & _ & _ & W0 & _).
  fold g in E, It, Lo, Cr. cbv zeta in W0. rewrite W0 in E.
  clearbody g. change ([] ++ es)%list with es in E.
  assert (D0 : Grid.deletions g = []).
  { unfold Grid.deletions. rewrite E. apply building_not_deleted, F. }
  assert (Own : incl (Grid.deletions (Grid.run evs g)) (Props.liveHandles g)).
  { intros h Hh.
    apply (run_owned (Props.liveHandles g) evs g).
    - rewrite D0. apply incl_refl.
    - apply in_or_app. left. exact Hh. }
  assert (Out : forall h, In h (Terms.itemTextures g) ->
                          ~ In h (Props.liveHandles g)).
  { intros h Hh Hl. rewrite It in Hh. apply in_seq in Hh.
    rewrite Forall_forall in Lo. apply Lo in Hl. lia. }
  split; [rewrite It; apply length_seq|].
  split; [rewrite It; apply seq_NoDup|].
  split; [|exact Own].
  rewrite Forall_forall in Cr. apply Forall_forall. intros h Hh.
  split; [apply Cr, Hh|]. split; [apply Out, Hh|].
  intros Hd. exact (Out h Hh (Own h Hd)).
Qed.

Lemma item_textures_never_deleted_witness :
  Sample.pictures <> []
  /\ NoDup (Terms.itemTextures
              (Grid.create Sample.env Sample.pictures false false)).
Proof.
  assert (Hne : Sample.pictures <> []) by discriminate.
  split; [exact Hne|].
  exact (proj1 (proj2
          (item_textures_never_deleted Sample.env Sample.pictures false false
             [Grid.Destroy; Grid.Timeout 0] Hne))).
Defined.

(** ** The placeholder is never shown *)

Section Veil.

Import Props Terms.

Lemma stage_fields (a b : Grid.t) :
  stage a = stage b ->
  Grid.textures a = Grid.textures b
  /\ Grid.texturesHD a = Grid.texturesHD b
  /\ pendingSD a = pendingSD b
  /\ Grid.indexTextureSD a = Grid.indexTextureSD b
  /\ Grid.texturesLoaded a = Grid.texturesLoaded b.
Proof. unfold stage. intros H. repeat split; congruence. Qed.

Lemma stageA_fields (a b : Grid.t) :
  stageA a = stageA b ->
  stage a = stage b /\ Grid.animations a = Grid.animations b.
Proof. unfold stageA. intros H. split; congruence. Qed.

(** A step that leaves the stage as it is, and starts no fade while an
    SD image is missing, keeps the textures veiled. *)
Lemma veiled_next (g g' : Grid.t) :
  veiled g ->
  stage g' = stage g ->
  (Grid.texturesLoaded g = false -> fading g = false -> fading g' = false) ->
  veiled g'.
Proof.
  intros V S F. apply stage_fields in S. destruct S as (T & H & P & I & L).
  destruct V as [(Te & He) | (Nd & Hk & Pm & Cnt & Ld & B)].
  - left. split; congruence.
  - right. rewrite T, H, P, I, L.
    repeat (split; [assumption|]).
    intros Lf. destruct (B Lf) as (Fg & Op). split; [exact (F Lf Fg) | exact Op].
Qed.

Lemma veiled_same (g g' : Grid.t) :
  veiled g -> stageA g' = stageA g -> veiled g'.
Proof.
  intros V S. apply stageA_fields in S. destruct S as (S & A).
  apply (veiled_next g g' V S). intros _ Fg. unfold fading in *. congruence.
Qed.

Lemma veiled_hd (g : Grid.t) : veiled g -> Forall hdKind (Grid.texturesHD g).
Proof.
  intros [(_ & He) | (_ & Hk & _)]; [rewrite He; constructor | exact Hk].
Qed.

(** *** Animations that are no fades *)

Lemma lookupAnim_fading (id i : nat) (from : Q) (l : list (nat * Animation)) :
  Grid.lookupAnim id l = Some (TextureFade i from) -> existsb isFade l = true.
Proof.
  induction l as [|[k a] rest IH]; simpl; [discriminate|].
  destruct (Nat.eqb k id).
  - intros [= ->]. reflexivity.
  - intros H. rewrite (IH H). apply orb_true_r.
Qed.

Lemma replaceAnim_fading (id : nat) (a : Animation) (l : list (nat * Animation)) :
  (forall k, isFade (k, a) = false) ->
  existsb isFade l = false ->
  existsb isFade (Grid.replaceAnim id a l) = false.
Proof.
  intros Ha. induction l as [|[k b] rest IH]; simpl; [reflexivity|].
  intros H. apply orb_false_iff in H. destruct H as (Hb & Hr).
  destruct (Nat.eqb k id); simpl.
  - rewrite Ha, Hr. reflexivity.
  - rewrite Hb, (IH Hr). reflexivity.
Qed.

Lemma removeAnim_fading (id : nat) (l : list (nat * Animation)) :
  existsb isFade l = false ->
  existsb isFade (Grid.removeAnim id l) = false.
Proof.
  unfold Grid.removeAnim. induction l as [|e rest IH]; simpl; [reflexivity|].
  intros H. apply orb_false_iff in H. destruct H as (He & Hr).
  destruct (negb (Nat.eqb (fst e) id)); simpl; [rewrite He|]; auto.
Qed.

Lemma snoc_fading (e : nat * Animation) (l : list (nat * Animation)) :
  isFade e = false -> existsb isFade (l ++ [e]) = existsb isFade l.
Proof.
  intros H. rewrite existsb_app. simpl. rewrite H. simpl. apply orb_false_r.
Qed.

(** *** Steps that leave the stage as it is *)

Lemma sameControl_stageA (g g' : Grid.t) :
  sameControl g g' -> stageA g' = stageA g.
Proof.
  unfold sameControl, stageA, stage, pendingSD. intros H.
  repeat match goal with H : _ /\ _ |- _ => destruct H end.
  congruence.
Qed.

Lemma applyZoom_stageA (z : Q) (g : Grid.t) :
  stageA (settle (Grid.applyZoom z g)) = stageA g.
Proof.
  destruct (applyZoom_frame z g) as (g' & [E | E] & (_ & C & _) & _);
    rewrite E; simpl; apply sameControl_stageA, C.
Qed.

Lemma zoom_stage (a : string) (g : Grid.t) :
  stage (Grid.zoom a g) = stage g /\ fading (Grid.zoom a g) = fading g.
Proof.
  unfold Grid.zoom. destruct (negb (Grid.isIntroShown g)); [split; reflexivity|].
  split; [reflexivity|].
  unfold fading, freshAnim.
  match goal with
  | |- existsb isFade (Grid.animations (Grid.register ?id ?a ?x)) = _ =>
      change (Grid.animations (Grid.register id a x))
        with (Grid.animations g ++ [(id, a)])%list
  end.
  apply snoc_fading. reflexivity.
Qed.

Lemma fadeInFrom_stage (texs : list Texture.t) :
  forall (i : nat) (g : Grid.t), stage (Grid.fadeInFrom i texs g) = stage g.
Proof.
  induction texs as [|tex rest IH]; intros i g; simpl.
  - reflexivity.
  - rewrite IH. reflexivity.
Qed.

Lemma introSequence_stage (g : Grid.t) : stage (Grid.introSequence g) = stage g.
Proof.
  unfold Grid.introSequence. destruct (Grid.isIntroShown g); [reflexivity|].
  transitivity (stage (Grid.fadeInAllTextures g)); [reflexivity|].
  apply fadeInFrom_stage.
Qed.

Lemma startIntroSequence_stage (g : Grid.t) :
  stage (Grid.startIntroSequence g) = stage g
  /\ (Grid.texturesLoaded g = false -> Grid.startIntroSequence g = g).
Proof.
  unfold Grid.startIntroSequence. split.
  - destruct (Grid.isIntroShown g); [reflexivity|].
    destruct (negb (Grid.texturesLoaded g)); [reflexivity|].
    apply introSequence_stage.
  - intros ->. destruct (Grid.isIntroShown g); reflexivity.
Qed.

Lemma update_stageA (g : Grid.t) : stageA (Grid.update g) = stageA g.
Proof. unfold Grid.update. cbv zeta. destruct (Grid.isDragging _); reflexivity. Qed.

Lemma drawItem_stageA (item : Tile.t) (g : Grid.t) :
  stageA (settle (snd (Grid.drawItem item g))) = stageA g.
Proof.
  unfold Grid.drawItem. cbv zeta.
  destruct (Tile.isVisible _); [|reflexivity].
  destruct (Tile.texture _); reflexivity.
Qed.

Lemma load_pendingSD (tex : Texture.t) (w : World) :
  Texture.callbackLoaded tex = CallHDLoaded ->
  map fst (filter isSD (requests (Texture.load tex w)))
  = map fst (filter isSD (requests w)).
Proof.
  intros H. unfold Texture.load. destruct (Texture.isInit tex); [reflexivity|].
  destruct w as [nh na tr rq]. cbn.
  rewrite filter_app, map_app. cbn. unfold isSD at 2. cbn. rewrite H. cbn.
  apply app_nil_r.
Qed.

Lemma triggerHD_stageA (item : Tile.t) (g : Grid.t) :
  Forall hdKind (Grid.texturesHD g) ->
  stageA (Grid.triggerHD item g) = stageA g.
Proof.
  intros Hk. unfold Grid.triggerHD.
  destruct (_ && _); [|reflexivity].
  destruct (Tile.textureHD item) as [j|]; [|reflexivity].
  destruct (JS.index _ j) as [tex|] eqn:E; [|reflexivity].
  apply nth_error_In in E. rewrite Forall_forall in Hk.
  destruct (Hk tex E) as (Cb & _).
  unfold stageA, stage. f_equal. f_equal. f_equal. f_equal.
  unfold pendingSD.
  change (Grid.world (g <| Grid.world ::= Texture.load tex |>))
    with (Texture.load tex (Grid.world g)).
  apply load_pendingSD, Cb.
Qed.

Lemma drawLoop_stageA (todo : list Tile.t) :
  forall (done : list Tile.t) (g : Grid.t),
    Forall hdKind (Grid.texturesHD g) ->
    stageA (settle (Grid.drawLoop todo done g)) = stageA g.
Proof.
  induction todo as [|item rest IH]; intros done g Hk; cbn [Grid.drawLoop].
  - reflexivity.
  - destruct (negb _); [|apply IH, Hk].
    pose proof (drawItem_stageA item g) as H.
    destruct (Grid.drawItem item g) as [item' o]. cbn [snd] in H.
    destruct o as [g' | g']; cbn [settle] in H; cbv beta iota zeta.
    + set (g1 := g' <| Grid.drawnPositions ::= cons (Grid.posKey item') |>).
      assert (S1 : stageA g1 = stageA g') by reflexivity.
      assert (H1 : Grid.texturesHD g1 = Grid.texturesHD g).
      { apply stageA_fields in H. destruct H as (H & _).
        apply stage_fields in H. destruct H as (_ & H & _). exact H. }
      clearbody g1.
      assert (Hk1 : Forall hdKind (Grid.texturesHD g1)) by (rewrite H1; exact Hk).
      pose proof (triggerHD_stageA item' g1 Hk1) as S2.
      assert (Hk2 : Forall hdKind (Grid.texturesHD (Grid.triggerHD item' g1))).
      { apply stageA_fields in S2. destruct S2 as (S2 & _).
        apply stage_fields in S2. destruct S2 as (_ & S2 & _).
        rewrite S2. exact Hk1. }
      rewrite (IH _ _ Hk2). congruence.
    + rewrite <- H. reflexivity.
Qed.

Lemma render_stageA (g : Grid.t) :
  Forall hdKind (Grid.texturesHD g) ->
  stageA (settle (Grid.render g)) = stageA g.
Proof.
  intros Hk. unfold Grid.render. destruct (_ || _); [reflexivity|].
  unfold Grid.draw.
  pose proof (update_stageA g) as U.
  set (g1 := Grid.update g) in *. clearbody g1.
  set (g2 := g1 <| Grid.drawnPositions := [] |>).
  assert (S2 : stageA g2 = stageA g1) by reflexivity.
  assert (I2 : Grid.imagesGL g2 = Grid.imagesGL g1) by reflexivity.
  clearbody g2. rewrite <- I2.
  rewrite drawLoop_stageA; [congruence|].
  assert (H2 : Grid.texturesHD g2 = Grid.texturesHD g).
  { assert (S : stageA g2 = stageA g) by congruence.
    apply stageA_fields in S. destruct S as (S & _).
    apply stage_fields in S. destruct S as (_ & S & _). exact S. }
  rewrite H2. exact Hk.
Qed.

Lemma setWindow_stageA (g : Grid.t) :
  Forall hdKind (Grid.texturesHD g) ->
  stageA (settle (Grid.setWindow g)) = stageA g.
Proof.
  intros Hk. unfold Grid.setWindow. cbv zeta.
  match goal with
  | |- context [Grid.render ?x] => set (g2 := x)
  end.
  assert (S2 : stageA g2 = stageA g)
    by (unfold g2; destruct (Grid.getTotalDimensionsItems _); reflexivity).
  assert (H2 : Grid.texturesHD g2 = Grid.texturesHD g)
    by (unfold g2; destruct (Grid.getTotalDimensionsItems _); reflexivity).
  clearbody g2.
  rewrite render_stageA; [exact S2 | rewrite H2; exact Hk].
Qed.

Lemma destroy_stage (g : Grid.t) :
  stage (Grid.destroy g) = stage g
  /\ (fading g = false -> fading (Grid.destroy g) = false).
Proof.
  destruct g. unfold fading.
  destruct isDestroyed; [split; [reflexivity | auto]|].
  destruct resizeObserver, TLIntro; unfold Grid.destroy, Grid.unbindEvents;
    (split; [reflexivity|]); cbn; intros H;
    try exact H; apply removeAnim_fading, H.
Qed.

(** *** Ticks of the animations *)

Lemma modifyAt_setOpacity (v : Q) (i : nat) (texs : list Texture.t) :
  sources (Grid.modifyAt (Grid.setOpacity v) i texs) = sources texs
  /\ sources (unloaded (Grid.modifyAt (Grid.setOpacity v) i texs))
     = sources (unloaded texs)
  /\ List.length (Grid.modifyAt (Grid.setOpacity v) i texs) = List.length texs
  /\ (texs = [] -> Grid.modifyAt (Grid.setOpacity v) i texs = []).
Proof.
  revert i. induction texs as [|tex rest IH]; intros i.
  - destruct i; repeat split.
  - destruct i as [|i]; cbn [Grid.modifyAt].
    + assert (Es : Texture.source (Grid.setOpacity v tex) = Texture.source tex)
        by reflexivity.
      assert (El : Texture.isLoaded (Grid.setOpacity v tex)
                   = Texture.isLoaded tex) by reflexivity.
      set (tex' := Grid.setOpacity v tex) in *. clearbody tex'.
      unfold sources, unloaded. cbn [filter map List.length]. rewrite El, Es.
      split; [reflexivity|]. split; [|split; [reflexivity | discriminate]].
      destruct (negb (Texture.isLoaded tex)); cbn [map]; rewrite ?Es;
        reflexivity.
    + destruct (IH i) as (S & U & L & _). unfold sources, unloaded in *.
      cbn [filter map List.length]. rewrite S, L.
      split; [reflexivity|]. split; [|split; [reflexivity | discriminate]].
      destruct (negb (Texture.isLoaded tex)); cbn [map]; rewrite U;
        reflexivity.
Qed.

(** A fade runs only once every SD image has loaded; it changes
    opacities only. *)
Lemma fade_veiled (v : Q) (i : nat) (g g' : Grid.t) :
  veiled g ->
  fading g = true ->
  Grid.textures g' = Grid.modifyAt (Grid.setOpacity v) i (Grid.textures g) ->
  Grid.texturesHD g' = Grid.texturesHD g ->
  pendingSD g' = pendingSD g ->
  Grid.indexTextureSD g' = Grid.indexTextureSD g ->
  Grid.texturesLoaded g' = Grid.texturesLoaded g ->
  veiled g'.
Proof.
  intros V Fg T H P I L.
  destruct (modifyAt_setOpacity v i (Grid.textures g)) as (Ms & Mu & Ml & Me).
  destruct V as [(Te & He) | (Nd & Hk & Pm & Cnt & Ld & B)].
  - left. split; [rewrite T; apply Me, Te | congruence].
  - right. rewrite T, H, P, I, L, Ms, Mu, Ml.
    repeat (split; [assumption|]).
    intros Lf. destruct (B Lf) as (Ff & _). congruence.
Qed.

Lemma replaced_veiled (g gz : Grid.t) (id : nat) (a : Animation) :
  veiled g -> stageA gz = stageA g ->
  (forall k, isFade (k, a) = false) ->
  veiled (gz <| Grid.animations ::= Grid.replaceAnim id a |>).
Proof.
  intros V S Ha. apply stageA_fields in S. destruct S as (S & A).
  apply (veiled_next g); [exact V | rewrite <- S; reflexivity|].
  intros _ Fg. unfold fading in *.
  change (Grid.animations (gz <| Grid.animations ::= Grid.replaceAnim id a |>))
    with (Grid.replaceAnim id a (Grid.animations gz)).
  rewrite A. apply replaceAnim_fading; assumption.
Qed.

Lemma removed_veiled (g gz : Grid.t) (id : nat) :
  veiled g -> stageA gz = stageA g ->
  veiled (gz <| Grid.animations ::= Grid.removeAnim id |>).
Proof.
  intros V S. apply stageA_fields in S. destruct S as (S & A).
  apply (veiled_next g); [exact V | rewrite <- S; reflexivity|].
  intros _ Fg. unfold fading in *.
  change (Grid.animations (gz <| Grid.animations ::= Grid.removeAnim id |>))
    with (Grid.removeAnim id (Grid.animations gz)).
  rewrite A. apply removeAnim_fading; assumption.
Qed.

Lemma animationUpdate_veiled (id : nat) (p : Q) (g : Grid.t) :
  veiled g -> veiled (settle (Grid.animationUpdate id p g)).
Proof.
  intros V. unfold Grid.animationUpdate.
  destruct (Grid.lookupAnim id _) as [a|] eqn:E; [|exact V].
  destruct a as [called gh gv z gray | from to_ | i from];
    cbn [Grid.renderAnimation].
  - match goal with
    | |- context [Grid.applyZoom ?zz ?x] =>
        set (g0 := x); pose proof (applyZoom_stageA zz g0) as S
    end.
    assert (S0 : stageA g0 = stageA g)
      by (unfold g0; destruct called; reflexivity).
    clearbody g0. rewrite S0 in S.
    destruct (Grid.applyZoom _ g0) as [gz | gz]; cbn [settle] in *;
      apply (replaced_veiled g); auto.
  - pose proof (applyZoom_stageA (Grid.mix from to_ p) g) as S.
    destruct (Grid.applyZoom _ g) as [gz | gz]; cbn [settle] in *;
      apply (replaced_veiled g); auto.
  - cbn [settle].
    pose proof (lookupAnim_fading _ _ _ _ E) as Fg.
    eapply (fade_veiled _ i g); try reflexivity; assumption.
Qed.

Lemma animationComplete_veiled (id : nat) (g : Grid.t) :
  veiled g -> veiled (settle (Grid.animationComplete id g)).
Proof.
  intros V. unfold Grid.animationComplete.
  destruct (Grid.lookupAnim id _) as [a|] eqn:E; [|exact V].
  destruct a as [called gh gv z gray | from to_ | i from];
    cbn [Grid.renderAnimation].
  - match goal with
    | |- context [Grid.applyZoom ?zz ?x] =>
        set (g0 := x); pose proof (applyZoom_stageA zz g0) as S
    end.
    assert (S0 : stageA g0 = stageA g)
      by (unfold g0; destruct called; reflexivity).
    clearbody g0. rewrite S0 in S.
    destruct (Grid.applyZoom _ g0) as [gz | gz]; cbn [settle] in *.
    + pose proof (removed_veiled g gz id V S) as V1.
      refine (veiled_same _ _ V1 _). reflexivity.
    + apply (replaced_veiled g); auto.
  - pose proof (applyZoom_stageA (Grid.mix from to_ 1) g) as S.
    destruct (Grid.applyZoom _ g) as [gz | gz]; cbn [settle] in *.
    + apply (removed_veiled g); auto.
    + apply (replaced_veiled g); auto.
  - cbn [settle].
    pose proof (lookupAnim_fading _ _ _ _ E) as Fg.
    eapply (fade_veiled _ i g); try reflexivity; assumption.
Qed.

(** *** A pending image decodes *)

Lemma removeNth_filter {A} (f : A -> bool) (l : list A) :
  forall (k : nat) (x : A),
    nth_error l k = Some x ->
    (f x = true ->
     Permutation (filter f l) (x :: filter f (Grid.removeNth k l)))
    /\ (f x = false -> filter f (Grid.removeNth k l) = filter f l).
Proof.
  induction l as [|a rest IH]; intros k x H.
  - destruct k; discriminate.
  - destruct k as [|k]; simpl in H.
    + injection H as <-. simpl. split; intros Hf; rewrite Hf.
      * apply Permutation_refl.
      * reflexivity.
    + destruct (IH k x H) as (P & E). simpl. split; intros Hf.
      * destruct (f a).
        -- eapply perm_trans; [apply perm_skip, P, Hf | apply perm_swap].
        -- apply P, Hf.
      * rewrite (E Hf). reflexivity.
Qed.

Lemma updateBySource_shape (src : string) (imgW imgH : Q)
    (texs : list Texture.t) :
  forall w : World,
    let r := Grid.updateBySource src imgW imgH texs w in
    map Texture.opacity (fst r) = map Texture.opacity texs
    /\ map Texture.callbackLoaded (fst r) = map Texture.callbackLoaded texs
    /\ requests (snd r) = requests w.
Proof.
  induction texs as [|tex rest IH]; intros w; cbn [Grid.updateBySource].
  - repeat split.
  - destruct (Grid.sourceIs src tex).
    + repeat split.
    + specialize (IH w). cbv zeta in IH.
      destruct (Grid.updateBySource src imgW imgH rest w) as [rest' w'].
      cbn [fst snd] in *. destruct IH as (A & B & C).
      cbn [map]. rewrite A, B. auto.
Qed.

Lemma same_opacity_zero (l : list Texture.t) :
  forall l' : list Texture.t,
    map Texture.opacity l' = map Texture.opacity l ->
    Forall (fun tex => Texture.opacity tex = 0) l ->
    Forall (fun tex => Texture.opacity tex = 0) l'.
Proof.
  induction l as [|a rest IH]; intros [|b rest'] E F; try discriminate;
    constructor.
  - inversion F. simpl in E. congruence.
  - inversion F. simpl in E. apply IH; [congruence | assumption].
Qed.

Lemma same_hdKind (l : list Texture.t) :
  forall l' : list Texture.t,
    map Texture.opacity l' = map Texture.opacity l ->
    map Texture.callbackLoaded l' = map Texture.callbackLoaded l ->
    Forall hdKind l -> Forall hdKind l'.
Proof.
  unfold hdKind.
  induction l as [|a rest IH]; intros [|b rest'] E1 E2 F; try discriminate;
    constructor.
  - inversion F as [|? ? (Ha & Hb) ?]. simpl in E1, E2. split; congruence.
  - inversion F. simpl in E1, E2. apply IH; [congruence | congruence | assumption].
Qed.

Lemma onTextureSDLoaded_stage (g : Grid.t) :
  let g' := Grid.onTextureSDLoaded g in
  let last :=
    Nat.eqb (S (Grid.indexTextureSD g)) (List.length (Grid.textures g)) in
  Grid.textures g' = Grid.textures g
  /\ Grid.texturesHD g' = Grid.texturesHD g
  /\ pendingSD g' = pendingSD g
  /\ Grid.indexTextureSD g' = S (Grid.indexTextureSD g)
  /\ Grid.texturesLoaded g' = (if last then true else Grid.texturesLoaded g)
  /\ (last = false -> fading g' = fading g).
Proof.
  unfold Grid.onTextureSDLoaded. cbv zeta.
  change (Grid.indexTextureSD (g <| Grid.indexTextureSD ::= S |>))
    with (S (Grid.indexTextureSD g)).
  change (Grid.textures (g <| Grid.indexTextureSD ::= S |>))
    with (Grid.textures g).
  destruct (Nat.eqb (S (Grid.indexTextureSD g)) (List.length (Grid.textures g))).
  - set (g2 := g <| Grid.indexTextureSD ::= S |> <| Grid.texturesLoaded := true |>).
    assert (S2 : stage g2
                 = (Grid.textures g, Grid.texturesHD g, pendingSD g,
                    S (Grid.indexTextureSD g), true)) by reflexivity.
    assert (E : stage (if negb (Grid.delayIntroAnimation g2)
                       then Grid.introSequence g2 else g2) = stage g2)
      by (destruct (negb _); [apply introSequence_stage | reflexivity]).
    rewrite S2 in E. clearbody g2.
    set (g3 := if negb (Grid.delayIntroAnimation g2)
               then Grid.introSequence g2 else g2) in *.
    clearbody g3. unfold stage in E.
    repeat split; congruence.
  - repeat split.
Qed.

Lemma imageLoaded_veiled (k : nat) (imgW imgH : Q) (g : Grid.t) :
  veiled g -> veiled (Grid.imageLoaded k imgW imgH g).
Proof.
  intros V. unfold Grid.imageLoaded, JS.index.
  destruct (nth_error (requests (Grid.world g)) k) as [[src cb]|] eqn:En;
    [|exact V].
  cbv zeta.
  destruct (removeNth_filter isSD _ _ _ En) as (Fsd & Fhd).
  set (g1 := g <| Grid.world -> requests ::= Grid.removeNth k |>).
  assert (F1 : Grid.textures g1 = Grid.textures g
               /\ Grid.texturesHD g1 = Grid.texturesHD g
               /\ requests (Grid.world g1)
                  = Grid.removeNth k (requests (Grid.world g))
               /\ Grid.indexTextureSD g1 = Grid.indexTextureSD g
               /\ Grid.texturesLoaded g1 = Grid.texturesLoaded g
               /\ Grid.animations g1 = Grid.animations g)
    by (repeat split).
  clearbody g1. destruct F1 as (T1 & H1 & R1 & X1 & L1 & A1).
  destruct cb.
  - (* an SD image *)
    rewrite T1.
    destruct (updateBySource_shape src imgW imgH (Grid.textures g) (Grid.world g1))
      as (Uo & _ & Ur).
    destruct V as [(Te & He) | (Nd & Hk & Pm & Cnt & Ld & B)].
    + rewrite Te. cbn [Grid.updateBySource].
      set (g2 := g1 <| Grid.textures := [] |> <| Grid.world := Grid.world g1 |>).
      assert (F2 : Grid.textures g2 = [] /\ Grid.texturesHD g2 = Grid.texturesHD g1)
        by (split; reflexivity).
      clearbody g2. destruct F2 as (T2 & H2).
      destruct (onTextureSDLoaded_stage g2) as (T3 & H3 & _).
      left. split; congruence.
    + assert (Hin : In (src, CallSDLoaded) (filter isSD (requests (Grid.world g)))).
      { apply filter_In. split; [exact (nth_error_In _ _ En) | reflexivity]. }
      assert (Hsrc : In src (sources (unloaded (Grid.textures g)))).
      { eapply Permutation_in; [exact Pm|]. unfold pendingSD.
        apply in_map_iff. exists (src, CallSDLoaded). auto. }
      specialize (Fsd eq_refl).
      destruct (updateBySource_loading src imgW imgH (Grid.textures g)
                  (Grid.world g1) Nd Hsrc) as (Us & Up & _ & _).
      destruct (Grid.updateBySource src imgW imgH (Grid.textures g) (Grid.world g1))
        as [texs w']. cbn [fst snd] in Us, Up, Ur, Uo.
      set (g2 := g1 <| Grid.textures := texs |> <| Grid.world := w' |>).
      assert (F2 : Grid.textures g2 = texs
                   /\ Grid.texturesHD g2 = Grid.texturesHD g1
                   /\ Grid.world g2 = w'
                   /\ Grid.indexTextureSD g2 = Grid.indexTextureSD g1
                   /\ Grid.texturesLoaded g2 = Grid.texturesLoaded g1
                   /\ Grid.animations g2 = Grid.animations g1)
        by (repeat split).
      clearbody g2. destruct F2 as (T2 & H2 & W2 & X2 & L2 & A2).
      destruct (onTextureSDLoaded_stage g2) as (T3 & H3 & P3 & X3 & L3 & F3).
      cbv zeta in L3, F3.
      set (g3 := Grid.onTextureSDLoaded g2) in *. clearbody g3.
      assert (Len : List.length texs = List.length (Grid.textures g)).
      { unfold sources in Us. rewrite <- (length_map Texture.source texs), Us.
        apply length_map. }
      assert (P2 : pendingSD g2
                   = map fst (filter isSD
                                (Grid.removeNth k (requests (Grid.world g))))).
      { unfold pendingSD. rewrite W2, Ur, R1. reflexivity. }
      assert (Pp : Permutation (pendingSD g) (src :: pendingSD g2)).
      { rewrite P2. unfold pendingSD.
        exact (Permutation_map fst Fsd). }
      pose proof (Permutation_length Pp) as Pl. cbn [List.length] in Pl.
      assert (Before : Nat.eqb (Grid.indexTextureSD g)
                         (List.length (Grid.textures g)) = false)
        by (apply Nat.eqb_neq; lia).
      rewrite Before in Ld.
      rewrite X2, X1, T2, Len, L2, L1, Ld in L3.
      rewrite X2, X1, T2, Len in F3.
      right. rewrite T3, T2, H3, H2, H1, P3, X3, X2, X1, Len, L3.
      split; [rewrite Us; exact Nd|].
      split; [exact Hk|].
      split.
      { apply (Permutation_cons_inv (a := src)).
        eapply perm_trans; [|exact Up].
        eapply perm_trans; [|exact Pm].
        apply Permutation_sym. exact Pp. }
      split; [lia|].
      split.
      { destruct (Nat.eqb (S (Grid.indexTextureSD g))
                    (List.length (Grid.textures g))); reflexivity. }
      destruct (Nat.eqb (S (Grid.indexTextureSD g))
                  (List.length (Grid.textures g))); [discriminate|].
      intros _. destruct (B Ld) as (Fg & Op).
      split.
      * rewrite (F3 eq_refl). unfold fading in *. rewrite A2, A1. exact Fg.
      * exact (same_opacity_zero _ _ Uo Op).
  - (* an HD image *)
    rewrite H1.
    destruct (updateBySource_shape src imgW imgH (Grid.texturesHD g) (Grid.world g1))
      as (Uo & Uc & Ur).
    specialize (Fhd eq_refl).
    pose proof (veiled_hd g V) as Hk.
    assert (E0 : Grid.texturesHD g = [] ->
                 fst (Grid.updateBySource src imgW imgH (Grid.texturesHD g)
                        (Grid.world g1)) = [])
      by (intros ->; reflexivity).
    destruct (Grid.updateBySource src imgW imgH (Grid.texturesHD g) (Grid.world g1))
      as [texs w']. cbn [fst snd] in Ur, Uo, Uc, E0.
    set (g2 := g1 <| Grid.texturesHD := texs |> <| Grid.world := w' |>).
    assert (F2 : Grid.textures g2 = Grid.textures g1
                 /\ Grid.texturesHD g2 = texs
                 /\ Grid.world g2 = w'
                 /\ Grid.indexTextureSD g2 = Grid.indexTextureSD g1
                 /\ Grid.texturesLoaded g2 = Grid.texturesLoaded g1
                 /\ Grid.animations g2 = Grid.animations g1)
      by (repeat split).
    clearbody g2. destruct F2 as (T2 & H2 & W2 & X2 & L2 & A2).
    assert (P2 : pendingSD g2 = pendingSD g).
    { unfold pendingSD. rewrite W2, Ur, R1, Fhd. reflexivity. }
    destruct V as [(Te & He) | (Nd & _ & Pm & Cnt & Ld & B)].
    + left. split; [congruence | rewrite H2; apply E0, He].
    + right. rewrite T2, T1, H2, P2, X2, X1, L2, L1.
      split; [exact Nd|].
      split; [exact (same_hdKind _ _ Uo Uc Hk)|].
      repeat (split; [assumption|]).
      intros Lf. destruct (B Lf) as (Fg & Op).
      split; [unfold fading in *; rewrite A2, A1; exact Fg | exact Op].
Qed.

(** *** Every event *)

Lemma fireTimer_veiled (k : nat) (g : Grid.t) :
  veiled g -> veiled (Grid.fireTimer k g).
Proof.
  intros V. unfold Grid.fireTimer.
  destruct (JS.index _ k) as [[|]|]; [| |exact V].
  - left. split; reflexivity.
  - refine (veiled_same _ _ V _). reflexivity.
Qed.

Lemma fire_veiled (ev : Grid.Event) (g : Grid.t) :
  veiled g -> veiled (Grid.fire ev g).
Proof.
  intros V. pose proof (veiled_hd g V) as Hk. destruct ev; simpl.
  - apply imageLoaded_veiled, V.
  - apply animationUpdate_veiled, V.
  - apply animationComplete_veiled, V.
  - exact (veiled_same _ _ V (render_stageA g Hk)).
  - exact (veiled_same _ _ V (setWindow_stageA g Hk)).
  - destruct (zoom_stage action g) as (S & F).
    apply (veiled_next g); [exact V | exact S | congruence].
  - destruct (startIntroSequence_stage g) as (S & Off).
    apply (veiled_next g); [exact V | exact S|].
    intros Lf Fg. rewrite (Off Lf). exact Fg.
  - destruct (destroy_stage g) as (S & F).
    apply (veiled_next g); [exact V | exact S | auto].
  - apply fireTimer_veiled, V.
Qed.

Lemma run_veiled (evs : list Grid.Event) :
  forall g : Grid.t, veiled g -> veiled (Grid.run evs g).
Proof.
  induction evs as [|ev rest IH]; intros g V; simpl.
  - exact V.
  - apply (IH (Grid.fire ev g)), fire_veiled, V.
Qed.

(** What the veil means for each texture object. *)
Lemma veiled_sound (g : Grid.t) :
  veiled g ->
  Forall (fun tex => Texture.opacity tex = 0 \/ Texture.isLoaded tex = true)
    (Grid.textures g)
  /\ Forall (fun tex => Texture.opacity tex = 0) (Grid.texturesHD g).
Proof.
  intros V. split.
  - destruct V as [(Te & _) | (_ & _ & Pm & Cnt & Ld & B)];
      [rewrite Te; constructor|].
    destruct (Grid.texturesLoaded g) eqn:L.
    + symmetry in Ld. apply Nat.eqb_eq in Ld.
      assert (P0 : pendingSD g = []).
      { destruct (pendingSD g); [reflexivity | simpl in Cnt; lia]. }
      rewrite P0 in Pm. apply Permutation_nil in Pm.
      unfold sources, unloaded in Pm. apply map_eq_nil in Pm.
      apply Forall_forall. intros tex Hin. right.
      destruct (Texture.isLoaded tex) eqn:Lt; [reflexivity|].
      assert (H : In tex (filter (fun t => negb (Texture.isLoaded t))
                            (Grid.textures g))).
      { apply filter_In. split; [exact Hin | rewrite Lt; reflexivity]. }
      rewrite Pm in H. destruct H.
    + destruct (B eq_refl) as (_ & Op).
      eapply Forall_impl; [|exact Op]. simpl. auto.
  - eapply Forall_impl; [|exact (veiled_hd g V)]. intros tex (_ & O). exact O.
Qed.

End Veil.

Section Unveiled.

Import Props Terms.

(** The renderer after [init()] has its textures veiled. *)
Lemma create_veiled (e : Env) (imgs : list Image) (mobile delay : bool) :
  imgs <> [] -> veiled (Grid.create e imgs mobile delay).
Proof.
  intros Hne.
  destruct (create_loading e imgs mobile delay Hne)
    as (R & _ & Nd & Ul & _ & P & Op & Hk & An & _).
  destruct (create_waiting e imgs mobile delay Hne) as (_ & _ & _ & _ & Pos).
  set (g := Grid.create e imgs mobile delay) in *. clearbody g.
  unfold progress in P.
  assert (X : Grid.indexTextureSD g = 0%nat /\ Grid.texturesLoaded g = false)
    by (split; congruence).
  clear P. destruct X as (X1 & X2).
  apply Forall_app in Ul. destruct Ul as (Ul & _).
  assert (Pd : pendingSD g = sources (Grid.textures g)).
  { unfold pendingSD. rewrite R. clear. unfold sources.
    induction (Grid.textures g) as [|tex l IH]; [reflexivity|].
    cbn. f_equal. exact IH. }
  assert (Un : unloaded (Grid.textures g) = Grid.textures g).
  { unfold unloaded. clear - Ul.
    induction Ul as [|tex l U _ IH]; [reflexivity|].
    cbn [filter]. rewrite U. cbn [negb]. f_equal. exact IH. }
  assert (Ne : Nat.eqb 0 (List.length (Grid.textures g)) = false)
    by (apply Nat.eqb_neq; lia).
  right. rewrite Pd, Un, X1, X2, Ne.
  split; [apply NoDup_app_remove_r in Nd; exact Nd|].
  split; [exact Hk|]. split; [apply Permutation_refl|].
  split; [unfold sources; rewrite length_map; reflexivity|].
  split; [reflexivity|]. intros _.
  split; [unfold fading; rewrite An; reflexivity | exact Op].
Qed.

(** With both opacities at 0 the shader shows its background, whatever
    the samplers return. *)
Lemma fragColor_veiled (inside : bool) (base hd : Shader.vec3) (gray : Q) :
  Shader.same (Shader.fragColor inside base hd 0 0 gray) Shader.bgColor.
Proof.
  unfold Shader.same, Shader.fragColor.
  destruct inside; cbn [negb]; [|repeat split; reflexivity].
  cbv zeta. unfold Shader.mix3, Shader.mix, Shader.bgColor.
  cbn [Shader.red Shader.green Shader.blue].
  repeat split; ring.
Qed.

End Unveiled.

(** C5.  The placeholder is a constant pixel and is never shown.  For
    every image the 1x1 texture that [createImageTexture] uploads at
    construction is the RGBA pixel (0, 0, 255, 255), whatever the image's
    colour.  After [init()] on a non-empty list of images and whatever
    events follow: an SD texture object whose opacity is not 0 has been
    decoded, and the opacity of every HD texture object is 0; so for an
    item whose SD image has not been decoded the fragment shader outputs
    its constant background #0F0F0F, whatever the two textures contain
    and whatever the grayscale.  No colour of a placeholder can flash
    before decode. *)
Theorem placeholder_never_shown (e : Env) (originalImages : list Image)
    (mobile delayIntro : bool) (evs : list Grid.Event) :
  originalImages <> [] ->
  let g := Grid.run evs (Grid.create e originalImages mobile delayIntro) in
  (forall (src colour : string) (cb : LoadCallback) (now : bool) (w : World),
      exists rest : list Effect,
        trace (snd (Texture.createImageTexture src colour cb now w))
        = (trace w
           ++ GlCreateTexture (nextHandle w)
              :: GlTexImagePixel (nextHandle w) [0; 0; 255; 255]%Z
              :: rest)%list)
  /\ (forall tex : Texture.t,
        In tex (Grid.textures g) ->
        Texture.opacity tex = 0 \/ Texture.isLoaded tex = true)
  /\ (forall tex : Texture.t,
        In tex (Grid.texturesHD g) -> Texture.opacity tex = 0)
  /\ (forall (item : Tile.t) (i : nat) (tex : Texture.t),
        Tile.texture item = Some i ->
        JS.index (Grid.textures g) i = Some tex ->
        Texture.isLoaded tex = false ->
        forall (inside : bool) (baseTexture hdTexture colour : Shader.vec3),
          Shader.shown item g inside baseTexture hdTexture = Some colour ->
          Shader.same colour Shader.bgColor).
Proof.
  intros Hne g.
  pose proof (run_veiled evs _
                (create_veiled e originalImages mobile delayIntro Hne)) as V.
  fold g in V. clearbody g.
  destruct (veiled_sound g V) as (Sd & Hd).
  rewrite Forall_forall in Sd, Hd.
  split.
  { intros src colour cb now w. destruct w as [nh na tr rq].
    destruct now; eexists; cbn; rewrite <- ?app_assoc; reflexivity. }
  split; [exact Sd|]. split; [exact Hd|].
  intros item i tex Ti Ni Lt inside base hdT colour Sh.
  unfold Shader.shown, Shader.opacitySD, Shader.opacityHD in Sh.
  rewrite Ti, Ni in Sh. cbn [option_map] in Sh.
  assert (O : Texture.opacity tex = 0).
  { destruct (Sd tex (nth_error_In _ _ Ni)) as [O | L]; [exact O | congruence]. }
  rewrite O in Sh.
  destruct (Tile.textureHD item) as [j|].
  - destruct (JS.index (Grid.texturesHD g) j) as [texHD|] eqn:Nj;
      cbn [option_map] in Sh; [|discriminate].
    rewrite (Hd texHD (nth_error_In _ _ Nj)) in Sh.
    injection Sh as <-. apply fragColor_veiled.
  - injection Sh as <-. apply fragColor_veiled.
Qed.

Lemma placeholder_never_shown_witness :
  Sample.pictures <> []
  /\ (forall tex : Texture.t,
        In tex
          (Grid.texturesHD
             (Grid.run [Grid.ImageLoaded 0 800 1200; Grid.Frame]
                (Grid.create Sample.env Sample.pictures false false))) ->
        Texture.opacity tex = 0).
Proof.
  assert (Hne : Sample.pictures <> []) by discriminate.
  split; [exact Hne|].
  exact (proj1 (proj2 (proj2
          (placeholder_never_shown Sample.env Sample.pictures false false
             [Grid.ImageLoaded 0 800 1200; Grid.Frame] Hne)))).
Defined.
